(** * MultibodyPlant: contact pipeline, time stepping and lifecycle

    A shallow embedding of
    [multibody/multibody_tree/multibody_plant/multibody_plant.cc].

    The plant is a class template over a scalar [T]; the scalar is taken to
    be the field of real numbers, so that every arithmetic expression of the
    source is read as the exact expression it denotes.  The two functions
    of [StribeckModel] are embedded a second time on doubles, with their
    infinities and NaN ([StribeckDouble]): whether the assertion of [step5]
    can fail is a question that the real numbers cannot pose.  Collaborators that
    the plant only calls (the multibody tree's numerical routines, the
    geometry engine, the implicit Stribeck solver, the systems framework)
    enter as interfaces.  [DRAKE_ASSERT] is modelled as armed, as in a debug
    build: a result [Ok] therefore also holds for a release build. *)

From Stdlib Require Import Reals Lra Lia List String.
From stdpp Require Import base decidable option list gmap strings.
Import ListNotations.

Open Scope R_scope.

(** ** Part I: the embedding *)

(** *** Decidable comparisons on the scalar *)

#[global] Instance Rlt_decision : RelDecision Rlt := Rlt_dec.
#[global] Instance Rle_decision : RelDecision Rle := Rle_dec.
#[global] Instance Rgt_decision : RelDecision Rgt := Rgt_dec.
#[global] Instance Rge_decision : RelDecision Rge := Rge_dec.
#[global] Instance Req_decision : EqDecision R := Req_dec_T.

(** *** Exceptions and the result of a fallible call *)

Inductive exn : Type :=
  | logic_error (what : string)           (* throw std::logic_error(what) *)
  | throw_unless (func cond : string)     (* DRAKE_THROW_UNLESS(cond) in func *)
  | out_of_range (container : string)     (* container.at(key), key absent *)
  | assertion_failed (cond : string)      (* DRAKE_ASSERT / DRAKE_DEMAND / abort *)
  | invalid_access (what : string).       (* unchecked access outside a container,
                                             or through a null pointer *)

Inductive result (A : Type) : Type :=
  | Ok (a : A)
  | Raise (e : exn).
Arguments Ok {A} a.
Arguments Raise {A} e.

#[global] Instance result_ret : MRet result := fun A a => Ok a.
#[global] Instance result_bind : MBind result := fun A B f m =>
  match m with
  | Ok a => f a
  | Raise e => Raise e
  end.

Definition DRAKE_THROW_UNLESS (cond : bool) (func text : string) : result unit :=
  if cond then Ok tt else Raise (throw_unless func text).

Definition DRAKE_DEMAND (cond : bool) (text : string) : result unit :=
  if cond then Ok tt else Raise (assertion_failed text).

Definition DRAKE_ASSERT (cond : Prop) `{Decision cond} (text : string)
  : result unit :=
  if decide cond then Ok tt else Raise (assertion_failed text).

(** [m.at(k)] on a map and [v.at(i)] / [v[i]] on a vector. *)
Definition map_at {V : Type} (m : gmap nat V) (k : nat) (name : string)
  : result V :=
  match m !! k with
  | Some v => Ok v
  | None => Raise (out_of_range name)
  end.

Definition vector_at {V : Type} (l : list V) (i : nat) (name : string)
  : result V :=
  match l !! i with
  | Some v => Ok v
  | None => Raise (out_of_range name)
  end.

Definition vector_index {V : Type} (l : list V) (i : nat) (name : string)
  : result V :=
  match l !! i with
  | Some v => Ok v
  | None => Raise (invalid_access name)
  end.

(** A loop [for (x : xs) out.push_back(f(x))] whose body may throw. *)
Fixpoint for_each {A B : Type} (f : A -> result B) (xs : list A)
  : result (list B) :=
  match xs with
  | [] => Ok []
  | x :: rest =>
      y ← f x;
      ys ← for_each f rest;
      Ok (y :: ys)
  end.

(** *** Eigen: fixed-size and dynamic vectors *)

Record Vector3 : Type := V3 { x_ : R; y_ : R; z_ : R }.

Module Vec3.
Definition Zero : Vector3 := V3 0 0 0.
Definition add (a b : Vector3) : Vector3 :=
  V3 (x_ a + x_ b) (y_ a + y_ b) (z_ a + z_ b).
Definition sub (a b : Vector3) : Vector3 :=
  V3 (x_ a - x_ b) (y_ a - y_ b) (z_ a - z_ b).
Definition neg (a : Vector3) : Vector3 := V3 (- x_ a) (- y_ a) (- z_ a).
Definition scale (s : R) (a : Vector3) : Vector3 :=
  V3 (s * x_ a) (s * y_ a) (s * z_ a).
Definition div (a : Vector3) (s : R) : Vector3 :=
  V3 (x_ a / s) (y_ a / s) (z_ a / s).
Definition dot (a b : Vector3) : R :=
  x_ a * x_ b + y_ a * y_ b + z_ a * z_ b.
Definition cross (a b : Vector3) : Vector3 :=
  V3 (y_ a * z_ b - z_ a * y_ b)
     (z_ a * x_ b - x_ a * z_ b)
     (x_ a * y_ b - y_ a * x_ b).
Definition squaredNorm (a : Vector3) : R := dot a a.
Definition norm (a : Vector3) : R := sqrt (squaredNorm a).
End Vec3.

(** [VectorX<T>]: a dynamic vector.  [MatrixX<T>]: its rows. *)
Abbreviation VectorX := (list R).
Abbreviation MatrixX := (list (list R)).

Module VecX.
Definition Zero (n : nat) : VectorX := replicate n 0.
Definition Constant (n : nat) (c : R) : VectorX := replicate n c.
Definition add (a b : VectorX) : VectorX := zip_with Rplus a b.
Definition sub (a b : VectorX) : VectorX := zip_with Rminus a b.
Definition scale (s : R) (a : VectorX) : VectorX := map (Rmult s) a.
Definition neg (a : VectorX) : VectorX := map Ropp a.
Definition dot (a b : VectorX) : R := foldr Rplus 0 (zip_with Rmult a b).
(** [M * v] *)
Definition mul (M : MatrixX) (v : VectorX) : VectorX :=
  map (fun row => dot row v) M.
(** [x.topRows(n)] and [x.bottomRows(n)] *)
Definition topRows (n : nat) (x : VectorX) : VectorX := take n x.
Definition bottomRows (n : nat) (x : VectorX) : VectorX :=
  drop (length x - n) x.
End VecX.

(** A [3 x nv] matrix, by rows: the geometric Jacobian of a point. *)
Record Matrix3X : Type := M3X { row_x : VectorX; row_y : VectorX; row_z : VectorX }.

Module Mat3X.
Definition sub (A B : Matrix3X) : Matrix3X :=
  M3X (VecX.sub (row_x A) (row_x B))
      (VecX.sub (row_y A) (row_y B))
      (VecX.sub (row_z A) (row_z B)).
(** [J * v], a point velocity *)
Definition mul (J : Matrix3X) (v : VectorX) : Vector3 :=
  V3 (VecX.dot (row_x J) v) (VecX.dot (row_y J) v) (VecX.dot (row_z J) v).
(** [a.transpose() * J], a row of [nv] entries *)
Definition left_mul (a : Vector3) (J : Matrix3X) : VectorX :=
  VecX.add (VecX.add (VecX.scale (x_ a) (row_x J))
                     (VecX.scale (y_ a) (row_y J)))
           (VecX.scale (z_ a) (row_z J)).
Definition rows_have (n : nat) (J : Matrix3X) : Prop :=
  length (row_x J) = n /\ length (row_y J) = n /\ length (row_z J) = n.
End Mat3X.

(** [Matrix3<T>], by columns. *)
Record Matrix3 : Type := M3 { col0 : Vector3; col1 : Vector3; col2 : Vector3 }.

Definition Matrix3_mul (Rm : Matrix3) (v : Vector3) : Vector3 :=
  Vec3.add (Vec3.add (Vec3.scale (x_ v) (col0 Rm)) (Vec3.scale (y_ v) (col1 Rm)))
           (Vec3.scale (z_ v) (col2 Rm)).

(** *** Friction *)

(** [CoulombFriction<double>]: the pair of coefficients of a surface. *)
Record CoulombFriction : Type :=
  { static_friction : R; dynamic_friction : R }.

(** Modelled from the spec: the members of [MultibodyPlant::StribeckModel],
    declared in the plant's header, which is not part of the sources.  The
    model keeps the stiction tolerance and its inverse. *)
Record StribeckModel : Type :=
  { v_stiction_tolerance_ : R; inv_v_stiction_tolerance_ : R }.

Module Stribeck.
(** Modelled from the spec: the model before any tolerance is set; section
    4.8, step 7, and [FinalizePlantOnly] read a negative tolerance as unset. *)
Definition unset : StribeckModel :=
  {| v_stiction_tolerance_ := -1; inv_v_stiction_tolerance_ := -1 |}.

(** Modelled from the spec: [StribeckModel::set_stiction_tolerance], of the
    plant's header; section 4.1 fixes [s = speed / v_stiction], so the stored
    inverse is [1 / v_stiction]. *)
Definition set_stiction_tolerance (v_stiction : R) : StribeckModel :=
  {| v_stiction_tolerance_ := v_stiction;
     inv_v_stiction_tolerance_ := 1 / v_stiction |}.

Definition stiction_tolerance (m : StribeckModel) : R :=
  v_stiction_tolerance_ m.

(** [StribeckModel::step5] *)
Definition step5 (x : R) : result R :=
  _ ← DRAKE_ASSERT (0 <= x /\ x <= 1) "0 <= x && x <= 1";
  let x3 := x * x * x in
  Ok (x3 * (10 + x * (6 * x - 15))).

(** [StribeckModel::ComputeFrictionCoefficient] *)
Definition ComputeFrictionCoefficient (m : StribeckModel) (speed_BcAc : R)
    (friction : CoulombFriction) : result R :=
  _ ← DRAKE_ASSERT (speed_BcAc >= 0) "speed_BcAc >= 0";
  let mu_d := dynamic_friction friction in
  let mu_s := static_friction friction in
  let v := speed_BcAc * inv_v_stiction_tolerance_ m in
  if decide (v >= 3) then
    Ok mu_d
  else if decide (v >= 1) then
    s ← step5 ((v - 1) / 2);
    Ok (mu_s - (mu_s - mu_d) * s)
  else
    s ← step5 v;
    Ok (mu_s * s).
End Stribeck.

(** *** The friction coefficient on doubles

    [StribeckModel] stores the stiction tolerance and its inverse as
    [double], and the plant runs at [T = double].  There a product or a
    quotient too large for the format is an infinity, [0 * inf] is not a
    number, and every comparison with what is not a number is false.
    [Double.t] keeps this part of IEEE-754 binary64: the infinities, NaN
    and the threshold of overflow.  The rounding of a result inside the
    range, to 53 significant bits or, for a result too small, to zero, is
    left out, and so is the sign of zero: a zero is taken to be [+0]. *)
Module Double.
Inductive t : Type :=
  | Finite (x : R)
  | Infinity (negative : bool)
  | NaN.

(** The least magnitude that rounds to an infinity, [2^1024 - 2^970]. *)
Definition overflow_threshold : R := (2 - / 2 ^ 53) * 2 ^ 1023.

Definition round (x : R) : t :=
  if decide (overflow_threshold <= x) then Infinity false
  else if decide (x <= - overflow_threshold) then Infinity true
  else Finite x.

Definition is_negative (x : R) : bool := bool_decide (x < 0).

Definition opp (a : t) : t :=
  match a with
  | Finite x => Finite (- x)
  | Infinity s => Infinity (negb s)
  | NaN => NaN
  end.

Definition add (a b : t) : t :=
  match a, b with
  | Finite x, Finite y => round (x + y)
  | Finite _, Infinity s => Infinity s
  | Infinity s, Finite _ => Infinity s
  | Infinity s, Infinity s' => if bool_decide (s = s') then Infinity s else NaN
  | _, _ => NaN
  end.

Definition sub (a b : t) : t := add a (opp b).

Definition mul (a b : t) : t :=
  match a, b with
  | Finite x, Finite y => round (x * y)
  | Finite x, Infinity s =>
      if decide (x = 0) then NaN else Infinity (xorb (is_negative x) s)
  | Infinity s, Finite y =>
      if decide (y = 0) then NaN else Infinity (xorb s (is_negative y))
  | Infinity s, Infinity s' => Infinity (xorb s s')
  | _, _ => NaN
  end.

Definition div (a b : t) : t :=
  match a, b with
  | Finite x, Finite y =>
      if decide (y = 0) then
        if decide (x = 0) then NaN else Infinity (is_negative x)
      else round (x / y)
  | Finite _, Infinity _ => Finite 0
  | Infinity s, Finite y => Infinity (xorb s (is_negative y))
  | _, _ => NaN
  end.

(** [a <= b] and [a < b]: false when either side is not a number. *)
Definition le (a b : t) : bool :=
  match a, b with
  | Finite x, Finite y => bool_decide (x <= y)
  | Finite _, Infinity s => negb s
  | Infinity s, Finite _ => s
  | Infinity s, Infinity s' => s || negb s'
  | _, _ => false
  end.


Definition ge (a b : t) : bool := le b a.
End Double.

Module StribeckDouble.
Import Double.

(** [CoulombFriction<double>] *)
Record CoulombFriction : Type :=
  { static_friction : Double.t; dynamic_friction : Double.t }.

(** Modelled from the spec: the members of [MultibodyPlant::StribeckModel],
    as in [StribeckModel] above, here as the doubles that they are. *)
Record StribeckModel : Type :=
  { v_stiction_tolerance_ : Double.t; inv_v_stiction_tolerance_ : Double.t }.

(** Modelled from the spec: [StribeckModel::set_stiction_tolerance], as in
    [Stribeck.set_stiction_tolerance]; the inverse is the quotient
    [1.0 / v_stiction] of doubles. *)
Definition set_stiction_tolerance (v_stiction : Double.t) : StribeckModel :=
  {| v_stiction_tolerance_ := v_stiction;
     inv_v_stiction_tolerance_ := div (Finite 1) v_stiction |}.

(** [StribeckModel::step5] *)
Definition step5 (x : Double.t) : result Double.t :=
  _ ← DRAKE_ASSERT (le (Finite 0) x && le x (Finite 1) = true)
        "0 <= x && x <= 1";
  let x3 := mul (mul x x) x in
  Ok (mul x3 (add (Finite 10) (mul x (sub (mul (Finite 6) x) (Finite 15))))).

(** [StribeckModel::ComputeFrictionCoefficient] *)
Definition ComputeFrictionCoefficient (m : StribeckModel)
    (speed_BcAc : Double.t) (friction : CoulombFriction) : result Double.t :=
  _ ← DRAKE_ASSERT (ge speed_BcAc (Finite 0) = true) "speed_BcAc >= 0";
  let mu_d := dynamic_friction friction in
  let mu_s := static_friction friction in
  let v := mul speed_BcAc (inv_v_stiction_tolerance_ m) in
  if ge v (Finite 3) then
    Ok mu_d
  else if ge v (Finite 1) then
    s ← step5 (div (sub v (Finite 1)) (Finite 2));
    Ok (sub mu_s (mul (sub mu_s mu_d) s))
  else
    s ← step5 v;
    Ok (mul mu_s s).
End StribeckDouble.

(** *** Spatial algebra *)

(** [SpatialForce<T>]: a torque and a force applied at a point. *)
Module SpatialForce.
Record t : Type := make { rotational : Vector3; translational : Vector3 }.
Definition Zero : t := make Vec3.Zero Vec3.Zero.
(** Modelled from the spec: [SpatialForce::Shift], of the spatial algebra
    headers, which are not part of the sources (glossary, "spatial force").
    The source names [F_AC_W.Shift(p_CoAo_W)] the force [F_AAo_W]: shifting
    by [p_PQ] gives the same force applied at [Q], so the force is kept and
    the torque becomes [tau - p_PQ x f]. *)
Definition Shift (F : t) (p_BpBq_E : Vector3) : t :=
  make (Vec3.sub (rotational F) (Vec3.cross p_BpBq_E (translational F)))
       (translational F).
Definition neg (F : t) : t :=
  make (Vec3.neg (rotational F)) (Vec3.neg (translational F)).
Definition add (F G : t) : t :=
  make (Vec3.add (rotational F) (rotational G))
       (Vec3.add (translational F) (translational G)).
End SpatialForce.

(** [SpatialVelocity<T>]: an angular and a linear velocity of a point. *)
Module SpatialVelocity.
Record t : Type := make { rotational : Vector3; translational : Vector3 }.
(** Modelled from the spec: [SpatialVelocity::Shift], of the spatial algebra
    headers, which are not part of the sources.  Shifting by [p_PQ] gives the
    velocity of the point [Q] of the same body, [v + w x p_PQ]. *)
Definition Shift (V : t) (p_BpBq_E : Vector3) : t :=
  make (rotational V)
       (Vec3.add (translational V) (Vec3.cross (rotational V) p_BpBq_E)).
End SpatialVelocity.

Record Isometry3 : Type := { linear : Matrix3; translation : Vector3 }.

Definition Isometry3_Identity : Isometry3 :=
  {| linear := M3 (V3 1 0 0) (V3 0 1 0) (V3 0 0 1); translation := Vec3.Zero |}.

(** *** Identifiers *)

Abbreviation BodyIndex := nat.
Abbreviation BodyNodeIndex := nat.
Abbreviation JointIndex := nat.
Abbreviation JointActuatorIndex := nat.
Abbreviation ModelInstanceIndex := nat.
Abbreviation GeometryId := nat.
Abbreviation FrameId := nat.
Abbreviation SourceId := nat.
(** A port index is a [TypeSafeIndex]: default constructed, it is invalid. *)
Abbreviation InputPortIndex := (option nat).
Abbreviation OutputPortIndex := (option nat).

Definition world_index : BodyIndex := 0%nat.

(** *** The multibody tree, as far as the plant reads it *)

Record Body : Type :=
  { body_name : string; get_default_mass : R; node_index : BodyNodeIndex }.

Record Joint : Type :=
  { parent_body : BodyIndex; child_body : BodyIndex; joint_num_dofs : nat }.

Record JointActuator : Type := { actuator_joint : JointIndex }.

Record ModelInstance : Type :=
  { instance_num_positions : nat;
    instance_num_velocities : nat;
    instance_num_actuated_dofs : nat }.

Record MultibodyTree : Type :=
  { topology_is_valid : bool;
    tree_bodies : list Body;
    tree_joints : list Joint;
    tree_actuators : list JointActuator;
    tree_instances : list ModelInstance;
    tree_num_positions : nat;
    tree_num_velocities : nat }.

Record MultibodyForces : Type :=
  { body_forces : list SpatialForce.t; generalized_forces : VectorX }.

(** [pc.get_X_WB(node)] and [vc.get_V_WB(node)], indexed by body node. *)
Abbreviation PositionKinematicsCache := (list Isometry3).
Abbreviation VelocityKinematicsCache := (list SpatialVelocity.t).

(** *** Geometry *)

Record PenetrationAsPointPair : Type :=
  { id_A : GeometryId;
    id_B : GeometryId;
    p_WCa : Vector3;
    p_WCb : Vector3;
    nhat_BA_W : Vector3;
    depth : R }.

Inductive Shape : Type :=
  | Sphere (radius : R)
  | Cylinder (radius length : R)
  | HalfSpace.

Record VisualMaterial : Type := { diffuse : list R }.

Definition VisualMaterial_default : VisualMaterial :=
  {| diffuse := [9 / 10; 7 / 10; 7 / 10; 1] |}.

Record GeometryInstance : Type :=
  { X_PG : Isometry3; instance_shape : Shape;
    instance_material : option VisualMaterial }.

Record GeometryFrame : Type := { frame_name : string; frame_pose : Isometry3 }.

Record GeometrySet : Type :=
  { set_frames : gset FrameId; set_geometries : gset GeometryId }.

Definition GeometrySet_empty : GeometrySet :=
  {| set_frames := ∅; set_geometries := ∅ |}.
Definition GeometrySet_of_frame (f : FrameId) : GeometrySet :=
  {| set_frames := {[ f ]}; set_geometries := ∅ |}.
Definition GeometrySet_Add_frame (f : FrameId) (s : GeometrySet) : GeometrySet :=
  {| set_frames := {[ f ]} ∪ set_frames s; set_geometries := set_geometries s |}.
Definition GeometrySet_Add (ids : list GeometryId) (s : GeometrySet)
  : GeometrySet :=
  {| set_frames := set_frames s;
     set_geometries := list_to_set ids ∪ set_geometries s |}.

(** Modelled from the spec: the geometry engine [SceneGraph], an external
    collaborator.  Section 6 lists the calls the plant makes
    ([RegisterSource], [RegisterFrame], [RegisterGeometry],
    [RegisterAnchoredGeometry], [ExcludeCollisionsWithin],
    [ExcludeCollisionsBetween]); the engine hands out fresh identifiers and
    records what was registered. *)
Record SceneGraph : Type :=
  { sg_next_id : nat;
    sg_sources : list SourceId;
    sg_frames : list (SourceId * FrameId * GeometryFrame);
    sg_geometries : list (SourceId * option FrameId * GeometryId * GeometryInstance);
    sg_excluded_within : list GeometrySet;
    sg_excluded_between : list (GeometrySet * GeometrySet) }.

Definition SceneGraph_new : SceneGraph :=
  {| sg_next_id := 0; sg_sources := []; sg_frames := []; sg_geometries := [];
     sg_excluded_within := []; sg_excluded_between := [] |}.

(** Modelled from the spec: the calls of section 6 on the engine; each
    registration returns the next identifier and records its argument, each
    exclusion records its sets. *)
Module Engine.
Definition RegisterSource (g : SceneGraph) : SourceId * SceneGraph :=
  (sg_next_id g,
   {| sg_next_id := S (sg_next_id g);
      sg_sources := sg_sources g ++ [sg_next_id g];
      sg_frames := sg_frames g; sg_geometries := sg_geometries g;
      sg_excluded_within := sg_excluded_within g;
      sg_excluded_between := sg_excluded_between g |}).
Definition RegisterFrame (src : SourceId) (f : GeometryFrame) (g : SceneGraph)
  : FrameId * SceneGraph :=
  (sg_next_id g,
   {| sg_next_id := S (sg_next_id g);
      sg_sources := sg_sources g;
      sg_frames := sg_frames g ++ [(src, sg_next_id g, f)];
      sg_geometries := sg_geometries g;
      sg_excluded_within := sg_excluded_within g;
      sg_excluded_between := sg_excluded_between g |}).
Definition RegisterGeometry (src : SourceId) (frame : FrameId)
    (geometry : GeometryInstance) (g : SceneGraph) : GeometryId * SceneGraph :=
  (sg_next_id g,
   {| sg_next_id := S (sg_next_id g);
      sg_sources := sg_sources g; sg_frames := sg_frames g;
      sg_geometries :=
        sg_geometries g ++ [(src, Some frame, sg_next_id g, geometry)];
      sg_excluded_within := sg_excluded_within g;
      sg_excluded_between := sg_excluded_between g |}).
Definition RegisterAnchoredGeometry (src : SourceId)
    (geometry : GeometryInstance) (g : SceneGraph) : GeometryId * SceneGraph :=
  (sg_next_id g,
   {| sg_next_id := S (sg_next_id g);
      sg_sources := sg_sources g; sg_frames := sg_frames g;
      sg_geometries := sg_geometries g ++ [(src, None, sg_next_id g, geometry)];
      sg_excluded_within := sg_excluded_within g;
      sg_excluded_between := sg_excluded_between g |}).
Definition ExcludeCollisionsWithin (s : GeometrySet) (g : SceneGraph)
  : SceneGraph :=
  {| sg_next_id := sg_next_id g;
     sg_sources := sg_sources g; sg_frames := sg_frames g;
     sg_geometries := sg_geometries g;
     sg_excluded_within := sg_excluded_within g ++ [s];
     sg_excluded_between := sg_excluded_between g |}.
Definition ExcludeCollisionsBetween (a b : GeometrySet) (g : SceneGraph)
  : SceneGraph :=
  {| sg_next_id := sg_next_id g;
     sg_sources := sg_sources g; sg_frames := sg_frames g;
     sg_geometries := sg_geometries g;
     sg_excluded_within := sg_excluded_within g;
     sg_excluded_between := sg_excluded_between g ++ [(a, b)] |}.
End Engine.

(** A [SceneGraph<T>*]: null, or the address of an engine. *)
Abbreviation SceneGraphPtr := (option nat).

(** *** The systems framework: contexts and ports *)

Inductive InputValue : Type :=
  | VectorInput (u : VectorX)
  | QueryObjectInput (penetrations : list PenetrationAsPointPair).

Record Context : Type :=
  { discrete_state : list VectorX;
    continuous_state_vector : VectorX;
    input_values : gmap nat InputValue }.

Inductive InputPortDescriptor : Type :=
  | VectorInputPort (size : nat)
  | AbstractInputPort.

Inductive OutputCalc : Type :=
  | CopyContinuousStateOut_calc
  | CopyInstanceStateOut_calc (instance : ModelInstanceIndex)
  | CopyGeneralizedContactForcesOut_calc (instance : ModelInstanceIndex)
  | CalcContactResultsOutput_calc
  | CalcFramePoseOutput_calc.

Inductive OutputPort : Type :=
  | VectorOutputPort (size : nat) (calc : OutputCalc)
  | AbstractOutputPort (calc : OutputCalc).

Inductive DeclaredState : Type :=
  | NoState
  | DiscreteState (period : R) (size : nat)
  | ContinuousState (size nq nv nz : nat).

(** Modelled from the spec: [systems::LeafSystem<T>], the plant's base
    class, of the surrounding framework.  It keeps the declared ports, in
    the order of their declaration, and the declared state. *)
Record LeafSystem : Type :=
  { input_ports : list InputPortDescriptor;
    output_ports : list OutputPort;
    declared_state : DeclaredState }.

Definition LeafSystem_new : LeafSystem :=
  {| input_ports := []; output_ports := []; declared_state := NoState |}.

(** *** The implicit Stribeck solver *)

Inductive ComputationInfo : Type :=
  | Success
  | MaxIterationsReached
  | LinearSolverFailure.

Record SolverParameters : Type := { stiction_tolerance : R }.

(** What [SetTwoWayCoupledProblemData] receives. *)
Record ProblemData : Type :=
  { data_M : MatrixX;
    data_Jn : MatrixX;
    data_Jt : MatrixX;
    data_p_star : VectorX;
    data_phi0 : VectorX;
    data_stiffness : VectorX;
    data_damping : VectorX;
    data_mu : VectorX }.

Record SolverSolution : Type :=
  { get_generalized_velocities : VectorX;
    get_normal_forces : VectorX;
    get_friction_forces : VectorX;
    get_tangential_velocities : VectorX;
    get_normal_velocities : VectorX;
    get_generalized_contact_forces : VectorX }.

Record ImplicitStribeckSolver : Type :=
  { solver_nv : nat;
    solver_parameters : SolverParameters;
    solver_data : option ProblemData;
    solver_solution : SolverSolution }.

(** *** Contact results *)

Record PointPairContactInfo : Type :=
  { info_bodyA : BodyIndex;
    info_bodyB : BodyIndex;
    info_f_Bc_W : Vector3;
    info_p_WC : Vector3;
    info_separation_velocity : R;
    info_slip_speed : R;
    info_point_pair : PenetrationAsPointPair }.

Abbreviation ContactResults := (list PointPairContactInfo).

(** *** What the plant calls and does not define

    The numerical routines of the tree, of the math library and of the
    solver.  Each takes what the source passes and returns what the source
    reads back; the acceleration workspace of [CalcInverseDynamics], which
    the plant never reads, is left out. *)
Class Collaborators : Type :=
  { make_MultibodyTree : MultibodyTree;
    CalcPositionKinematicsCache :
      MultibodyTree -> Context -> PositionKinematicsCache;
    CalcVelocityKinematicsCache :
      MultibodyTree -> Context -> PositionKinematicsCache ->
      VelocityKinematicsCache;
    CalcForceElementsContribution :
      MultibodyTree -> Context -> PositionKinematicsCache ->
      VelocityKinematicsCache -> MultibodyForces;
    CalcMassMatrixViaInverseDynamics : MultibodyTree -> Context -> MatrixX;
    CalcInverseDynamics :
      MultibodyTree -> Context -> PositionKinematicsCache ->
      VelocityKinematicsCache -> VectorX ->
      list SpatialForce.t -> VectorX -> list SpatialForce.t * VectorX;
    CalcPointsGeometricJacobianExpressedInWorld :
      MultibodyTree -> Context -> BodyIndex -> Vector3 -> Matrix3X;
    MapVelocityToQDot : MultibodyTree -> Context -> VectorX -> VectorX;
    MapQDotToVelocity : MultibodyTree -> Context -> VectorX -> VectorX;
    get_positions_from_array :
      MultibodyTree -> ModelInstanceIndex -> VectorX -> VectorX;
    get_velocities_from_array :
      MultibodyTree -> ModelInstanceIndex -> VectorX -> VectorX;
    AddInDamping :
      MultibodyTree -> JointIndex -> Context -> MultibodyForces ->
      MultibodyForces;
    AddInOneForce :
      MultibodyTree -> JointActuatorIndex -> Context -> nat -> R ->
      MultibodyForces -> MultibodyForces;
    ComputeBasisFromAxis : nat -> Vector3 -> Matrix3;
    CalcContactFrictionFromSurfaceProperties :
      CoulombFriction -> CoulombFriction -> CoulombFriction;
    solve :
      nat -> SolverParameters -> ProblemData -> R -> VectorX ->
      ComputationInfo * SolverSolution;
    LDLT_solve : MatrixX -> VectorX -> VectorX }.

(** *** The plant's members *)

Module Penalty.
(** Modelled from the spec: [ContactByPenaltyMethodParameters], declared in
    the plant's header, which is not part of the sources; section 4.2 names
    its three values. *)
Record t : Type := make { stiffness : R; damping : R; time_scale : R }.
(** Modelled from the spec: the parameters before they are set;
    [FinalizePlantOnly] and section 4.8, step 7, read a negative
    [time_scale] as unset. *)
Definition unset : t := make 0 0 (-1).
End Penalty.

(** The members that record registered geometry. *)
Record GeometryRegistry : Type :=
  { source_id_ : option SourceId;
    scene_graph_ : SceneGraphPtr;
    visual_geometries_ : list (list GeometryId);
    collision_geometries_ : list (list GeometryId);
    geometry_id_to_body_index_ : gmap GeometryId BodyIndex;
    geometry_id_to_visual_index_ : gmap GeometryId nat;
    geometry_id_to_collision_index_ : gmap GeometryId nat;
    default_coulomb_friction_ : list CoulombFriction;
    body_index_to_frame_id_ : gmap BodyIndex FrameId }.

(** The members that remember the indices of the declared ports. *)
Record PortIndices : Type :=
  { instance_actuation_ports_ : list InputPortIndex;
    actuated_instance_ : option ModelInstanceIndex;
    continuous_state_output_port_ : OutputPortIndex;
    instance_continuous_state_output_ports_ : list OutputPortIndex;
    instance_generalized_contact_forces_output_ports_ : list OutputPortIndex;
    contact_results_port_ : OutputPortIndex;
    geometry_query_port_ : InputPortIndex;
    geometry_pose_port_ : OutputPortIndex }.

Record MultibodyPlant : Type :=
  { time_step_ : R;
    model_ : MultibodyTree;
    system_ : LeafSystem;
    geometry_ : GeometryRegistry;
    ports_ : PortIndices;
    gravity_field_ : option Vector3;
    penalty_method_contact_parameters_ : Penalty.t;
    stribeck_model_ : StribeckModel;
    implicit_stribeck_solver_ : option ImplicitStribeckSolver;
    contact_results_ : ContactResults }.

(** Member updates. *)
Definition with_geometry (f : GeometryRegistry -> GeometryRegistry)
    (p : MultibodyPlant) : MultibodyPlant :=
  {| time_step_ := time_step_ p; model_ := model_ p; system_ := system_ p;
     geometry_ := f (geometry_ p); ports_ := ports_ p;
     gravity_field_ := gravity_field_ p;
     penalty_method_contact_parameters_ := penalty_method_contact_parameters_ p;
     stribeck_model_ := stribeck_model_ p;
     implicit_stribeck_solver_ := implicit_stribeck_solver_ p;
     contact_results_ := contact_results_ p |}.

Definition with_ports (f : PortIndices -> PortIndices)
    (p : MultibodyPlant) : MultibodyPlant :=
  {| time_step_ := time_step_ p; model_ := model_ p; system_ := system_ p;
     geometry_ := geometry_ p; ports_ := f (ports_ p);
     gravity_field_ := gravity_field_ p;
     penalty_method_contact_parameters_ := penalty_method_contact_parameters_ p;
     stribeck_model_ := stribeck_model_ p;
     implicit_stribeck_solver_ := implicit_stribeck_solver_ p;
     contact_results_ := contact_results_ p |}.

Definition with_system (f : LeafSystem -> LeafSystem)
    (p : MultibodyPlant) : MultibodyPlant :=
  {| time_step_ := time_step_ p; model_ := model_ p; system_ := f (system_ p);
     geometry_ := geometry_ p; ports_ := ports_ p;
     gravity_field_ := gravity_field_ p;
     penalty_method_contact_parameters_ := penalty_method_contact_parameters_ p;
     stribeck_model_ := stribeck_model_ p;
     implicit_stribeck_solver_ := implicit_stribeck_solver_ p;
     contact_results_ := contact_results_ p |}.

Definition with_model (f : MultibodyTree -> MultibodyTree)
    (p : MultibodyPlant) : MultibodyPlant :=
  {| time_step_ := time_step_ p; model_ := f (model_ p); system_ := system_ p;
     geometry_ := geometry_ p; ports_ := ports_ p;
     gravity_field_ := gravity_field_ p;
     penalty_method_contact_parameters_ := penalty_method_contact_parameters_ p;
     stribeck_model_ := stribeck_model_ p;
     implicit_stribeck_solver_ := implicit_stribeck_solver_ p;
     contact_results_ := contact_results_ p |}.

Definition with_penalty (params : Penalty.t)
    (p : MultibodyPlant) : MultibodyPlant :=
  {| time_step_ := time_step_ p; model_ := model_ p; system_ := system_ p;
     geometry_ := geometry_ p; ports_ := ports_ p;
     gravity_field_ := gravity_field_ p;
     penalty_method_contact_parameters_ := params;
     stribeck_model_ := stribeck_model_ p;
     implicit_stribeck_solver_ := implicit_stribeck_solver_ p;
     contact_results_ := contact_results_ p |}.

Definition with_stribeck (m : StribeckModel)
    (p : MultibodyPlant) : MultibodyPlant :=
  {| time_step_ := time_step_ p; model_ := model_ p; system_ := system_ p;
     geometry_ := geometry_ p; ports_ := ports_ p;
     gravity_field_ := gravity_field_ p;
     penalty_method_contact_parameters_ := penalty_method_contact_parameters_ p;
     stribeck_model_ := m;
     implicit_stribeck_solver_ := implicit_stribeck_solver_ p;
     contact_results_ := contact_results_ p |}.

Definition with_solver (sv : option ImplicitStribeckSolver)
    (p : MultibodyPlant) : MultibodyPlant :=
  {| time_step_ := time_step_ p; model_ := model_ p; system_ := system_ p;
     geometry_ := geometry_ p; ports_ := ports_ p;
     gravity_field_ := gravity_field_ p;
     penalty_method_contact_parameters_ := penalty_method_contact_parameters_ p;
     stribeck_model_ := stribeck_model_ p;
     implicit_stribeck_solver_ := sv;
     contact_results_ := contact_results_ p |}.

Definition with_contact_results (r : ContactResults)
    (p : MultibodyPlant) : MultibodyPlant :=
  {| time_step_ := time_step_ p; model_ := model_ p; system_ := system_ p;
     geometry_ := geometry_ p; ports_ := ports_ p;
     gravity_field_ := gravity_field_ p;
     penalty_method_contact_parameters_ := penalty_method_contact_parameters_ p;
     stribeck_model_ := stribeck_model_ p;
     implicit_stribeck_solver_ := implicit_stribeck_solver_ p;
     contact_results_ := r |}.

Definition with_gravity (g : option Vector3)
    (p : MultibodyPlant) : MultibodyPlant :=
  {| time_step_ := time_step_ p; model_ := model_ p; system_ := system_ p;
     geometry_ := geometry_ p; ports_ := ports_ p;
     gravity_field_ := g;
     penalty_method_contact_parameters_ := penalty_method_contact_parameters_ p;
     stribeck_model_ := stribeck_model_ p;
     implicit_stribeck_solver_ := implicit_stribeck_solver_ p;
     contact_results_ := contact_results_ p |}.

Module Registry.
Definition empty : GeometryRegistry :=
  {| source_id_ := None; scene_graph_ := None;
     visual_geometries_ := []; collision_geometries_ := [];
     geometry_id_to_body_index_ := ∅; geometry_id_to_visual_index_ := ∅;
     geometry_id_to_collision_index_ := ∅; default_coulomb_friction_ := [];
     body_index_to_frame_id_ := ∅ |}.
Definition set_source (src : option SourceId) (sg : SceneGraphPtr)
    (r : GeometryRegistry) : GeometryRegistry :=
  {| source_id_ := src; scene_graph_ := sg;
     visual_geometries_ := visual_geometries_ r;
     collision_geometries_ := collision_geometries_ r;
     geometry_id_to_body_index_ := geometry_id_to_body_index_ r;
     geometry_id_to_visual_index_ := geometry_id_to_visual_index_ r;
     geometry_id_to_collision_index_ := geometry_id_to_collision_index_ r;
     default_coulomb_friction_ := default_coulomb_friction_ r;
     body_index_to_frame_id_ := body_index_to_frame_id_ r |}.
Definition set_geometry_lists (vis col : list (list GeometryId))
    (r : GeometryRegistry) : GeometryRegistry :=
  {| source_id_ := source_id_ r; scene_graph_ := scene_graph_ r;
     visual_geometries_ := vis;
     collision_geometries_ := col;
     geometry_id_to_body_index_ := geometry_id_to_body_index_ r;
     geometry_id_to_visual_index_ := geometry_id_to_visual_index_ r;
     geometry_id_to_collision_index_ := geometry_id_to_collision_index_ r;
     default_coulomb_friction_ := default_coulomb_friction_ r;
     body_index_to_frame_id_ := body_index_to_frame_id_ r |}.
Definition set_body_index (m : gmap GeometryId BodyIndex)
    (r : GeometryRegistry) : GeometryRegistry :=
  {| source_id_ := source_id_ r; scene_graph_ := scene_graph_ r;
     visual_geometries_ := visual_geometries_ r;
     collision_geometries_ := collision_geometries_ r;
     geometry_id_to_body_index_ := m;
     geometry_id_to_visual_index_ := geometry_id_to_visual_index_ r;
     geometry_id_to_collision_index_ := geometry_id_to_collision_index_ r;
     default_coulomb_friction_ := default_coulomb_friction_ r;
     body_index_to_frame_id_ := body_index_to_frame_id_ r |}.
Definition set_visual_index (m : gmap GeometryId nat)
    (r : GeometryRegistry) : GeometryRegistry :=
  {| source_id_ := source_id_ r; scene_graph_ := scene_graph_ r;
     visual_geometries_ := visual_geometries_ r;
     collision_geometries_ := collision_geometries_ r;
     geometry_id_to_body_index_ := geometry_id_to_body_index_ r;
     geometry_id_to_visual_index_ := m;
     geometry_id_to_collision_index_ := geometry_id_to_collision_index_ r;
     default_coulomb_friction_ := default_coulomb_friction_ r;
     body_index_to_frame_id_ := body_index_to_frame_id_ r |}.
Definition set_collision_index (m : gmap GeometryId nat)
    (frictions : list CoulombFriction)
    (r : GeometryRegistry) : GeometryRegistry :=
  {| source_id_ := source_id_ r; scene_graph_ := scene_graph_ r;
     visual_geometries_ := visual_geometries_ r;
     collision_geometries_ := collision_geometries_ r;
     geometry_id_to_body_index_ := geometry_id_to_body_index_ r;
     geometry_id_to_visual_index_ := geometry_id_to_visual_index_ r;
     geometry_id_to_collision_index_ := m;
     default_coulomb_friction_ := frictions;
     body_index_to_frame_id_ := body_index_to_frame_id_ r |}.
Definition set_frame_id (m : gmap BodyIndex FrameId)
    (r : GeometryRegistry) : GeometryRegistry :=
  {| source_id_ := source_id_ r; scene_graph_ := scene_graph_ r;
     visual_geometries_ := visual_geometries_ r;
     collision_geometries_ := collision_geometries_ r;
     geometry_id_to_body_index_ := geometry_id_to_body_index_ r;
     geometry_id_to_visual_index_ := geometry_id_to_visual_index_ r;
     geometry_id_to_collision_index_ := geometry_id_to_collision_index_ r;
     default_coulomb_friction_ := default_coulomb_friction_ r;
     body_index_to_frame_id_ := m |}.
End Registry.

Module Ports.
Definition none : PortIndices :=
  {| instance_actuation_ports_ := []; actuated_instance_ := None;
     continuous_state_output_port_ := None;
     instance_continuous_state_output_ports_ := [];
     instance_generalized_contact_forces_output_ports_ := [];
     contact_results_port_ := None;
     geometry_query_port_ := None; geometry_pose_port_ := None |}.
Definition set_actuation (l : list InputPortIndex)
    (a : option ModelInstanceIndex) (r : PortIndices) : PortIndices :=
  {| instance_actuation_ports_ := l; actuated_instance_ := a;
     continuous_state_output_port_ := continuous_state_output_port_ r;
     instance_continuous_state_output_ports_ :=
       instance_continuous_state_output_ports_ r;
     instance_generalized_contact_forces_output_ports_ :=
       instance_generalized_contact_forces_output_ports_ r;
     contact_results_port_ := contact_results_port_ r;
     geometry_query_port_ := geometry_query_port_ r;
     geometry_pose_port_ := geometry_pose_port_ r |}.
Definition set_state_output (i : OutputPortIndex) (r : PortIndices)
  : PortIndices :=
  {| instance_actuation_ports_ := instance_actuation_ports_ r;
     actuated_instance_ := actuated_instance_ r;
     continuous_state_output_port_ := i;
     instance_continuous_state_output_ports_ :=
       instance_continuous_state_output_ports_ r;
     instance_generalized_contact_forces_output_ports_ :=
       instance_generalized_contact_forces_output_ports_ r;
     contact_results_port_ := contact_results_port_ r;
     geometry_query_port_ := geometry_query_port_ r;
     geometry_pose_port_ := geometry_pose_port_ r |}.
Definition set_instance_state_outputs (l : list OutputPortIndex)
    (r : PortIndices) : PortIndices :=
  {| instance_actuation_ports_ := instance_actuation_ports_ r;
     actuated_instance_ := actuated_instance_ r;
     continuous_state_output_port_ := continuous_state_output_port_ r;
     instance_continuous_state_output_ports_ := l;
     instance_generalized_contact_forces_output_ports_ :=
       instance_generalized_contact_forces_output_ports_ r;
     contact_results_port_ := contact_results_port_ r;
     geometry_query_port_ := geometry_query_port_ r;
     geometry_pose_port_ := geometry_pose_port_ r |}.
Definition set_instance_contact_forces_outputs (l : list OutputPortIndex)
    (r : PortIndices) : PortIndices :=
  {| instance_actuation_ports_ := instance_actuation_ports_ r;
     actuated_instance_ := actuated_instance_ r;
     continuous_state_output_port_ := continuous_state_output_port_ r;
     instance_continuous_state_output_ports_ :=
       instance_continuous_state_output_ports_ r;
     instance_generalized_contact_forces_output_ports_ := l;
     contact_results_port_ := contact_results_port_ r;
     geometry_query_port_ := geometry_query_port_ r;
     geometry_pose_port_ := geometry_pose_port_ r |}.
Definition set_contact_results (i : OutputPortIndex) (r : PortIndices)
  : PortIndices :=
  {| instance_actuation_ports_ := instance_actuation_ports_ r;
     actuated_instance_ := actuated_instance_ r;
     continuous_state_output_port_ := continuous_state_output_port_ r;
     instance_continuous_state_output_ports_ :=
       instance_continuous_state_output_ports_ r;
     instance_generalized_contact_forces_output_ports_ :=
       instance_generalized_contact_forces_output_ports_ r;
     contact_results_port_ := i;
     geometry_query_port_ := geometry_query_port_ r;
     geometry_pose_port_ := geometry_pose_port_ r |}.
Definition set_scene_graph_ports (q : InputPortIndex) (o : OutputPortIndex)
    (r : PortIndices) : PortIndices :=
  {| instance_actuation_ports_ := instance_actuation_ports_ r;
     actuated_instance_ := actuated_instance_ r;
     continuous_state_output_port_ := continuous_state_output_port_ r;
     instance_continuous_state_output_ports_ :=
       instance_continuous_state_output_ports_ r;
     instance_generalized_contact_forces_output_ports_ :=
       instance_generalized_contact_forces_output_ports_ r;
     contact_results_port_ := contact_results_port_ r;
     geometry_query_port_ := q; geometry_pose_port_ := o |}.
End Ports.

(** *** Calls that change the plant or the engines *)

(** The plant together with the engines it may be pointed at. *)
Record World : Type :=
  { plant : MultibodyPlant; engines : gmap nat SceneGraph }.

(** A call that may throw and may have changed the state by then. *)
Definition stateful (S A : Type) : Type := S -> result A * S.

Module St.
Definition ret {S A : Type} (a : A) : stateful S A := fun s => (Ok a, s).
Definition bind {S A B : Type} (m : stateful S A) (f : A -> stateful S B)
  : stateful S B :=
  fun s =>
    match m s with
    | (Ok a, s') => f a s'
    | (Raise e, s') => (Raise e, s')
    end.
Definition lift {S A : Type} (r : result A) : stateful S A := fun s => (r, s).
Definition gets {S A : Type} (f : S -> A) : stateful S A :=
  fun s => (Ok (f s), s).
Definition this : stateful MultibodyPlant MultibodyPlant :=
  fun s => (Ok s, s).
Definition modify {S : Type} (f : S -> S) : stateful S unit :=
  fun s => (Ok tt, f s).
(** A loop [for (x : xs) body(x)]. *)
Fixpoint for_each {S A : Type} (body : A -> stateful S unit) (xs : list A)
  : stateful S unit :=
  match xs with
  | [] => ret tt
  | x :: rest => bind (body x) (fun _ => for_each body rest)
  end.
(** A call on the plant, made in a world. *)
Definition on_plant {A : Type} (m : stateful MultibodyPlant A)
  : stateful World A :=
  fun w =>
    let '(r, p') := m (plant w) in
    (r, {| plant := p'; engines := engines w |}).
(** A call through a [SceneGraph<T>*]. *)
Definition on_engine {A : Type} (ptr : SceneGraphPtr)
    (f : SceneGraph -> A * SceneGraph) : stateful World A :=
  fun w =>
    match ptr with
    | None => (Raise (invalid_access "scene_graph"), w)
    | Some a =>
        match engines w !! a with
        | None => (Raise (invalid_access "scene_graph"), w)
        | Some g =>
            let '(x, g') := f g in
            (Ok x, {| plant := plant w; engines := <[a := g']> (engines w) |})
        end
    end.
End St.

Notation "x <~ e ;; k" := (St.bind e (fun x => k))
  (at level 100, e at next level, k at level 200, right associativity).
Notation "e ;;; k" := (St.bind e (fun _ => k))
  (at level 100, k at level 200, right associativity).

(** [optional<T>::value()] *)
Definition optional_value {A : Type} (o : option A) (name : string)
  : result A :=
  match o with
  | Some a => Ok a
  | None => Raise (invalid_access name)
  end.

(** *** Inline members of the plant

    The one-line accessors of the plant's header, which is not part of the
    sources. *)

(** Modelled from the spec: [is_finalized], of the plant's header; by
    section 4.8 finalizing the plant finalizes the tree first, and the plant
    is finalized when its tree is. *)
Definition is_finalized (p : MultibodyPlant) : bool :=
  topology_is_valid (model_ p).
(** Modelled from the spec: [is_discrete], of the plant's header; by section
    3, invariant 6, a plant is discrete when its time step is positive. *)
Definition is_discrete (p : MultibodyPlant) : bool :=
  bool_decide (time_step_ p > 0).
(** Modelled from the spec: [geometry_source_is_registered], of the plant's
    header; by section 3, invariant 5, it holds once [source_id_] is set. *)
Definition geometry_source_is_registered (p : MultibodyPlant) : bool :=
  match source_id_ (geometry_ p) with Some _ => true | None => false end.
(** Modelled from the spec: the counts that the plant's header forwards to
    the tree, section 6 ("tree contract consumed"). *)
Definition num_bodies (p : MultibodyPlant) : nat :=
  length (tree_bodies (model_ p)).
Definition num_joints (p : MultibodyPlant) : nat :=
  length (tree_joints (model_ p)).
Definition num_actuators (p : MultibodyPlant) : nat :=
  length (tree_actuators (model_ p)).
Definition num_model_instances (p : MultibodyPlant) : nat :=
  length (tree_instances (model_ p)).
Definition num_positions (p : MultibodyPlant) : nat :=
  tree_num_positions (model_ p).
Definition num_velocities (p : MultibodyPlant) : nat :=
  tree_num_velocities (model_ p).
Definition num_multibody_states (p : MultibodyPlant) : nat :=
  (num_positions p + num_velocities p)%nat.
Definition instance_count (f : ModelInstance -> nat) (p : MultibodyPlant)
    (i : ModelInstanceIndex) : nat :=
  match tree_instances (model_ p) !! i with
  | Some m => f m
  | None => 0%nat
  end.
Definition num_actuated_dofs_of (p : MultibodyPlant) (i : ModelInstanceIndex)
  : nat := instance_count instance_num_actuated_dofs p i.
Definition num_positions_of (p : MultibodyPlant) (i : ModelInstanceIndex)
  : nat := instance_count instance_num_positions p i.
Definition num_velocities_of (p : MultibodyPlant) (i : ModelInstanceIndex)
  : nat := instance_count instance_num_velocities p i.
Definition num_states_of (p : MultibodyPlant) (i : ModelInstanceIndex) : nat :=
  (num_positions_of p i + num_velocities_of p i)%nat.
Definition num_actuated_dofs (p : MultibodyPlant) : nat :=
  foldr (fun m n => (instance_num_actuated_dofs m + n)%nat) 0%nat
        (tree_instances (model_ p)).
(** Modelled from the spec: [num_collision_geometries], of the plant's
    header; by section 3, invariant 4, the collision geometries are the keys
    of [geometry_id_to_collision_index_]. *)
Definition num_collision_geometries (p : MultibodyPlant) : nat :=
  size (geometry_id_to_collision_index_ (geometry_ p)).
(** Modelled from the spec: [get_body] and [get_joint] of the tree, section
    6; an index outside the tree is an invalid access. *)
Definition get_body (p : MultibodyPlant) (i : BodyIndex) : result Body :=
  vector_index (tree_bodies (model_ p)) i "get_body".
Definition get_joint (p : MultibodyPlant) (j : JointIndex) : result Joint :=
  vector_index (tree_joints (model_ p)) j "get_joint".
(** Modelled from the spec: [body_has_registered_frame] and
    [GetBodyFrameIdIfExists], of the plant's header, which read the
    body to frame map of section 3. *)
Definition body_has_registered_frame (p : MultibodyPlant) (b : BodyIndex)
  : bool :=
  match body_index_to_frame_id_ (geometry_ p) !! b with
  | Some _ => true
  | None => false
  end.
Definition GetBodyFrameIdIfExists (p : MultibodyPlant) (b : BodyIndex)
  : option FrameId :=
  body_index_to_frame_id_ (geometry_ p) !! b.

(** [ThrowIfFinalized] and [ThrowIfNotFinalized]; the macros
    [DRAKE_MBP_THROW_IF_FINALIZED()] and [DRAKE_MBP_THROW_IF_NOT_FINALIZED()]
    pass [__func__], the name of the calling method. *)
Definition ThrowIfFinalized (p : MultibodyPlant) (source_method : string)
  : result unit :=
  if is_finalized p then
    Raise (logic_error
      ("Post-finalize calls to '" ++ source_method ++ "()' are "
       ++ "not allowed; calls to this method must happen before Finalize()."))
  else Ok tt.

Definition ThrowIfNotFinalized (p : MultibodyPlant) (source_method : string)
  : result unit :=
  if negb (is_finalized p) then
    Raise (logic_error
      ("Pre-finalize calls to '" ++ source_method ++ "()' are "
       ++ "not allowed; you must call Finalize() first."))
  else Ok tt.

Definition same_scene_graph_message : string :=
  "Geometry registration calls must be performed on the SAME instance of "
  ++ "SceneGraph used on the first call to "
  ++ "RegisterAsSourceForSceneGraph()".

Definition finalize_needs_scene_graph_message : string :=
  "This MultibodyPlant has been registered as a SceneGraph geometry "
  ++ "source. Finalize() should be invoked with a pointer to the "
  ++ "SceneGraph instance".

Definition finalize_same_scene_graph_message : string :=
  "Finalizing on a SceneGraph instance must be performed on the SAME "
  ++ "instance of SceneGraph used on the first call to "
  ++ "RegisterAsSourceForSceneGraph()".

(** *** Construction and geometry registration *)

Section Registration.
Context `{Collaborators}.

(** [MultibodyPlant<T>::MultibodyPlant(double time_step)] *)
Definition MultibodyPlant_new (time_step : R) : result MultibodyPlant :=
  _ ← DRAKE_THROW_UNLESS (bool_decide (time_step >= 0))
        "MultibodyPlant" "time_step >= 0";
  Ok {| time_step_ := time_step;
        model_ := make_MultibodyTree;
        system_ := LeafSystem_new;
        geometry_ := Registry.set_geometry_lists [[]] [[]] Registry.empty;
        ports_ := Ports.none;
        gravity_field_ := None;
        penalty_method_contact_parameters_ := Penalty.unset;
        stribeck_model_ := Stribeck.unset;
        implicit_stribeck_solver_ := None;
        contact_results_ := [] |}.

(** [RegisterAsSourceForSceneGraph] *)
Definition RegisterAsSourceForSceneGraph (scene_graph : SceneGraphPtr)
  : stateful World SourceId :=
  St.lift (DRAKE_THROW_UNLESS (bool_decide (scene_graph <> None))
             "RegisterAsSourceForSceneGraph" "scene_graph != nullptr") ;;;
  p <~ St.gets plant ;;
  St.lift (DRAKE_THROW_UNLESS (negb (geometry_source_is_registered p))
             "RegisterAsSourceForSceneGraph"
             "!geometry_source_is_registered()") ;;;
  id <~ St.on_engine scene_graph Engine.RegisterSource ;;
  St.on_plant (St.modify
    (with_geometry (Registry.set_source (Some id) scene_graph))) ;;;
  St.ret id.

(** [RegisterGeometry] (private) *)
Definition RegisterGeometry (body : BodyIndex) (X_BG : Isometry3)
    (shape : Shape) (material : option VisualMaterial)
    (scene_graph : SceneGraphPtr) : stateful World GeometryId :=
  St.lift (DRAKE_DEMAND (bool_decide (body <> world_index))
             "body.index() != world_index()") ;;;
  p <~ St.gets plant ;;
  St.lift (DRAKE_ASSERT (is_finalized p = false) "!is_finalized()") ;;;
  St.lift (DRAKE_ASSERT (geometry_source_is_registered p = true)
             "geometry_source_is_registered()") ;;;
  St.lift (DRAKE_ASSERT (scene_graph = scene_graph_ (geometry_ p))
             "scene_graph == scene_graph_") ;;;
  src <~ St.lift (optional_value (source_id_ (geometry_ p)) "source_id_") ;;
  (if negb (body_has_registered_frame p body) then
     b <~ St.lift (get_body p body) ;;
     frame <~ St.on_engine scene_graph
                (Engine.RegisterFrame src
                   {| frame_name := body_name b;
                      frame_pose := Isometry3_Identity |}) ;;
     St.on_plant (St.modify (with_geometry (fun r =>
       Registry.set_frame_id (<[body := frame]> (body_index_to_frame_id_ r)) r)))
   else St.ret tt) ;;;
  let geometry_instance :=
    {| X_PG := X_BG; instance_shape := shape;
       instance_material := material |} in
  p <~ St.gets plant ;;
  frame <~ St.lift (optional_value
                      (body_index_to_frame_id_ (geometry_ p) !! body)
                      "body_index_to_frame_id_") ;;
  geometry_id <~ St.on_engine scene_graph
                   (Engine.RegisterGeometry src frame geometry_instance) ;;
  St.on_plant (St.modify (with_geometry (fun r =>
    Registry.set_body_index
      (<[geometry_id := body]> (geometry_id_to_body_index_ r)) r))) ;;;
  St.ret geometry_id.

(** [RegisterAnchoredGeometry] (private) *)
Definition RegisterAnchoredGeometry (X_WG : Isometry3) (shape : Shape)
    (material : option VisualMaterial) (scene_graph : SceneGraphPtr)
  : stateful World GeometryId :=
  p <~ St.gets plant ;;
  St.lift (DRAKE_ASSERT (is_finalized p = false) "!is_finalized()") ;;;
  St.lift (DRAKE_ASSERT (geometry_source_is_registered p = true)
             "geometry_source_is_registered()") ;;;
  St.lift (DRAKE_ASSERT (scene_graph = scene_graph_ (geometry_ p))
             "scene_graph == scene_graph_") ;;;
  let geometry_instance :=
    {| X_PG := X_WG; instance_shape := shape;
       instance_material := material |} in
  src <~ St.lift (optional_value (source_id_ (geometry_ p)) "source_id_") ;;
  geometry_id <~ St.on_engine scene_graph
                   (Engine.RegisterAnchoredGeometry src geometry_instance) ;;
  St.on_plant (St.modify (with_geometry (fun r =>
    Registry.set_body_index
      (<[geometry_id := world_index]> (geometry_id_to_body_index_ r)) r))) ;;;
  St.ret geometry_id.

(** [v[i].push_back(id)] on a vector of vectors, [i] unchecked. *)
Definition push_back_at (lists : list (list GeometryId)) (i : nat)
    (id : GeometryId) (name : string) : result (list (list GeometryId)) :=
  l ← vector_index lists i name;
  Ok (<[i := l ++ [id]]> lists).

(** [RegisterVisualGeometry], the overload taking a material *)
Definition RegisterVisualGeometry (body : BodyIndex) (X_BG : Isometry3)
    (shape : Shape) (material : VisualMaterial) (scene_graph : SceneGraphPtr)
  : stateful World GeometryId :=
  p <~ St.gets plant ;;
  St.lift (ThrowIfFinalized p "RegisterVisualGeometry") ;;;
  St.lift (DRAKE_THROW_UNLESS (bool_decide (scene_graph <> None))
             "RegisterVisualGeometry" "scene_graph != nullptr") ;;;
  St.lift (DRAKE_THROW_UNLESS (geometry_source_is_registered p)
             "RegisterVisualGeometry" "geometry_source_is_registered()") ;;;
  (if bool_decide (scene_graph <> scene_graph_ (geometry_ p))
   then St.lift (Raise (logic_error same_scene_graph_message))
   else St.ret tt) ;;;
  id <~ (if bool_decide (body = world_index)
         then RegisterAnchoredGeometry X_BG shape (Some material) scene_graph
         else RegisterGeometry body X_BG shape (Some material) scene_graph) ;;
  p <~ St.gets plant ;;
  let visual_index := size (geometry_id_to_visual_index_ (geometry_ p)) in
  St.on_plant (St.modify (with_geometry (fun r =>
    Registry.set_visual_index
      (<[id := visual_index]> (geometry_id_to_visual_index_ r)) r))) ;;;
  p <~ St.gets plant ;;
  St.lift (DRAKE_ASSERT
             (num_bodies p = length (visual_geometries_ (geometry_ p)))
             "num_bodies() == visual_geometries_.size()") ;;;
  lists <~ St.lift (push_back_at (visual_geometries_ (geometry_ p)) body id
                      "visual_geometries_") ;;
  St.on_plant (St.modify (with_geometry (fun r =>
    Registry.set_geometry_lists lists (collision_geometries_ r) r))) ;;;
  St.ret id.

(** [RegisterVisualGeometry], the overload without a material *)
Definition RegisterVisualGeometry_default (body : BodyIndex)
    (X_BG : Isometry3) (shape : Shape) (scene_graph : SceneGraphPtr)
  : stateful World GeometryId :=
  RegisterVisualGeometry body X_BG shape VisualMaterial_default scene_graph.

(** [RegisterCollisionGeometry] *)
Definition RegisterCollisionGeometry (body : BodyIndex) (X_BG : Isometry3)
    (shape : Shape) (coulomb_friction : CoulombFriction)
    (scene_graph : SceneGraphPtr) : stateful World GeometryId :=
  p <~ St.gets plant ;;
  St.lift (ThrowIfFinalized p "RegisterCollisionGeometry") ;;;
  St.lift (DRAKE_THROW_UNLESS (bool_decide (scene_graph <> None))
             "RegisterCollisionGeometry" "scene_graph != nullptr") ;;;
  St.lift (DRAKE_THROW_UNLESS (geometry_source_is_registered p)
             "RegisterCollisionGeometry" "geometry_source_is_registered()") ;;;
  (if bool_decide (scene_graph <> scene_graph_ (geometry_ p))
   then St.lift (Raise (logic_error same_scene_graph_message))
   else St.ret tt) ;;;
  id <~ (if bool_decide (body = world_index)
         then RegisterAnchoredGeometry X_BG shape None scene_graph
         else RegisterGeometry body X_BG shape None scene_graph) ;;
  p <~ St.gets plant ;;
  let collision_index :=
    size (geometry_id_to_collision_index_ (geometry_ p)) in
  St.lift (DRAKE_ASSERT
             (length (default_coulomb_friction_ (geometry_ p)) = collision_index)
             "default_coulomb_friction_.size() == collision_index") ;;;
  St.on_plant (St.modify (with_geometry (fun r =>
    Registry.set_collision_index
      (<[id := collision_index]> (geometry_id_to_collision_index_ r))
      (default_coulomb_friction_ r ++ [coulomb_friction]) r))) ;;;
  p <~ St.gets plant ;;
  St.lift (DRAKE_ASSERT
             (num_bodies p = length (collision_geometries_ (geometry_ p)))
             "num_bodies() == collision_geometries_.size()") ;;;
  lists <~ St.lift (push_back_at (collision_geometries_ (geometry_ p)) body id
                      "collision_geometries_") ;;
  St.on_plant (St.modify (with_geometry (fun r =>
    Registry.set_geometry_lists (visual_geometries_ r) lists r))) ;;;
  St.ret id.

(** [GetVisualGeometriesForBody], [GetCollisionGeometriesForBody] *)
Definition GetVisualGeometriesForBody (p : MultibodyPlant) (body : BodyIndex)
  : result (list GeometryId) :=
  vector_index (visual_geometries_ (geometry_ p)) body "visual_geometries_".

Definition GetCollisionGeometriesForBody (p : MultibodyPlant)
    (body : BodyIndex) : result (list GeometryId) :=
  _ ← DRAKE_ASSERT (body < num_bodies p)%nat "body.index() < num_bodies()";
  vector_index (collision_geometries_ (geometry_ p)) body
    "collision_geometries_".

(** [CollectRegisteredGeometries] *)
Definition CollectRegisteredGeometries (p : MultibodyPlant)
    (bodies : list BodyIndex) : result GeometrySet :=
  _ ← ThrowIfNotFinalized p "CollectRegisteredGeometries";
  _ ← DRAKE_THROW_UNLESS (geometry_source_is_registered p)
        "CollectRegisteredGeometries" "geometry_source_is_registered()";
  foldl (fun acc body =>
           geometry_set ← acc;
           match GetBodyFrameIdIfExists p body with
           | Some frame_id => Ok (GeometrySet_Add_frame frame_id geometry_set)
           | None =>
               if bool_decide (body = world_index) then
                 ids ← vector_index (collision_geometries_ (geometry_ p)) body
                         "collision_geometries_";
                 Ok (GeometrySet_Add ids geometry_set)
               else Ok geometry_set
           end)
        (Ok GeometrySet_empty) bodies.

End Registration.

(** *** Penalty parameters, state and ports, finalize *)

Module System.
Definition DeclareInputPort (d : InputPortDescriptor) (sys : LeafSystem)
  : nat * LeafSystem :=
  (length (input_ports sys),
   {| input_ports := input_ports sys ++ [d];
      output_ports := output_ports sys;
      declared_state := declared_state sys |}).
Definition DeclareOutputPort (d : OutputPort) (sys : LeafSystem)
  : nat * LeafSystem :=
  (length (output_ports sys),
   {| input_ports := input_ports sys;
      output_ports := output_ports sys ++ [d];
      declared_state := declared_state sys |}).
Definition DeclareState (d : DeclaredState) (sys : LeafSystem) : LeafSystem :=
  {| input_ports := input_ports sys;
     output_ports := output_ports sys;
     declared_state := d |}.
(** [get_output_port(index)], [get_input_port(index)] *)
Definition get_output_port (sys : LeafSystem) (index : OutputPortIndex)
  : result OutputPort :=
  i ← optional_value index "OutputPortIndex";
  vector_at (output_ports sys) i "output_ports".
Definition get_input_port (sys : LeafSystem) (index : InputPortIndex)
  : result InputPortDescriptor :=
  i ← optional_value index "InputPortIndex";
  vector_at (input_ports sys) i "input_ports".
End System.

(** [v.resize(n)] on a vector of port indices: new entries are invalid. *)
Definition resize {A : Type} (n : nat) (l : list (option A))
  : list (option A) :=
  take n l ++ replicate (n - length l) None.

Section Lifecycle.
Context `{Collaborators}.

(** [set_penetration_allowance] *)
Definition set_penetration_allowance (penetration_allowance : R)
  : stateful MultibodyPlant unit :=
  p <~ St.this ;;
  St.lift (ThrowIfNotFinalized p "set_penetration_allowance") ;;;
  let g := match gravity_field_ p with
           | Some gravity_vector => Vec3.norm gravity_vector
           | None => 981 / 100
           end in
  let mass :=
    foldl (fun mass body => Rmax mass (get_default_mass body)) 0
          (tree_bodies (model_ p)) in
  let stiffness := mass * g / penetration_allowance in
  let omega := sqrt (stiffness / mass) in
  let time_scale := 1 / omega in
  let damping_ratio := 1 in
  let damping := damping_ratio * time_scale / penetration_allowance in
  St.modify (with_penalty (Penalty.make stiffness damping time_scale)).

(** Modelled from the spec: [set_stiction_tolerance], defined in the plant's
    header, which is not part of the sources; by section 6 it updates the
    Stribeck model and the solver's parameter. *)
Definition set_stiction_tolerance (v_stiction : R)
  : stateful MultibodyPlant unit :=
  St.modify (fun p =>
    let p' := with_stribeck (Stribeck.set_stiction_tolerance v_stiction) p in
    match implicit_stribeck_solver_ p' with
    | Some sv =>
        if is_discrete p' then
          with_solver
            (Some {| solver_nv := solver_nv sv;
                     solver_parameters :=
                       {| stiction_tolerance := v_stiction |};
                     solver_data := solver_data sv;
                     solver_solution := solver_solution sv |}) p'
        else p'
    | None => p'
    end).

(** Modelled from the spec: the default arguments of the two setters,
    declared in the plant's header; section 4.8, step 7, gives both. *)
Definition default_penetration_allowance : R := 1 / 1000.
Definition default_stiction_tolerance : R := 1 / 1000.

(** Modelled from the spec: [MultibodyTree::Finalize], called as
    [model_->Finalize()]; the tree is an external collaborator, and by
    section 3 finalizing is one-shot: a second call is an error. *)
Definition MultibodyTree_Finalize (t : MultibodyTree) : result MultibodyTree :=
  if topology_is_valid t then
    Raise (logic_error
      ("Attempting to call MultibodyTree::Finalize() on a tree with an "
       ++ "already finalized topology."))
  else
    Ok {| topology_is_valid := true;
          tree_bodies := tree_bodies t; tree_joints := tree_joints t;
          tree_actuators := tree_actuators t;
          tree_instances := tree_instances t;
          tree_num_positions := tree_num_positions t;
          tree_num_velocities := tree_num_velocities t |}.

(** [FilterAdjacentBodies] *)
Definition FilterAdjacentBodies (scene_graph : SceneGraphPtr)
  : stateful World unit :=
  p <~ St.gets plant ;;
  if geometry_source_is_registered p then
    (if bool_decide (scene_graph = None)
     then St.lift (Raise (logic_error finalize_needs_scene_graph_message))
     else St.ret tt) ;;;
    (if bool_decide (scene_graph <> scene_graph_ (geometry_ p))
     then St.lift (Raise (logic_error finalize_same_scene_graph_message))
     else St.ret tt) ;;;
    St.for_each (fun joint =>
        let child := child_body joint in
        let parent := parent_body joint in
        if bool_decide (parent = world_index) then St.ret tt
        else
          match GetBodyFrameIdIfExists p child,
                GetBodyFrameIdIfExists p parent with
          | Some child_id, Some parent_id =>
              St.on_engine scene_graph (fun g =>
                (tt, Engine.ExcludeCollisionsBetween
                       (GeometrySet_of_frame child_id)
                       (GeometrySet_of_frame parent_id) g))
          | _, _ => St.ret tt
          end)
      (tree_joints (model_ p))
  else St.ret tt.

(** [ExcludeCollisionsWithVisualGeometry] *)
Definition ExcludeCollisionsWithVisualGeometry (scene_graph : SceneGraphPtr)
  : stateful World unit :=
  p <~ St.gets plant ;;
  if geometry_source_is_registered p then
    (if bool_decide (scene_graph = None)
     then St.lift (Raise (logic_error finalize_needs_scene_graph_message))
     else St.ret tt) ;;;
    let visual :=
      foldl (fun set body_geometries => GeometrySet_Add body_geometries set)
            GeometrySet_empty (visual_geometries_ (geometry_ p)) in
    let collision :=
      foldl (fun set body_geometries => GeometrySet_Add body_geometries set)
            GeometrySet_empty (collision_geometries_ (geometry_ p)) in
    St.on_engine scene_graph (fun g =>
      (tt, Engine.ExcludeCollisionsWithin visual g)) ;;;
    St.on_engine scene_graph (fun g =>
      (tt, Engine.ExcludeCollisionsBetween visual collision g))
  else St.ret tt.

(** One turn of the loop declaring the actuation port of an instance. *)
Definition declare_actuation_port (p0 : MultibodyPlant)
    (acc : MultibodyPlant * nat * option ModelInstanceIndex)
    (model_instance_index : ModelInstanceIndex)
  : MultibodyPlant * nat * option ModelInstanceIndex :=
  let '(p, num_actuated_instances, last_actuated_instance) := acc in
  let instance_num_dofs := num_actuated_dofs_of p0 model_instance_index in
  if bool_decide (instance_num_dofs = 0%nat) then acc
  else
    let '(index, sys) :=
      System.DeclareInputPort (VectorInputPort instance_num_dofs) (system_ p) in
    (with_ports (fun r =>
       Ports.set_actuation
         (<[model_instance_index := Some index]> (instance_actuation_ports_ r))
         (actuated_instance_ r) r)
       (with_system (fun _ => sys) p),
     S num_actuated_instances, Some model_instance_index).

(** One turn of the loop declaring the state output port of an instance. *)
Definition declare_instance_state_port (p0 : MultibodyPlant)
    (p : MultibodyPlant) (model_instance_index : ModelInstanceIndex)
  : MultibodyPlant :=
  let instance_num_states := num_states_of p0 model_instance_index in
  if bool_decide (instance_num_states = 0%nat) then p
  else
    let '(index, sys) :=
      System.DeclareOutputPort
        (VectorOutputPort instance_num_states
           (CopyInstanceStateOut_calc model_instance_index)) (system_ p) in
    with_ports (fun r =>
      Ports.set_instance_state_outputs
        (<[model_instance_index := Some index]>
           (instance_continuous_state_output_ports_ r)) r)
      (with_system (fun _ => sys) p).

(** One turn of the loop declaring the contact forces port of an instance. *)
Definition declare_instance_contact_forces_port (p0 : MultibodyPlant)
    (p : MultibodyPlant) (model_instance_index : ModelInstanceIndex)
  : MultibodyPlant :=
  let instance_num_velocities := num_velocities_of p0 model_instance_index in
  if bool_decide (instance_num_velocities = 0%nat) then p
  else
    let '(index, sys) :=
      System.DeclareOutputPort
        (VectorOutputPort instance_num_velocities
           (CopyGeneralizedContactForcesOut_calc model_instance_index))
        (system_ p) in
    with_ports (fun r =>
      Ports.set_instance_contact_forces_outputs
        (<[model_instance_index := Some index]>
           (instance_generalized_contact_forces_output_ports_ r)) r)
      (with_system (fun _ => sys) p).

(** The last step of [DeclareStateAndPorts]: the contact results port. *)
Definition declare_contact_results_port (q : MultibodyPlant) : MultibodyPlant :=
  let '(index, sys) :=
    System.DeclareOutputPort
      (AbstractOutputPort CalcContactResultsOutput_calc) (system_ q) in
  with_ports (Ports.set_contact_results (Some index))
    (with_system (fun _ => sys) q).

(** The steps of [DeclareStateAndPorts], in order; [p] is the plant on
    entry, of which the counts are read. *)
Definition declare_state (p q : MultibodyPlant) : MultibodyPlant :=
  with_system (System.DeclareState
    (if is_discrete p
     then DiscreteState (time_step_ p) (num_multibody_states p)
     else ContinuousState (num_multibody_states p) (num_positions p)
            (num_velocities p) 0)) q.

Definition declare_actuation_ports (p q : MultibodyPlant) : MultibodyPlant :=
  let q :=
    with_ports (fun r =>
      Ports.set_actuation
        (resize (num_model_instances p) (instance_actuation_ports_ r))
        (actuated_instance_ r) r) q in
  let '(q', num_actuated_instances, last_actuated_instance) :=
    foldl (declare_actuation_port p) (q, 0%nat, None)
          (seq 0 (num_model_instances p)) in
  if bool_decide (num_actuated_instances = 1%nat)
  then with_ports (fun r =>
         Ports.set_actuation (instance_actuation_ports_ r)
           last_actuated_instance r) q'
  else q'.

Definition declare_state_output_port (p q : MultibodyPlant) : MultibodyPlant :=
  let '(index, sys) :=
    System.DeclareOutputPort
      (VectorOutputPort (num_multibody_states p) CopyContinuousStateOut_calc)
      (system_ q) in
  with_ports (Ports.set_state_output (Some index))
    (with_system (fun _ => sys) q).

Definition declare_instance_state_ports (p q : MultibodyPlant)
  : MultibodyPlant :=
  foldl (declare_instance_state_port p)
    (with_ports (fun r =>
       Ports.set_instance_state_outputs
         (resize (num_model_instances p)
            (instance_continuous_state_output_ports_ r)) r) q)
    (seq 0 (num_model_instances p)).

Definition declare_instance_contact_forces_ports (p q : MultibodyPlant)
  : MultibodyPlant :=
  foldl (declare_instance_contact_forces_port p)
    (with_ports (fun r =>
       Ports.set_instance_contact_forces_outputs
         (resize (num_model_instances p)
            (instance_generalized_contact_forces_output_ports_ r)) r) q)
    (seq 0 (num_model_instances p)).

(** [DeclareStateAndPorts] *)
Definition DeclareStateAndPorts : stateful MultibodyPlant unit :=
  p <~ St.this ;;
  St.lift (DRAKE_DEMAND (is_finalized p) "this->is_finalized()") ;;;
  St.modify (declare_state p) ;;;
  St.modify (declare_actuation_ports p) ;;;
  St.modify (declare_state_output_port p) ;;;
  St.modify (declare_instance_state_ports p) ;;;
  St.modify (declare_instance_contact_forces_ports p) ;;;
  St.modify declare_contact_results_port.

(** [DeclareSceneGraphPorts] *)
Definition DeclareSceneGraphPorts : stateful MultibodyPlant unit :=
  St.modify (fun q =>
    let '(query, sys) :=
      System.DeclareInputPort AbstractInputPort (system_ q) in
    let '(pose, sys') :=
      System.DeclareOutputPort (AbstractOutputPort CalcFramePoseOutput_calc)
        sys in
    with_ports (Ports.set_scene_graph_ports (Some query) (Some pose))
      (with_system (fun _ => sys') q)).

(** [FinalizePlantOnly].  [DeclareCacheEntries] only allocates the
    kinematics workspaces, which the embedding passes by value. *)
Definition FinalizePlantOnly : stateful MultibodyPlant unit :=
  DeclareStateAndPorts ;;;
  p <~ St.this ;;
  (match source_id_ (geometry_ p) with
   | Some _ => DeclareSceneGraphPorts
   | None => St.ret tt
   end) ;;;
  St.modify (with_geometry (fun r =>
    Registry.set_source (source_id_ r) None r)) ;;;
  p <~ St.this ;;
  (if bool_decide (0 < num_collision_geometries p)%nat &&
      bool_decide (Penalty.time_scale (penalty_method_contact_parameters_ p) < 0)
   then set_penetration_allowance default_penetration_allowance
   else St.ret tt) ;;;
  p <~ St.this ;;
  (if bool_decide (0 < num_collision_geometries p)%nat &&
      bool_decide (Stribeck.stiction_tolerance (stribeck_model_ p) < 0)
   then set_stiction_tolerance default_stiction_tolerance
   else St.ret tt) ;;;
  p <~ St.this ;;
  if is_discrete p then
    St.modify (with_solver
      (Some {| solver_nv := num_velocities p;
               solver_parameters :=
                 {| stiction_tolerance :=
                      Stribeck.stiction_tolerance (stribeck_model_ p) |};
               solver_data := None;
               solver_solution :=
                 {| get_generalized_velocities := [];
                    get_normal_forces := [];
                    get_friction_forces := [];
                    get_tangential_velocities := [];
                    get_normal_velocities := [];
                    get_generalized_contact_forces := [] |} |}))
  else St.ret tt.

(** [Finalize] *)
Definition Finalize (scene_graph : SceneGraphPtr) : stateful World unit :=
  p <~ St.gets plant ;;
  tree <~ St.lift (MultibodyTree_Finalize (model_ p)) ;;
  St.on_plant (St.modify (with_model (fun _ => tree))) ;;;
  FilterAdjacentBodies scene_graph ;;;
  ExcludeCollisionsWithVisualGeometry scene_graph ;;;
  St.on_plant FinalizePlantOnly.

(** [DoMakeLeafContext]: the context's kind of state *)
Definition DoMakeLeafContext (p : MultibodyPlant) : result bool :=
  _ ← DRAKE_THROW_UNLESS (is_finalized p) "DoMakeLeafContext" "is_finalized()";
  Ok (is_discrete p).

End Lifecycle.

(** Two plants that agree on everything but the declared ports, the solver
    and the contact results. *)
Definition same_model (p q : MultibodyPlant) : Prop :=
  model_ q = model_ p /\ time_step_ q = time_step_ p /\
  geometry_ q = geometry_ p /\ gravity_field_ q = gravity_field_ p /\
  penalty_method_contact_parameters_ q = penalty_method_contact_parameters_ p /\
  stribeck_model_ q = stribeck_model_ p.

(** The ports declared in [s] are still there in [s'], under the same
    indices, and the declared state is the same. *)
Definition system_extends (s s' : LeafSystem) : Prop :=
  (exists ins, input_ports s' = input_ports s ++ ins) /\
  (exists outs, output_ports s' = output_ports s ++ outs) /\
  declared_state s' = declared_state s.

(** What [Finalize] establishes about the state output port and about the
    ports of the model instances: every index the plant remembers is that
    of the port declared for it. *)
Definition ports_declared (p : MultibodyPlant) : Prop :=
  System.get_output_port (system_ p) (continuous_state_output_port_ (ports_ p))
  = Ok (VectorOutputPort (num_multibody_states p) CopyContinuousStateOut_calc) /\
  forall i : ModelInstanceIndex, (i < num_model_instances p)%nat ->
    (num_states_of p i <> 0%nat ->
     exists index,
       instance_continuous_state_output_ports_ (ports_ p) !! i = Some index /\
       System.get_output_port (system_ p) index
       = Ok (VectorOutputPort (num_states_of p i)
               (CopyInstanceStateOut_calc i))) /\
    (num_velocities_of p i <> 0%nat ->
     exists index,
       instance_generalized_contact_forces_output_ports_ (ports_ p) !! i
       = Some index /\
       System.get_output_port (system_ p) index
       = Ok (VectorOutputPort (num_velocities_of p i)
               (CopyGeneralizedContactForcesOut_calc i))) /\
    (num_actuated_dofs_of p i <> 0%nat ->
     exists index,
       instance_actuation_ports_ (ports_ p) !! i = Some index /\
       System.get_input_port (system_ p) index
       = Ok (VectorInputPort (num_actuated_dofs_of p i))).

(** The model instances that have actuated degrees of freedom, in order. *)
Definition actuated_instances (p : MultibodyPlant) : list ModelInstanceIndex :=
  filter (fun i => num_actuated_dofs_of p i <> 0%nat)
         (seq 0 (num_model_instances p)).

(** What [Finalize] establishes about the contact results port: the index
    the plant remembers is that of the port declared for
    [CalcContactResultsOutput]. *)
Definition contact_results_port_declared (p : MultibodyPlant) : Prop :=
  System.get_output_port (system_ p) (contact_results_port_ (ports_ p))
  = Ok (AbstractOutputPort CalcContactResultsOutput_calc).

(** *** Ports and outputs *)

Section PortSurface.
Context `{Collaborators}.

(** [get_actuation_input_port(ModelInstanceIndex)] *)
Definition get_actuation_input_port_of (p : MultibodyPlant)
    (model_instance : option ModelInstanceIndex)
  : result InputPortDescriptor :=
  _ ← ThrowIfNotFinalized p "get_actuation_input_port";
  _ ← DRAKE_THROW_UNLESS (bool_decide (model_instance <> None))
        "get_actuation_input_port" "model_instance.is_valid()";
  i ← optional_value model_instance "model_instance";
  _ ← DRAKE_THROW_UNLESS (bool_decide (i < num_model_instances p)%nat)
        "get_actuation_input_port" "model_instance < num_model_instances()";
  _ ← DRAKE_THROW_UNLESS (bool_decide (0 < num_actuated_dofs_of p i)%nat)
        "get_actuation_input_port" "num_actuated_dofs(model_instance) > 0";
  index ← vector_at (instance_actuation_ports_ (ports_ p)) i
            "instance_actuation_ports_";
  System.get_input_port (system_ p) index.

(** [get_actuation_input_port()] *)
Definition get_actuation_input_port (p : MultibodyPlant)
  : result InputPortDescriptor :=
  _ ← ThrowIfNotFinalized p "get_actuation_input_port";
  _ ← DRAKE_THROW_UNLESS (bool_decide (0 < num_actuators p)%nat)
        "get_actuation_input_port" "num_actuators() > 0";
  _ ← DRAKE_THROW_UNLESS
        (bool_decide (actuated_instance_ (ports_ p) <> None))
        "get_actuation_input_port" "actuated_instance_.is_valid()";
  get_actuation_input_port_of p (actuated_instance_ (ports_ p)).

(** [get_continuous_state_output_port()] *)
Definition get_continuous_state_output_port (p : MultibodyPlant)
  : result OutputPort :=
  _ ← ThrowIfNotFinalized p "get_continuous_state_output_port";
  System.get_output_port (system_ p) (continuous_state_output_port_ (ports_ p)).

(** [get_continuous_state_output_port(ModelInstanceIndex)] *)
Definition get_continuous_state_output_port_of (p : MultibodyPlant)
    (model_instance : option ModelInstanceIndex) : result OutputPort :=
  _ ← ThrowIfNotFinalized p "get_continuous_state_output_port";
  _ ← DRAKE_THROW_UNLESS (bool_decide (model_instance <> None))
        "get_continuous_state_output_port" "model_instance.is_valid()";
  i ← optional_value model_instance "model_instance";
  _ ← DRAKE_THROW_UNLESS (bool_decide (i < num_model_instances p)%nat)
        "get_continuous_state_output_port"
        "model_instance < num_model_instances()";
  _ ← DRAKE_THROW_UNLESS (bool_decide (0 < num_states_of p i)%nat)
        "get_continuous_state_output_port"
        "model_->num_states(model_instance) > 0";
  index ← vector_at (instance_continuous_state_output_ports_ (ports_ p)) i
            "instance_continuous_state_output_ports_";
  System.get_output_port (system_ p) index.

(** [get_generalized_contact_forces_output_port] *)
Definition get_generalized_contact_forces_output_port (p : MultibodyPlant)
    (model_instance : option ModelInstanceIndex) : result OutputPort :=
  _ ← ThrowIfNotFinalized p "get_generalized_contact_forces_output_port";
  _ ← DRAKE_THROW_UNLESS (is_discrete p)
        "get_generalized_contact_forces_output_port" "is_discrete()";
  _ ← DRAKE_THROW_UNLESS (bool_decide (model_instance <> None))
        "get_generalized_contact_forces_output_port"
        "model_instance.is_valid()";
  i ← optional_value model_instance "model_instance";
  _ ← DRAKE_THROW_UNLESS (bool_decide (i < num_model_instances p)%nat)
        "get_generalized_contact_forces_output_port"
        "model_instance < num_model_instances()";
  _ ← DRAKE_THROW_UNLESS (bool_decide (0 < num_states_of p i)%nat)
        "get_generalized_contact_forces_output_port"
        "model_->num_states(model_instance) > 0";
  index ← vector_at
            (instance_generalized_contact_forces_output_ports_ (ports_ p)) i
            "instance_generalized_contact_forces_output_ports_";
  System.get_output_port (system_ p) index.

(** [get_contact_results_output_port] *)
Definition get_contact_results_output_port (p : MultibodyPlant)
  : result OutputPort :=
  _ ← ThrowIfNotFinalized p "get_contact_results_output_port";
  _ ← DRAKE_THROW_UNLESS (is_discrete p)
        "get_contact_results_output_port" "is_discrete()";
  System.get_output_port (system_ p) (contact_results_port_ (ports_ p)).

(** [get_geometry_poses_output_port], [get_geometry_query_input_port] *)
Definition get_geometry_poses_output_port (p : MultibodyPlant)
  : result OutputPort :=
  _ ← ThrowIfNotFinalized p "get_geometry_poses_output_port";
  _ ← DRAKE_DEMAND (geometry_source_is_registered p)
        "geometry_source_is_registered()";
  System.get_output_port (system_ p) (geometry_pose_port_ (ports_ p)).

Definition get_geometry_query_input_port (p : MultibodyPlant)
  : result InputPortDescriptor :=
  _ ← ThrowIfNotFinalized p "get_geometry_query_input_port";
  _ ← DRAKE_DEMAND (geometry_source_is_registered p)
        "geometry_source_is_registered()";
  System.get_input_port (system_ p) (geometry_query_port_ (ports_ p)).

(** [GetStateVector] *)
Definition GetStateVector (p : MultibodyPlant) (context : Context)
  : result VectorX :=
  if is_discrete p
  then vector_index (discrete_state context) 0 "get_discrete_state"
  else Ok (continuous_state_vector context).

(** [CopyContinuousStateOut(context, state_vector)] *)
Definition CopyContinuousStateOut (p : MultibodyPlant) (context : Context)
  : result VectorX :=
  _ ← ThrowIfNotFinalized p "CopyContinuousStateOut";
  GetStateVector p context.

(** [CopyContinuousStateOut(model_instance, context, state_vector)] *)
Definition CopyContinuousStateOut_of (p : MultibodyPlant)
    (model_instance : ModelInstanceIndex) (context : Context)
  : result VectorX :=
  _ ← ThrowIfNotFinalized p "CopyContinuousStateOut";
  continuous_state_vector ← GetStateVector p context;
  Ok (get_positions_from_array (model_ p) model_instance
        (take (num_positions p) continuous_state_vector)
      ++ get_velocities_from_array (model_ p) model_instance
           (VecX.bottomRows (num_velocities p) continuous_state_vector)).

(** [CopyGeneralizedContactForcesOut] *)
Definition CopyGeneralizedContactForcesOut (p : MultibodyPlant)
    (model_instance : ModelInstanceIndex) (context : Context)
  : result VectorX :=
  _ ← ThrowIfNotFinalized p "CopyGeneralizedContactForcesOut";
  _ ← DRAKE_THROW_UNLESS (is_discrete p)
        "CopyGeneralizedContactForcesOut" "is_discrete()";
  sv ← optional_value (implicit_stribeck_solver_ p) "implicit_stribeck_solver_";
  let tau_contact := get_generalized_contact_forces (solver_solution sv) in
  Ok (get_velocities_from_array (model_ p) model_instance tau_contact).

(** [CalcContactResultsOutput] *)
Definition CalcContactResultsOutput (p : MultibodyPlant) (context : Context)
  : ContactResults :=
  contact_results_ p.

(** [EvalPositionKinematics], [EvalVelocityKinematics] *)
Definition EvalPositionKinematics (p : MultibodyPlant) (context : Context)
  : PositionKinematicsCache :=
  CalcPositionKinematicsCache (model_ p) context.

Definition EvalVelocityKinematics (p : MultibodyPlant) (context : Context)
  : VelocityKinematicsCache :=
  let pc := EvalPositionKinematics p context in
  CalcVelocityKinematicsCache (model_ p) context pc.

(** [CalcFramePoseOutput] *)
Definition CalcFramePoseOutput (p : MultibodyPlant) (context : Context)
  : result (list (FrameId * Isometry3)) :=
  _ ← ThrowIfNotFinalized p "CalcFramePoseOutput";
  _ ← DRAKE_ASSERT (source_id_ (geometry_ p) <> None) "source_id_ != nullopt";
  let pc := EvalPositionKinematics p context in
  for_each (fun it : BodyIndex * FrameId =>
              body ← get_body p (fst it);
              frame ← map_at (body_index_to_frame_id_ (geometry_ p)) (fst it)
                        "body_index_to_frame_id_";
              X_WB ← vector_index pc (node_index body) "pc.get_X_WB";
              Ok (frame, X_WB))
           (map_to_list (body_index_to_frame_id_ (geometry_ p))).

End PortSurface.

(** *** Contact: penetrations, Jacobians, penalty forces *)

(** A loop [for (i = 0; i < xs.size(); ++i) body(i, xs[i])] over a state. *)
Fixpoint for_indexed {A St : Type} (body : nat -> A -> St -> result St)
    (i : nat) (xs : list A) (s : St) : result St :=
  match xs with
  | [] => Ok s
  | x :: rest =>
      s' ← body i x s;
      for_indexed body (S i) rest s'
  end.

(** [F_BBo_W_array->at(i) += F] *)
Definition add_at (F_array : list SpatialForce.t) (i : nat)
    (F : SpatialForce.t) : result (list SpatialForce.t) :=
  F_i ← vector_at F_array i "F_BBo_W_array";
  Ok (<[i := SpatialForce.add F_i F]> F_array).

(** The threshold [1e-14 * 1e-14] below which a squared speed is zero. *)
Definition kNonZeroSqd : R := (1 / 10 ^ 14) * (1 / 10 ^ 14).

Section Contact.
Context `{Collaborators}.

(** [CalcPointPairPenetrations], the specialization for [double] *)
Definition CalcPointPairPenetrations (p : MultibodyPlant) (context : Context)
  : result (list PenetrationAsPointPair) :=
  if bool_decide (0 < num_collision_geometries p)%nat then
    match geometry_query_port_ (ports_ p) with
    | None =>
        Raise (logic_error
          ("This MultibodyPlant registered geometry for contact handling. "
           ++ "However its query input port (get_geometry_query_input_port()) "
           ++ "is not connected. "))
    | Some port =>
        match input_values context !! port with
        | Some (QueryObjectInput penetrations) => Ok penetrations
        | _ => Raise (invalid_access "EvalAbstractInput")
        end
    end
  else Ok [].

(** [CalcCombinedFrictionCoefficients] *)
Definition CalcCombinedFrictionCoefficients (p : MultibodyPlant)
    (point_pairs : list PenetrationAsPointPair)
  : result (list CoulombFriction) :=
  for_each (fun pair =>
      let geometryA_id := id_A pair in
      let geometryB_id := id_B pair in
      collision_indexA ← map_at (geometry_id_to_collision_index_ (geometry_ p))
                           geometryA_id "geometry_id_to_collision_index_";
      collision_indexB ← map_at (geometry_id_to_collision_index_ (geometry_ p))
                           geometryB_id "geometry_id_to_collision_index_";
      geometryA_friction ← vector_index (default_coulomb_friction_ (geometry_ p))
                             collision_indexA "default_coulomb_friction_";
      geometryB_friction ← vector_index (default_coulomb_friction_ (geometry_ p))
                             collision_indexB "default_coulomb_friction_";
      Ok (CalcContactFrictionFromSurfaceProperties
            geometryA_friction geometryB_friction))
    point_pairs.

(** The row that [CalcNormalSeparationVelocitiesJacobian] writes for one
    point pair. *)
Definition normal_row (p : MultibodyPlant) (context : Context)
    (point_pair : PenetrationAsPointPair) : result VectorX :=
  let geometryA_id := id_A point_pair in
  let geometryB_id := id_B point_pair in
  bodyA_index ← map_at (geometry_id_to_body_index_ (geometry_ p)) geometryA_id
                  "geometry_id_to_body_index_";
  bodyA ← get_body p bodyA_index;
  bodyB_index ← map_at (geometry_id_to_body_index_ (geometry_ p)) geometryB_id
                  "geometry_id_to_body_index_";
  bodyB ← get_body p bodyB_index;
  let nhat_BA_W := nhat_BA_W point_pair in
  let p_WCa := p_WCa point_pair in
  let p_WCb := p_WCb point_pair in
  let Jv_WAc :=
    CalcPointsGeometricJacobianExpressedInWorld (model_ p) context
      bodyA_index p_WCa in
  let Jv_WBc :=
    CalcPointsGeometricJacobianExpressedInWorld (model_ p) context
      bodyB_index p_WCb in
  Ok (Mat3X.left_mul nhat_BA_W (Mat3X.sub Jv_WAc Jv_WBc)).

(** [CalcNormalSeparationVelocitiesJacobian] *)
Definition CalcNormalSeparationVelocitiesJacobian (p : MultibodyPlant)
    (context : Context) (point_pairs_set : list PenetrationAsPointPair)
  : result MatrixX :=
  for_each (normal_row p context) point_pairs_set.

(** The contact frame and the two rows that [CalcTangentVelocitiesJacobian]
    writes for one point pair. *)
Definition tangent_rows (p : MultibodyPlant) (context : Context)
    (point_pair : PenetrationAsPointPair)
  : result (Matrix3 * (VectorX * VectorX)) :=
  let geometryA_id := id_A point_pair in
  let geometryB_id := id_B point_pair in
  bodyA_index ← map_at (geometry_id_to_body_index_ (geometry_ p)) geometryA_id
                  "geometry_id_to_body_index_";
  bodyA ← get_body p bodyA_index;
  bodyB_index ← map_at (geometry_id_to_body_index_ (geometry_ p)) geometryB_id
                  "geometry_id_to_body_index_";
  bodyB ← get_body p bodyB_index;
  let x := depth point_pair in
  _ ← DRAKE_ASSERT (x >= 0) "x >= 0";
  let nhat_BA_W := nhat_BA_W point_pair in
  let p_WCa := p_WCa point_pair in
  let p_WCb := p_WCb point_pair in
  let R_WC := ComputeBasisFromAxis 2 nhat_BA_W in
  let that1_W := col0 R_WC in
  let that2_W := col1 R_WC in
  let Jv_WAc :=
    CalcPointsGeometricJacobianExpressedInWorld (model_ p) context
      bodyA_index p_WCa in
  let Jv_WBc :=
    CalcPointsGeometricJacobianExpressedInWorld (model_ p) context
      bodyB_index p_WCb in
  Ok (R_WC,
      (Mat3X.left_mul that1_W (Mat3X.sub Jv_WBc Jv_WAc),
       Mat3X.left_mul that2_W (Mat3X.sub Jv_WBc Jv_WAc))).

(** [CalcTangentVelocitiesJacobian]: the matrix [D], whose rows [2 i] and
    [2 i + 1] belong to contact [i], and the set of contact frames. *)
Definition CalcTangentVelocitiesJacobian (p : MultibodyPlant)
    (context : Context) (point_pairs_set : list PenetrationAsPointPair)
  : result (MatrixX * list Matrix3) :=
  per_contact ← for_each (tangent_rows p context) point_pairs_set;
  Ok (concat (map (fun c => [fst (snd c); snd (snd c)]) per_contact),
      map fst per_contact).

(** The body of the loop of [CalcAndAddContactForcesByPenaltyMethod], in
    its three phases: what is looked up for the pair, the force on [A] at
    the contact point, and its accumulation on the two bodies. *)
Record ContactKinematics : Type :=
  { bodyA_index : BodyIndex;
    bodyB_index : BodyIndex;
    bodyA_node_index : BodyNodeIndex;
    bodyB_node_index : BodyNodeIndex;
    p_CoAo_W : Vector3;
    p_CoBo_W : Vector3;
    v_AcBc_W : Vector3 }.

Definition contact_kinematics (p : MultibodyPlant)
    (pc : PositionKinematicsCache) (vc : VelocityKinematicsCache)
    (pair : PenetrationAsPointPair) : result ContactKinematics :=
  let geometryA_id := id_A pair in
  let geometryB_id := id_B pair in
  bodyA_index ← map_at (geometry_id_to_body_index_ (geometry_ p)) geometryA_id
                  "geometry_id_to_body_index_";
  bodyB_index ← map_at (geometry_id_to_body_index_ (geometry_ p)) geometryB_id
                  "geometry_id_to_body_index_";
  bodyA ← get_body p bodyA_index;
  let bodyA_node_index := node_index bodyA in
  bodyB ← get_body p bodyB_index;
  let bodyB_node_index := node_index bodyB in
  let x := depth pair in
  _ ← DRAKE_ASSERT (x >= 0) "x >= 0";
  let p_WCa := p_WCa pair in
  let p_WCb := p_WCb pair in
  let p_WC := Vec3.scale (1 / 2) (Vec3.add p_WCa p_WCb) in
  X_WA ← vector_index pc bodyA_node_index "pc.get_X_WB";
  let p_WAo := translation X_WA in
  let p_CoAo_W := Vec3.sub p_WAo p_WC in
  X_WB ← vector_index pc bodyB_node_index "pc.get_X_WB";
  let p_WBo := translation X_WB in
  let p_CoBo_W := Vec3.sub p_WBo p_WC in
  V_WA ← vector_index vc bodyA_node_index "vc.get_V_WB";
  let v_WAc :=
    SpatialVelocity.translational
      (SpatialVelocity.Shift V_WA (Vec3.neg p_CoAo_W)) in
  V_WB ← vector_index vc bodyB_node_index "vc.get_V_WB";
  let v_WBc :=
    SpatialVelocity.translational
      (SpatialVelocity.Shift V_WB (Vec3.neg p_CoBo_W)) in
  let v_AcBc_W := Vec3.sub v_WBc v_WAc in
  Ok {| bodyA_index := bodyA_index; bodyB_index := bodyB_index;
        bodyA_node_index := bodyA_node_index;
        bodyB_node_index := bodyB_node_index;
        p_CoAo_W := p_CoAo_W; p_CoBo_W := p_CoBo_W;
        v_AcBc_W := v_AcBc_W |}.

(** The locals [vn], [fn_AC] and [vt_AcBc_W] of the loop body, as functions
    of the pair and of the relative velocity [v_AcBc_W] of its points. *)
Definition vn (pair : PenetrationAsPointPair) (v_AcBc_W : Vector3) : R :=
  Vec3.dot v_AcBc_W (nhat_BA_W pair).

Definition fn_AC (p : MultibodyPlant) (pair : PenetrationAsPointPair)
    (v_AcBc_W : Vector3) : R :=
  let x := depth pair in
  let k := Penalty.stiffness (penalty_method_contact_parameters_ p) in
  let d := Penalty.damping (penalty_method_contact_parameters_ p) in
  k * x * (1 + d * vn pair v_AcBc_W).

Definition vt_AcBc_W (pair : PenetrationAsPointPair) (v_AcBc_W : Vector3)
  : Vector3 :=
  Vec3.sub v_AcBc_W (Vec3.scale (vn pair v_AcBc_W) (nhat_BA_W pair)).

(** The spatial force [F_AC_W] on [A] at the contact point, or nothing when
    the normal force is not positive. *)
Definition contact_force_on_A (p : MultibodyPlant)
    (combined_friction_pairs : list CoulombFriction) (icontact : nat)
    (pair : PenetrationAsPointPair) (v_AcBc_W : Vector3)
  : result (option SpatialForce.t) :=
  let nhat_BA_W := nhat_BA_W pair in
  let fn_AC := fn_AC p pair v_AcBc_W in
  if decide (fn_AC > 0) then
    let fn_AC_W := Vec3.scale fn_AC nhat_BA_W in
    let vt_AcBc_W := vt_AcBc_W pair v_AcBc_W in
    let vt_squared := Vec3.squaredNorm vt_AcBc_W in
    ft_AC_W ←
      (if decide (vt_squared > kNonZeroSqd) then
         let vt := sqrt vt_squared in
         friction ← vector_index combined_friction_pairs icontact
                      "combined_friction_pairs";
         mu_stribeck ← Stribeck.ComputeFrictionCoefficient (stribeck_model_ p)
                         vt friction;
         let that_W := Vec3.div vt_AcBc_W vt in
         let ft_AC := mu_stribeck * fn_AC in
         Ok (Vec3.scale ft_AC that_W)
       else Ok Vec3.Zero);
    Ok (Some (SpatialForce.make Vec3.Zero (Vec3.add fn_AC_W ft_AC_W)))
  else Ok None.

(** The accumulation of [F_AC_W]: shifted to [Ao] it is added on [A],
    shifted to [Bo] and negated it is added on [B]; the world takes none. *)
Definition accumulate_contact_force (kin : ContactKinematics)
    (F_AC_W : SpatialForce.t) (F_BBo_W_array : option (list SpatialForce.t))
  : result (option (list SpatialForce.t)) :=
  match F_BBo_W_array with
  | Some F_array =>
      F_array ←
        (if bool_decide (bodyA_index kin <> world_index) then
           let F_AAo_W := SpatialForce.Shift F_AC_W (p_CoAo_W kin) in
           add_at F_array (bodyA_node_index kin) F_AAo_W
         else Ok F_array);
      F_array ←
        (if bool_decide (bodyB_index kin <> world_index) then
           let F_BBo_W :=
             SpatialForce.neg (SpatialForce.Shift F_AC_W (p_CoBo_W kin)) in
           add_at F_array (bodyB_node_index kin) F_BBo_W
         else Ok F_array);
      Ok (Some F_array)
  | None => Ok None
  end.

Definition penalty_contact (p : MultibodyPlant)
    (pc : PositionKinematicsCache) (vc : VelocityKinematicsCache)
    (combined_friction_pairs : list CoulombFriction)
    (icontact : nat) (pair : PenetrationAsPointPair)
    (F_BBo_W_array : option (list SpatialForce.t))
  : result (option (list SpatialForce.t)) :=
  kin ← contact_kinematics p pc vc pair;
  F ← contact_force_on_A p combined_friction_pairs icontact pair
        (v_AcBc_W kin);
  match F with
  | Some F_AC_W => accumulate_contact_force kin F_AC_W F_BBo_W_array
  | None => Ok F_BBo_W_array
  end.

(** [CalcAndAddContactForcesByPenaltyMethod]; [F_BBo_W_array] is [None] for
    a null pointer. *)
Definition CalcAndAddContactForcesByPenaltyMethod (p : MultibodyPlant)
    (pc : PositionKinematicsCache) (vc : VelocityKinematicsCache)
    (point_pairs : list PenetrationAsPointPair)
    (F_BBo_W_array : option (list SpatialForce.t))
  : result (option (list SpatialForce.t)) :=
  if bool_decide (num_collision_geometries p = 0%nat) then Ok F_BBo_W_array
  else
    combined_friction_pairs ← CalcCombinedFrictionCoefficients p point_pairs;
    for_indexed (penalty_contact p pc vc combined_friction_pairs)
      0 point_pairs F_BBo_W_array.

(** The body of the loop of [CalcContactResults]. *)
Definition contact_info (p : MultibodyPlant) (R_WC_set : list Matrix3)
    (fn ft vt vn : VectorX) (icontact : nat) (pair : PenetrationAsPointPair)
    (contact_results : ContactResults) : result ContactResults :=
  let geometryA_id := id_A pair in
  let geometryB_id := id_B pair in
  bodyA_index ← map_at (geometry_id_to_body_index_ (geometry_ p)) geometryA_id
                  "geometry_id_to_body_index_";
  bodyB_index ← map_at (geometry_id_to_body_index_ (geometry_ p)) geometryB_id
                  "geometry_id_to_body_index_";
  let p_WC := Vec3.scale (1 / 2) (Vec3.add (p_WCa pair) (p_WCb pair)) in
  R_WC ← vector_index R_WC_set icontact "R_WC_set";
  ft0 ← vector_index ft (2 * icontact) "ft";
  ft1 ← vector_index ft (2 * icontact + 1) "ft";
  fn_i ← vector_index fn icontact "fn";
  let f_Bc_C := V3 ft0 ft1 fn_i in
  let f_Bc_W := Matrix3_mul R_WC f_Bc_C in
  vt0 ← vector_index vt (2 * icontact) "vt";
  vt1 ← vector_index vt (2 * icontact + 1) "vt";
  let slip := sqrt (vt0 * vt0 + vt1 * vt1) in
  separation_velocity ← vector_index vn icontact "vn";
  Ok (contact_results ++
      [{| info_bodyA := bodyA_index; info_bodyB := bodyB_index;
          info_f_Bc_W := f_Bc_W; info_p_WC := p_WC;
          info_separation_velocity := separation_velocity;
          info_slip_speed := slip; info_point_pair := pair |}]).

(** [CalcContactResults] *)
Definition CalcContactResults (p : MultibodyPlant)
    (point_pairs : list PenetrationAsPointPair) (R_WC_set : list Matrix3)
    (contact_results : ContactResults) : result ContactResults :=
  if bool_decide (num_collision_geometries p = 0%nat) then Ok contact_results
  else
    let num_contacts := length point_pairs in
    _ ← DRAKE_DEMAND (bool_decide (length R_WC_set = num_contacts))
          "R_WC_set.size() == num_contacts";
    sv ← optional_value (implicit_stribeck_solver_ p)
           "implicit_stribeck_solver_";
    let fn := get_normal_forces (solver_solution sv) in
    let ft := get_friction_forces (solver_solution sv) in
    let vt := get_tangential_velocities (solver_solution sv) in
    let vn := get_normal_velocities (solver_solution sv) in
    _ ← DRAKE_DEMAND (bool_decide (length fn = num_contacts))
          "fn.size() == num_contacts";
    _ ← DRAKE_DEMAND (bool_decide (length ft = (2 * num_contacts)%nat))
          "ft.size() == 2 * num_contacts";
    _ ← DRAKE_DEMAND (bool_decide (length vn = num_contacts))
          "vn.size() == num_contacts";
    _ ← DRAKE_DEMAND (bool_decide (length vt = (2 * num_contacts)%nat))
          "vt.size() == 2 * num_contacts";
    for_indexed (contact_info p R_WC_set fn ft vt vn) 0 point_pairs [].

End Contact.

(** The speed at which a pair closes: the velocity of [Bc] relative to [Ac]
    along the normal that points from [B] into [A].  This is the [vn] of the
    penalty method, of which the source says that the bodies "are getting
    closer" when it is positive; it is the rate of change of the
    penetration depth. *)
Definition approach_speed (nhat_BA_W v_WAc v_WBc : Vector3) : R :=
  Vec3.dot (Vec3.sub v_WBc v_WAc) nhat_BA_W.

(** No two bodies of the tree share a node. *)
Definition node_indices_distinct (t : MultibodyTree) : Prop :=
  forall i j body_i body_j,
    tree_bodies t !! i = Some body_i -> tree_bodies t !! j = Some body_j ->
    node_index body_i = node_index body_j -> i = j.

(** Both geometries of a pair are registered, on bodies of the tree. *)
Definition pair_is_registered (p : MultibodyPlant)
    (pair : PenetrationAsPointPair) : Prop :=
  exists bodyA bodyB,
    geometry_id_to_body_index_ (geometry_ p) !! id_A pair = Some bodyA /\
    geometry_id_to_body_index_ (geometry_ p) !! id_B pair = Some bodyB /\
    (bodyA < num_bodies p)%nat /\ (bodyB < num_bodies p)%nat.

(** *** Forces and time stepping *)

(** [v.segment(offset, n) = src] *)
Definition set_segment (offset n : nat) (src v : VectorX) : VectorX :=
  take offset v ++ take n src ++ drop (offset + n) v.

Module Solver.
(** Modelled from the spec: [SetTwoWayCoupledProblemData] of the solver, an
    external collaborator, section 4.5; the solver keeps the problem data it
    is handed. *)
Definition SetTwoWayCoupledProblemData (data : ProblemData)
    (sv : ImplicitStribeckSolver) : ImplicitStribeckSolver :=
  {| solver_nv := solver_nv sv;
     solver_parameters := solver_parameters sv;
     solver_data := Some data;
     solver_solution := solver_solution sv |}.
(** Modelled from the spec: [SolveWithGuess] of the solver, section 4.5;
    it solves the problem it holds and keeps the solution that its getters
    return. *)
Definition SolveWithGuess `{Collaborators} (dt : R) (v_guess : VectorX)
    (sv : ImplicitStribeckSolver)
  : result (ComputationInfo * ImplicitStribeckSolver) :=
  data ← optional_value (solver_data sv) "problem data";
  let '(info, solution) :=
    solve (solver_nv sv) (solver_parameters sv) data dt v_guess in
  Ok (info,
      {| solver_nv := solver_nv sv;
         solver_parameters := solver_parameters sv;
         solver_data := solver_data sv;
         solver_solution := solution |}).
End Solver.

Definition ComputationInfo_eqb (a b : ComputationInfo) : bool :=
  match a, b with
  | Success, Success => true
  | MaxIterationsReached, MaxIterationsReached => true
  | LinearSolverFailure, LinearSolverFailure => true
  | _, _ => false
  end.

Section Dynamics.
Context `{Collaborators}.

(** [AddJointDampingForces] *)
Definition AddJointDampingForces (p : MultibodyPlant) (context : Context)
    (forces : MultibodyForces) : MultibodyForces :=
  foldl (fun forces joint_index =>
           AddInDamping (model_ p) joint_index context forces)
        forces (seq 0 (num_joints p)).

(** [AssembleActuationInput] *)
Definition AssembleActuationInput (p : MultibodyPlant) (context : Context)
  : result VectorX :=
  '(actuation_input, u_offset) ←
    for_indexed (fun model_instance_index (_ : ModelInstance) acc =>
        let '(actuation_input, u_offset) := acc in
        let instance_num_dofs := num_actuated_dofs_of p model_instance_index in
        if bool_decide (instance_num_dofs = 0%nat) then Ok acc
        else
          port ← vector_index (instance_actuation_ports_ (ports_ p))
                   model_instance_index "instance_actuation_ports_";
          port ← optional_value port "InputPortIndex";
          u_instance ←
            match input_values context !! port with
            | Some (VectorInput u) => Ok u
            | _ => Raise (invalid_access "EvalEigenVectorInput")
            end;
          _ ← DRAKE_ASSERT (length u_instance = instance_num_dofs)
                "u_instance.size() == instance_num_dofs";
          Ok (set_segment u_offset instance_num_dofs u_instance
                actuation_input,
              (u_offset + instance_num_dofs)%nat))
      0 (tree_instances (model_ p))
      (VecX.Zero (num_actuated_dofs p), 0%nat);
  _ ← DRAKE_ASSERT (u_offset = num_actuated_dofs p)
        "u_offset == num_actuated_dofs()";
  Ok actuation_input.

(** [AddJointActuationForces] *)
Definition AddJointActuationForces (p : MultibodyPlant) (context : Context)
    (forces : MultibodyForces) : result MultibodyForces :=
  if bool_decide (0 < num_actuators p)%nat then
    u ← AssembleActuationInput p context;
    for_indexed (fun actuator_index actuator forces =>
        joint ← get_joint p (actuator_joint actuator);
        _ ← DRAKE_DEMAND (bool_decide (joint_num_dofs joint = 1%nat))
              "actuator.joint().num_dofs() == 1";
        u_i ← vector_index u actuator_index "u";
        Ok (foldl (fun forces joint_dof =>
                     AddInOneForce (model_ p) actuator_index context
                       joint_dof u_i forces)
                  forces (seq 0 (joint_num_dofs joint))))
      0 (tree_actuators (model_ p)) forces
  else Ok forces.

(** [DoCalcTimeDerivatives]: the derivatives written, from those held. *)
Definition DoCalcTimeDerivatives (p : MultibodyPlant) (context : Context)
    (derivatives : VectorX) : result VectorX :=
  if is_discrete p then Ok derivatives
  else
    let x := continuous_state_vector context in
    let nv := num_velocities p in
    let vdot := VecX.Zero nv in
    let pc := EvalPositionKinematics p context in
    let vc := EvalVelocityKinematics p context in
    let forces := CalcForceElementsContribution (model_ p) context pc vc in
    forces ← AddJointActuationForces p context forces;
    let forces := AddJointDampingForces p context forces in
    let M := CalcMassMatrixViaInverseDynamics (model_ p) context in
    let F_BBo_W_array := body_forces forces in
    let tau_array := generalized_forces forces in
    F_BBo_W_array ←
      (if bool_decide (0 < num_collision_geometries p)%nat then
         point_pairs ← CalcPointPairPenetrations p context;
         F ← CalcAndAddContactForcesByPenaltyMethod p pc vc point_pairs
               (Some F_BBo_W_array);
         optional_value F "F_BBo_W_array"
       else Ok F_BBo_W_array);
    let '(_, tau_array) :=
      CalcInverseDynamics (model_ p) context pc vc vdot
        F_BBo_W_array tau_array in
    let vdot := LDLT_solve M (VecX.neg tau_array) in
    let v := VecX.bottomRows nv x in
    let qdot := MapVelocityToQDot (model_ p) context v in
    Ok (qdot ++ vdot).

(** [DoCalcDiscreteVariableUpdates]: the updated discrete state, and the
    plant with the solver's and the contact results' new contents. *)
Definition DoCalcDiscreteVariableUpdates (p : MultibodyPlant)
    (context0 : Context) : result (VectorX * MultibodyPlant) :=
  _ ← DRAKE_ASSERT (length (discrete_state context0) = 1%nat)
        "context0.get_num_discrete_state_groups() == 1";
  _ ← DRAKE_ASSERT (length (continuous_state_vector context0) = 0%nat)
        "context0.get_continuous_state().size() == 0";
  let dt := time_step_ p in
  let nq := num_positions p in
  let nv := num_velocities p in
  x0 ← vector_index (discrete_state context0) 0 "get_discrete_state";
  let q0 := VecX.topRows nq x0 in
  let v0 := VecX.bottomRows nv x0 in
  let M0 := CalcMassMatrixViaInverseDynamics (model_ p) context0 in
  let pc0 := EvalPositionKinematics p context0 in
  let vc0 := EvalVelocityKinematics p context0 in
  let forces0 := CalcForceElementsContribution (model_ p) context0 pc0 vc0 in
  forces0 ← AddJointActuationForces p context0 forces0;
  let forces0 := AddJointDampingForces p context0 forces0 in
  point_pairs0 ← CalcPointPairPenetrations p context0;
  let vdot := VecX.Zero nv in
  let F_BBo_W_array := body_forces forces0 in
  let '(_, minus_tau) :=
    CalcInverseDynamics (model_ p) context0 pc0 vc0 vdot
      F_BBo_W_array (generalized_forces forces0) in
  let p_star := VecX.sub (VecX.mul M0 v0) (VecX.scale dt minus_tau) in
  let num_contacts := length point_pairs0 in
  '(Jn, Jt, R_WC_set) ←
    (if bool_decide (0 < num_contacts)%nat then
       Jn ← CalcNormalSeparationVelocitiesJacobian p context0 point_pairs0;
       '(Jt, R_WC_set) ← CalcTangentVelocitiesJacobian p context0 point_pairs0;
       Ok (Jn, Jt, R_WC_set)
     else Ok ([], [], []));
  combined_friction_pairs ← CalcCombinedFrictionCoefficients p point_pairs0;
  let mu := map static_friction combined_friction_pairs in
  let phi0 := map depth point_pairs0 in
  let stiffness :=
    VecX.Constant num_contacts
      (Penalty.stiffness (penalty_method_contact_parameters_ p)) in
  let damping :=
    VecX.Constant num_contacts
      (Penalty.damping (penalty_method_contact_parameters_ p)) in
  sv ← optional_value (implicit_stribeck_solver_ p) "implicit_stribeck_solver_";
  let sv :=
    Solver.SetTwoWayCoupledProblemData
      {| data_M := M0; data_Jn := Jn; data_Jt := Jt; data_p_star := p_star;
         data_phi0 := phi0; data_stiffness := stiffness;
         data_damping := damping; data_mu := mu |} sv in
  '(info, sv) ← Solver.SolveWithGuess dt v0 sv;
  _ ← DRAKE_DEMAND (ComputationInfo_eqb info Success)
        "info == implicit_stribeck::Success";
  let v_next := get_generalized_velocities (solver_solution sv) in
  let qdot_next := MapVelocityToQDot (model_ p) context0 v_next in
  let q_next := VecX.add q0 (VecX.scale dt qdot_next) in
  let x_next := q_next ++ v_next in
  let p := with_solver (Some sv) p in
  contact_results ← CalcContactResults p point_pairs0 R_WC_set
                      (contact_results_ p);
  Ok (x_next, with_contact_results contact_results p).

(** [DoMapQDotToVelocity]; [generalized_velocity] is the vector behind the
    pointer, [None] for a null pointer, and the result is what it holds on
    return. *)
Definition DoMapQDotToVelocity (p : MultibodyPlant) (context : Context)
    (qdot : VectorX) (generalized_velocity : option VectorX)
  : result VectorX :=
  let nq := tree_num_positions (model_ p) in
  let nv := tree_num_velocities (model_ p) in
  _ ← DRAKE_ASSERT (length qdot = nq) "qdot.size() == nq";
  _ ← DRAKE_DEMAND (bool_decide (generalized_velocity <> None))
        "generalized_velocity != nullptr";
  out ← optional_value generalized_velocity "generalized_velocity";
  _ ← DRAKE_DEMAND (bool_decide (length out = nv))
        "generalized_velocity->size() == nv";
  let v := MapQDotToVelocity (model_ p) context qdot in
  Ok v.

(** [DoMapVelocityToQDot]; [positions_derivative] as above. *)
Definition DoMapVelocityToQDot (p : MultibodyPlant) (context : Context)
    (generalized_velocity : VectorX) (positions_derivative : option VectorX)
  : result VectorX :=
  let nq := tree_num_positions (model_ p) in
  let nv := tree_num_velocities (model_ p) in
  _ ← DRAKE_ASSERT (length generalized_velocity = nv)
        "generalized_velocity.size() == nv";
  _ ← DRAKE_DEMAND (bool_decide (positions_derivative <> None))
        "positions_derivative != nullptr";
  out ← optional_value positions_derivative "positions_derivative";
  _ ← DRAKE_DEMAND (bool_decide (length out = nq))
        "positions_derivative->size() == nq";
  let qdot := MapVelocityToQDot (model_ p) context generalized_velocity in
  Ok qdot.

End Dynamics.

(** The same collaborators, with another rule for combining the friction
    coefficients of two surfaces. *)
Definition with_friction_rule (H : Collaborators)
    (rule : CoulombFriction -> CoulombFriction -> CoulombFriction)
  : Collaborators :=
  {| make_MultibodyTree := make_MultibodyTree;
     CalcPositionKinematicsCache := CalcPositionKinematicsCache;
     CalcVelocityKinematicsCache := CalcVelocityKinematicsCache;
     CalcForceElementsContribution := CalcForceElementsContribution;
     CalcMassMatrixViaInverseDynamics := CalcMassMatrixViaInverseDynamics;
     CalcInverseDynamics := CalcInverseDynamics;
     CalcPointsGeometricJacobianExpressedInWorld :=
       CalcPointsGeometricJacobianExpressedInWorld;
     MapVelocityToQDot := MapVelocityToQDot;
     MapQDotToVelocity := MapQDotToVelocity;
     get_positions_from_array := get_positions_from_array;
     get_velocities_from_array := get_velocities_from_array;
     AddInDamping := AddInDamping;
     AddInOneForce := AddInOneForce;
     ComputeBasisFromAxis := ComputeBasisFromAxis;
     CalcContactFrictionFromSurfaceProperties := rule;
     solve := solve;
     LDLT_solve := LDLT_solve |}.

(** The same collaborators, with another routine behind the solver. *)
Definition with_solve (H : Collaborators)
    (routine : nat -> SolverParameters -> ProblemData -> R -> VectorX ->
               ComputationInfo * SolverSolution)
  : Collaborators :=
  {| make_MultibodyTree := make_MultibodyTree;
     CalcPositionKinematicsCache := CalcPositionKinematicsCache;
     CalcVelocityKinematicsCache := CalcVelocityKinematicsCache;
     CalcForceElementsContribution := CalcForceElementsContribution;
     CalcMassMatrixViaInverseDynamics := CalcMassMatrixViaInverseDynamics;
     CalcInverseDynamics := CalcInverseDynamics;
     CalcPointsGeometricJacobianExpressedInWorld :=
       CalcPointsGeometricJacobianExpressedInWorld;
     MapVelocityToQDot := MapVelocityToQDot;
     MapQDotToVelocity := MapQDotToVelocity;
     get_positions_from_array := get_positions_from_array;
     get_velocities_from_array := get_velocities_from_array;
     AddInDamping := AddInDamping;
     AddInOneForce := AddInOneForce;
     ComputeBasisFromAxis := ComputeBasisFromAxis;
     CalcContactFrictionFromSurfaceProperties :=
       CalcContactFrictionFromSurfaceProperties;
     solve := routine;
     LDLT_solve := LDLT_solve |}.

(** *** A small system: the ground, a ball and a box

    The world body carries an anchored ground geometry; a ball and a box move
    along the vertical axis, one generalized velocity each.  The collaborators
    are the simplest ones with that shape: the mass matrix is diagonal, the
    bias is the weight, positions and velocities map one to one, and the
    solver returns the frictionless, contact free update. *)
Module Example.

Definition tree : MultibodyTree :=
  {| topology_is_valid := false;
     tree_bodies :=
       [ {| body_name := "WorldBody"; get_default_mass := 0; node_index := 0%nat |};
         {| body_name := "ball"; get_default_mass := 2; node_index := 1%nat |};
         {| body_name := "box"; get_default_mass := 3; node_index := 2%nat |} ];
     tree_joints :=
       [ {| parent_body := 0%nat; child_body := 1%nat; joint_num_dofs := 1%nat |};
         {| parent_body := 0%nat; child_body := 2%nat; joint_num_dofs := 1%nat |} ];
     tree_actuators := [];
     tree_instances :=
       [ {| instance_num_positions := 0%nat; instance_num_velocities := 0%nat;
            instance_num_actuated_dofs := 0%nat |};
         {| instance_num_positions := 2%nat; instance_num_velocities := 2%nat;
            instance_num_actuated_dofs := 0%nat |} ];
     tree_num_positions := 2%nat;
     tree_num_velocities := 2%nat |}.

Definition state_of (context : Context) : VectorX :=
  match discrete_state context with
  | x :: _ => x
  | [] => continuous_state_vector context
  end.

Definition at_height (h : R) : Isometry3 :=
  {| linear := linear Isometry3_Identity; translation := V3 0 0 h |}.

Definition moving_up (v : R) : SpatialVelocity.t :=
  SpatialVelocity.make Vec3.Zero (V3 0 0 v).

Definition jacobian (body : BodyIndex) : Matrix3X :=
  match body with
  | 1%nat => M3X [0; 0] [0; 0] [1; 0]
  | 2%nat => M3X [0; 0] [0; 0] [0; 1]
  | _ => M3X [0; 0] [0; 0] [0; 0]
  end.

(** The harmonic mean of section 4.1. *)
Definition harmonic (a b : R) : R :=
  if decide (a + b = 0) then 0 else 2 * a * b / (a + b).

Definition collaborators : Collaborators :=
  {| make_MultibodyTree := tree;
     CalcPositionKinematicsCache _ context :=
       [ at_height 0;
         at_height (nth 0%nat (state_of context) 0);
         at_height (nth 1%nat (state_of context) 0) ];
     CalcVelocityKinematicsCache _ context _ :=
       [ moving_up 0;
         moving_up (nth 2%nat (state_of context) 0);
         moving_up (nth 3%nat (state_of context) 0) ];
     CalcForceElementsContribution _ _ _ _ :=
       {| body_forces := replicate 3%nat SpatialForce.Zero;
          generalized_forces := [0; 0] |};
     CalcMassMatrixViaInverseDynamics _ _ := [[2; 0]; [0; 3]];
     CalcInverseDynamics _ _ _ _ vdot F tau :=
       (F, VecX.sub [2 * (981 / 100); 3 * (981 / 100)] tau);
     CalcPointsGeometricJacobianExpressedInWorld _ _ body _ := jacobian body;
     MapVelocityToQDot _ _ v := v;
     MapQDotToVelocity _ _ qdot := qdot;
     get_positions_from_array _ _ q := q;
     get_velocities_from_array _ _ v := v;
     AddInDamping _ _ _ forces := forces;
     AddInOneForce _ _ _ _ _ forces := forces;
     ComputeBasisFromAxis _ axis := M3 (V3 1 0 0) (V3 0 1 0) axis;
     CalcContactFrictionFromSurfaceProperties a b :=
       {| static_friction := harmonic (static_friction a) (static_friction b);
          dynamic_friction :=
            harmonic (dynamic_friction a) (dynamic_friction b) |};
     solve _ _ data _ _ :=
       (Success,
        {| get_generalized_velocities :=
             zip_with Rdiv (data_p_star data) [2; 3];
           get_normal_forces := VecX.Zero (length (data_phi0 data));
           get_friction_forces := VecX.Zero (2 * length (data_phi0 data))%nat;
           get_tangential_velocities :=
             VecX.Zero (2 * length (data_phi0 data))%nat;
           get_normal_velocities := VecX.Zero (length (data_phi0 data));
           get_generalized_contact_forces := [0; 0] |});
     LDLT_solve M b := zip_with Rdiv b [2; 3] |}.

(** Geometry [10] is the ground, [11] the ball's sphere, [12] the box's. *)
Definition registry : GeometryRegistry :=
  {| source_id_ := Some 0%nat; scene_graph_ := None;
     visual_geometries_ := [[]; []; []];
     collision_geometries_ := [[10%nat]; [11%nat]; [12%nat]];
     geometry_id_to_body_index_ :=
       <[10%nat := 0%nat]> (<[11%nat := 1%nat]> (<[12%nat := 2%nat]> ∅));
     geometry_id_to_visual_index_ := ∅;
     geometry_id_to_collision_index_ :=
       <[10%nat := 0%nat]> (<[11%nat := 1%nat]> (<[12%nat := 2%nat]> ∅));
     default_coulomb_friction_ :=
       [ {| static_friction := 1; dynamic_friction := 1 / 2 |};
         {| static_friction := 1; dynamic_friction := 1 / 2 |};
         {| static_friction := 1 / 2; dynamic_friction := 1 / 2 |} ];
     body_index_to_frame_id_ := <[1%nat := 1%nat]> (<[2%nat := 2%nat]> ∅) |}.

Definition finalized_tree : MultibodyTree :=
  {| topology_is_valid := true;
     tree_bodies := tree_bodies tree; tree_joints := tree_joints tree;
     tree_actuators := tree_actuators tree;
     tree_instances := tree_instances tree;
     tree_num_positions := 2%nat; tree_num_velocities := 2%nat |}.

(** The plant before [Finalize]. *)
Definition plant_under_construction (time_step : R) : MultibodyPlant :=
  {| time_step_ := time_step;
     model_ := tree;
     system_ := LeafSystem_new;
     geometry_ := Registry.set_source (Some 0%nat) (Some 0%nat) registry;
     ports_ := Ports.none;
     gravity_field_ := Some (V3 0 0 (- (981 / 100)));
     penalty_method_contact_parameters_ := Penalty.unset;
     stribeck_model_ := Stribeck.unset;
     implicit_stribeck_solver_ := None;
     contact_results_ := [] |}.

Definition solver : ImplicitStribeckSolver :=
  {| solver_nv := 2%nat;
     solver_parameters := {| stiction_tolerance := 1 / 1000 |};
     solver_data := None;
     solver_solution :=
       {| get_generalized_velocities := [];
          get_normal_forces := [];
          get_friction_forces := [];
          get_tangential_velocities := [];
          get_normal_velocities := [];
          get_generalized_contact_forces := [] |} |}.

(** The ports of the finalized plant: the geometry query is input [0]; the
    outputs are the state, the state and the contact forces of instance
    [1], the contact results and the geometry poses. *)
Definition finalized_system (time_step : R) : LeafSystem :=
  {| input_ports := [AbstractInputPort];
     output_ports :=
       [ VectorOutputPort 4%nat CopyContinuousStateOut_calc;
         VectorOutputPort 4%nat (CopyInstanceStateOut_calc 1%nat);
         VectorOutputPort 2%nat (CopyGeneralizedContactForcesOut_calc 1%nat);
         AbstractOutputPort CalcContactResultsOutput_calc;
         AbstractOutputPort CalcFramePoseOutput_calc ];
     declared_state :=
       if decide (time_step > 0) then DiscreteState time_step 4%nat
       else ContinuousState 4%nat 2%nat 2%nat 0%nat |}.

Definition finalized_ports : PortIndices :=
  {| instance_actuation_ports_ := [None; None];
     actuated_instance_ := None;
     continuous_state_output_port_ := Some 0%nat;
     instance_continuous_state_output_ports_ := [None; Some 1%nat];
     instance_generalized_contact_forces_output_ports_ := [None; Some 2%nat];
     contact_results_port_ := Some 3%nat;
     geometry_query_port_ := Some 0%nat;
     geometry_pose_port_ := Some 4%nat |}.

(** The finalized plant, with stiffness [k] and dissipation [d]. *)
Definition finalized_plant (time_step k d : R) : MultibodyPlant :=
  {| time_step_ := time_step;
     model_ := finalized_tree;
     system_ := finalized_system time_step;
     geometry_ := registry;
     ports_ := finalized_ports;
     gravity_field_ := Some (V3 0 0 (- (981 / 100)));
     penalty_method_contact_parameters_ := Penalty.make k d (1 / 100);
     stribeck_model_ := Stribeck.set_stiction_tolerance (1 / 1000);
     implicit_stribeck_solver_ :=
       if decide (time_step > 0) then Some solver else None;
     contact_results_ := [] |}.

(** The ball, at height [1] and falling with speed [1], has sunk [1 / 100]
    into the ground: [A] is the ball, [B] the ground, and the normal points
    from the ground into the ball. *)
Definition ball_on_ground : PenetrationAsPointPair :=
  {| id_A := 11%nat; id_B := 10%nat;
     p_WCa := V3 0 0 (- (1 / 100)); p_WCb := V3 0 0 0;
     nhat_BA_W := V3 0 0 1; depth := 1 / 100 |}.

(** The box rests on the ball: [A] is the box, [B] the ball. *)
Definition box_on_ball : PenetrationAsPointPair :=
  {| id_A := 12%nat; id_B := 11%nat;
     p_WCa := V3 0 0 (3 / 2 - 1 / 100); p_WCb := V3 0 0 (3 / 2);
     nhat_BA_W := V3 0 0 1; depth := 1 / 100 |}.

Definition context_with (x : VectorX) (discrete : bool)
    (pairs : list PenetrationAsPointPair) : Context :=
  {| discrete_state := if discrete then [x] else [];
     continuous_state_vector := if discrete then [] else x;
     input_values := <[0%nat := QueryObjectInput pairs]> ∅ |}.

End Example.

(** The discrete plant of the example after a step in which the solver
    found, at the one contact, the normal force [5], the friction force
    [(1, 2)], the tangential velocity [(3, 4)] and the normal velocity
    [-1]. *)
Definition example_solved_plant : MultibodyPlant :=
  with_solver
    (Some {| solver_nv := 2%nat;
             solver_parameters := {| stiction_tolerance := 1 / 1000 |};
             solver_data := None;
             solver_solution :=
               {| get_generalized_velocities := [-1; 0];
                  get_normal_forces := [5];
                  get_friction_forces := [1; 2];
                  get_tangential_velocities := [3; 4];
                  get_normal_velocities := [-1];
                  get_generalized_contact_forces := [5; 0] |} |})
    (Example.finalized_plant (1 / 1000) 1000 (1 / 10)).

(** *** A second small system: an arm and its gripper

    Three links in a chain from the world, one joint of one degree of
    freedom each, an actuator on every joint.  The arm's two joints form one
    model instance, the gripper's joint another; the world's instance has
    nothing. *)
Module Arm.

Definition tree : MultibodyTree :=
  {| topology_is_valid := false;
     tree_bodies :=
       [ {| body_name := "WorldBody"; get_default_mass := 0; node_index := 0%nat |};
         {| body_name := "upper_arm"; get_default_mass := 4; node_index := 1%nat |};
         {| body_name := "forearm"; get_default_mass := 2; node_index := 2%nat |};
         {| body_name := "finger"; get_default_mass := 1 / 2;
            node_index := 3%nat |} ];
     tree_joints :=
       [ {| parent_body := 0%nat; child_body := 1%nat; joint_num_dofs := 1%nat |};
         {| parent_body := 1%nat; child_body := 2%nat; joint_num_dofs := 1%nat |};
         {| parent_body := 2%nat; child_body := 3%nat; joint_num_dofs := 1%nat |} ];
     tree_actuators :=
       [ {| actuator_joint := 0%nat |}; {| actuator_joint := 1%nat |};
         {| actuator_joint := 2%nat |} ];
     tree_instances :=
       [ {| instance_num_positions := 0%nat; instance_num_velocities := 0%nat;
            instance_num_actuated_dofs := 0%nat |};
         {| instance_num_positions := 2%nat; instance_num_velocities := 2%nat;
            instance_num_actuated_dofs := 2%nat |};
         {| instance_num_positions := 1%nat; instance_num_velocities := 1%nat;
            instance_num_actuated_dofs := 1%nat |} ];
     tree_num_positions := 3%nat;
     tree_num_velocities := 3%nat |}.

(** The same arm with the gripper's actuator removed: one actuated
    instance. *)
Definition tree_without_gripper_actuator : MultibodyTree :=
  {| topology_is_valid := false;
     tree_bodies := tree_bodies tree;
     tree_joints := tree_joints tree;
     tree_actuators :=
       [ {| actuator_joint := 0%nat |}; {| actuator_joint := 1%nat |} ];
     tree_instances :=
       [ {| instance_num_positions := 0%nat; instance_num_velocities := 0%nat;
            instance_num_actuated_dofs := 0%nat |};
         {| instance_num_positions := 2%nat; instance_num_velocities := 2%nat;
            instance_num_actuated_dofs := 2%nat |};
         {| instance_num_positions := 1%nat; instance_num_velocities := 1%nat;
            instance_num_actuated_dofs := 0%nat |} ];
     tree_num_positions := 3%nat;
     tree_num_velocities := 3%nat |}.

(** The collaborators of the example, on this tree, where the force of an
    actuator is added to the generalized force of its joint. *)
Definition collaborators : Collaborators :=
  {| make_MultibodyTree := tree;
     CalcPositionKinematicsCache :=
       @CalcPositionKinematicsCache Example.collaborators;
     CalcVelocityKinematicsCache :=
       @CalcVelocityKinematicsCache Example.collaborators;
     CalcForceElementsContribution _ _ _ _ :=
       {| body_forces := replicate 4%nat SpatialForce.Zero;
          generalized_forces := [0; 0; 0] |};
     CalcMassMatrixViaInverseDynamics _ _ := [[4; 0; 0]; [0; 2; 0]; [0; 0; 1]];
     CalcInverseDynamics _ _ _ _ vdot F tau := (F, VecX.neg tau);
     CalcPointsGeometricJacobianExpressedInWorld _ _ _ _ :=
       M3X [0; 0; 0] [0; 0; 0] [0; 0; 0];
     MapVelocityToQDot _ _ v := v;
     MapQDotToVelocity _ _ qdot := qdot;
     get_positions_from_array _ instance q :=
       match instance with
       | 1%nat => take 2 q
       | 2%nat => drop 2 q
       | _ => []
       end;
     get_velocities_from_array _ instance v :=
       match instance with
       | 1%nat => take 2 v
       | 2%nat => drop 2 v
       | _ => []
       end;
     AddInDamping _ _ _ forces := forces;
     AddInOneForce _ actuator _ _ u forces :=
       {| body_forces := body_forces forces;
          generalized_forces :=
            match generalized_forces forces !! actuator with
            | Some tau => <[actuator := tau + u]> (generalized_forces forces)
            | None => generalized_forces forces
            end |};
     ComputeBasisFromAxis := @ComputeBasisFromAxis Example.collaborators;
     CalcContactFrictionFromSurfaceProperties :=
       @CalcContactFrictionFromSurfaceProperties Example.collaborators;
     solve := @solve Example.collaborators;
     LDLT_solve M b := zip_with Rdiv b [4; 2; 1] |}.

(** The plant before [Finalize], for either tree. *)
Definition plant_under_construction (t : MultibodyTree) (time_step : R)
  : MultibodyPlant :=
  {| time_step_ := time_step;
     model_ := t;
     system_ := LeafSystem_new;
     geometry_ := Registry.set_geometry_lists [[]] [[]] Registry.empty;
     ports_ := Ports.none;
     gravity_field_ := None;
     penalty_method_contact_parameters_ := Penalty.unset;
     stribeck_model_ := Stribeck.unset;
     implicit_stribeck_solver_ := None;
     contact_results_ := [] |}.

(** The continuous plant of the arm once finalized: the actuation inputs of
    the two instances are the input ports [0] and [1]. *)
Definition finalized_plant : MultibodyPlant :=
  {| time_step_ := 0;
     model_ :=
       {| topology_is_valid := true;
          tree_bodies := tree_bodies tree; tree_joints := tree_joints tree;
          tree_actuators := tree_actuators tree;
          tree_instances := tree_instances tree;
          tree_num_positions := 3%nat; tree_num_velocities := 3%nat |};
     system_ :=
       {| input_ports := [VectorInputPort 2%nat; VectorInputPort 1%nat];
          output_ports :=
            [ VectorOutputPort 6%nat CopyContinuousStateOut_calc;
              VectorOutputPort 4%nat (CopyInstanceStateOut_calc 1%nat);
              VectorOutputPort 2%nat (CopyInstanceStateOut_calc 2%nat);
              VectorOutputPort 2%nat (CopyGeneralizedContactForcesOut_calc 1%nat);
              VectorOutputPort 1%nat (CopyGeneralizedContactForcesOut_calc 2%nat);
              AbstractOutputPort CalcContactResultsOutput_calc ];
          declared_state := ContinuousState 6%nat 3%nat 3%nat 0%nat |};
     geometry_ := Registry.set_geometry_lists [[]] [[]] Registry.empty;
     ports_ :=
       {| instance_actuation_ports_ := [None; Some 0%nat; Some 1%nat];
          actuated_instance_ := None;
          continuous_state_output_port_ := Some 0%nat;
          instance_continuous_state_output_ports_ :=
            [None; Some 1%nat; Some 2%nat];
          instance_generalized_contact_forces_output_ports_ :=
            [None; Some 3%nat; Some 4%nat];
          contact_results_port_ := Some 5%nat;
          geometry_query_port_ := None;
          geometry_pose_port_ := None |};
     gravity_field_ := None;
     penalty_method_contact_parameters_ := Penalty.unset;
     stribeck_model_ := Stribeck.unset;
     implicit_stribeck_solver_ := None;
     contact_results_ := [] |}.

(** A context with the state [x] and the inputs [u_arm] and [u_gripper] on
    the two actuation ports. *)
Definition context_with (x u_arm u_gripper : VectorX) : Context :=
  {| discrete_state := [];
     continuous_state_vector := x;
     input_values :=
       <[0%nat := VectorInput u_arm]> (<[1%nat := VectorInput u_gripper]> ∅) |}.

End Arm.

(** The worlds in which the plants under construction are finalized.  The
    arm has no geometry.  The example has registered its geometry with the
    engine at address [0], which has handed out the identifiers below
    [13]: the source [0], the frames [1] and [2] of the ball and the box,
    and the geometries [10], [11] and [12]. *)
Definition arm_world (t : MultibodyTree) (time_step : R) : World :=
  {| plant := Arm.plant_under_construction t time_step; engines := ∅ |}.

Definition example_engine : SceneGraph :=
  {| sg_next_id := 13%nat;
     sg_sources := [0%nat];
     sg_frames :=
       [ (0%nat, 1%nat,
          {| frame_name := "ball"; frame_pose := Isometry3_Identity |});
         (0%nat, 2%nat,
          {| frame_name := "box"; frame_pose := Isometry3_Identity |}) ];
     sg_geometries :=
       [ (0%nat, None, 10%nat,
          {| X_PG := Isometry3_Identity; instance_shape := HalfSpace;
             instance_material := None |});
         (0%nat, Some 1%nat, 11%nat,
          {| X_PG := Isometry3_Identity; instance_shape := Sphere (1 / 2);
             instance_material := None |});
         (0%nat, Some 2%nat, 12%nat,
          {| X_PG := Isometry3_Identity; instance_shape := Sphere (1 / 2);
             instance_material := None |}) ];
     sg_excluded_within := [];
     sg_excluded_between := [] |}.

Definition example_world (time_step : R) : World :=
  {| plant := Example.plant_under_construction time_step;
     engines := <[0%nat := example_engine]> ∅ |}.

(** The example's bodies before any geometry is registered, with a new
    engine at address [0]: the lists of geometries have one empty entry per
    body. *)
Definition registration_world : World :=
  {| plant :=
       {| time_step_ := 0;
          model_ := Example.tree;
          system_ := LeafSystem_new;
          geometry_ :=
            Registry.set_geometry_lists [[]; []; []] [[]; []; []]
              Registry.empty;
          ports_ := Ports.none;
          gravity_field_ := None;
          penalty_method_contact_parameters_ := Penalty.unset;
          stribeck_model_ := Stribeck.unset;
          implicit_stribeck_solver_ := None;
          contact_results_ := [] |};
     engines := <[0%nat := SceneGraph_new]> ∅ |}.

(** The same world once the plant is registered as a source of the
    engine. *)
Definition registered_world : World :=
  {| plant :=
       with_geometry (Registry.set_source (Some 0%nat) (Some 0%nat))
         (plant registration_world);
     engines :=
       <[0%nat := snd (Engine.RegisterSource SceneGraph_new)]>
         (engines registration_world) |}.

(** ** Part II: the properties *)

(** *** The Stribeck friction model *)

Section StribeckProperties.
Import Stribeck.

Lemma step5_in_range (x : R) :
  0 <= x <= 1 -> step5 x = Ok (10 * x ^ 3 - 15 * x ^ 4 + 6 * x ^ 5).
Proof.
  intros Hx. unfold step5, DRAKE_ASSERT.
  destruct (decide (0 <= x /\ x <= 1)) as [_ | Hn]; [| tauto].
  cbn. f_equal. ring.
Qed.

Lemma step5_out_of_range (x : R) :
  ~ (0 <= x <= 1) -> step5 x = Raise (assertion_failed "0 <= x && x <= 1").
Proof.
  intros Hx. unfold step5, DRAKE_ASSERT.
  destruct (decide (0 <= x /\ x <= 1)) as [H | _]; [tauto | reflexivity].
Qed.

Lemma slip_ratio (speed v_stiction : R) :
  speed * inv_v_stiction_tolerance_ (set_stiction_tolerance v_stiction)
  = speed / v_stiction.
Proof. cbn. unfold Rdiv. ring. Qed.

Lemma slip_ratio_nonneg (speed v_stiction : R) :
  0 < v_stiction -> 0 <= speed -> 0 <= speed / v_stiction.
Proof.
  intros Hv Hs. unfold Rdiv.
  apply Rmult_le_pos; [assumption |].
  left. now apply Rinv_0_lt_compat.
Qed.

Lemma friction_coefficient_cases
    (v_stiction speed : R) (friction : CoulombFriction) :
  0 < v_stiction -> 0 <= speed ->
  let s := speed / v_stiction in
  let mu_s := static_friction friction in
  let mu_d := dynamic_friction friction in
  let quintic x := 10 * x ^ 3 - 15 * x ^ 4 + 6 * x ^ 5 in
  let mu := ComputeFrictionCoefficient
              (set_stiction_tolerance v_stiction) speed friction in
  (3 <= s -> mu = Ok mu_d) /\
  (1 <= s < 3 -> mu = Ok (mu_s - (mu_s - mu_d) * quintic ((s - 1) / 2))) /\
  (0 <= s < 1 -> mu = Ok (mu_s * quintic s)).
Proof.
  intros Hv Hs s mu_s mu_d quintic mu.
  assert (Hmu : mu = ComputeFrictionCoefficient
                       (set_stiction_tolerance v_stiction) speed friction)
    by reflexivity.
  unfold ComputeFrictionCoefficient, DRAKE_ASSERT in Hmu.
  destruct (decide (speed >= 0)) as [_ | Hneg]; [| lra].
  cbn [mbind result_bind] in Hmu.
  rewrite slip_ratio in Hmu. fold s in Hmu.
  repeat split.
  - intros H3. rewrite Hmu.
    destruct (decide (s >= 3)) as [_ | Hn]; [reflexivity | lra].
  - intros [H1 H3]. rewrite Hmu.
    destruct (decide (s >= 3)) as [Hn | _]; [lra |].
    destruct (decide (s >= 1)) as [_ | Hn]; [| lra].
    rewrite step5_in_range by lra. reflexivity.
  - intros [H0 H1]. rewrite Hmu.
    destruct (decide (s >= 3)) as [Hn | _]; [lra |].
    destruct (decide (s >= 1)) as [Hn | _]; [lra |].
    rewrite step5_in_range by lra. reflexivity.
Qed.

Lemma friction_coefficient_defined
    (v_stiction speed : R) (friction : CoulombFriction) :
  0 < v_stiction -> 0 <= speed ->
  exists mu,
    ComputeFrictionCoefficient (set_stiction_tolerance v_stiction) speed friction
    = Ok mu.
Proof.
  intros Hv Hs.
  destruct (friction_coefficient_cases v_stiction speed friction Hv Hs)
    as (Ha & Hb & Hc).
  pose proof (slip_ratio_nonneg speed v_stiction Hv Hs) as Hs0.
  destruct (Rle_lt_dec 3 (speed / v_stiction)) as [H3 | H3].
  - eexists. apply Ha. assumption.
  - destruct (Rle_lt_dec 1 (speed / v_stiction)) as [H1 | H1].
    + eexists. apply Hb. lra.
    + eexists. apply Hc. lra.
Qed.

(** C3. For a non-negative slip speed and a model whose stiction tolerance
    [v_stiction] is positive, with [s = speed / v_stiction] the friction
    coefficient is [mu_d] when [s >= 3], it is
    [mu_s - (mu_s - mu_d) * step5 ((s - 1) / 2)] when [1 <= s < 3], and
    [mu_s * step5 s] when [0 <= s < 1], where
    [step5 x = 10 x^3 - 15 x^4 + 6 x^5]. *)
Theorem ComputeFrictionCoefficient_piecewise
    (v_stiction speed : R) (friction : CoulombFriction) :
  0 < v_stiction -> 0 <= speed ->
  let s := speed / v_stiction in
  let mu_s := static_friction friction in
  let mu_d := dynamic_friction friction in
  let quintic x := 10 * x ^ 3 - 15 * x ^ 4 + 6 * x ^ 5 in
  let mu := ComputeFrictionCoefficient
              (set_stiction_tolerance v_stiction) speed friction in
  (3 <= s -> mu = Ok mu_d) /\
  (1 <= s < 3 -> mu = Ok (mu_s - (mu_s - mu_d) * quintic ((s - 1) / 2))) /\
  (0 <= s < 1 -> mu = Ok (mu_s * quintic s)).
Proof. exact (friction_coefficient_cases v_stiction speed friction). Qed.

Lemma ComputeFrictionCoefficient_piecewise_witness :
  0 < 1 /\ 0 <= 2 /\
  ComputeFrictionCoefficient (set_stiction_tolerance 1) 2
    {| static_friction := 1; dynamic_friction := 1 / 2 |}
  = Ok (1 - (1 - 1 / 2)
            * (10 * ((2 / 1 - 1) / 2) ^ 3 - 15 * ((2 / 1 - 1) / 2) ^ 4
               + 6 * ((2 / 1 - 1) / 2) ^ 5)).
Proof.
  split; [lra |]. split; [lra |].
  apply (ComputeFrictionCoefficient_piecewise 1 2
           {| static_friction := 1; dynamic_friction := 1 / 2 |});
    lra.
Defined.
End StribeckProperties.

(** *** The Stribeck model on doubles *)

Section StribeckOnDoubles.
Import Double StribeckDouble.










Lemma step5_NaN :
  step5 NaN = Raise (assertion_failed "0 <= x && x <= 1").
Proof. reflexivity. Qed.





End StribeckOnDoubles.

(** *** Lifecycle: calls before and after Finalize *)

Section LifecycleProperties.
Context `{Collaborators}.

Lemma ThrowIfFinalized_finalized (p : MultibodyPlant) (name : string) :
  is_finalized p = true ->
  ThrowIfFinalized p name =
  Raise (logic_error
    ("Post-finalize calls to '" ++ name ++ "()' are "
     ++ "not allowed; calls to this method must happen before Finalize().")).
Proof. intros Hf. unfold ThrowIfFinalized. now rewrite Hf. Qed.

Lemma ThrowIfNotFinalized_finalized (p : MultibodyPlant) (name : string) :
  is_finalized p = true -> ThrowIfNotFinalized p name = Ok tt.
Proof. intros Hf. unfold ThrowIfNotFinalized. now rewrite Hf. Qed.

Lemma ThrowIfNotFinalized_not_finalized (p : MultibodyPlant) (name : string) :
  is_finalized p = false ->
  ThrowIfNotFinalized p name =
  Raise (logic_error
    ("Pre-finalize calls to '" ++ name ++ "()' are "
     ++ "not allowed; you must call Finalize() first.")).
Proof. intros Hf. unfold ThrowIfNotFinalized. now rewrite Hf. Qed.

(** C8. After Finalize, the geometry registration methods raise the
    post-finalize error that names them and leave the plant and the engines
    as they were.  Before Finalize, the methods that use the operational
    state (port getters, [set_penetration_allowance], the state and contact
    force outputs, the pose output, [CollectRegisteredGeometries]) raise the
    pre-finalize error that names them; the one of them that is not a const
    method, [set_penetration_allowance], leaves the plant as it was. *)
Theorem finalize_guards (w : World) :
  (is_finalized (plant w) = true ->
   forall body X_BG shape material friction scene_graph,
     RegisterVisualGeometry body X_BG shape material scene_graph w
     = (Raise (logic_error
          "Post-finalize calls to 'RegisterVisualGeometry()' are not allowed; calls to this method must happen before Finalize()."),
        w) /\
     RegisterVisualGeometry_default body X_BG shape scene_graph w
     = (Raise (logic_error
          "Post-finalize calls to 'RegisterVisualGeometry()' are not allowed; calls to this method must happen before Finalize()."),
        w) /\
     RegisterCollisionGeometry body X_BG shape friction scene_graph w
     = (Raise (logic_error
          "Post-finalize calls to 'RegisterCollisionGeometry()' are not allowed; calls to this method must happen before Finalize()."),
        w)) /\
  (is_finalized (plant w) = false ->
   forall penetration_allowance context instance model_instance bodies,
     get_continuous_state_output_port (plant w)
     = Raise (logic_error
         "Pre-finalize calls to 'get_continuous_state_output_port()' are not allowed; you must call Finalize() first.") /\
     get_continuous_state_output_port_of (plant w) instance
     = Raise (logic_error
         "Pre-finalize calls to 'get_continuous_state_output_port()' are not allowed; you must call Finalize() first.") /\
     set_penetration_allowance penetration_allowance (plant w)
     = (Raise (logic_error
          "Pre-finalize calls to 'set_penetration_allowance()' are not allowed; you must call Finalize() first."),
        plant w) /\
     CopyContinuousStateOut (plant w) context
     = Raise (logic_error
         "Pre-finalize calls to 'CopyContinuousStateOut()' are not allowed; you must call Finalize() first.") /\
     CopyContinuousStateOut_of (plant w) model_instance context
     = Raise (logic_error
         "Pre-finalize calls to 'CopyContinuousStateOut()' are not allowed; you must call Finalize() first.") /\
     CopyGeneralizedContactForcesOut (plant w) model_instance context
     = Raise (logic_error
         "Pre-finalize calls to 'CopyGeneralizedContactForcesOut()' are not allowed; you must call Finalize() first.") /\
     get_actuation_input_port (plant w)
     = Raise (logic_error
         "Pre-finalize calls to 'get_actuation_input_port()' are not allowed; you must call Finalize() first.") /\
     get_actuation_input_port_of (plant w) instance
     = Raise (logic_error
         "Pre-finalize calls to 'get_actuation_input_port()' are not allowed; you must call Finalize() first.") /\
     get_generalized_contact_forces_output_port (plant w) instance
     = Raise (logic_error
         "Pre-finalize calls to 'get_generalized_contact_forces_output_port()' are not allowed; you must call Finalize() first.") /\
     get_contact_results_output_port (plant w)
     = Raise (logic_error
         "Pre-finalize calls to 'get_contact_results_output_port()' are not allowed; you must call Finalize() first.") /\
     get_geometry_poses_output_port (plant w)
     = Raise (logic_error
         "Pre-finalize calls to 'get_geometry_poses_output_port()' are not allowed; you must call Finalize() first.") /\
     get_geometry_query_input_port (plant w)
     = Raise (logic_error
         "Pre-finalize calls to 'get_geometry_query_input_port()' are not allowed; you must call Finalize() first.") /\
     CalcFramePoseOutput (plant w) context
     = Raise (logic_error
         "Pre-finalize calls to 'CalcFramePoseOutput()' are not allowed; you must call Finalize() first.") /\
     CollectRegisteredGeometries (plant w) bodies
     = Raise (logic_error
         "Pre-finalize calls to 'CollectRegisteredGeometries()' are not allowed; you must call Finalize() first.")).
Proof.
  split.
  - intros Hf body X_BG shape material friction scene_graph.
    unfold RegisterVisualGeometry_default, RegisterVisualGeometry,
      RegisterCollisionGeometry, St.bind, St.gets, St.lift.
    rewrite !ThrowIfFinalized_finalized by assumption.
    repeat split.
  - intros Hf penetration_allowance context instance model_instance bodies.
    unfold get_continuous_state_output_port,
      get_continuous_state_output_port_of, set_penetration_allowance,
      CopyContinuousStateOut, CopyContinuousStateOut_of,
      CopyGeneralizedContactForcesOut, get_actuation_input_port,
      get_actuation_input_port_of, get_generalized_contact_forces_output_port,
      get_contact_results_output_port, get_geometry_poses_output_port,
      get_geometry_query_input_port, CalcFramePoseOutput,
      CollectRegisteredGeometries, St.bind, St.this, St.lift.
    rewrite !ThrowIfNotFinalized_not_finalized by assumption.
    repeat split.
Qed.

End LifecycleProperties.

Section LifecycleExamples.
#[local] Existing Instance Example.collaborators.

Lemma finalize_guards_witness :
  (RegisterCollisionGeometry 1%nat Isometry3_Identity (Sphere 1)
     {| static_friction := 1; dynamic_friction := 1 |} (Some 0%nat)
     {| plant := Example.finalized_plant 0 1 1; engines := ∅ |}
   = (Raise (logic_error
        "Post-finalize calls to 'RegisterCollisionGeometry()' are not allowed; calls to this method must happen before Finalize()."),
      {| plant := Example.finalized_plant 0 1 1; engines := ∅ |})) /\
  (get_continuous_state_output_port (Example.plant_under_construction 0)
   = Raise (logic_error
       "Pre-finalize calls to 'get_continuous_state_output_port()' are not allowed; you must call Finalize() first.")).
Proof.
  split.
  - apply (finalize_guards
             {| plant := Example.finalized_plant 0 1 1; engines := ∅ |});
      [reflexivity | exact VisualMaterial_default].
  - apply (finalize_guards
             {| plant := Example.plant_under_construction 0; engines := ∅ |});
      [reflexivity | exact 0 | exact (Example.context_with [] false [])
      | exact None | exact 0%nat | exact [] ].
Defined.

End LifecycleExamples.

(** *** Penalty parameters *)

Section PenaltyParameters.
Context `{Collaborators}.

Lemma max_mass_ge_init (bodies : list Body) (m0 : R) :
  m0 <= foldl (fun mass body => Rmax mass (get_default_mass body)) m0 bodies.
Proof.
  revert m0. induction bodies as [| b bodies IH]; intros m0; cbn.
  - lra.
  - eapply Rle_trans; [apply (Rmax_l m0 (get_default_mass b)) | apply IH].
Qed.

Lemma max_mass_upper (bodies : list Body) (m0 : R) (b : Body) :
  In b bodies ->
  get_default_mass b
  <= foldl (fun mass body => Rmax mass (get_default_mass body)) m0 bodies.
Proof.
  revert m0. induction bodies as [| b' bodies IH]; intros m0 Hin; cbn.
  - destruct Hin.
  - destruct Hin as [-> | Hin].
    + eapply Rle_trans; [apply (Rmax_r m0 (get_default_mass b)) |].
      apply max_mass_ge_init.
    + now apply IH.
Qed.

Lemma max_mass_attained (bodies : list Body) (m0 : R) :
  let m := foldl (fun mass body => Rmax mass (get_default_mass body))
                 m0 bodies in
  m = m0 \/ exists b, In b bodies /\ get_default_mass b = m.
Proof.
  revert m0. induction bodies as [| b bodies IH]; intros m0; cbn.
  - now left.
  - destruct (IH (Rmax m0 (get_default_mass b))) as [Heq | (b' & Hin & Hb')].
    + cbn in Heq. rewrite Heq.
      unfold Rmax. destruct (Rle_dec m0 (get_default_mass b)).
      * right. exists b. split; [now left | reflexivity].
      * now left.
    + right. exists b'. split; [now right | exact Hb'].
Qed.

(** C5. On a finalized plant, [set_penetration_allowance] stores
    [k = m g / delta], [tau_c = 1 / sqrt (k / m)] and [d = tau_c / delta]
    in place of whatever penalty parameters were stored, where [g] is the
    norm of the configured gravity vector, or [9.81] without one, and [m] is
    the largest default mass met by a scan of all bodies, the world
    included, that starts from zero: [m] bounds every body's mass, and it is
    the mass of some body as soon as no mass is negative. *)
Theorem set_penetration_allowance_parameters
    (p : MultibodyPlant) (penetration_allowance : R) :
  is_finalized p = true ->
  let bodies := tree_bodies (model_ p) in
  let g := match gravity_field_ p with
           | Some gravity_vector => Vec3.norm gravity_vector
           | None => 981 / 100
           end in
  exists m : R,
    (forall b, In b bodies -> get_default_mass b <= m) /\
    (m = 0 \/ exists b, In b bodies /\ get_default_mass b = m) /\
    (bodies <> [] -> (forall b, In b bodies -> 0 <= get_default_mass b) ->
     exists b, In b bodies /\ get_default_mass b = m) /\
    let k := m * g / penetration_allowance in
    let tau_c := 1 / sqrt (k / m) in
    let d := tau_c / penetration_allowance in
    set_penetration_allowance penetration_allowance p
    = (Ok tt, with_penalty (Penalty.make k d tau_c) p).
Proof.
  intros Hf bodies g.
  exists (foldl (fun mass body => Rmax mass (get_default_mass body)) 0 bodies).
  split; [| split; [| split]].
  - intros b Hb. now apply max_mass_upper.
  - apply max_mass_attained.
  - intros Hne Hpos.
    destruct (max_mass_attained bodies 0) as [H0 | Hex]; [| exact Hex].
    cbn in H0. destruct bodies as [| b bodies']; [congruence |].
    exists b. split; [now left |].
    assert (Hb : In b (b :: bodies')) by now left.
    pose proof (max_mass_upper (b :: bodies') 0 b Hb) as Hle.
    specialize (Hpos b Hb). lra.
  - cbn zeta.
    unfold set_penetration_allowance, St.bind, St.this, St.lift, St.modify.
    rewrite ThrowIfNotFinalized_finalized by assumption.
    fold bodies. fold g.
    f_equal. f_equal. f_equal.
    unfold Rdiv. ring.
Qed.

End PenaltyParameters.

Section PenaltyParametersExamples.
#[local] Existing Instance Example.collaborators.

Lemma set_penetration_allowance_parameters_witness :
  is_finalized (Example.finalized_plant 0 0 0) = true /\
  exists m : R,
    (forall b, In b (tree_bodies Example.tree) -> get_default_mass b <= m) /\
    set_penetration_allowance (1 / 1000) (Example.finalized_plant 0 0 0)
    = (Ok tt,
       with_penalty
         (Penalty.make
            (m * Vec3.norm (V3 0 0 (- (981 / 100))) / (1 / 1000))
            (1 / sqrt (m * Vec3.norm (V3 0 0 (- (981 / 100))) / (1 / 1000) / m)
             / (1 / 1000))
            (1 / sqrt (m * Vec3.norm (V3 0 0 (- (981 / 100))) / (1 / 1000) / m)))
         (Example.finalized_plant 0 0 0)).
Proof.
  split; [reflexivity |].
  destruct (set_penetration_allowance_parameters
              (Example.finalized_plant 0 0 0) (1 / 1000) eq_refl)
    as (m & Hub & _ & _ & Heq).
  exists m. split; [exact Hub | exact Heq].
Defined.

(** On the example, the heaviest body is the box, of mass [3], and gravity
    has norm [9.81]: an allowance of a millimetre gives the stiffness
    [29430], the time scale [1 / sqrt 9810] and the damping
    [1000 / sqrt 9810]. *)
Lemma example_max_mass :
  foldl (fun mass body => Rmax mass (get_default_mass body)) 0
        (tree_bodies Example.tree) = 3.
Proof.
  cbn. unfold Rmax. repeat (destruct (Rle_dec _ _)); lra.
Qed.

Lemma example_gravity_norm : Vec3.norm (V3 0 0 (- (981 / 100))) = 981 / 100.
Proof.
  unfold Vec3.norm, Vec3.squaredNorm, Vec3.dot. cbn.
  replace (0 * 0 + 0 * 0 + - (981 / 100) * - (981 / 100))
    with ((981 / 100) * (981 / 100)) by lra.
  apply sqrt_square. lra.
Qed.

Lemma set_penetration_allowance_example :
  set_penetration_allowance (1 / 1000) (Example.finalized_plant 0 0 0)
  = (Ok tt,
     with_penalty (Penalty.make 29430 (1000 / sqrt 9810) (1 / sqrt 9810))
       (Example.finalized_plant 0 0 0)).
Proof.
  unfold set_penetration_allowance, St.bind, St.this, St.lift, St.modify.
  cbn [ThrowIfNotFinalized is_finalized Example.finalized_plant model_
       Example.finalized_tree topology_is_valid negb gravity_field_
       tree_bodies].
  rewrite example_max_mass, example_gravity_norm.
  assert (Hpos : 0 < sqrt 9810) by (apply sqrt_lt_R0; lra).
  replace (3 * (981 / 100) / (1 / 1000)) with 29430 by lra.
  replace (29430 / 3) with 9810 by lra.
  do 3 f_equal. field. lra.
Qed.

End PenaltyParametersExamples.

(** *** The contact results port *)

Section ContactResultsPort.
Context `{Collaborators}.

Lemma bind_Ok_inv {S A B : Type} (m : stateful S A) (f : A -> stateful S B)
    (s s' : S) (b : B) :
  St.bind m f s = (Ok b, s') ->
  exists a s1, m s = (Ok a, s1) /\ f a s1 = (Ok b, s').
Proof.
  unfold St.bind. destruct (m s) as [[a | e] s1]; intros Hx.
  - now exists a, s1.
  - discriminate.
Qed.

Lemma foldl_preserves {A B : Type} (P : A -> Prop) (f : A -> B -> A)
    (l : list B) (a : A) :
  P a -> (forall a x, P a -> P (f a x)) -> P (foldl f a l).
Proof.
  intros Ha Hstep. revert a Ha.
  induction l as [| x l IH]; intros a Ha; cbn; [exact Ha |].
  apply IH. now apply Hstep.
Qed.

Lemma on_engine_plant {A : Type} (ptr : SceneGraphPtr)
    (f : SceneGraph -> A * SceneGraph) (w w' : World) (r : result A) :
  St.on_engine ptr f w = (r, w') -> plant w' = plant w.
Proof.
  unfold St.on_engine. destruct ptr as [a |].
  - destruct (engines w !! a) as [g |].
    + destruct (f g) as [x g']. intros [= _ <-]. reflexivity.
    + intros [= _ <-]. reflexivity.
  - intros [= _ <-]. reflexivity.
Qed.

Lemma for_each_plant {A : Type} (body : A -> stateful World unit)
    (xs : list A) :
  (forall x w w' r, body x w = (r, w') -> plant w' = plant w) ->
  forall w w' r, St.for_each body xs w = (r, w') -> plant w' = plant w.
Proof.
  intros Hbody. induction xs as [| x xs IH]; intros w w' r; cbn.
  - intros [= _ <-]. reflexivity.
  - unfold St.bind. destruct (body x w) as [[[] | e] w1] eqn:Hb.
    + intros Hrest. apply IH in Hrest. apply Hbody in Hb. congruence.
    + intros [= _ <-]. now apply Hbody in Hb.
Qed.

Lemma FilterAdjacentBodies_plant (scene_graph : SceneGraphPtr)
    (w w' : World) (r : result unit) :
  FilterAdjacentBodies scene_graph w = (r, w') -> plant w' = plant w.
Proof.
  unfold FilterAdjacentBodies, St.bind at 1, St.gets.
  destruct (geometry_source_is_registered (plant w)).
  2: { intros [= _ <-]. reflexivity. }
  unfold St.bind at 1.
  destruct (bool_decide (scene_graph = None)); cbn [St.lift St.ret].
  { intros [= _ <-]. reflexivity. }
  unfold St.bind at 1.
  destruct (bool_decide (scene_graph <> scene_graph_ (geometry_ (plant w))));
    cbn [St.lift St.ret].
  { intros [= _ <-]. reflexivity. }
  apply for_each_plant.
  intros joint w1 w2 r1.
  destruct (bool_decide (parent_body joint = world_index)).
  { intros [= _ <-]. reflexivity. }
  destruct (GetBodyFrameIdIfExists (plant w) (child_body joint));
    [destruct (GetBodyFrameIdIfExists (plant w) (parent_body joint)) |].
  - apply on_engine_plant.
  - intros [= _ <-]. reflexivity.
  - intros [= _ <-]. reflexivity.
Qed.

Lemma ExcludeCollisionsWithVisualGeometry_plant (scene_graph : SceneGraphPtr)
    (w w' : World) (r : result unit) :
  ExcludeCollisionsWithVisualGeometry scene_graph w = (r, w') ->
  plant w' = plant w.
Proof.
  unfold ExcludeCollisionsWithVisualGeometry, St.bind at 1, St.gets.
  destruct (geometry_source_is_registered (plant w)).
  2: { intros [= _ <-]. reflexivity. }
  unfold St.bind at 1.
  destruct (bool_decide (scene_graph = None)); cbn [St.lift St.ret].
  { intros [= _ <-]. reflexivity. }
  cbn zeta. unfold St.bind.
  match goal with
  | |- context [St.on_engine scene_graph ?f w] =>
      destruct (St.on_engine scene_graph f w) as [[[] | e] w1] eqn:H1
  end.
  - intros H2. apply on_engine_plant in H1. apply on_engine_plant in H2.
    congruence.
  - intros [= _ <-]. now apply on_engine_plant in H1.
Qed.

Lemma get_output_port_app (sys : LeafSystem) (index : OutputPortIndex)
    (port d : OutputPort) :
  System.get_output_port sys index = Ok port ->
  System.get_output_port
    {| input_ports := input_ports sys;
       output_ports := output_ports sys ++ [d];
       declared_state := declared_state sys |} index
  = Ok port.
Proof.
  unfold System.get_output_port, vector_at. destruct index as [i |]; cbn.
  - destruct (output_ports sys !! i) as [q |] eqn:Hl; [| discriminate].
    intros [= ->]. now rewrite (lookup_app_l_Some _ _ _ _ Hl).
  - discriminate.
Qed.

Lemma declare_contact_results_port_declared (q : MultibodyPlant) :
  contact_results_port_declared (declare_contact_results_port q).
Proof.
  unfold contact_results_port_declared, declare_contact_results_port,
    System.get_output_port, vector_at. cbn.
  rewrite lookup_app_r by lia.
  now replace (length (output_ports (system_ q))
               - length (output_ports (system_ q)))%nat with 0%nat by lia.
Qed.

Lemma same_model_refl (p : MultibodyPlant) : same_model p p.
Proof. repeat split. Qed.

Lemma declare_state_same (p0 p q : MultibodyPlant) :
  same_model p q -> same_model p (declare_state p0 q).
Proof. unfold same_model, declare_state. cbn. tauto. Qed.

Lemma declare_actuation_port_same (p0 p : MultibodyPlant)
    (acc : MultibodyPlant * nat * option ModelInstanceIndex)
    (i : ModelInstanceIndex) :
  same_model p (fst (fst acc)) ->
  same_model p (fst (fst (declare_actuation_port p0 acc i))).
Proof.
  destruct acc as [[q n] last]. unfold declare_actuation_port, same_model.
  destruct (bool_decide (num_actuated_dofs_of p0 i = 0%nat)); cbn; tauto.
Qed.

Lemma declare_actuation_ports_same (p0 p q : MultibodyPlant) :
  same_model p q -> same_model p (declare_actuation_ports p0 q).
Proof.
  intros Hq. unfold declare_actuation_ports.
  match goal with
  | |- context [foldl ?f ?a ?l] =>
      pose proof (foldl_preserves (fun acc => same_model p (fst (fst acc)))
                    f l a) as Hfold
  end.
  cbn beta in Hfold.
  match type of Hfold with
  | _ -> _ -> same_model p (fst (fst ?x)) => destruct x as [[q' n] last]
  end.
  cbn [fst] in Hfold.
  assert (Hq' : same_model p q').
  { apply Hfold.
    - unfold same_model in *. cbn. tauto.
    - intros acc i. apply declare_actuation_port_same. }
  destruct (bool_decide (n = 1%nat)); [| exact Hq'].
  unfold same_model in *. cbn. tauto.
Qed.

Lemma declare_state_output_port_same (p0 p q : MultibodyPlant) :
  same_model p q -> same_model p (declare_state_output_port p0 q).
Proof. unfold same_model, declare_state_output_port. cbn. tauto. Qed.

Lemma declare_instance_state_ports_same (p0 p q : MultibodyPlant) :
  same_model p q -> same_model p (declare_instance_state_ports p0 q).
Proof.
  intros Hq. unfold declare_instance_state_ports.
  apply (foldl_preserves (same_model p)).
  - unfold same_model in *. cbn. tauto.
  - intros q' i Hq'. unfold declare_instance_state_port.
    destruct (bool_decide (num_states_of p0 i = 0%nat)); [exact Hq' |].
    unfold same_model in *. cbn. tauto.
Qed.

Lemma declare_instance_contact_forces_ports_same (p0 p q : MultibodyPlant) :
  same_model p q -> same_model p (declare_instance_contact_forces_ports p0 q).
Proof.
  intros Hq. unfold declare_instance_contact_forces_ports.
  apply (foldl_preserves (same_model p)).
  - unfold same_model in *. cbn. tauto.
  - intros q' i Hq'. unfold declare_instance_contact_forces_port.
    destruct (bool_decide (num_velocities_of p0 i = 0%nat)); [exact Hq' |].
    unfold same_model in *. cbn. tauto.
Qed.

Lemma declare_contact_results_port_same (p q : MultibodyPlant) :
  same_model p q -> same_model p (declare_contact_results_port q).
Proof. unfold same_model, declare_contact_results_port. cbn. tauto. Qed.

(** [DeclareStateAndPorts] succeeds on a finalized plant; it declares the
    contact results port and leaves the model alone. *)
Lemma DeclareStateAndPorts_spec (p : MultibodyPlant) :
  is_finalized p = true ->
  exists p1,
    DeclareStateAndPorts p = (Ok tt, p1) /\
    contact_results_port_declared p1 /\ same_model p p1.
Proof.
  intros Hf.
  unfold DeclareStateAndPorts, St.bind, St.this, St.lift, St.modify.
  rewrite Hf. cbn [DRAKE_DEMAND].
  eexists. split; [reflexivity |].
  split; [apply declare_contact_results_port_declared |].
  apply declare_contact_results_port_same,
    declare_instance_contact_forces_ports_same,
    declare_instance_state_ports_same, declare_state_output_port_same,
    declare_actuation_ports_same, declare_state_same, same_model_refl.
Qed.

Lemma DeclareStateAndPorts_not_finalized (p : MultibodyPlant) :
  is_finalized p = false ->
  DeclareStateAndPorts p
  = (Raise (assertion_failed "this->is_finalized()"), p).
Proof.
  intros Hf.
  unfold DeclareStateAndPorts, St.bind, St.this, St.lift.
  now rewrite Hf.
Qed.

Lemma set_penetration_allowance_finalized (p : MultibodyPlant) (delta : R) :
  is_finalized p = true ->
  exists params,
    set_penetration_allowance delta p = (Ok tt, with_penalty params p).
Proof.
  intros Hf.
  unfold set_penetration_allowance, St.bind, St.this, St.lift, St.modify.
  rewrite ThrowIfNotFinalized_finalized by assumption.
  eexists. reflexivity.
Qed.

Lemma set_stiction_tolerance_kept (p : MultibodyPlant) (v : R) :
  exists p',
    set_stiction_tolerance v p = (Ok tt, p') /\
    system_ p' = system_ p /\ ports_ p' = ports_ p /\
    model_ p' = model_ p /\ time_step_ p' = time_step_ p.
Proof.
  unfold set_stiction_tolerance, St.modify.
  eexists. split; [reflexivity |]. cbn.
  destruct (implicit_stribeck_solver_ p) as [sv |]; cbn; [| tauto].
  destruct (is_discrete _); cbn; tauto.
Qed.

(** [FinalizePlantOnly] succeeds on a plant whose tree is finalized, keeps
    the tree and the time step, and leaves the contact results port declared. *)
Lemma FinalizePlantOnly_spec (p : MultibodyPlant) :
  is_finalized p = true ->
  exists p',
    FinalizePlantOnly p = (Ok tt, p') /\
    contact_results_port_declared p' /\
    model_ p' = model_ p /\ time_step_ p' = time_step_ p.
Proof.
  intros Hf.
  destruct (DeclareStateAndPorts_spec p Hf) as (p1 & H1 & Hport1 & Hsame1).
  destruct Hsame1 as (Hm1 & Ht1 & _).
  unfold FinalizePlantOnly. unfold St.bind at 1. rewrite H1.
  unfold St.bind at 1, St.this.
  (* the scene graph ports *)
  assert (Hsg : exists p2,
             (match source_id_ (geometry_ p1) with
              | Some _ => DeclareSceneGraphPorts
              | None => St.ret tt
              end) p1 = (Ok tt, p2) /\
             contact_results_port_declared p2 /\
             model_ p2 = model_ p1 /\ time_step_ p2 = time_step_ p1).
  { destruct (source_id_ (geometry_ p1)).
    - eexists. split; [reflexivity |]. split; [| split; reflexivity].
      unfold contact_results_port_declared in *. cbn.
      now apply get_output_port_app.
    - exists p1. repeat split. exact Hport1. }
  destruct Hsg as (p2 & H2 & Hport2 & Hm2 & Ht2).
  unfold St.bind at 1. rewrite H2.
  unfold St.bind at 1, St.modify at 1.
  set (p3 := with_geometry _ p2).
  assert (Hport3 : contact_results_port_declared p3) by exact Hport2.
  assert (Hm3 : model_ p3 = model_ p) by (cbn; congruence).
  assert (Ht3 : time_step_ p3 = time_step_ p) by (cbn; congruence).
  clearbody p3.
  unfold St.bind at 1, St.this.
  (* the penalty parameters *)
  assert (Hpen : exists p4,
             (if bool_decide (0 < num_collision_geometries p3)%nat &&
                 bool_decide
                   (Penalty.time_scale (penalty_method_contact_parameters_ p3)
                    < 0)
              then set_penetration_allowance default_penetration_allowance
              else St.ret tt) p3 = (Ok tt, p4) /\
             contact_results_port_declared p4 /\
             model_ p4 = model_ p /\ time_step_ p4 = time_step_ p).
  { destruct (bool_decide (0 < num_collision_geometries p3)%nat && _).
    - destruct (set_penetration_allowance_finalized p3
                  default_penetration_allowance) as (params & Hset).
      { unfold is_finalized in *. congruence. }
      rewrite Hset. eexists. split; [reflexivity |].
      split; [exact Hport3 |]. cbn. tauto.
    - exists p3. repeat split; assumption. }
  destruct Hpen as (p4 & H4 & Hport4 & Hm4 & Ht4).
  unfold St.bind at 1. rewrite H4.
  unfold St.bind at 1, St.this.
  (* the stiction tolerance *)
  assert (Hst : exists p5,
             (if bool_decide (0 < num_collision_geometries p4)%nat &&
                 bool_decide
                   (Stribeck.stiction_tolerance (stribeck_model_ p4) < 0)
              then set_stiction_tolerance default_stiction_tolerance
              else St.ret tt) p4 = (Ok tt, p5) /\
             contact_results_port_declared p5 /\
             model_ p5 = model_ p /\ time_step_ p5 = time_step_ p).
  { clear H4.
    destruct (bool_decide (0 < num_collision_geometries p4)%nat && _).
    - destruct (set_stiction_tolerance_kept p4 default_stiction_tolerance)
        as (p5 & Hset & Hs & Hp & Hm & Ht).
      exists p5. split; [exact Hset |].
      unfold contact_results_port_declared in *. rewrite Hs, Hp.
      repeat split; congruence.
    - exists p4. repeat split; assumption. }
  destruct Hst as (p5 & H5 & Hport5 & Hm5 & Ht5).
  unfold St.bind at 1. rewrite H5.
  unfold St.bind, St.this.
  destruct (is_discrete p5).
  - eexists. split; [reflexivity |]. split; [exact Hport5 |]. cbn. tauto.
  - exists p5. repeat split; assumption.
Qed.

Lemma FinalizePlantOnly_needs_finalized_tree (p p' : MultibodyPlant) :
  FinalizePlantOnly p = (Ok tt, p') -> is_finalized p = true.
Proof.
  intros Hrun. destruct (is_finalized p) eqn:Hf; [reflexivity |].
  unfold FinalizePlantOnly, St.bind at 1 in Hrun.
  rewrite (DeclareStateAndPorts_not_finalized p Hf) in Hrun. discriminate.
Qed.

(** What a successful [Finalize] leaves behind. *)
Lemma Finalize_spec (scene_graph : SceneGraphPtr) (w w' : World) :
  Finalize scene_graph w = (Ok tt, w') ->
  is_finalized (plant w') = true /\
  time_step_ (plant w') = time_step_ (plant w) /\
  contact_results_port_declared (plant w').
Proof.
  unfold Finalize. intros Hrun.
  apply bind_Ok_inv in Hrun as (p0 & w0 & Hget & Hrun).
  unfold St.gets in Hget. injection Hget as <- <-.
  apply bind_Ok_inv in Hrun as (tree & w1 & Htree & Hrun).
  unfold St.lift in Htree. injection Htree as Htree <-.
  apply bind_Ok_inv in Hrun as ([] & w2 & Hmod & Hrun).
  unfold St.on_plant, St.modify in Hmod. injection Hmod as <-.
  apply bind_Ok_inv in Hrun as ([] & w3 & Hfilter & Hrun).
  apply FilterAdjacentBodies_plant in Hfilter.
  apply bind_Ok_inv in Hrun as ([] & w4 & Hexcl & Hrun).
  apply ExcludeCollisionsWithVisualGeometry_plant in Hexcl.
  unfold St.on_plant in Hrun.
  destruct (FinalizePlantOnly (plant w4)) as [r p5] eqn:Hfin.
  injection Hrun as -> <-. cbn [plant].
  pose proof (FinalizePlantOnly_needs_finalized_tree _ _ Hfin) as Hf4.
  destruct (FinalizePlantOnly_spec _ Hf4) as (p5' & Hfin' & Hport & Hm & Ht).
  rewrite Hfin in Hfin'. injection Hfin' as <-.
  rewrite Hexcl, Hfilter in Hm, Ht, Hf4. cbn in Hm, Ht, Hf4.
  repeat split.
  - unfold is_finalized in *. now rewrite Hm.
  - exact Ht.
  - exact Hport.
Qed.

(** [Finalize] succeeds on a plant that is not finalized and is not a
    geometry source. *)
Lemma Finalize_without_geometry (w : World) :
  is_finalized (plant w) = false ->
  geometry_source_is_registered (plant w) = false ->
  exists w', Finalize None w = (Ok tt, w').
Proof.
  intros Hf Hsrc. unfold Finalize, St.bind at 1, St.gets.
  unfold St.bind at 1, St.lift, MultibodyTree_Finalize.
  unfold is_finalized in Hf. rewrite Hf.
  unfold St.bind at 1, St.on_plant at 1, St.modify.
  set (w1 := {| plant := _; engines := engines w |}).
  assert (Hsrc1 : geometry_source_is_registered (plant w1) = false)
    by exact Hsrc.
  unfold St.bind at 1, FilterAdjacentBodies, St.bind at 1, St.gets.
  rewrite Hsrc1. cbn [St.ret].
  unfold St.bind at 1, ExcludeCollisionsWithVisualGeometry, St.bind at 1,
    St.gets.
  rewrite Hsrc1. cbn [St.ret].
  unfold St.on_plant.
  destruct (FinalizePlantOnly_spec (plant w1) eq_refl) as (p' & Hfin & _).
  rewrite Hfin. eexists. reflexivity.
Qed.

(** C9, as the code has it.  On a plant that [Finalize] has finalized,
    [get_contact_results_output_port] returns the contact results output port
    when the plant is discrete, and raises the failure of its guard
    [is_discrete()] when the plant is continuous. *)
Theorem get_contact_results_output_port_after_Finalize
    (scene_graph : SceneGraphPtr) (w w' : World) :
  Finalize scene_graph w = (Ok tt, w') ->
  (is_discrete (plant w') = true ->
   get_contact_results_output_port (plant w')
   = Ok (AbstractOutputPort CalcContactResultsOutput_calc)) /\
  (is_discrete (plant w') = false ->
   get_contact_results_output_port (plant w')
   = Raise (throw_unless "get_contact_results_output_port" "is_discrete()")).
Proof.
  intros Hrun. destruct (Finalize_spec _ _ _ Hrun) as (Hf & _ & Hport).
  unfold get_contact_results_output_port.
  rewrite ThrowIfNotFinalized_finalized by assumption.
  split; intros Hd; rewrite Hd; cbn; [exact Hport | reflexivity].
Qed.

End ContactResultsPort.

Section ContactResultsPortExamples.
#[local] Existing Instance Example.collaborators.

Lemma MultibodyPlant_new_nonnegative (time_step : R) :
  0 <= time_step ->
  exists p, MultibodyPlant_new time_step = Ok p /\
            time_step_ p = time_step /\ is_finalized p = false /\
            geometry_source_is_registered p = false.
Proof.
  intros Hpos. unfold MultibodyPlant_new.
  rewrite bool_decide_eq_true_2 by lra. cbn.
  eexists. split; [reflexivity |]. repeat split.
Qed.

Lemma get_contact_results_output_port_after_Finalize_witness :
  exists p w',
    MultibodyPlant_new (1 / 1000) = Ok p /\
    Finalize None {| plant := p; engines := ∅ |} = (Ok tt, w') /\
    is_discrete (plant w') = true /\
    get_contact_results_output_port (plant w')
    = Ok (AbstractOutputPort CalcContactResultsOutput_calc).
Proof.
  destruct (MultibodyPlant_new_nonnegative (1 / 1000) ltac:(lra))
    as (p & Hnew & Hstep & Hf & Hsrc).
  destruct (Finalize_without_geometry {| plant := p; engines := ∅ |} Hf Hsrc)
    as (w' & Hrun).
  exists p, w'. split; [exact Hnew |]. split; [exact Hrun |].
  assert (Hd : is_discrete (plant w') = true).
  { destruct (Finalize_spec _ _ _ Hrun) as (_ & Hstep' & _).
    unfold is_discrete. cbn [plant] in Hstep'. rewrite Hstep', Hstep.
    apply bool_decide_eq_true_2. lra. }
  split; [exact Hd |].
  now apply (get_contact_results_output_port_after_Finalize None _ w' Hrun).
Defined.

(** The continuous plant of the example is finalized, and asking it for the
    contact results port raises. *)
Lemma get_contact_results_output_port_continuous_counterexample :
  is_finalized (Example.finalized_plant 0 1 1) = true /\
  time_step_ (Example.finalized_plant 0 1 1) = 0 /\
  get_contact_results_output_port (Example.finalized_plant 0 1 1)
  = Raise (throw_unless "get_contact_results_output_port" "is_discrete()") /\
  ~ (exists port,
       get_contact_results_output_port (Example.finalized_plant 0 1 1)
       = Ok port).
Proof.
  assert (Hraise :
    get_contact_results_output_port (Example.finalized_plant 0 1 1)
    = Raise (throw_unless "get_contact_results_output_port" "is_discrete()")).
  { unfold get_contact_results_output_port, is_discrete. cbn.
    rewrite bool_decide_eq_false_2 by lra. reflexivity. }
  repeat split; [exact Hraise |].
  intros (port & Hport). rewrite Hraise in Hport. discriminate.
Qed.

(** The same happens on the plant that the constructor and [Finalize]
    produce for a zero time step. *)
Lemma get_contact_results_output_port_raises_after_Finalize :
  exists p w',
    MultibodyPlant_new 0 = Ok p /\
    Finalize None {| plant := p; engines := ∅ |} = (Ok tt, w') /\
    is_finalized (plant w') = true /\
    get_contact_results_output_port (plant w')
    = Raise (throw_unless "get_contact_results_output_port" "is_discrete()").
Proof.
  destruct (MultibodyPlant_new_nonnegative 0 ltac:(lra))
    as (p & Hnew & Hstep & Hf & Hsrc).
  destruct (Finalize_without_geometry {| plant := p; engines := ∅ |} Hf Hsrc)
    as (w' & Hrun).
  exists p, w'. split; [exact Hnew |]. split; [exact Hrun |].
  destruct (Finalize_spec _ _ _ Hrun) as (Hf' & Hstep' & Hport).
  split; [exact Hf' |].
  unfold get_contact_results_output_port.
  rewrite ThrowIfNotFinalized_finalized by assumption.
  unfold is_discrete. cbn [plant] in Hstep'. rewrite Hstep', Hstep.
  rewrite bool_decide_eq_false_2 by lra. reflexivity.
Qed.

End ContactResultsPortExamples.

(** *** Loops *)

Section Loops.

Lemma for_each_lookup {A B : Type} (f : A -> result B) (xs : list A)
    (ys : list B) (i : nat) (x : A) :
  for_each f xs = Ok ys -> xs !! i = Some x ->
  exists y, f x = Ok y /\ ys !! i = Some y.
Proof.
  revert ys i. induction xs as [| x0 xs IH]; intros ys i Hrun Hx.
  - discriminate.
  - cbn in Hrun. destruct (f x0) as [y0 |] eqn:Hy0; [| discriminate].
    cbn in Hrun. destruct (for_each f xs) as [ys0 |] eqn:Hys; [| discriminate].
    cbn in Hrun. injection Hrun as <-.
    destruct i as [| i]; cbn in Hx.
    + injection Hx as <-. now exists y0.
    + destruct (IH ys0 i eq_refl Hx) as (y & Hy & Hl). now exists y.
Qed.

Lemma for_each_total {A B : Type} (f : A -> result B) (xs : list A) :
  Forall (fun x => exists y, f x = Ok y) xs ->
  exists ys, for_each f xs = Ok ys.
Proof.
  induction 1 as [| x xs (y & Hy) _ (ys & Hys)]; cbn.
  - now exists [].
  - rewrite Hy. cbn. rewrite Hys. cbn. now exists (y :: ys).
Qed.

Lemma for_each_length {A B : Type} (f : A -> result B) (xs : list A)
    (ys : list B) :
  for_each f xs = Ok ys -> length ys = length xs.
Proof.
  revert ys. induction xs as [| x xs IH]; intros ys Hrun; cbn in Hrun.
  - now injection Hrun as <-.
  - destruct (f x) as [y |]; [| discriminate]. cbn in Hrun.
    destruct (for_each f xs) as [ys0 |]; [| discriminate]. cbn in Hrun.
    injection Hrun as <-. cbn. f_equal. now apply IH.
Qed.

Lemma for_each_map {A B : Type} (f : A -> result B) (g : A -> B)
    (xs : list A) :
  Forall (fun x => f x = Ok (g x)) xs -> for_each f xs = Ok (map g xs).
Proof.
  induction 1 as [| x xs Hx _ IH]; cbn; [reflexivity |].
  rewrite Hx. cbn. rewrite IH. reflexivity.
Qed.

Lemma pairs_of_rows_lookup {C : Type} (a b : C -> VectorX) (l : list C)
    (i : nat) (c : C) :
  l !! i = Some c ->
  concat (map (fun c => [a c; b c]) l) !! (2 * i)%nat = Some (a c) /\
  concat (map (fun c => [a c; b c]) l) !! (2 * i + 1)%nat = Some (b c).
Proof.
  revert i. induction l as [| c0 l IH]; intros i Hc; [discriminate |].
  destruct i as [| i]; cbn in Hc.
  - injection Hc as <-. split; reflexivity.
  - destruct (IH i Hc) as (Ha & Hb).
    replace (2 * S i)%nat with (S (S (2 * i))) by lia.
    replace (S (S (2 * i)) + 1)%nat with (S (S (2 * i + 1))) by lia.
    cbn [map concat app lookup list_lookup]. split; assumption.
Qed.

End Loops.

(** *** Linear algebra on rows *)

Section RowAlgebra.

Lemma dot_scale (s : R) (a v : VectorX) :
  VecX.dot (VecX.scale s a) v = s * VecX.dot a v.
Proof.
  unfold VecX.dot, VecX.scale. revert v.
  induction a as [| x a IH]; intros v; cbn; [ring |].
  destruct v as [| y v]; cbn; [ring |]. rewrite IH. ring.
Qed.

Lemma dot_add (a b v : VectorX) :
  length a = length b ->
  VecX.dot (VecX.add a b) v = VecX.dot a v + VecX.dot b v.
Proof.
  unfold VecX.dot, VecX.add. revert b v.
  induction a as [| x a IH]; intros b v Hlen; destruct b as [| y b];
    try discriminate; cbn; [ring |].
  destruct v as [| z v]; cbn; [ring |].
  rewrite IH by (cbn in Hlen; lia). ring.
Qed.

Lemma dot_sub (a b v : VectorX) :
  length a = length b ->
  VecX.dot (VecX.sub a b) v = VecX.dot a v - VecX.dot b v.
Proof.
  unfold VecX.dot, VecX.sub. revert b v.
  induction a as [| x a IH]; intros b v Hlen; destruct b as [| y b];
    try discriminate; cbn; [ring |].
  destruct v as [| z v]; cbn; [ring |].
  rewrite IH by (cbn in Hlen; lia). ring.
Qed.

Lemma length_add (a b : VectorX) :
  length a = length b -> length (VecX.add a b) = length a.
Proof. intros Hl. unfold VecX.add. rewrite length_zip_with. lia. Qed.

Lemma length_sub (a b : VectorX) :
  length a = length b -> length (VecX.sub a b) = length a.
Proof. intros Hl. unfold VecX.sub. rewrite length_zip_with. lia. Qed.

Lemma length_scale (s : R) (a : VectorX) :
  length (VecX.scale s a) = length a.
Proof. unfold VecX.scale. apply length_map. Qed.

(** [(a^T J) v = a . (J v)] *)
Lemma left_mul_dot (a : Vector3) (J : Matrix3X) (v : VectorX) (n : nat) :
  Mat3X.rows_have n J ->
  VecX.dot (Mat3X.left_mul a J) v = Vec3.dot a (Mat3X.mul J v).
Proof.
  intros (Hx & Hy & Hz). unfold Mat3X.left_mul, Mat3X.mul, Vec3.dot. cbn.
  rewrite !dot_add, !dot_scale.
  - reflexivity.
  - rewrite !length_scale. congruence.
  - rewrite length_add, !length_scale; rewrite ?length_scale; congruence.
Qed.

Lemma sub_rows_have (n : nat) (A B : Matrix3X) :
  Mat3X.rows_have n A -> Mat3X.rows_have n B ->
  Mat3X.rows_have n (Mat3X.sub A B).
Proof.
  intros (Ax & Ay & Az) (Bx & By & Bz). unfold Mat3X.rows_have, Mat3X.sub.
  cbn. rewrite !length_sub; rewrite ?Ax, ?Ay, ?Az; auto.
Qed.

Lemma mul_sub (n : nat) (A B : Matrix3X) (v : VectorX) :
  Mat3X.rows_have n A -> Mat3X.rows_have n B ->
  Mat3X.mul (Mat3X.sub A B) v = Vec3.sub (Mat3X.mul A v) (Mat3X.mul B v).
Proof.
  intros (Ax & Ay & Az) (Bx & By & Bz). unfold Mat3X.mul, Mat3X.sub, Vec3.sub.
  cbn [row_x row_y row_z x_ y_ z_].
  rewrite !dot_sub by congruence. reflexivity.
Qed.

End RowAlgebra.

(** *** Contact Jacobians *)

Section ContactJacobians.
Context `{Collaborators}.

Lemma get_body_in_range (p : MultibodyPlant) (i : BodyIndex) :
  (i < num_bodies p)%nat -> exists body, get_body p i = Ok body.
Proof.
  intros Hi. unfold get_body, vector_index, num_bodies in *.
  destruct (lookup_lt_is_Some_2 (tree_bodies (model_ p)) i Hi) as (b & Hb).
  rewrite Hb. now exists b.
Qed.

Lemma normal_row_registered (p : MultibodyPlant) (context : Context)
    (pair : PenetrationAsPointPair) (bodyA bodyB : BodyIndex) :
  geometry_id_to_body_index_ (geometry_ p) !! id_A pair = Some bodyA ->
  geometry_id_to_body_index_ (geometry_ p) !! id_B pair = Some bodyB ->
  (bodyA < num_bodies p)%nat -> (bodyB < num_bodies p)%nat ->
  normal_row p context pair
  = Ok (Mat3X.left_mul (nhat_BA_W pair)
          (Mat3X.sub
             (CalcPointsGeometricJacobianExpressedInWorld (model_ p) context
                bodyA (p_WCa pair))
             (CalcPointsGeometricJacobianExpressedInWorld (model_ p) context
                bodyB (p_WCb pair)))).
Proof.
  intros HA HB HinA HinB. unfold normal_row, map_at. cbn zeta.
  destruct (get_body_in_range p bodyA HinA) as (bA & HbA).
  destruct (get_body_in_range p bodyB HinB) as (bB & HbB).
  rewrite HA. cbn. rewrite HbA. cbn. rewrite HB. cbn. rewrite HbB. reflexivity.
Qed.

Lemma tangent_rows_registered (p : MultibodyPlant) (context : Context)
    (pair : PenetrationAsPointPair) (bodyA bodyB : BodyIndex) :
  geometry_id_to_body_index_ (geometry_ p) !! id_A pair = Some bodyA ->
  geometry_id_to_body_index_ (geometry_ p) !! id_B pair = Some bodyB ->
  (bodyA < num_bodies p)%nat -> (bodyB < num_bodies p)%nat ->
  0 <= depth pair ->
  let Jv_WAc :=
    CalcPointsGeometricJacobianExpressedInWorld (model_ p) context
      bodyA (p_WCa pair) in
  let Jv_WBc :=
    CalcPointsGeometricJacobianExpressedInWorld (model_ p) context
      bodyB (p_WCb pair) in
  let R_WC := ComputeBasisFromAxis 2 (nhat_BA_W pair) in
  tangent_rows p context pair
  = Ok (R_WC,
        (Mat3X.left_mul (col0 R_WC) (Mat3X.sub Jv_WBc Jv_WAc),
         Mat3X.left_mul (col1 R_WC) (Mat3X.sub Jv_WBc Jv_WAc))).
Proof.
  intros HA HB HinA HinB Hx. unfold tangent_rows, map_at, DRAKE_ASSERT.
  cbn zeta.
  destruct (get_body_in_range p bodyA HinA) as (bA & HbA).
  destruct (get_body_in_range p bodyB HinB) as (bB & HbB).
  rewrite HA. cbn. rewrite HbA. cbn. rewrite HB. cbn. rewrite HbB. cbn.
  destruct (decide (depth pair >= 0)) as [_ | Hn]; [reflexivity | lra].
Qed.

(** C4, as the code has it.  When the geometries of every point pair are
    registered, both Jacobians are computed, and for every contact [i]:
    row [i] of [Jn] is [nhat_BA_W^T (Jv_WAc - Jv_WBc)]; rows [2 i] and
    [2 i + 1] of [Jt] are [that1^T (Jv_WBc - Jv_WAc)] and
    [that2^T (Jv_WBc - Jv_WAc)], with [that1], [that2] the first two columns
    of the contact frame computed from the normal.  The normal row uses the
    difference [A - B], so [Jn v] is the opposite of the speed at which the
    pair closes: [Jn v > 0] exactly when the bodies at contact [i] separate. *)
Theorem contact_jacobian_rows (p : MultibodyPlant) (context : Context)
    (point_pairs : list PenetrationAsPointPair) :
  Forall (fun pair => pair_is_registered p pair /\ 0 <= depth pair)
         point_pairs ->
  exists Jn Jt R_WC_set,
    CalcNormalSeparationVelocitiesJacobian p context point_pairs = Ok Jn /\
    CalcTangentVelocitiesJacobian p context point_pairs = Ok (Jt, R_WC_set) /\
    forall i pair, point_pairs !! i = Some pair ->
    exists bodyA bodyB Jn_i,
      geometry_id_to_body_index_ (geometry_ p) !! id_A pair = Some bodyA /\
      geometry_id_to_body_index_ (geometry_ p) !! id_B pair = Some bodyB /\
      let Jv_WAc :=
        CalcPointsGeometricJacobianExpressedInWorld (model_ p) context
          bodyA (p_WCa pair) in
      let Jv_WBc :=
        CalcPointsGeometricJacobianExpressedInWorld (model_ p) context
          bodyB (p_WCb pair) in
      let R_WC := ComputeBasisFromAxis 2 (nhat_BA_W pair) in
      Jn_i = Mat3X.left_mul (nhat_BA_W pair) (Mat3X.sub Jv_WAc Jv_WBc) /\
      Jn !! i = Some Jn_i /\
      Jt !! (2 * i)%nat
      = Some (Mat3X.left_mul (col0 R_WC) (Mat3X.sub Jv_WBc Jv_WAc)) /\
      Jt !! (2 * i + 1)%nat
      = Some (Mat3X.left_mul (col1 R_WC) (Mat3X.sub Jv_WBc Jv_WAc)) /\
      R_WC_set !! i = Some R_WC /\
      forall v,
        Mat3X.rows_have (length v) Jv_WAc ->
        Mat3X.rows_have (length v) Jv_WBc ->
        VecX.dot Jn_i v
        = - approach_speed (nhat_BA_W pair)
              (Mat3X.mul Jv_WAc v) (Mat3X.mul Jv_WBc v) /\
        (0 < VecX.dot Jn_i v <->
         approach_speed (nhat_BA_W pair)
           (Mat3X.mul Jv_WAc v) (Mat3X.mul Jv_WBc v) < 0).
Proof.
  intros Hreg.
  destruct (for_each_total (normal_row p context) point_pairs) as (Jn & HJn).
  { eapply Forall_impl; [exact Hreg |].
    intros pair ((bA & bB & HA & HB & HinA & HinB) & _).
    eexists. now apply (normal_row_registered p context pair bA bB). }
  destruct (for_each_total (tangent_rows p context) point_pairs)
    as (per_contact & Hper).
  { eapply Forall_impl; [exact Hreg |].
    intros pair ((bA & bB & HA & HB & HinA & HinB) & Hx).
    eexists. now apply (tangent_rows_registered p context pair bA bB). }
  exists Jn. eexists. eexists.
  split; [exact HJn |].
  split.
  { unfold CalcTangentVelocitiesJacobian. rewrite Hper. reflexivity. }
  intros i pair Hpair.
  rewrite Forall_forall in Hreg.
  destruct (Hreg pair) as ((bA & bB & HA & HB & HinA & HinB) & Hx).
  { apply list_elem_of_lookup. now exists i. }
  destruct (for_each_lookup _ _ _ _ _ HJn Hpair) as (row & Hrow & Hlrow).
  destruct (for_each_lookup _ _ _ _ _ Hper Hpair) as (c & Hc & Hlc).
  rewrite (normal_row_registered p context pair bA bB) in Hrow by assumption.
  rewrite (tangent_rows_registered p context pair bA bB) in Hc by assumption.
  injection Hrow as <-. injection Hc as <-.
  exists bA, bB. eexists.
  split; [exact HA |]. split; [exact HB |]. cbn zeta.
  split; [reflexivity |]. split; [exact Hlrow |].
  destruct (pairs_of_rows_lookup
              (fun c : Matrix3 * (VectorX * VectorX) => fst (snd c))
              (fun c => snd (snd c)) per_contact i _ Hlc) as (Ht1 & Ht2).
  split; [exact Ht1 |]. split; [exact Ht2 |].
  split; [now rewrite list_lookup_fmap, Hlc |].
  intros v HrA HrB.
  assert (Hdot :
    VecX.dot
      (Mat3X.left_mul (nhat_BA_W pair)
         (Mat3X.sub
            (CalcPointsGeometricJacobianExpressedInWorld (model_ p) context
               bA (p_WCa pair))
            (CalcPointsGeometricJacobianExpressedInWorld (model_ p) context
               bB (p_WCb pair)))) v
    = - approach_speed (nhat_BA_W pair)
          (Mat3X.mul
             (CalcPointsGeometricJacobianExpressedInWorld (model_ p) context
                bA (p_WCa pair)) v)
          (Mat3X.mul
             (CalcPointsGeometricJacobianExpressedInWorld (model_ p) context
                bB (p_WCb pair)) v)).
  { rewrite (left_mul_dot _ _ _ (length v)) by now apply sub_rows_have.
    rewrite (mul_sub (length v)) by assumption.
    unfold approach_speed, Vec3.dot, Vec3.sub. cbn. ring. }
  split; [exact Hdot |]. rewrite Hdot. split; lra.
Qed.

End ContactJacobians.

Section ContactJacobiansExamples.
#[local] Existing Instance Example.collaborators.

Lemma example_pairs_registered (time_step k d : R) :
  Forall (fun pair =>
            pair_is_registered (Example.finalized_plant time_step k d) pair /\
            0 <= depth pair)
         [Example.ball_on_ground; Example.box_on_ball].
Proof.
  repeat constructor.
  - exists 1%nat, 0%nat. repeat split; cbn; lia.
  - cbn. lra.
  - exists 2%nat, 1%nat. repeat split; cbn; lia.
  - cbn. lra.
Qed.

Lemma contact_jacobian_rows_witness :
  Forall (fun pair =>
            pair_is_registered (Example.finalized_plant (1 / 1000) 1 1) pair /\
            0 <= depth pair)
         [Example.ball_on_ground; Example.box_on_ball] /\
  exists Jn Jt R_WC_set,
    CalcNormalSeparationVelocitiesJacobian
      (Example.finalized_plant (1 / 1000) 1 1)
      (Example.context_with [1; 2; -1; 0] true
         [Example.ball_on_ground; Example.box_on_ball])
      [Example.ball_on_ground; Example.box_on_ball] = Ok Jn /\
    CalcTangentVelocitiesJacobian
      (Example.finalized_plant (1 / 1000) 1 1)
      (Example.context_with [1; 2; -1; 0] true
         [Example.ball_on_ground; Example.box_on_ball])
      [Example.ball_on_ground; Example.box_on_ball] = Ok (Jt, R_WC_set) /\
    length Jn = 2%nat.
Proof.
  split; [apply example_pairs_registered |].
  destruct (contact_jacobian_rows
              (Example.finalized_plant (1 / 1000) 1 1)
              (Example.context_with [1; 2; -1; 0] true
                 [Example.ball_on_ground; Example.box_on_ball])
              [Example.ball_on_ground; Example.box_on_ball]
              (example_pairs_registered (1 / 1000) 1 1))
    as (Jn & Jt & R_WC_set & HJn & HJt & _).
  exists Jn, Jt, R_WC_set. split; [exact HJn |]. split; [exact HJt |].
  now rewrite (for_each_length _ _ _ HJn).
Defined.

(** The ball falls onto the ground with speed [1]: the pair closes, its
    penetration grows, and yet [Jn v] is negative. *)
Lemma normal_jacobian_sign_counterexample :
  exists Jn Jn_0,
    CalcNormalSeparationVelocitiesJacobian
      (Example.finalized_plant (1 / 1000) 1 1)
      (Example.context_with [1; 2; -1; 0] true [Example.ball_on_ground])
      [Example.ball_on_ground] = Ok Jn /\
    Jn !! 0%nat = Some Jn_0 /\
    0 < approach_speed (nhat_BA_W Example.ball_on_ground)
          (Mat3X.mul (Example.jacobian 1) [-1; 0])
          (Mat3X.mul (Example.jacobian 0) [-1; 0]) /\
    VecX.dot Jn_0 [-1; 0] = -1 /\
    ~ (0 < VecX.dot Jn_0 [-1; 0] <->
       0 < approach_speed (nhat_BA_W Example.ball_on_ground)
             (Mat3X.mul (Example.jacobian 1) [-1; 0])
             (Mat3X.mul (Example.jacobian 0) [-1; 0])).
Proof.
  eexists. eexists.
  split; [reflexivity |]. split; [reflexivity |].
  assert (Happroach :
    approach_speed (nhat_BA_W Example.ball_on_ground)
      (Mat3X.mul (Example.jacobian 1) [-1; 0])
      (Mat3X.mul (Example.jacobian 0) [-1; 0]) = 1).
  { unfold approach_speed, Vec3.dot, Vec3.sub, Mat3X.mul, VecX.dot. cbn. ring. }
  assert (Hdot :
    VecX.dot
      (Mat3X.left_mul (nhat_BA_W Example.ball_on_ground)
         (Mat3X.sub (Example.jacobian 1) (Example.jacobian 0))) [-1; 0] = -1).
  { unfold VecX.dot, Mat3X.left_mul, Mat3X.sub, VecX.add, VecX.sub, VecX.scale.
    cbn. ring. }
  rewrite Happroach.
  split; [lra |]. split; [exact Hdot |].
  change (~ (0 < VecX.dot
                   (Mat3X.left_mul (nhat_BA_W Example.ball_on_ground)
                      (Mat3X.sub (Example.jacobian 1) (Example.jacobian 0)))
                   [-1; 0] <-> 0 < 1)).
  rewrite Hdot. intros [_ Hback]. pose proof (Hback ltac:(lra)). lra.
Qed.

End ContactJacobiansExamples.

(** *** Continuous contact forces: the penalty method *)

Section SpatialAlgebra.

Lemma Shift_back (F : SpatialForce.t) (p : Vector3) :
  SpatialForce.Shift (SpatialForce.Shift F p) (Vec3.neg p) = F.
Proof.
  destruct F as [[tx ty tz] [fx fy fz]], p as [px py pz].
  unfold SpatialForce.Shift, Vec3.sub, Vec3.cross, Vec3.neg. cbn.
  f_equal; f_equal; ring.
Qed.

Lemma Shift_neg (F : SpatialForce.t) (p : Vector3) :
  SpatialForce.Shift (SpatialForce.neg F) p
  = SpatialForce.neg (SpatialForce.Shift F p).
Proof.
  destruct F as [[tx ty tz] [fx fy fz]], p as [px py pz].
  unfold SpatialForce.Shift, SpatialForce.neg, Vec3.sub, Vec3.cross, Vec3.neg.
  cbn. f_equal; f_equal; ring.
Qed.

Lemma add_neg_Zero (F : SpatialForce.t) :
  SpatialForce.add F (SpatialForce.neg F) = SpatialForce.Zero.
Proof.
  destruct F as [[tx ty tz] [fx fy fz]].
  unfold SpatialForce.add, SpatialForce.neg, SpatialForce.Zero, Vec3.add,
    Vec3.neg, Vec3.Zero. cbn.
  f_equal; f_equal; ring.
Qed.

Lemma add_at_in_range (F_array : list SpatialForce.t) (i : nat)
    (F_i F : SpatialForce.t) :
  F_array !! i = Some F_i ->
  add_at F_array i F = Ok (<[i := SpatialForce.add F_i F]> F_array).
Proof. intros Hi. unfold add_at, vector_at. now rewrite Hi. Qed.

Lemma add_at_inv (F_array F_array' : list SpatialForce.t) (i : nat)
    (F : SpatialForce.t) :
  add_at F_array i F = Ok F_array' ->
  exists F_i, F_array !! i = Some F_i /\
              F_array' = <[i := SpatialForce.add F_i F]> F_array.
Proof.
  unfold add_at, vector_at. destruct (F_array !! i) as [F_i |]; cbn.
  - intros [= <-]. now exists F_i.
  - discriminate.
Qed.

End SpatialAlgebra.

Section NewtonThirdLaw.
Context `{Collaborators}.

(** C6. At a contact of the penalty method whose two bodies both differ
    from the world, the loop adds [F_AAo_W = F_AC_W.Shift(p_CoAo_W)] on the
    slot of [A] and [F_BBo_W = -F_AC_W.Shift(p_CoBo_W)] on the slot of [B].
    Shifted back to the contact point [C], the first is [F_AC_W] and the
    second is [-F_AC_W]: they are equal and opposite, their sum at [C] is
    zero. *)
Theorem newton_third_law_at_contact (p : MultibodyPlant)
    (pc : PositionKinematicsCache) (vc : VelocityKinematicsCache)
    (combined_friction_pairs : list CoulombFriction) (icontact : nat)
    (pair : PenetrationAsPointPair) (kin : ContactKinematics)
    (F_AC_W F_A : SpatialForce.t) (F_array : list SpatialForce.t) :
  contact_kinematics p pc vc pair = Ok kin ->
  contact_force_on_A p combined_friction_pairs icontact pair (v_AcBc_W kin)
  = Ok (Some F_AC_W) ->
  bodyA_index kin <> world_index ->
  bodyB_index kin <> world_index ->
  F_array !! bodyA_node_index kin = Some F_A ->
  (bodyB_node_index kin < length F_array)%nat ->
  let F_AAo_W := SpatialForce.Shift F_AC_W (p_CoAo_W kin) in
  let F_BBo_W := SpatialForce.neg (SpatialForce.Shift F_AC_W (p_CoBo_W kin)) in
  exists F_B,
    <[bodyA_node_index kin := SpatialForce.add F_A F_AAo_W]> F_array
      !! bodyB_node_index kin = Some F_B /\
    penalty_contact p pc vc combined_friction_pairs icontact pair
      (Some F_array)
    = Ok (Some (<[bodyB_node_index kin := SpatialForce.add F_B F_BBo_W]>
                  (<[bodyA_node_index kin := SpatialForce.add F_A F_AAo_W]>
                     F_array))) /\
    SpatialForce.Shift F_AAo_W (Vec3.neg (p_CoAo_W kin)) = F_AC_W /\
    SpatialForce.Shift F_BBo_W (Vec3.neg (p_CoBo_W kin))
    = SpatialForce.neg F_AC_W /\
    SpatialForce.add
      (SpatialForce.Shift F_AAo_W (Vec3.neg (p_CoAo_W kin)))
      (SpatialForce.Shift F_BBo_W (Vec3.neg (p_CoBo_W kin)))
    = SpatialForce.Zero.
Proof.
  intros Hkin Hforce HA HB HFA HinB F_AAo_W F_BBo_W.
  destruct (lookup_lt_is_Some_2
              (<[bodyA_node_index kin := SpatialForce.add F_A F_AAo_W]> F_array)
              (bodyB_node_index kin)) as (F_B & HFB).
  { now rewrite length_insert. }
  exists F_B. split; [exact HFB |].
  assert (HbackA :
    SpatialForce.Shift F_AAo_W (Vec3.neg (p_CoAo_W kin)) = F_AC_W)
    by apply Shift_back.
  assert (HbackB :
    SpatialForce.Shift F_BBo_W (Vec3.neg (p_CoBo_W kin))
    = SpatialForce.neg F_AC_W).
  { unfold F_BBo_W. rewrite Shift_neg. f_equal. apply Shift_back. }
  split; [| split; [exact HbackA | split; [exact HbackB |]]].
  - unfold penalty_contact. rewrite Hkin. cbn. rewrite Hforce. cbn.
    unfold accumulate_contact_force.
    rewrite !bool_decide_eq_true_2 by assumption.
    fold F_AAo_W. fold F_BBo_W.
    rewrite (add_at_in_range _ _ _ _ HFA). cbn.
    rewrite (add_at_in_range _ _ _ _ HFB). reflexivity.
  - rewrite HbackA, HbackB. apply add_neg_Zero.
Qed.

End NewtonThirdLaw.

Section PenaltyMethod.
Context `{Collaborators}.

Lemma kNonZeroSqd_value : kNonZeroSqd = 1 / 10 ^ 28.
Proof.
  unfold kNonZeroSqd.
  replace (10 ^ 28) with (10 ^ 14 * 10 ^ 14) by (rewrite <- pow_add; reflexivity).
  field.
Qed.

Lemma contact_force_not_positive (p : MultibodyPlant)
    (frictions : list CoulombFriction) (icontact : nat)
    (pair : PenetrationAsPointPair) (v : Vector3) :
  ~ fn_AC p pair v > 0 ->
  contact_force_on_A p frictions icontact pair v = Ok None.
Proof.
  intros Hfn. unfold contact_force_on_A. cbn zeta.
  destruct (decide (fn_AC p pair v > 0)); [contradiction | reflexivity].
Qed.

Lemma contact_force_sticking (p : MultibodyPlant)
    (frictions : list CoulombFriction) (icontact : nat)
    (pair : PenetrationAsPointPair) (v : Vector3) :
  fn_AC p pair v > 0 ->
  ~ Vec3.squaredNorm (vt_AcBc_W pair v) > kNonZeroSqd ->
  contact_force_on_A p frictions icontact pair v
  = Ok (Some (SpatialForce.make Vec3.Zero
                (Vec3.add (Vec3.scale (fn_AC p pair v) (nhat_BA_W pair))
                          Vec3.Zero))).
Proof.
  intros Hfn Hvt. unfold contact_force_on_A. cbn zeta.
  destruct (decide (fn_AC p pair v > 0)); [| contradiction].
  destruct (decide (Vec3.squaredNorm (vt_AcBc_W pair v) > kNonZeroSqd));
    [contradiction | reflexivity].
Qed.

Lemma contact_force_sliding (p : MultibodyPlant)
    (frictions : list CoulombFriction) (icontact : nat)
    (pair : PenetrationAsPointPair) (v : Vector3)
    (friction : CoulombFriction) (mu : R) :
  fn_AC p pair v > 0 ->
  Vec3.squaredNorm (vt_AcBc_W pair v) > kNonZeroSqd ->
  frictions !! icontact = Some friction ->
  Stribeck.ComputeFrictionCoefficient (stribeck_model_ p)
    (Vec3.norm (vt_AcBc_W pair v)) friction = Ok mu ->
  contact_force_on_A p frictions icontact pair v
  = Ok (Some (SpatialForce.make Vec3.Zero
                (Vec3.add (Vec3.scale (fn_AC p pair v) (nhat_BA_W pair))
                   (Vec3.scale (mu * fn_AC p pair v)
                      (Vec3.div (vt_AcBc_W pair v)
                                (Vec3.norm (vt_AcBc_W pair v))))))).
Proof.
  intros Hfn Hvt Hfr Hmu. unfold contact_force_on_A. cbn zeta.
  destruct (decide (fn_AC p pair v > 0)); [| contradiction].
  destruct (decide (Vec3.squaredNorm (vt_AcBc_W pair v) > kNonZeroSqd));
    [| contradiction].
  unfold vector_index. rewrite Hfr. cbn.
  fold (Vec3.norm (vt_AcBc_W pair v)). rewrite Hmu. reflexivity.
Qed.

Lemma norm_nonneg (a : Vector3) : 0 <= Vec3.norm a.
Proof. unfold Vec3.norm. apply sqrt_pos. Qed.

Lemma for_indexed_preserves {A St : Type} (P : St -> Prop)
    (body : nat -> A -> St -> result St) (xs : list A) :
  (forall i x s s', body i x s = Ok s' -> P s -> P s') ->
  forall i s s', for_indexed body i xs s = Ok s' -> P s -> P s'.
Proof.
  intros Hbody. induction xs as [| x xs IH]; intros i s s' Hrun Hs; cbn in Hrun.
  - now injection Hrun as <-.
  - destruct (body i x s) as [s1 |] eqn:Hb; [| discriminate]. cbn in Hrun.
    eapply IH; [exact Hrun |]. eapply Hbody; eassumption.
Qed.

Lemma contact_kinematics_nodes (p : MultibodyPlant)
    (pc : PositionKinematicsCache) (vc : VelocityKinematicsCache)
    (pair : PenetrationAsPointPair) (kin : ContactKinematics) :
  contact_kinematics p pc vc pair = Ok kin ->
  exists bodyA bodyB,
    tree_bodies (model_ p) !! bodyA_index kin = Some bodyA /\
    tree_bodies (model_ p) !! bodyB_index kin = Some bodyB /\
    bodyA_node_index kin = node_index bodyA /\
    bodyB_node_index kin = node_index bodyB.
Proof.
  unfold contact_kinematics, map_at, get_body, vector_index, DRAKE_ASSERT.
  cbn zeta.
  destruct (geometry_id_to_body_index_ (geometry_ p) !! id_A pair) as [iA |];
    cbn [mbind result_bind]; [| discriminate].
  destruct (geometry_id_to_body_index_ (geometry_ p) !! id_B pair) as [iB |];
    cbn [mbind result_bind]; [| discriminate].
  destruct (tree_bodies (model_ p) !! iA) as [bA |] eqn:HbA;
    cbn [mbind result_bind]; [| discriminate].
  destruct (tree_bodies (model_ p) !! iB) as [bB |] eqn:HbB;
    cbn [mbind result_bind]; [| discriminate].
  destruct (decide (depth pair >= 0)); cbn [mbind result_bind]; [| discriminate].
  destruct (pc !! node_index bA); cbn [mbind result_bind]; [| discriminate].
  destruct (pc !! node_index bB); cbn [mbind result_bind]; [| discriminate].
  destruct (vc !! node_index bA); cbn [mbind result_bind]; [| discriminate].
  destruct (vc !! node_index bB); cbn [mbind result_bind]; [| discriminate].
  intros [= <-]. cbn. now exists bA, bB.
Qed.

Lemma accumulate_keeps_other_slots (kin : ContactKinematics)
    (F_AC_W : SpatialForce.t) (F_array F_array' : list SpatialForce.t)
    (j : nat) :
  accumulate_contact_force kin F_AC_W (Some F_array) = Ok (Some F_array') ->
  (bodyA_index kin <> world_index -> j <> bodyA_node_index kin) ->
  (bodyB_index kin <> world_index -> j <> bodyB_node_index kin) ->
  F_array' !! j = F_array !! j.
Proof.
  unfold accumulate_contact_force. intros Hrun HjA HjB.
  assert (HA : exists F1,
             (if bool_decide (bodyA_index kin <> world_index)
              then add_at F_array (bodyA_node_index kin)
                     (SpatialForce.Shift F_AC_W (p_CoAo_W kin))
              else Ok F_array) = Ok F1 /\ F1 !! j = F_array !! j).
  { destruct (bool_decide (bodyA_index kin <> world_index)) eqn:HdA.
    - apply bool_decide_eq_true_1 in HdA.
      destruct (add_at F_array (bodyA_node_index kin)
                  (SpatialForce.Shift F_AC_W (p_CoAo_W kin)))
        as [F1 |] eqn:Hadd; [| discriminate].
      exists F1. split; [reflexivity |].
      apply add_at_inv in Hadd as (F_i & _ & ->).
      apply list_lookup_insert_ne. intros Heq. now apply (HjA HdA).
    - now exists F_array. }
  destruct HA as (F1 & HA & HF1). cbn zeta in Hrun. rewrite HA in Hrun.
  cbn in Hrun.
  destruct (bool_decide (bodyB_index kin <> world_index)) eqn:HdB.
  - apply bool_decide_eq_true_1 in HdB.
    destruct (add_at F1 (bodyB_node_index kin)
                (SpatialForce.neg (SpatialForce.Shift F_AC_W (p_CoBo_W kin))))
      as [F2 |] eqn:Hadd; [| discriminate].
    cbn in Hrun. injection Hrun as <-.
    apply add_at_inv in Hadd as (F_i & _ & ->).
    rewrite list_lookup_insert_ne; [exact HF1 |].
    intros Heq. now apply (HjB HdB).
  - cbn in Hrun. injection Hrun as <-. exact HF1.
Qed.

Lemma accumulate_on_array (kin : ContactKinematics) (F_AC_W : SpatialForce.t)
    (F_array : list SpatialForce.t) (r : option (list SpatialForce.t)) :
  accumulate_contact_force kin F_AC_W (Some F_array) = Ok r ->
  exists F_array', r = Some F_array'.
Proof.
  unfold accumulate_contact_force. cbn zeta.
  destruct (if bool_decide (bodyA_index kin <> world_index) then _ else _)
    as [F1 |]; [| discriminate]. cbn.
  destruct (if bool_decide (bodyB_index kin <> world_index) then _ else _)
    as [F2 |]; [| discriminate]. cbn.
  intros [= <-]. now exists F2.
Qed.

(** One turn of the loop leaves the slot of the world body as it is. *)
Lemma penalty_contact_keeps_world_slot (p : MultibodyPlant)
    (pc : PositionKinematicsCache) (vc : VelocityKinematicsCache)
    (frictions : list CoulombFriction) (icontact : nat)
    (pair : PenetrationAsPointPair) (world : Body)
    (F0 : list SpatialForce.t) (s s' : option (list SpatialForce.t)) :
  node_indices_distinct (model_ p) ->
  tree_bodies (model_ p) !! world_index = Some world ->
  penalty_contact p pc vc frictions icontact pair s = Ok s' ->
  (exists F, s = Some F /\ F !! node_index world = F0 !! node_index world) ->
  (exists F', s' = Some F' /\ F' !! node_index world = F0 !! node_index world).
Proof.
  intros Hdist Hworld Hrun (F & -> & HF).
  unfold penalty_contact in Hrun.
  destruct (contact_kinematics p pc vc pair) as [kin |] eqn:Hkin;
    [| discriminate]. cbn in Hrun.
  destruct (contact_force_on_A p frictions icontact pair (v_AcBc_W kin))
    as [[F_AC_W |] |]; cbn in Hrun; [| | discriminate].
  - destruct (accumulate_on_array _ _ _ _ Hrun) as (F' & ->).
    exists F'. split; [reflexivity |]. rewrite <- HF.
    destruct (contact_kinematics_nodes _ _ _ _ _ Hkin)
      as (bA & bB & HbA & HbB & HnA & HnB).
    eapply accumulate_keeps_other_slots; [exact Hrun | |].
    + intros HA Heq. apply HA. rewrite HnA in Heq.
      exact (Hdist _ _ _ _ HbA Hworld (eq_sym Heq)).
    + intros HB Heq. apply HB. rewrite HnB in Heq.
      exact (Hdist _ _ _ _ HbB Hworld (eq_sym Heq)).
  - injection Hrun as <-. now exists F.
Qed.

Lemma CalcAndAddContactForcesByPenaltyMethod_keeps_world_slot
    (p : MultibodyPlant)
    (pc : PositionKinematicsCache) (vc : VelocityKinematicsCache)
    (point_pairs : list PenetrationAsPointPair) (world : Body)
    (F : list SpatialForce.t) (r : option (list SpatialForce.t)) :
  node_indices_distinct (model_ p) ->
  tree_bodies (model_ p) !! world_index = Some world ->
  CalcAndAddContactForcesByPenaltyMethod p pc vc point_pairs (Some F) = Ok r ->
  exists F', r = Some F' /\ F' !! node_index world = F !! node_index world.
Proof.
  intros Hdist Hworld. unfold CalcAndAddContactForcesByPenaltyMethod.
  destruct (bool_decide (num_collision_geometries p = 0%nat)).
  - intros [= <-]. now exists F.
  - destruct (CalcCombinedFrictionCoefficients p point_pairs)
      as [frictions |]; cbn [mbind result_bind]; [| discriminate].
    intros Hrun.
    apply (for_indexed_preserves
             (fun s => exists F', s = Some F' /\
                        F' !! node_index world = F !! node_index world)
             (penalty_contact p pc vc frictions) point_pairs)
      with (i := 0%nat) (s := Some F).
    + intros i pair s s' Hstep Hs.
      now apply (penalty_contact_keeps_world_slot p pc vc frictions i pair
                   world F s s').
    + exact Hrun.
    + now exists F.
Qed.

Lemma contact_kinematics_spelled (p : MultibodyPlant)
    (pc : PositionKinematicsCache) (vc : VelocityKinematicsCache)
    (pair : PenetrationAsPointPair) (kin : ContactKinematics) :
  contact_kinematics p pc vc pair = Ok kin ->
  exists iA iB bodyA bodyB X_WA X_WB V_WA V_WB,
    geometry_id_to_body_index_ (geometry_ p) !! id_A pair = Some iA /\
    geometry_id_to_body_index_ (geometry_ p) !! id_B pair = Some iB /\
    tree_bodies (model_ p) !! iA = Some bodyA /\
    tree_bodies (model_ p) !! iB = Some bodyB /\
    pc !! node_index bodyA = Some X_WA /\
    pc !! node_index bodyB = Some X_WB /\
    vc !! node_index bodyA = Some V_WA /\
    vc !! node_index bodyB = Some V_WB /\
    depth pair >= 0 /\
    let p_WC := Vec3.scale (1 / 2) (Vec3.add (p_WCa pair) (p_WCb pair)) in
    let p_CoAo := Vec3.sub (translation X_WA) p_WC in
    let p_CoBo := Vec3.sub (translation X_WB) p_WC in
    let v_WAc :=
      SpatialVelocity.translational
        (SpatialVelocity.Shift V_WA (Vec3.neg p_CoAo)) in
    let v_WBc :=
      SpatialVelocity.translational
        (SpatialVelocity.Shift V_WB (Vec3.neg p_CoBo)) in
    kin = {| bodyA_index := iA; bodyB_index := iB;
             bodyA_node_index := node_index bodyA;
             bodyB_node_index := node_index bodyB;
             p_CoAo_W := p_CoAo; p_CoBo_W := p_CoBo;
             v_AcBc_W := Vec3.sub v_WBc v_WAc |}.
Proof.
  unfold contact_kinematics, map_at, get_body, vector_index, DRAKE_ASSERT.
  cbn zeta.
  destruct (geometry_id_to_body_index_ (geometry_ p) !! id_A pair) as [iA |];
    cbn [mbind result_bind]; [| discriminate].
  destruct (geometry_id_to_body_index_ (geometry_ p) !! id_B pair) as [iB |];
    cbn [mbind result_bind]; [| discriminate].
  destruct (tree_bodies (model_ p) !! iA) as [bA |] eqn:HbA;
    cbn [mbind result_bind]; [| discriminate].
  destruct (tree_bodies (model_ p) !! iB) as [bB |] eqn:HbB;
    cbn [mbind result_bind]; [| discriminate].
  destruct (decide (depth pair >= 0)) as [Hx | Hx];
    cbn [mbind result_bind]; [| discriminate].
  destruct (pc !! node_index bA) as [XA |] eqn:HXA;
    cbn [mbind result_bind]; [| discriminate].
  destruct (pc !! node_index bB) as [XB |] eqn:HXB;
    cbn [mbind result_bind]; [| discriminate].
  destruct (vc !! node_index bA) as [VA |] eqn:HVA;
    cbn [mbind result_bind]; [| discriminate].
  destruct (vc !! node_index bB) as [VB |] eqn:HVB;
    cbn [mbind result_bind]; [| discriminate].
  intros [= <-].
  exists iA, iB, bA, bB, XA, XB, VA, VB. repeat split; assumption.
Qed.

Lemma accumulate_spelled (kin : ContactKinematics) (F_AC_W : SpatialForce.t)
    (F_i : list SpatialForce.t) (r : option (list SpatialForce.t)) :
  accumulate_contact_force kin F_AC_W (Some F_i) = Ok r ->
  exists F_mid F_next,
    r = Some F_next /\
    (bodyA_index kin <> world_index ->
       exists F_A, F_i !! bodyA_node_index kin = Some F_A /\
         F_mid = <[bodyA_node_index kin :=
                     SpatialForce.add F_A
                       (SpatialForce.Shift F_AC_W (p_CoAo_W kin))]> F_i) /\
    (bodyA_index kin = world_index -> F_mid = F_i) /\
    (bodyB_index kin <> world_index ->
       exists F_B, F_mid !! bodyB_node_index kin = Some F_B /\
         F_next = <[bodyB_node_index kin :=
                      SpatialForce.add F_B
                        (SpatialForce.neg
                           (SpatialForce.Shift F_AC_W (p_CoBo_W kin)))]> F_mid) /\
    (bodyB_index kin = world_index -> F_next = F_mid).
Proof.
  unfold accumulate_contact_force. cbn zeta. intros Hrun.
  assert (HA : exists F_mid,
    (if bool_decide (bodyA_index kin <> world_index)
     then add_at F_i (bodyA_node_index kin)
            (SpatialForce.Shift F_AC_W (p_CoAo_W kin))
     else Ok F_i) = Ok F_mid).
  { destruct (if bool_decide (bodyA_index kin <> world_index)
              then add_at F_i (bodyA_node_index kin)
                     (SpatialForce.Shift F_AC_W (p_CoAo_W kin))
              else Ok F_i) as [F_mid |]; [now eexists | discriminate]. }
  destruct HA as [F_mid HA]. rewrite HA in Hrun. cbn [mbind result_bind] in Hrun.
  assert (HB : exists F_next,
    (if bool_decide (bodyB_index kin <> world_index)
     then add_at F_mid (bodyB_node_index kin)
            (SpatialForce.neg (SpatialForce.Shift F_AC_W (p_CoBo_W kin)))
     else Ok F_mid) = Ok F_next).
  { destruct (if bool_decide (bodyB_index kin <> world_index)
              then add_at F_mid (bodyB_node_index kin)
                     (SpatialForce.neg
                        (SpatialForce.Shift F_AC_W (p_CoBo_W kin)))
              else Ok F_mid) as [F_next |]; [now eexists | discriminate]. }
  destruct HB as [F_next HB]. rewrite HB in Hrun. cbn [mbind result_bind] in Hrun.
  injection Hrun as <-.
  exists F_mid, F_next. split; [reflexivity |].
  destruct (bool_decide (bodyA_index kin <> world_index)) eqn:HwA;
    [apply bool_decide_eq_true_1 in HwA | apply bool_decide_eq_false_1 in HwA];
    (destruct (bool_decide (bodyB_index kin <> world_index)) eqn:HwB;
     [apply bool_decide_eq_true_1 in HwB | apply bool_decide_eq_false_1 in HwB]).
  - apply add_at_inv in HA. apply add_at_inv in HB.
    repeat split; [intros _; exact HA | contradiction | intros _; exact HB
                  | contradiction].
  - apply add_at_inv in HA. injection HB as <-.
    repeat split; [intros _; exact HA | contradiction | contradiction].
  - injection HA as <-. apply add_at_inv in HB.
    repeat split; [contradiction | intros _; exact HB | contradiction].
  - injection HA as <-. injection HB as <-.
    repeat split; contradiction.
Qed.

Lemma penalty_contact_spelled (p : MultibodyPlant)
    (pc : PositionKinematicsCache) (vc : VelocityKinematicsCache)
    (frictions : list CoulombFriction) (i : nat)
    (pair : PenetrationAsPointPair) (F_i : list SpatialForce.t)
    (r : option (list SpatialForce.t)) :
  penalty_contact p pc vc frictions i pair (Some F_i) = Ok r ->
  exists bodyA_index bodyB_index bodyA bodyB X_WA X_WB V_WA V_WB F_next,
    r = Some F_next /\
    geometry_id_to_body_index_ (geometry_ p) !! id_A pair = Some bodyA_index /\
    geometry_id_to_body_index_ (geometry_ p) !! id_B pair = Some bodyB_index /\
    tree_bodies (model_ p) !! bodyA_index = Some bodyA /\
    tree_bodies (model_ p) !! bodyB_index = Some bodyB /\
    pc !! node_index bodyA = Some X_WA /\
    pc !! node_index bodyB = Some X_WB /\
    vc !! node_index bodyA = Some V_WA /\
    vc !! node_index bodyB = Some V_WB /\
    depth pair >= 0 /\
    let k := Penalty.stiffness (penalty_method_contact_parameters_ p) in
    let d := Penalty.damping (penalty_method_contact_parameters_ p) in
    let x := depth pair in
    let nhat := nhat_BA_W pair in
    let p_WC := Vec3.scale (1 / 2) (Vec3.add (p_WCa pair) (p_WCb pair)) in
    let p_CoAo_W := Vec3.sub (translation X_WA) p_WC in
    let p_CoBo_W := Vec3.sub (translation X_WB) p_WC in
    let v_WAc :=
      SpatialVelocity.translational
        (SpatialVelocity.Shift V_WA (Vec3.neg p_CoAo_W)) in
    let v_WBc :=
      SpatialVelocity.translational
        (SpatialVelocity.Shift V_WB (Vec3.neg p_CoBo_W)) in
    let vn := approach_speed nhat v_WAc v_WBc in
    let fn := k * x * (1 + d * vn) in
    let v_t := Vec3.sub (Vec3.sub v_WBc v_WAc) (Vec3.scale vn nhat) in
    (~ fn > 0 -> F_next = F_i) /\
    (fn > 0 ->
       exists ft_AC_W F_mid,
         (Vec3.squaredNorm v_t > 1 / 10 ^ 28 ->
            exists friction mu,
              frictions !! i = Some friction /\
              Stribeck.ComputeFrictionCoefficient (stribeck_model_ p)
                (Vec3.norm v_t) friction = Ok mu /\
              ft_AC_W = Vec3.scale (mu * fn) (Vec3.div v_t (Vec3.norm v_t))) /\
         (~ Vec3.squaredNorm v_t > 1 / 10 ^ 28 -> ft_AC_W = Vec3.Zero) /\
         let F_AC_W :=
           SpatialForce.make Vec3.Zero
             (Vec3.add (Vec3.scale fn nhat) ft_AC_W) in
         (bodyA_index <> world_index ->
            exists F_A, F_i !! node_index bodyA = Some F_A /\
              F_mid = <[node_index bodyA :=
                          SpatialForce.add F_A
                            (SpatialForce.Shift F_AC_W p_CoAo_W)]> F_i) /\
         (bodyA_index = world_index -> F_mid = F_i) /\
         (bodyB_index <> world_index ->
            exists F_B, F_mid !! node_index bodyB = Some F_B /\
              F_next = <[node_index bodyB :=
                           SpatialForce.add F_B
                             (SpatialForce.neg
                                (SpatialForce.Shift F_AC_W p_CoBo_W))]> F_mid) /\
         (bodyB_index = world_index -> F_next = F_mid)).
Proof.
  intros Hrun. unfold penalty_contact in Hrun.
  destruct (contact_kinematics p pc vc pair) as [kin |] eqn:Hkin;
    [| discriminate].
  cbn [mbind result_bind] in Hrun.
  apply contact_kinematics_spelled in Hkin
    as (iA & iB & bA & bB & XA & XB & VA & VB & HiA & HiB & HbA & HbB
        & HXA & HXB & HVA & HVB & Hx & Hkin).
  cbv zeta in Hkin.
  set (p_WC := Vec3.scale (1 / 2) (Vec3.add (p_WCa pair) (p_WCb pair))) in *.
  set (p_CoAo := Vec3.sub (translation XA) p_WC) in *.
  set (p_CoBo := Vec3.sub (translation XB) p_WC) in *.
  set (v_WAc := SpatialVelocity.translational
                  (SpatialVelocity.Shift VA (Vec3.neg p_CoAo))) in *.
  set (v_WBc := SpatialVelocity.translational
                  (SpatialVelocity.Shift VB (Vec3.neg p_CoBo))) in *.
  set (v := Vec3.sub v_WBc v_WAc) in *.
  assert (Hfn : fn_AC p pair v
    = Penalty.stiffness (penalty_method_contact_parameters_ p) * depth pair
      * (1 + Penalty.damping (penalty_method_contact_parameters_ p)
             * approach_speed (nhat_BA_W pair) v_WAc v_WBc)) by reflexivity.
  assert (Hvt : vt_AcBc_W pair v
    = Vec3.sub v (Vec3.scale (approach_speed (nhat_BA_W pair) v_WAc v_WBc)
                    (nhat_BA_W pair))) by reflexivity.
  assert (Hv : v_AcBc_W kin = v) by now rewrite Hkin.
  rewrite Hv in Hrun.
  assert (Hout : exists F_next, r = Some F_next /\
    (~ fn_AC p pair v > 0 -> F_next = F_i) /\
    (fn_AC p pair v > 0 ->
       exists ft_AC_W F_mid,
         (Vec3.squaredNorm (vt_AcBc_W pair v) > 1 / 10 ^ 28 ->
            exists friction mu,
              frictions !! i = Some friction /\
              Stribeck.ComputeFrictionCoefficient (stribeck_model_ p)
                (Vec3.norm (vt_AcBc_W pair v)) friction = Ok mu /\
              ft_AC_W = Vec3.scale (mu * fn_AC p pair v)
                          (Vec3.div (vt_AcBc_W pair v)
                                    (Vec3.norm (vt_AcBc_W pair v)))) /\
         (~ Vec3.squaredNorm (vt_AcBc_W pair v) > 1 / 10 ^ 28 ->
            ft_AC_W = Vec3.Zero) /\
         let F_AC_W :=
           SpatialForce.make Vec3.Zero
             (Vec3.add (Vec3.scale (fn_AC p pair v) (nhat_BA_W pair))
                       ft_AC_W) in
         (iA <> world_index ->
            exists F_A, F_i !! node_index bA = Some F_A /\
              F_mid = <[node_index bA :=
                          SpatialForce.add F_A
                            (SpatialForce.Shift F_AC_W p_CoAo)]> F_i) /\
         (iA = world_index -> F_mid = F_i) /\
         (iB <> world_index ->
            exists F_B, F_mid !! node_index bB = Some F_B /\
              F_next = <[node_index bB :=
                           SpatialForce.add F_B
                             (SpatialForce.neg
                                (SpatialForce.Shift F_AC_W p_CoBo))]> F_mid) /\
         (iB = world_index -> F_next = F_mid))).
  { rewrite <- kNonZeroSqd_value.
    destruct (decide (fn_AC p pair v > 0)) as [Hpos | Hpos].
    - assert (Hft : exists ft_AC_W,
        contact_force_on_A p frictions i pair v
        = Ok (Some (SpatialForce.make Vec3.Zero
                      (Vec3.add (Vec3.scale (fn_AC p pair v) (nhat_BA_W pair))
                                ft_AC_W))) /\
        (Vec3.squaredNorm (vt_AcBc_W pair v) > kNonZeroSqd ->
           exists friction mu,
             frictions !! i = Some friction /\
             Stribeck.ComputeFrictionCoefficient (stribeck_model_ p)
               (Vec3.norm (vt_AcBc_W pair v)) friction = Ok mu /\
             ft_AC_W = Vec3.scale (mu * fn_AC p pair v)
                         (Vec3.div (vt_AcBc_W pair v)
                                   (Vec3.norm (vt_AcBc_W pair v)))) /\
        (~ Vec3.squaredNorm (vt_AcBc_W pair v) > kNonZeroSqd ->
           ft_AC_W = Vec3.Zero)).
      { destruct (decide (Vec3.squaredNorm (vt_AcBc_W pair v) > kNonZeroSqd))
          as [Hslide | Hstick].
        - unfold contact_force_on_A in Hrun. cbn zeta in Hrun.
          destruct (decide (fn_AC p pair v > 0)); [| contradiction].
          destruct (decide (Vec3.squaredNorm (vt_AcBc_W pair v) > kNonZeroSqd));
            [| contradiction].
          unfold vector_index in Hrun.
          destruct (frictions !! i) as [friction |] eqn:Hfr;
            [| discriminate].
          cbn [mbind result_bind] in Hrun.
          fold (Vec3.norm (vt_AcBc_W pair v)) in Hrun.
          destruct (Stribeck.ComputeFrictionCoefficient (stribeck_model_ p)
                      (Vec3.norm (vt_AcBc_W pair v)) friction)
            as [mu |] eqn:Hmu; [| discriminate].
          eexists. split; [| split].
          + eapply contact_force_sliding; eassumption.
          + intros _. exists friction, mu. now repeat split.
          + contradiction.
        - exists Vec3.Zero. split; [| split].
          + now apply contact_force_sticking.
          + contradiction.
          + reflexivity. }
      destruct Hft as (ft & Hforce & Hslide & Hstick).
      rewrite Hforce in Hrun. cbn [mbind result_bind] in Hrun.
      apply accumulate_spelled in Hrun
        as (F_mid & F_next & -> & HA & HA0 & HB & HB0).
      rewrite Hkin in HA, HA0, HB, HB0.
      cbn [bodyA_index bodyB_index bodyA_node_index bodyB_node_index
           p_CoAo_W p_CoBo_W] in HA, HA0, HB, HB0.
      exists F_next. split; [reflexivity |].
      split; [contradiction |]. intros _.
      exists ft, F_mid. cbv zeta. now repeat split.
    - rewrite contact_force_not_positive in Hrun by assumption.
      cbn [mbind result_bind] in Hrun. injection Hrun as <-.
      exists F_i. split; [reflexivity |].
      split; [reflexivity | contradiction]. }
  destruct Hout as (F_next & -> & Hout).
  exists iA, iB, bA, bB, XA, XB, VA, VB, F_next.
  repeat (split; [assumption || reflexivity |]).
  cbv zeta. exact Hout.
Qed.

Lemma penalty_loop_arrays (p : MultibodyPlant)
    (pc : PositionKinematicsCache) (vc : VelocityKinematicsCache)
    (frictions : list CoulombFriction)
    (point_pairs : list PenetrationAsPointPair) :
  forall (first : nat) (F : list SpatialForce.t)
         (r : option (list SpatialForce.t)),
    for_indexed (penalty_contact p pc vc frictions) first point_pairs (Some F)
    = Ok r ->
    exists arrays : list (list SpatialForce.t),
      length arrays = S (length point_pairs) /\
      arrays !! 0%nat = Some F /\
      r = arrays !! length point_pairs /\
      forall i pair F_i,
        point_pairs !! i = Some pair -> arrays !! i = Some F_i ->
        exists F_next,
          arrays !! S i = Some F_next /\
          penalty_contact p pc vc frictions (first + i) pair (Some F_i)
          = Ok (Some F_next).
Proof.
  induction point_pairs as [| pair0 rest IH]; intros first F r Hrun;
    cbn in Hrun.
  - injection Hrun as <-. exists [F]. repeat split.
    intros i pair F_i Hi. now rewrite lookup_nil in Hi.
  - destruct (penalty_contact p pc vc frictions first pair0 (Some F))
      as [s1 |] eqn:Hbody; [| discriminate].
    cbn [mbind result_bind] in Hrun.
    destruct (penalty_contact_spelled _ _ _ _ _ _ _ _ Hbody)
      as (_ & _ & _ & _ & _ & _ & _ & _ & F1 & -> & _).
    destruct (IH _ _ _ Hrun) as (arrays & Hlen & H0 & Hr & Hstep).
    exists (F :: arrays). split; [cbn; now rewrite Hlen |].
    split; [reflexivity |]. split; [exact Hr |].
    intros [| i] pair F_i Hpair HF; cbn in Hpair, HF.
    + injection Hpair as <-. injection HF as <-.
      exists F1. split; [exact H0 |]. now rewrite Nat.add_0_r.
    + destruct (Hstep i pair F_i Hpair HF) as (F_next & Hnext & Hbody').
      exists F_next. split; [exact Hnext |].
      now replace (first + S i)%nat with (S first + i)%nat by lia.
Qed.


(** C2. [CalcAndAddContactForcesByPenaltyMethod] visits the point pairs in
    order, and each visit takes the force array to the next one as follows.
    The pair has a depth [x >= 0].  With [v_WAc] and [v_WBc] the velocities,
    read from the velocity cache, of the points of [A] and [B] at the
    contact point [C], the speed [vn = (v_WBc - v_WAc) . nhat_BA_W] is
    positive when the pair closes: it is the rate at which the point of [B]
    advances on the point of [A] along the normal from [B] into [A].
    The normal force magnitude on [A] is [fn = k x (1 + d vn)].
    When [fn] is not positive the array is left as it is: the pair
    contributes no force.  When [fn] is positive, the force on [A] at [C] is
    [fn nhat_BA_W + ft], where the friction force [ft] is
    [mu fn (v_t / |v_t|)], with [mu] the Stribeck coefficient of [|v_t|] for
    the pair's combined friction, if the squared tangential speed exceeds
    [1e-28], and zero otherwise; shifted to [Ao] it is added to the entry
    of [A], and shifted to [Bo] and negated it is added to the entry of
    [B], in each case unless the body is the world.  Bodies having distinct
    nodes, the entry of the world body ends as it began.  A plant without
    collision geometry leaves the array as it is. *)
Theorem penalty_method_contact_force (p : MultibodyPlant)
    (pc : PositionKinematicsCache) (vc : VelocityKinematicsCache)
    (point_pairs : list PenetrationAsPointPair)
    (F_BBo_W_array : list SpatialForce.t)
    (r : option (list SpatialForce.t)) :
  CalcAndAddContactForcesByPenaltyMethod p pc vc point_pairs
    (Some F_BBo_W_array) = Ok r ->
  (num_collision_geometries p = 0%nat -> r = Some F_BBo_W_array) /\
  (num_collision_geometries p <> 0%nat ->
   exists (frictions : list CoulombFriction)
          (arrays : list (list SpatialForce.t)),
     CalcCombinedFrictionCoefficients p point_pairs = Ok frictions /\
     length arrays = S (length point_pairs) /\
     arrays !! 0%nat = Some F_BBo_W_array /\
     r = arrays !! length point_pairs /\
     forall i pair F_i,
       point_pairs !! i = Some pair -> arrays !! i = Some F_i ->
       exists bodyA_index bodyB_index bodyA bodyB X_WA X_WB V_WA V_WB F_next,
         arrays !! S i = Some F_next /\
         geometry_id_to_body_index_ (geometry_ p) !! id_A pair
         = Some bodyA_index /\
         geometry_id_to_body_index_ (geometry_ p) !! id_B pair
         = Some bodyB_index /\
         tree_bodies (model_ p) !! bodyA_index = Some bodyA /\
         tree_bodies (model_ p) !! bodyB_index = Some bodyB /\
         pc !! node_index bodyA = Some X_WA /\
         pc !! node_index bodyB = Some X_WB /\
         vc !! node_index bodyA = Some V_WA /\
         vc !! node_index bodyB = Some V_WB /\
         depth pair >= 0 /\
         let k := Penalty.stiffness (penalty_method_contact_parameters_ p) in
         let d := Penalty.damping (penalty_method_contact_parameters_ p) in
         let x := depth pair in
         let nhat := nhat_BA_W pair in
         let p_WC :=
           Vec3.scale (1 / 2) (Vec3.add (p_WCa pair) (p_WCb pair)) in
         let p_CoAo_W := Vec3.sub (translation X_WA) p_WC in
         let p_CoBo_W := Vec3.sub (translation X_WB) p_WC in
         let v_WAc :=
           SpatialVelocity.translational
             (SpatialVelocity.Shift V_WA (Vec3.neg p_CoAo_W)) in
         let v_WBc :=
           SpatialVelocity.translational
             (SpatialVelocity.Shift V_WB (Vec3.neg p_CoBo_W)) in
         let vn := approach_speed nhat v_WAc v_WBc in
         let fn := k * x * (1 + d * vn) in
         let v_t := Vec3.sub (Vec3.sub v_WBc v_WAc) (Vec3.scale vn nhat) in
         (forall t,
            Vec3.dot
              (Vec3.sub (Vec3.add p_WC (Vec3.scale t v_WBc))
                        (Vec3.add p_WC (Vec3.scale t v_WAc))) nhat
            = t * vn) /\
         (~ fn > 0 -> F_next = F_i) /\
         (fn > 0 ->
            exists ft_AC_W F_mid,
              (Vec3.squaredNorm v_t > 1 / 10 ^ 28 ->
                 exists friction mu,
                   frictions !! i = Some friction /\
                   Stribeck.ComputeFrictionCoefficient (stribeck_model_ p)
                     (Vec3.norm v_t) friction = Ok mu /\
                   ft_AC_W
                   = Vec3.scale (mu * fn) (Vec3.div v_t (Vec3.norm v_t))) /\
              (~ Vec3.squaredNorm v_t > 1 / 10 ^ 28 ->
                 ft_AC_W = Vec3.Zero) /\
              let F_AC_W :=
                SpatialForce.make Vec3.Zero
                  (Vec3.add (Vec3.scale fn nhat) ft_AC_W) in
              (bodyA_index <> world_index ->
                 exists F_A, F_i !! node_index bodyA = Some F_A /\
                   F_mid = <[node_index bodyA :=
                               SpatialForce.add F_A
                                 (SpatialForce.Shift F_AC_W p_CoAo_W)]> F_i) /\
              (bodyA_index = world_index -> F_mid = F_i) /\
              (bodyB_index <> world_index ->
                 exists F_B, F_mid !! node_index bodyB = Some F_B /\
                   F_next = <[node_index bodyB :=
                                SpatialForce.add F_B
                                  (SpatialForce.neg
                                     (SpatialForce.Shift F_AC_W p_CoBo_W))]>
                              F_mid) /\
              (bodyB_index = world_index -> F_next = F_mid))) /\
  (forall world,
     node_indices_distinct (model_ p) ->
     tree_bodies (model_ p) !! world_index = Some world ->
     exists F', r = Some F' /\
       F' !! node_index world = F_BBo_W_array !! node_index world).
Proof.
  intros Hrun. split; [| split].
  - intros Hnone. unfold CalcAndAddContactForcesByPenaltyMethod in Hrun.
    rewrite bool_decide_eq_true_2 in Hrun by assumption. congruence.
  - intros Hsome. unfold CalcAndAddContactForcesByPenaltyMethod in Hrun.
    rewrite bool_decide_eq_false_2 in Hrun by assumption.
    destruct (CalcCombinedFrictionCoefficients p point_pairs)
      as [frictions |]; cbn [mbind result_bind] in Hrun; [| discriminate].
    destruct (penalty_loop_arrays _ _ _ _ _ _ _ _ Hrun)
      as (arrays & Hlen & H0 & Hr & Hstep).
    exists frictions, arrays. repeat (split; [assumption || reflexivity |]).
    intros i pair F_i Hpair HF.
    destruct (Hstep i pair F_i Hpair HF) as (F_next & Hnext & Hbody).
    rewrite Nat.add_0_l in Hbody.
    destruct (penalty_contact_spelled _ _ _ _ _ _ _ _ Hbody)
      as (iA & iB & bA & bB & XA & XB & VA & VB & F_next' & [= <-] & HiA
          & HiB & HbA & HbB & HXA & HXB & HVA & HVB & Hx & Hforce).
    exists iA, iB, bA, bB, XA, XB, VA, VB, F_next.
    repeat (split; [assumption |]).
    cbv zeta. cbv zeta in Hforce. split; [| exact Hforce].
    intros t. unfold approach_speed, Vec3.dot, Vec3.sub, Vec3.add, Vec3.scale.
    cbn [x_ y_ z_]. ring.
  - intros world Hdist Hworld.
    eapply CalcAndAddContactForcesByPenaltyMethod_keeps_world_slot; eassumption.
Qed.

End PenaltyMethod.

Section PenaltyMethodExamples.
#[local] Existing Instance Example.collaborators.

Lemma small_threshold : 1 / 10 ^ 28 < 1.
Proof.
  assert (H1 : 1 < 10 ^ 28) by (apply Rlt_pow_R1; [lra | lia]).
  unfold Rdiv. rewrite Rmult_1_l.
  apply (Rlt_le_trans _ (/ 1)); [| rewrite Rinv_1; lra].
  apply Rinv_lt_contravar; lra.
Qed.

(** The ball slides over the ground while sinking into it: relative to the
    ball, the ground's point moves with velocity [(1, 0, 1)]. *)
Lemma sliding_ball_force_positive :
  fn_AC (Example.finalized_plant 0 1000 (1 / 10)) Example.ball_on_ground
        (V3 1 0 1) = 11.
Proof. unfold fn_AC, vn, Vec3.dot. cbn. lra. Qed.

Lemma sliding_ball_tangential_velocity :
  vt_AcBc_W Example.ball_on_ground (V3 1 0 1) = V3 1 0 0.
Proof.
  unfold vt_AcBc_W, vn, Vec3.sub, Vec3.scale, Vec3.dot. cbn.
  f_equal; lra.
Qed.

(** The same contact, evaluated: the speed [1] is a thousand stiction
    tolerances, the coefficient is the dynamic one, and the force on the ball
    is [11] along the normal and [11 / 2] along the slip. *)
Lemma sliding_ball_force :
  contact_force_on_A (Example.finalized_plant 0 1000 (1 / 10))
    [ {| static_friction := 1; dynamic_friction := 1 / 2 |} ] 0
    Example.ball_on_ground (V3 1 0 1)
  = Ok (Some (SpatialForce.make Vec3.Zero (V3 (11 / 2) 0 11))).
Proof.
  assert (Hnorm : Vec3.norm (vt_AcBc_W Example.ball_on_ground (V3 1 0 1)) = 1).
  { rewrite sliding_ball_tangential_velocity.
    unfold Vec3.norm, Vec3.squaredNorm, Vec3.dot. cbn.
    replace (1 * 1 + 0 * 0 + 0 * 0) with 1 by lra. apply sqrt_1. }
  rewrite (contact_force_sliding _ _ _ _ _
             {| static_friction := 1; dynamic_friction := 1 / 2 |} (1 / 2)).
  - rewrite Hnorm, sliding_ball_force_positive,
      sliding_ball_tangential_velocity.
    unfold Vec3.add, Vec3.scale, Vec3.div. cbn.
    do 3 f_equal. f_equal; lra.
  - rewrite sliding_ball_force_positive. lra.
  - rewrite sliding_ball_tangential_velocity.
    unfold Vec3.squaredNorm, Vec3.dot, kNonZeroSqd. cbn.
    pose proof small_threshold as Hsmall. rewrite <- kNonZeroSqd_value in Hsmall.
    unfold kNonZeroSqd in Hsmall. lra.
  - reflexivity.
  - rewrite Hnorm.
    destruct (friction_coefficient_cases (1 / 1000) 1
                {| static_friction := 1; dynamic_friction := 1 / 2 |}
                ltac:(lra) ltac:(lra)) as (Hfast & _).
    apply Hfast. lra.
Qed.

Lemma harmonic_equal (a : R) : 0 < a -> Example.harmonic a a = a.
Proof.
  intros Ha. unfold Example.harmonic.
  destruct (decide (a + a = 0)); [lra |]. field. lra.
Qed.

(** The ball of the example slides over the ground while it sinks into it:
    it moves with velocity [(-1, 0, -1)]. *)
Lemma sliding_ball_kinematics :
  contact_kinematics (Example.finalized_plant 0 1000 (1 / 10))
    [Example.at_height 0; Example.at_height 1; Example.at_height 2]
    [Example.moving_up 0;
     SpatialVelocity.make Vec3.Zero (V3 (-1) 0 (-1));
     Example.moving_up 0]
    Example.ball_on_ground
  = Ok {| bodyA_index := 1%nat; bodyB_index := 0%nat;
          bodyA_node_index := 1%nat; bodyB_node_index := 0%nat;
          p_CoAo_W := V3 0 0 (201 / 200); p_CoBo_W := V3 0 0 (1 / 200);
          v_AcBc_W := V3 1 0 1 |}.
Proof.
  unfold contact_kinematics, map_at, get_body, vector_index, DRAKE_ASSERT.
  cbn zeta.
  change (geometry_id_to_body_index_
            (geometry_ (Example.finalized_plant 0 1000 (1 / 10)))
          !! id_A Example.ball_on_ground) with (Some 1%nat).
  change (geometry_id_to_body_index_
            (geometry_ (Example.finalized_plant 0 1000 (1 / 10)))
          !! id_B Example.ball_on_ground) with (Some 0%nat).
  cbn [mbind result_bind].
  change (tree_bodies (model_ (Example.finalized_plant 0 1000 (1 / 10)))
          !! 1%nat)
    with (Some {| body_name := "ball"; get_default_mass := 2;
                  node_index := 1%nat |}).
  change (tree_bodies (model_ (Example.finalized_plant 0 1000 (1 / 10)))
          !! 0%nat)
    with (Some {| body_name := "WorldBody"; get_default_mass := 0;
                  node_index := 0%nat |}).
  cbn [mbind result_bind node_index].
  destruct (decide (depth Example.ball_on_ground >= 0)) as [_ | Hn].
  2: { exfalso. apply Hn. cbn. lra. }
  cbn [mbind result_bind lookup list_lookup].
  unfold Vec3.sub, Vec3.add, Vec3.neg, Vec3.scale, Vec3.cross,
    SpatialVelocity.Shift, Example.moving_up, Example.at_height, Vec3.Zero.
  cbn. f_equal. f_equal; f_equal; lra.
Qed.

Lemma sliding_ball_penalty_run :
  CalcAndAddContactForcesByPenaltyMethod
    (Example.finalized_plant 0 1000 (1 / 10))
    [Example.at_height 0; Example.at_height 1; Example.at_height 2]
    [Example.moving_up 0;
     SpatialVelocity.make Vec3.Zero (V3 (-1) 0 (-1));
     Example.moving_up 0]
    [Example.ball_on_ground] (Some (replicate 3 SpatialForce.Zero))
  = Ok (Some [SpatialForce.Zero;
              SpatialForce.make (V3 0 (- (2211 / 400)) 0) (V3 (11 / 2) 0 11);
              SpatialForce.Zero]).
Proof.
  unfold CalcAndAddContactForcesByPenaltyMethod.
  change (bool_decide
            (num_collision_geometries
               (Example.finalized_plant 0 1000 (1 / 10)) = 0%nat))
    with false.
  assert (Hc : CalcCombinedFrictionCoefficients
                 (Example.finalized_plant 0 1000 (1 / 10))
                 [Example.ball_on_ground]
               = Ok [ {| static_friction := 1; dynamic_friction := 1 / 2 |} ]).
  { transitivity
      (@Ok (list CoulombFriction)
         [ {| static_friction := Example.harmonic 1 1;
              dynamic_friction := Example.harmonic (1 / 2) (1 / 2) |} ]);
      [reflexivity |].
    rewrite !harmonic_equal by lra. reflexivity. }
  rewrite Hc. cbn [mbind result_bind for_indexed].
  unfold penalty_contact. rewrite sliding_ball_kinematics.
  cbn [mbind result_bind v_AcBc_W]. rewrite sliding_ball_force.
  cbn [mbind result_bind]. unfold accumulate_contact_force.
  cbn [bodyA_index bodyB_index bodyA_node_index bodyB_node_index
       p_CoAo_W p_CoBo_W].
  change (bool_decide (1%nat <> world_index)) with true.
  change (bool_decide (0%nat <> world_index)) with false.
  cbn [replicate]. unfold add_at, vector_at.
  cbn [lookup list_lookup mbind result_bind insert list_insert].
  do 3 f_equal.
  unfold SpatialForce.add, SpatialForce.Shift, SpatialForce.Zero, Vec3.add,
    Vec3.sub, Vec3.cross, Vec3.Zero.
  cbn. f_equal. f_equal; f_equal; lra.
Qed.

(** The ball leaves the ground with speed [20]: the damping term outweighs
    the stiffness term, the normal force would be negative, and no force is
    applied. *)
Lemma separating_ball_kinematics :
  contact_kinematics (Example.finalized_plant 0 1000 (1 / 10))
    [Example.at_height 0; Example.at_height 1; Example.at_height 2]
    [Example.moving_up 0; Example.moving_up 20; Example.moving_up 0]
    Example.ball_on_ground
  = Ok {| bodyA_index := 1%nat; bodyB_index := 0%nat;
          bodyA_node_index := 1%nat; bodyB_node_index := 0%nat;
          p_CoAo_W := V3 0 0 (201 / 200); p_CoBo_W := V3 0 0 (1 / 200);
          v_AcBc_W := V3 0 0 (-20) |}.
Proof.
  unfold contact_kinematics, map_at, get_body, vector_index, DRAKE_ASSERT.
  cbn zeta.
  change (geometry_id_to_body_index_
            (geometry_ (Example.finalized_plant 0 1000 (1 / 10)))
          !! id_A Example.ball_on_ground) with (Some 1%nat).
  change (geometry_id_to_body_index_
            (geometry_ (Example.finalized_plant 0 1000 (1 / 10)))
          !! id_B Example.ball_on_ground) with (Some 0%nat).
  cbn [mbind result_bind].
  change (tree_bodies (model_ (Example.finalized_plant 0 1000 (1 / 10)))
          !! 1%nat)
    with (Some {| body_name := "ball"; get_default_mass := 2;
                  node_index := 1%nat |}).
  change (tree_bodies (model_ (Example.finalized_plant 0 1000 (1 / 10)))
          !! 0%nat)
    with (Some {| body_name := "WorldBody"; get_default_mass := 0;
                  node_index := 0%nat |}).
  cbn [mbind result_bind node_index].
  destruct (decide (depth Example.ball_on_ground >= 0)) as [_ | Hn].
  2: { exfalso. apply Hn. cbn. lra. }
  cbn [mbind result_bind lookup list_lookup].
  unfold Vec3.sub, Vec3.add, Vec3.neg, Vec3.scale, Vec3.cross,
    SpatialVelocity.Shift, Example.moving_up, Example.at_height, Vec3.Zero.
  cbn. f_equal. f_equal; f_equal; lra.
Qed.

Lemma separating_ball_penalty_run :
  CalcAndAddContactForcesByPenaltyMethod
    (Example.finalized_plant 0 1000 (1 / 10))
    [Example.at_height 0; Example.at_height 1; Example.at_height 2]
    [Example.moving_up 0; Example.moving_up 20; Example.moving_up 0]
    [Example.ball_on_ground] (Some (replicate 3 SpatialForce.Zero))
  = Ok (Some (replicate 3 SpatialForce.Zero)).
Proof.
  unfold CalcAndAddContactForcesByPenaltyMethod.
  change (bool_decide
            (num_collision_geometries
               (Example.finalized_plant 0 1000 (1 / 10)) = 0%nat))
    with false.
  assert (Hc : exists c,
             CalcCombinedFrictionCoefficients
               (Example.finalized_plant 0 1000 (1 / 10))
               [Example.ball_on_ground] = Ok [c])
    by (eexists; reflexivity).
  destruct Hc as (c & ->). cbn [mbind result_bind for_indexed].
  unfold penalty_contact. rewrite separating_ball_kinematics.
  cbn [mbind result_bind v_AcBc_W].
  rewrite contact_force_not_positive; [reflexivity |].
  unfold fn_AC, vn, Vec3.dot. cbn. lra.
Qed.

(** The ball slides and sinks at speed [1]: the pair closes at [vn = 1],
    the normal force is [1000 * (1 / 100) * (1 + 1 / 10) = 11], the friction
    force [11 / 2] opposes the slip, and the entry of the ball receives the
    force with its torque about the ball's origin, while the entry of the
    world stays zero.  When the ball leaves at speed [20] nothing is
    added. *)
Lemma penalty_method_contact_force_witness :
  let p := Example.finalized_plant 0 1000 (1 / 10) in
  let pc := [Example.at_height 0; Example.at_height 1; Example.at_height 2] in
  let vc := [Example.moving_up 0;
             SpatialVelocity.make Vec3.Zero (V3 (-1) 0 (-1));
             Example.moving_up 0] in
  let F := replicate 3 SpatialForce.Zero in
  let F' := [SpatialForce.Zero;
             SpatialForce.make (V3 0 (- (2211 / 400)) 0) (V3 (11 / 2) 0 11);
             SpatialForce.Zero] in
  CalcAndAddContactForcesByPenaltyMethod p pc vc [Example.ball_on_ground]
    (Some F) = Ok (Some F') /\
  approach_speed (nhat_BA_W Example.ball_on_ground) (V3 (-1) 0 (-1)) Vec3.Zero
  = 1 /\
  CalcAndAddContactForcesByPenaltyMethod p pc
    [Example.moving_up 0; Example.moving_up 20; Example.moving_up 0]
    [Example.ball_on_ground] (Some F) = Ok (Some F) /\
  num_collision_geometries p <> 0%nat /\
  exists (frictions : list CoulombFriction)
         (arrays : list (list SpatialForce.t)),
    CalcCombinedFrictionCoefficients p [Example.ball_on_ground]
    = Ok frictions /\
    arrays !! 0%nat = Some F /\ arrays !! 1%nat = Some F'.
Proof.
  intros p pc vc F F'.
  split; [exact sliding_ball_penalty_run |].
  split; [unfold approach_speed, Vec3.dot, Vec3.sub; cbn; lra |].
  split; [exact separating_ball_penalty_run |].
  assert (Hsome : num_collision_geometries p <> 0%nat)
    by (change (num_collision_geometries p) with 3%nat; lia).
  split; [exact Hsome |].
  destruct (penalty_method_contact_force p pc vc [Example.ball_on_ground] F
              (Some F') sliding_ball_penalty_run) as (_ & Hloop & _).
  destruct (Hloop Hsome) as (frictions & arrays & Hc & _ & H0 & Hr & _).
  exists frictions, arrays.
  split; [exact Hc |]. split; [exact H0 |]. symmetry. exact Hr.
Defined.

End PenaltyMethodExamples.

Section NewtonThirdLawExamples.
#[local] Existing Instance Example.collaborators.

(** The box, at height [2], comes down with speed [1] on the ball, at rest
    at height [1]. *)
Lemma box_on_ball_kinematics :
  exists kin,
    contact_kinematics (Example.finalized_plant 0 1000 (1 / 10))
      [Example.at_height 0; Example.at_height 1; Example.at_height 2]
      [Example.moving_up 0; Example.moving_up 0; Example.moving_up (-1)]
      Example.box_on_ball = Ok kin /\
    bodyA_index kin = 2%nat /\ bodyB_index kin = 1%nat /\
    bodyA_node_index kin = 2%nat /\ bodyB_node_index kin = 1%nat /\
    v_AcBc_W kin = V3 0 0 1.
Proof.
  unfold contact_kinematics, map_at, get_body, vector_index, DRAKE_ASSERT.
  cbn zeta.
  change (geometry_id_to_body_index_
            (geometry_ (Example.finalized_plant 0 1000 (1 / 10)))
          !! id_A Example.box_on_ball) with (Some 2%nat).
  change (geometry_id_to_body_index_
            (geometry_ (Example.finalized_plant 0 1000 (1 / 10)))
          !! id_B Example.box_on_ball) with (Some 1%nat).
  cbn [mbind result_bind].
  change (tree_bodies (model_ (Example.finalized_plant 0 1000 (1 / 10)))
          !! 2%nat)
    with (Some {| body_name := "box"; get_default_mass := 3;
                  node_index := 2%nat |}).
  change (tree_bodies (model_ (Example.finalized_plant 0 1000 (1 / 10)))
          !! 1%nat)
    with (Some {| body_name := "ball"; get_default_mass := 2;
                  node_index := 1%nat |}).
  cbn [mbind result_bind node_index].
  destruct (decide (depth Example.box_on_ball >= 0)) as [_ | Hn].
  2: { exfalso. apply Hn. cbn. lra. }
  cbn [mbind result_bind lookup list_lookup].
  eexists. split; [reflexivity |].
  cbn [bodyA_index bodyB_index bodyA_node_index bodyB_node_index v_AcBc_W].
  repeat split.
  unfold Vec3.sub, Vec3.add, Vec3.neg, Vec3.scale, Vec3.cross,
    SpatialVelocity.Shift, Example.moving_up, Example.at_height, Vec3.Zero.
  cbn. f_equal; lra.
Qed.

Lemma newton_third_law_at_contact_witness :
  exists kin F_AC_W,
    contact_kinematics (Example.finalized_plant 0 1000 (1 / 10))
      [Example.at_height 0; Example.at_height 1; Example.at_height 2]
      [Example.moving_up 0; Example.moving_up 0; Example.moving_up (-1)]
      Example.box_on_ball = Ok kin /\
    contact_force_on_A (Example.finalized_plant 0 1000 (1 / 10))
      [ {| static_friction := 1; dynamic_friction := 1 / 2 |} ] 0
      Example.box_on_ball (v_AcBc_W kin) = Ok (Some F_AC_W) /\
    bodyA_index kin <> world_index /\ bodyB_index kin <> world_index /\
    replicate 3 SpatialForce.Zero !! bodyA_node_index kin
    = Some SpatialForce.Zero /\
    (bodyB_node_index kin < length (replicate 3 SpatialForce.Zero))%nat /\
    SpatialForce.add
      (SpatialForce.Shift (SpatialForce.Shift F_AC_W (p_CoAo_W kin))
         (Vec3.neg (p_CoAo_W kin)))
      (SpatialForce.Shift
         (SpatialForce.neg (SpatialForce.Shift F_AC_W (p_CoBo_W kin)))
         (Vec3.neg (p_CoBo_W kin)))
    = SpatialForce.Zero.
Proof.
  destruct box_on_ball_kinematics as (kin & Hkin & HA & HB & HnA & HnB & Hv).
  assert (Hfn : fn_AC (Example.finalized_plant 0 1000 (1 / 10))
                  Example.box_on_ball (v_AcBc_W kin) > 0).
  { rewrite Hv. unfold fn_AC, vn, Vec3.dot. cbn. lra. }
  assert (Hvt : ~ Vec3.squaredNorm
                    (vt_AcBc_W Example.box_on_ball (v_AcBc_W kin))
                  > kNonZeroSqd).
  { rewrite Hv.
    unfold Vec3.squaredNorm, vt_AcBc_W, vn, Vec3.sub, Vec3.scale, Vec3.dot,
      kNonZeroSqd.
    cbn. assert (0 < 10 ^ 14) by (apply pow_lt; lra).
    assert (0 < 1 / 10 ^ 14) by (apply Rdiv_lt_0_compat; lra). nra. }
  pose proof (contact_force_sticking
                (Example.finalized_plant 0 1000 (1 / 10))
                [ {| static_friction := 1; dynamic_friction := 1 / 2 |} ] 0
                Example.box_on_ball (v_AcBc_W kin) Hfn Hvt) as Hforce.
  assert (HnotA : bodyA_index kin <> world_index)
    by (rewrite HA; discriminate).
  assert (HnotB : bodyB_index kin <> world_index)
    by (rewrite HB; discriminate).
  assert (HslotA : replicate 3 SpatialForce.Zero !! bodyA_node_index kin
                   = Some SpatialForce.Zero) by (rewrite HnA; reflexivity).
  assert (HslotB :
    (bodyB_node_index kin < length (replicate 3 SpatialForce.Zero))%nat)
    by (rewrite HnB; cbn; lia).
  exists kin. eexists.
  split; [exact Hkin |]. split; [exact Hforce |].
  split; [exact HnotA |]. split; [exact HnotB |].
  split; [exact HslotA |]. split; [exact HslotB |].
  destruct (newton_third_law_at_contact
              (Example.finalized_plant 0 1000 (1 / 10))
              [Example.at_height 0; Example.at_height 1; Example.at_height 2]
              [Example.moving_up 0; Example.moving_up 0; Example.moving_up (-1)]
              [ {| static_friction := 1; dynamic_friction := 1 / 2 |} ] 0
              Example.box_on_ball kin _ SpatialForce.Zero
              (replicate 3 SpatialForce.Zero)
              Hkin Hforce HnotA HnotB HslotA HslotB)
    as (F_B & _ & _ & _ & _ & Hsum).
  exact Hsum.
Defined.

End NewtonThirdLawExamples.

(** *** The discrete update *)

Section DiscreteUpdate.
Context `{H : Collaborators}.

Lemma bind_result_inv {A B : Type} (m : result A) (f : A -> result B) (b : B) :
  m ≫= f = Ok b -> exists a, m = Ok a /\ f a = Ok b.
Proof.
  destruct m as [a | e]; cbn; [| discriminate]. intros Hf. now exists a.
Qed.

Lemma split_state (q0 v0 : VectorX) (nq nv : nat) :
  length q0 = nq -> length v0 = nv ->
  VecX.topRows nq (q0 ++ v0) = q0 /\ VecX.bottomRows nv (q0 ++ v0) = v0.
Proof.
  intros Hq Hv. unfold VecX.topRows, VecX.bottomRows. split.
  - rewrite take_app_le by lia. rewrite take_ge by lia. reflexivity.
  - rewrite length_app.
    replace (length q0 + length v0 - nv)%nat with (length q0) by lia.
    now rewrite drop_app_length.
Qed.

(** What a successful step has done, in the order of the source. *)
Lemma DoCalcDiscreteVariableUpdates_inv (p : MultibodyPlant)
    (context0 : Context) (x_next : VectorX) (p' : MultibodyPlant) :
  DoCalcDiscreteVariableUpdates p context0 = Ok (x_next, p') ->
  let dt := time_step_ p in
  let M0 := CalcMassMatrixViaInverseDynamics (model_ p) context0 in
  let pc0 := EvalPositionKinematics p context0 in
  let vc0 := EvalVelocityKinematics p context0 in
  exists x0 forces_actuated point_pairs0 combined sv0 sv data,
    discrete_state context0 !! 0%nat = Some x0 /\
    AddJointActuationForces p context0
      (CalcForceElementsContribution (model_ p) context0 pc0 vc0)
    = Ok forces_actuated /\
    CalcPointPairPenetrations p context0 = Ok point_pairs0 /\
    CalcCombinedFrictionCoefficients p point_pairs0 = Ok combined /\
    implicit_stribeck_solver_ p = Some sv0 /\
    implicit_stribeck_solver_ p' = Some sv /\
    solver_data sv = Some data /\
    let q0 := VecX.topRows (num_positions p) x0 in
    let v0 := VecX.bottomRows (num_velocities p) x0 in
    let forces0 := AddJointDampingForces p context0 forces_actuated in
    let minus_tau :=
      snd (CalcInverseDynamics (model_ p) context0 pc0 vc0
             (VecX.Zero (num_velocities p))
             (body_forces forces0) (generalized_forces forces0)) in
    data_M data = M0 /\
    data_p_star data = VecX.sub (VecX.mul M0 v0) (VecX.scale dt minus_tau) /\
    data_phi0 data = map depth point_pairs0 /\
    data_mu data = map static_friction combined /\
    solve (solver_nv sv0) (solver_parameters sv0) data dt v0
    = (Success, solver_solution sv) /\
    let v_next := get_generalized_velocities (solver_solution sv) in
    x_next
    = VecX.add q0 (VecX.scale dt (MapVelocityToQDot (model_ p) context0 v_next))
      ++ v_next.
Proof.
  unfold DoCalcDiscreteVariableUpdates. intros Hrun.
  apply bind_result_inv in Hrun as ([] & _ & Hrun).
  apply bind_result_inv in Hrun as ([] & _ & Hrun).
  cbn zeta in Hrun.
  apply bind_result_inv in Hrun as (x0 & Hx0 & Hrun).
  apply bind_result_inv in Hrun as (forces_actuated & Hact & Hrun).
  apply bind_result_inv in Hrun as (point_pairs0 & Hpairs & Hrun).
  destruct (CalcInverseDynamics _ _ _ _ _ _ _) as [F_out minus_tau] eqn:Hid
    in Hrun.
  apply bind_result_inv in Hrun as ([[Jn Jt] R_WC_set] & HJ & Hrun).
  apply bind_result_inv in Hrun as (combined & Hcomb & Hrun).
  apply bind_result_inv in Hrun as (sv0 & Hsv0 & Hrun).
  apply bind_result_inv in Hrun as ([info sv] & Hsolve & Hrun).
  apply bind_result_inv in Hrun as ([] & Hinfo & Hrun).
  apply bind_result_inv in Hrun as (contact_results & _ & Hrun).
  injection Hrun as <- <-.
  unfold Solver.SolveWithGuess in Hsolve. cbn in Hsolve.
  match type of Hsolve with
  | (let '(_, _) := ?call in _) = _ =>
      destruct call as [info' solution] eqn:Hcall
  end.
  injection Hsolve as <- <-.
  destruct info'; try discriminate.
  unfold vector_index in Hx0.
  destruct (discrete_state context0 !! 0%nat) as [x0' |] eqn:Hl;
    [| discriminate]. injection Hx0 as ->.
  unfold optional_value in Hsv0.
  destruct (implicit_stribeck_solver_ p) as [sv0' |] eqn:Hsolver;
    [| discriminate]. injection Hsv0 as ->.
  cbn zeta.
  exists x0, forces_actuated, point_pairs0, combined, sv0.
  eexists. eexists.
  split; [reflexivity |]. split; [exact Hact |]. split; [exact Hpairs |].
  split; [exact Hcomb |]. split; [reflexivity |].
  split; [reflexivity |]. split; [reflexivity |].
  cbn zeta. cbn [data_M data_p_star data_phi0 data_mu solver_solution].
  rewrite Hid. cbn [snd].
  repeat split. exact Hcall.
Qed.

Lemma bind_ext {A B : Type} (m : result A) (f g : A -> result B) :
  (forall a, f a = g a) -> m ≫= f = m ≫= g.
Proof. intros Hfg. destruct m as [a | e]; cbn; [apply Hfg | reflexivity]. Qed.

(** Under a rule for combining friction that gives the same static
    coefficients, the combined coefficients have the same static part, or
    the computation fails in the same way. *)
Lemma CalcCombinedFrictionCoefficients_rule (p : MultibodyPlant)
    (point_pairs : list PenetrationAsPointPair)
    (rule : CoulombFriction -> CoulombFriction -> CoulombFriction) :
  (forall a b,
     static_friction (rule a b)
     = static_friction (CalcContactFrictionFromSurfaceProperties a b)) ->
  match CalcCombinedFrictionCoefficients p point_pairs,
        @CalcCombinedFrictionCoefficients (with_friction_rule H rule)
          p point_pairs with
  | Ok c, Ok c' => map static_friction c' = map static_friction c
  | Raise e, Raise e' => e' = e
  | _, _ => False
  end.
Proof.
  intros Hrule. unfold CalcCombinedFrictionCoefficients.
  induction point_pairs as [| pair rest IH]; [reflexivity |].
  cbn [for_each]. cbn zeta.
  destruct (map_at _ (id_A pair) _) as [iA |];
    cbn [mbind result_bind]; [| reflexivity].
  destruct (map_at _ (id_B pair) _) as [iB |];
    cbn [mbind result_bind]; [| reflexivity].
  destruct (vector_index _ iA _) as [fA |];
    cbn [mbind result_bind]; [| reflexivity].
  destruct (vector_index _ iB _) as [fB |];
    cbn [mbind result_bind]; [| reflexivity].
  cbn zeta in IH.
  destruct (for_each _ rest) as [c |]; destruct (for_each _ rest) as [c' |];
    cbn [mbind result_bind]; try contradiction; [| exact IH].
  cbn [map]. f_equal; [apply Hrule | exact IH].
Qed.

(** The step does not depend on the dynamic coefficient that the rule for
    combining friction gives. *)
Lemma DoCalcDiscreteVariableUpdates_rule (p : MultibodyPlant)
    (context0 : Context)
    (rule : CoulombFriction -> CoulombFriction -> CoulombFriction) :
  (forall a b,
     static_friction (rule a b)
     = static_friction (CalcContactFrictionFromSurfaceProperties a b)) ->
  @DoCalcDiscreteVariableUpdates (with_friction_rule H rule) p context0
  = @DoCalcDiscreteVariableUpdates H p context0.
Proof.
  intros Hrule. unfold DoCalcDiscreteVariableUpdates.
  change (@AddJointActuationForces (with_friction_rule H rule))
    with (@AddJointActuationForces H).
  change (@AddJointDampingForces (with_friction_rule H rule))
    with (@AddJointDampingForces H).
  change (@EvalPositionKinematics (with_friction_rule H rule))
    with (@EvalPositionKinematics H).
  change (@EvalVelocityKinematics (with_friction_rule H rule))
    with (@EvalVelocityKinematics H).
  change (@CalcNormalSeparationVelocitiesJacobian (with_friction_rule H rule))
    with (@CalcNormalSeparationVelocitiesJacobian H).
  change (@CalcTangentVelocitiesJacobian (with_friction_rule H rule))
    with (@CalcTangentVelocitiesJacobian H).
  change (@Solver.SolveWithGuess (with_friction_rule H rule))
    with (@Solver.SolveWithGuess H).
  cbn [with_friction_rule CalcMassMatrixViaInverseDynamics
       CalcForceElementsContribution CalcInverseDynamics MapVelocityToQDot].
  apply bind_ext; intros [].
  apply bind_ext; intros [].
  cbn zeta.
  apply bind_ext; intros x0.
  apply bind_ext; intros forces_actuated.
  apply bind_ext; intros point_pairs0.
  destruct (CalcInverseDynamics _ _ _ _ _ _ _) as [F_out minus_tau].
  apply bind_ext; intros [[Jn Jt] R_WC_set].
  pose proof (CalcCombinedFrictionCoefficients_rule p point_pairs0 rule Hrule)
    as Hcomb.
  destruct (CalcCombinedFrictionCoefficients p point_pairs0) as [c | e];
    destruct (@CalcCombinedFrictionCoefficients (with_friction_rule H rule)
                p point_pairs0) as [c' | e'];
    try contradiction; cbn [mbind result_bind].
  - rewrite Hcomb. reflexivity.
  - now rewrite Hcomb.
Qed.

(** Without collision geometry and without actuators, the step completes
    as soon as the solver succeeds. *)
Lemma DoCalcDiscreteVariableUpdates_without_contact (p : MultibodyPlant)
    (context0 : Context) (x0 : VectorX) (sv0 : ImplicitStribeckSolver) :
  discrete_state context0 = [x0] ->
  continuous_state_vector context0 = [] ->
  num_actuators p = 0%nat ->
  num_collision_geometries p = 0%nat ->
  implicit_stribeck_solver_ p = Some sv0 ->
  (forall data,
     fst (solve (solver_nv sv0) (solver_parameters sv0) data (time_step_ p)
            (VecX.bottomRows (num_velocities p) x0)) = Success) ->
  exists x_next p',
    DoCalcDiscreteVariableUpdates p context0 = Ok (x_next, p').
Proof.
  intros Hstate Hcont Hact Hgeo Hsolver Hsolve.
  unfold DoCalcDiscreteVariableUpdates, DRAKE_ASSERT.
  rewrite Hstate, Hcont. cbn [length].
  destruct (decide (1%nat = 1%nat)) as [_ | Hn]; [| congruence].
  destruct (decide (0%nat = 0%nat)) as [_ | Hn]; [| congruence].
  cbn [mbind result_bind vector_index lookup list_lookup].
  unfold AddJointActuationForces, CalcPointPairPenetrations.
  rewrite Hact, Hgeo.
  change (bool_decide (0 < 0)%nat) with false.
  cbn [mbind result_bind length].
  destruct (CalcInverseDynamics _ _ _ _ _ _ _) as [F_out minus_tau].
  cbn [mbind result_bind CalcCombinedFrictionCoefficients for_each map].
  rewrite Hsolver.
  cbn [optional_value mbind result_bind].
  unfold Solver.SolveWithGuess, Solver.SetTwoWayCoupledProblemData.
  cbn [solver_data optional_value mbind result_bind solver_nv
       solver_parameters].
  change (bool_decide (0 < 0)%nat) with false.
  cbn [mbind result_bind].
  match goal with
  | |- context [solve ?n ?prm ?data ?dt ?v] =>
      pose proof (Hsolve data) as Hinfo;
      destruct (solve n prm data dt v) as [info solution]
  end.
  cbn [fst] in Hinfo. subst info.
  cbn [mbind result_bind ComputationInfo_eqb DRAKE_DEMAND].
  unfold CalcContactResults.
  change (num_collision_geometries (with_solver ?x p))
    with (num_collision_geometries p).
  rewrite Hgeo.
  change (bool_decide (0%nat = 0%nat)) with true.
  cbn [mbind result_bind]. eexists. eexists. reflexivity.
Qed.

(** C1. On a discrete state [(q0, v0)], a step that completes has handed
    the solver the momentum [p* = M0 v0 - dt minus_tau], where [minus_tau] is
    what inverse dynamics returns for the generalized forces at the state of
    the context, with zero accelerations, from the forces of the force
    elements, of the actuation and of the joint damping, and nothing else;
    with [v_next] the solver's velocities, the new state is
    [q0 + dt N(q0) v_next] followed by [v_next]. *)
Theorem discrete_update_momentum_and_position (p : MultibodyPlant)
    (context0 : Context) (q0 v0 x_next : VectorX) (p' : MultibodyPlant) :
  discrete_state context0 = [q0 ++ v0] ->
  length q0 = num_positions p -> length v0 = num_velocities p ->
  DoCalcDiscreteVariableUpdates p context0 = Ok (x_next, p') ->
  let dt := time_step_ p in
  let M0 := CalcMassMatrixViaInverseDynamics (model_ p) context0 in
  let pc0 := EvalPositionKinematics p context0 in
  let vc0 := EvalVelocityKinematics p context0 in
  exists forces_actuated sv0 sv data,
    AddJointActuationForces p context0
      (CalcForceElementsContribution (model_ p) context0 pc0 vc0)
    = Ok forces_actuated /\
    let forces0 := AddJointDampingForces p context0 forces_actuated in
    let minus_tau :=
      snd (CalcInverseDynamics (model_ p) context0 pc0 vc0
             (VecX.Zero (num_velocities p))
             (body_forces forces0) (generalized_forces forces0)) in
    implicit_stribeck_solver_ p = Some sv0 /\
    implicit_stribeck_solver_ p' = Some sv /\
    solver_data sv = Some data /\
    data_M data = M0 /\
    data_p_star data = VecX.sub (VecX.mul M0 v0) (VecX.scale dt minus_tau) /\
    solve (solver_nv sv0) (solver_parameters sv0) data dt v0
    = (Success, solver_solution sv) /\
    let v_next := get_generalized_velocities (solver_solution sv) in
    x_next
    = VecX.add q0 (VecX.scale dt (MapVelocityToQDot (model_ p) context0 v_next))
      ++ v_next.
Proof.
  intros Hstate Hq Hv Hrun.
  destruct (DoCalcDiscreteVariableUpdates_inv p context0 x_next p' Hrun)
    as (x0 & forces_actuated & point_pairs0 & combined & sv0 & sv & data &
        Hx0 & Hact & _ & _ & Hsv0 & Hsv & Hdata & HM & Hp & _ & _ & Hsolve &
        Hnext).
  rewrite Hstate in Hx0. injection Hx0 as <-.
  destruct (split_state q0 v0 _ _ Hq Hv) as (Htop & Hbottom).
  rewrite Htop in Hnext. rewrite Hbottom in Hp, Hsolve.
  cbn zeta. exists forces_actuated, sv0, sv, data. tauto.
Qed.

(** C7. A step that completes has handed the solver, for every point pair,
    the static coefficient of the pair's combined friction; and the step is
    the same, solver data included, under any rule for combining friction
    that gives the same static coefficients, whatever dynamic coefficients
    it gives. *)
Theorem discrete_update_uses_static_friction (p : MultibodyPlant)
    (context0 : Context) (x_next : VectorX) (p' : MultibodyPlant) :
  DoCalcDiscreteVariableUpdates p context0 = Ok (x_next, p') ->
  (exists point_pairs0 combined sv data,
     CalcPointPairPenetrations p context0 = Ok point_pairs0 /\
     CalcCombinedFrictionCoefficients p point_pairs0 = Ok combined /\
     length combined = length point_pairs0 /\
     implicit_stribeck_solver_ p' = Some sv /\
     solver_data sv = Some data /\
     data_mu data = map static_friction combined /\
     forall i friction,
       combined !! i = Some friction ->
       data_mu data !! i = Some (static_friction friction)) /\
  (forall rule,
     (forall a b,
        static_friction (rule a b)
        = static_friction (CalcContactFrictionFromSurfaceProperties a b)) ->
     @DoCalcDiscreteVariableUpdates (with_friction_rule H rule) p context0
     = Ok (x_next, p')).
Proof.
  intros Hrun. split.
  - destruct (DoCalcDiscreteVariableUpdates_inv p context0 x_next p' Hrun)
      as (x0 & forces_actuated & point_pairs0 & combined & sv0 & sv & data &
          _ & _ & Hpairs & Hcomb & _ & Hsv & Hdata & _ & _ & _ & Hmu & _).
    exists point_pairs0, combined, sv, data.
    split; [exact Hpairs |]. split; [exact Hcomb |].
    split; [exact (for_each_length _ _ _ Hcomb) |].
    split; [exact Hsv |]. split; [exact Hdata |]. split; [exact Hmu |].
    intros i friction Hi. rewrite Hmu, list_lookup_fmap, Hi. reflexivity.
  - intros rule Hrule.
    now rewrite DoCalcDiscreteVariableUpdates_rule.
Qed.

End DiscreteUpdate.

Section DiscreteUpdateExamples.
#[local] Existing Instance Example.collaborators.

Lemma example_solver :
  implicit_stribeck_solver_ (Example.finalized_plant (1 / 1000) 1000 (1 / 10))
  = Some Example.solver.
Proof.
  cbn. destruct (decide (1 / 1000 > 0)) as [_ | Hn]; [reflexivity | lra].
Qed.

Lemma example_tangent_jacobian (context : Context) :
  exists Jt R_WC,
    CalcTangentVelocitiesJacobian
      (Example.finalized_plant (1 / 1000) 1000 (1 / 10)) context
      [Example.ball_on_ground] = Ok (Jt, [R_WC]).
Proof.
  unfold CalcTangentVelocitiesJacobian. cbn [for_each].
  rewrite (tangent_rows_registered _ context Example.ball_on_ground
             1%nat 0%nat); try reflexivity; try (cbn; lia); try (cbn; lra).
  cbn [mbind result_bind]. eexists. eexists. reflexivity.
Qed.

(** The ball, at height [1], falls with speed [1] onto the ground; the box
    rests at height [2].  The step of one millisecond completes. *)
Lemma example_discrete_step :
  exists x_next p',
    DoCalcDiscreteVariableUpdates
      (Example.finalized_plant (1 / 1000) 1000 (1 / 10))
      (Example.context_with ([1; 2] ++ [-1; 0]) true [Example.ball_on_ground])
    = Ok (x_next, p').
Proof.
  unfold DoCalcDiscreteVariableUpdates.
  set (P := Example.finalized_plant (1 / 1000) 1000 (1 / 10)).
  set (ctx := Example.context_with ([1; 2] ++ [-1; 0]) true
                [Example.ball_on_ground]).
  assert (H1 : forall f, AddJointActuationForces P ctx f = Ok f)
    by reflexivity.
  assert (H2 : CalcPointPairPenetrations P ctx = Ok [Example.ball_on_ground])
    by reflexivity.
  assert (H3 : exists Jn,
             CalcNormalSeparationVelocitiesJacobian P ctx
               [Example.ball_on_ground] = Ok Jn)
    by (eexists; reflexivity).
  assert (H4 : exists c,
             CalcCombinedFrictionCoefficients P [Example.ball_on_ground]
             = Ok [c])
    by (eexists; reflexivity).
  destruct H3 as (Jn & H3). destruct H4 as (c & H4).
  destruct (example_tangent_jacobian ctx) as (Jt & R_WC & HJt).
  fold P in HJt.
  change (DRAKE_ASSERT (length (discrete_state ctx) = 1%nat) _) with (Ok tt).
  change (DRAKE_ASSERT (length (continuous_state_vector ctx) = 0%nat) _)
    with (Ok tt).
  cbn [mbind result_bind].
  change (vector_index (discrete_state ctx) 0 "get_discrete_state")
    with (Ok ([1; 2] ++ [-1; 0])).
  cbn [mbind result_bind]. rewrite H1. cbn [mbind result_bind].
  rewrite H2. cbn [mbind result_bind].
  destruct (CalcInverseDynamics _ _ _ _ _ _ _) as [F_out minus_tau].
  cbn [length]. rewrite HJt, H3, H4.
  change (bool_decide (0 < 1)%nat) with true. cbn [mbind result_bind].
  pose proof example_solver as Hsolver. fold P in Hsolver. rewrite Hsolver.
  cbn [optional_value mbind result_bind].
  eexists. eexists. reflexivity.
Qed.

Lemma discrete_update_momentum_and_position_witness :
  discrete_state
    (Example.context_with ([1; 2] ++ [-1; 0]) true [Example.ball_on_ground])
  = [[1; 2] ++ [-1; 0]] /\
  length [1; 2]
  = num_positions (Example.finalized_plant (1 / 1000) 1000 (1 / 10)) /\
  length [-1; 0]
  = num_velocities (Example.finalized_plant (1 / 1000) 1000 (1 / 10)) /\
  exists x_next p' sv data,
    DoCalcDiscreteVariableUpdates
      (Example.finalized_plant (1 / 1000) 1000 (1 / 10))
      (Example.context_with ([1; 2] ++ [-1; 0]) true [Example.ball_on_ground])
    = Ok (x_next, p') /\
    implicit_stribeck_solver_ p' = Some sv /\
    solver_data sv = Some data /\
    data_p_star data
    = VecX.sub (VecX.mul [[2; 0]; [0; 3]] [-1; 0])
        (VecX.scale (1 / 1000)
           (VecX.sub [2 * (981 / 100); 3 * (981 / 100)] [0; 0])) /\
    x_next
    = VecX.add [1; 2]
        (VecX.scale (1 / 1000)
           (get_generalized_velocities (solver_solution sv)))
      ++ get_generalized_velocities (solver_solution sv).
Proof.
  split; [reflexivity |]. split; [reflexivity |]. split; [reflexivity |].
  destruct example_discrete_step as (x_next & p' & Hrun).
  destruct (discrete_update_momentum_and_position
              (Example.finalized_plant (1 / 1000) 1000 (1 / 10))
              (Example.context_with ([1; 2] ++ [-1; 0]) true
                 [Example.ball_on_ground])
              [1; 2] [-1; 0] x_next p' eq_refl eq_refl eq_refl Hrun)
    as (forces_actuated & sv0 & sv & data & Hact & _ & Hsv & Hdata & _ & Hp &
        _ & Hnext).
  injection Hact as <-.
  exists x_next, p', sv, data.
  split; [exact Hrun |]. split; [exact Hsv |]. split; [exact Hdata |].
  split; [exact Hp | exact Hnext].
Defined.

Lemma discrete_update_uses_static_friction_witness :
  exists x_next p' sv data,
    DoCalcDiscreteVariableUpdates
      (Example.finalized_plant (1 / 1000) 1000 (1 / 10))
      (Example.context_with ([1; 2] ++ [-1; 0]) true [Example.ball_on_ground])
    = Ok (x_next, p') /\
    implicit_stribeck_solver_ p' = Some sv /\
    solver_data sv = Some data /\
    data_mu data = [Example.harmonic 1 1].
Proof.
  destruct example_discrete_step as (x_next & p' & Hrun).
  destruct (discrete_update_uses_static_friction
              (Example.finalized_plant (1 / 1000) 1000 (1 / 10))
              (Example.context_with ([1; 2] ++ [-1; 0]) true
                 [Example.ball_on_ground])
              x_next p' Hrun)
    as ((point_pairs0 & combined & sv & data & Hpairs & Hcomb & _ & Hsv &
         Hdata & Hmu & _) & _).
  injection Hpairs as <-. injection Hcomb as <-.
  exists x_next, p', sv, data.
  split; [exact Hrun |]. split; [exact Hsv |]. split; [exact Hdata |].
  exact Hmu.
Defined.

End DiscreteUpdateExamples.

(** *** Further properties of the code *)

Section StribeckShape.
Import Stribeck.

Lemma quintic_increasing (x y : R) :
  x <= y ->
  10 * x ^ 3 - 15 * x ^ 4 + 6 * x ^ 5 <= 10 * y ^ 3 - 15 * y ^ 4 + 6 * y ^ 5.
Proof.
  intros Hxy.
  enough (0 <= 10 * y ^ 3 - 15 * y ^ 4 + 6 * y ^ 5
               - (10 * x ^ 3 - 15 * x ^ 4 + 6 * x ^ 5)) by lra.
  set (d := y - x). set (a := x - x * x). set (b := d * (1 - 2 * x)).
  set (c := - (d * d)).
  replace (10 * y ^ 3 - 15 * y ^ 4 + 6 * y ^ 5
           - (10 * x ^ 3 - 15 * x ^ 4 + 6 * x ^ 5))
    with (30 * d * ((a + b / 2 + c / 3) * (a + b / 2 + c / 3)
                    + (b + c) * (b + c) / 12 + c * c / 180))
    by (unfold a, b, c, d; field).
  assert (Hd : 0 <= d) by (unfold d; lra).
  pose proof (Rle_0_sqr (a + b / 2 + c / 3)) as H1.
  pose proof (Rle_0_sqr (b + c)) as H2.
  pose proof (Rle_0_sqr c) as H3.
  unfold Rsqr in *.
  apply Rmult_le_pos; [lra | lra].
Qed.

Lemma quintic_0 : 10 * 0 ^ 3 - 15 * 0 ^ 4 + 6 * 0 ^ 5 = 0.
Proof. ring. Qed.

Lemma quintic_1 : 10 * 1 ^ 3 - 15 * 1 ^ 4 + 6 * 1 ^ 5 = 1.
Proof. ring. Qed.

Lemma quintic_range (x : R) :
  0 <= x <= 1 -> 0 <= 10 * x ^ 3 - 15 * x ^ 4 + 6 * x ^ 5 <= 1.
Proof.
  intros [H0 H1].
  pose proof (quintic_increasing 0 x H0) as Hlo.
  pose proof (quintic_increasing x 1 H1) as Hhi.
  rewrite quintic_0 in Hlo. rewrite quintic_1 in Hhi. lra.
Qed.

Lemma slip_ratio_le (speed1 speed2 v_stiction : R) :
  0 < v_stiction -> speed1 <= speed2 -> speed1 / v_stiction <= speed2 / v_stiction.
Proof.
  intros Hv Hle. unfold Rdiv.
  apply Rmult_le_compat_r; [| exact Hle].
  left. now apply Rinv_0_lt_compat.
Qed.

Lemma slip_ratio_at (k v_stiction : R) :
  0 < v_stiction -> k * v_stiction / v_stiction = k.
Proof. intros Hv. field. lra. Qed.

(** The coefficient as a function of the slip ratio, with its bounds. *)
Lemma friction_coefficient_profile
    (v_stiction speed : R) (friction : CoulombFriction) :
  0 < v_stiction -> 0 <= speed ->
  0 <= dynamic_friction friction <= static_friction friction ->
  let s := speed / v_stiction in
  let mu_s := static_friction friction in
  let mu_d := dynamic_friction friction in
  let quintic x := 10 * x ^ 3 - 15 * x ^ 4 + 6 * x ^ 5 in
  exists mu,
    ComputeFrictionCoefficient (set_stiction_tolerance v_stiction) speed friction
    = Ok mu /\
    0 <= mu <= mu_s /\
    (s < 1 -> mu = mu_s * quintic s) /\
    (1 <= s -> mu_d <= mu) /\
    (1 <= s < 3 -> mu = mu_s - (mu_s - mu_d) * quintic ((s - 1) / 2)) /\
    (3 <= s -> mu = mu_d).
Proof.
  intros Hv Hs Hmu s mu_s mu_d quintic.
  destruct (friction_coefficient_cases v_stiction speed friction Hv Hs)
    as (Ha & Hb & Hc).
  pose proof (slip_ratio_nonneg speed v_stiction Hv Hs) as Hs0.
  fold s in Ha, Hb, Hc, Hs0. fold mu_s in Hb, Hc. fold mu_d in Ha, Hb.
  destruct (Rle_lt_dec 3 s) as [H3 | H3];
    [| destruct (Rle_lt_dec 1 s) as [H1 | H1]].
  - exists mu_d. split; [now apply Ha |].
    split; [exact Hmu |]. repeat split; intros; lra.
  - pose proof (quintic_range ((s - 1) / 2) ltac:(lra)) as Hq.
    fold (quintic ((s - 1) / 2)) in Hq.
    exists (mu_s - (mu_s - mu_d) * quintic ((s - 1) / 2)).
    split; [apply Hb; lra |].
    assert (Hprod : 0 <= (mu_s - mu_d) * quintic ((s - 1) / 2) <= mu_s - mu_d).
    { fold mu_s mu_d in Hmu. split; [apply Rmult_le_pos; lra |].
      rewrite <- (Rmult_1_r (mu_s - mu_d)) at 2.
      apply Rmult_le_compat_l; lra. }
    fold mu_s mu_d in Hmu.
    split; [lra |]. repeat split; intros; lra.
  - pose proof (quintic_range s ltac:(lra)) as Hq. fold (quintic s) in Hq.
    exists (mu_s * quintic s).
    split; [apply Hc; lra |].
    fold mu_s mu_d in Hmu.
    assert (Hprod : 0 <= mu_s * quintic s <= mu_s).
    { split; [apply Rmult_le_pos; lra |].
      rewrite <- (Rmult_1_r mu_s) at 2.
      apply Rmult_le_compat_l; lra. }
    split; [exact Hprod |]. repeat split; intros; lra.
Qed.

(** X1. [step5] is a step from [0] to [1]: it is [0] at [0], [1] at [1],
    and on [[0, 1]] it never decreases, so its values stay in [[0, 1]]. *)
Theorem step5_monotone_step (x y : R) :
  0 <= x -> x <= y -> y <= 1 ->
  step5 0 = Ok 0 /\ step5 1 = Ok 1 /\
  exists sx sy,
    step5 x = Ok sx /\ step5 y = Ok sy /\ 0 <= sx /\ sx <= sy /\ sy <= 1.
Proof.
  intros H0 Hxy H1.
  split; [rewrite step5_in_range by lra; f_equal; ring |].
  split; [rewrite step5_in_range by lra; f_equal; ring |].
  eexists. eexists.
  split; [apply step5_in_range; lra |].
  split; [apply step5_in_range; lra |].
  pose proof (quintic_range x ltac:(lra)).
  pose proof (quintic_range y ltac:(lra)).
  pose proof (quintic_increasing x y Hxy). lra.
Qed.

Lemma step5_monotone_step_witness :
  exists sx sy,
    step5 (1 / 4) = Ok sx /\ step5 (1 / 2) = Ok sy /\
    0 <= sx /\ sx <= sy /\ sy <= 1.
Proof.
  apply (step5_monotone_step (1 / 4) (1 / 2)); lra.
Defined.

(** X2. With coefficients [0 <= mu_d <= mu_s], the Stribeck coefficient of
    a non-negative slip speed lies between [0] and [mu_s]; from the stiction
    tolerance on it is at least [mu_d]. *)
Theorem ComputeFrictionCoefficient_bounded
    (v_stiction speed : R) (friction : CoulombFriction) :
  0 < v_stiction -> 0 <= speed ->
  0 <= dynamic_friction friction <= static_friction friction ->
  exists mu,
    ComputeFrictionCoefficient (set_stiction_tolerance v_stiction) speed friction
    = Ok mu /\
    0 <= mu <= static_friction friction /\
    (v_stiction <= speed -> dynamic_friction friction <= mu).
Proof.
  intros Hv Hs Hmu.
  destruct (friction_coefficient_profile v_stiction speed friction Hv Hs Hmu)
    as (mu & Heq & Hbound & _ & Hd & _).
  exists mu. split; [exact Heq |]. split; [exact Hbound |].
  intros Hle. apply Hd.
  pose proof (slip_ratio_le v_stiction speed v_stiction Hv Hle) as Hr.
  replace (v_stiction / v_stiction) with 1 in Hr by (field; lra). exact Hr.
Qed.

Lemma ComputeFrictionCoefficient_bounded_witness :
  exists mu,
    ComputeFrictionCoefficient (set_stiction_tolerance (1 / 1000)) (1 / 500)
      {| static_friction := 1; dynamic_friction := 1 / 2 |} = Ok mu /\
    0 <= mu <= 1 /\ (1 / 1000 <= 1 / 500 -> 1 / 2 <= mu).
Proof.
  apply (ComputeFrictionCoefficient_bounded (1 / 1000) (1 / 500)
           {| static_friction := 1; dynamic_friction := 1 / 2 |});
    cbn; lra.
Defined.

(** X3. The Stribeck curve: the coefficient is [0] at rest, rises with the
    slip speed up to [mu_s] at the stiction tolerance, then falls with the
    slip speed down to [mu_d], which it reaches at three times the
    tolerance. *)
Theorem ComputeFrictionCoefficient_curve
    (v_stiction speed1 speed2 : R) (friction : CoulombFriction) :
  0 < v_stiction ->
  0 <= dynamic_friction friction <= static_friction friction ->
  0 <= speed1 -> speed1 <= speed2 ->
  let m := set_stiction_tolerance v_stiction in
  ComputeFrictionCoefficient m 0 friction = Ok 0 /\
  ComputeFrictionCoefficient m v_stiction friction
  = Ok (static_friction friction) /\
  ComputeFrictionCoefficient m (3 * v_stiction) friction
  = Ok (dynamic_friction friction) /\
  exists mu1 mu2,
    ComputeFrictionCoefficient m speed1 friction = Ok mu1 /\
    ComputeFrictionCoefficient m speed2 friction = Ok mu2 /\
    (speed2 <= v_stiction -> mu1 <= mu2) /\
    (v_stiction <= speed1 -> mu2 <= mu1).
Proof.
  intros Hv Hmu H1 H12 m.
  set (mu_s := static_friction friction) in *.
  set (mu_d := dynamic_friction friction) in *.
  split; [| split; [| split]].
  - destruct (friction_coefficient_cases v_stiction 0 friction Hv ltac:(lra))
      as (_ & _ & Hc).
    unfold m. rewrite Hc by (unfold Rdiv; rewrite Rmult_0_l; lra).
    f_equal. unfold Rdiv. rewrite Rmult_0_l. ring.
  - destruct (friction_coefficient_cases v_stiction v_stiction friction Hv
                ltac:(lra)) as (_ & Hb & _).
    replace (v_stiction / v_stiction) with 1 in Hb by (field; lra).
    unfold m. rewrite Hb by lra. f_equal. fold mu_s mu_d.
    replace ((1 - 1) / 2) with 0 by lra. ring.
  - destruct (friction_coefficient_cases v_stiction (3 * v_stiction) friction
                Hv ltac:(lra)) as (Ha & _ & _).
    rewrite (slip_ratio_at 3 v_stiction Hv) in Ha.
    unfold m. rewrite Ha by lra. reflexivity.
  - destruct (friction_coefficient_profile v_stiction speed1 friction Hv
                H1 Hmu)
      as (mu1 & Heq1 & Hb1 & Hlow1 & Hd1 & Hmid1 & Hhigh1).
    destruct (friction_coefficient_profile v_stiction speed2 friction Hv
                ltac:(lra) Hmu)
      as (mu2 & Heq2 & Hb2 & Hlow2 & Hd2 & Hmid2 & Hhigh2).
    pose proof (slip_ratio_le speed1 speed2 v_stiction Hv H12) as Hs12.
    pose proof (slip_ratio_nonneg speed1 v_stiction Hv H1) as Hs1.
    set (s1 := speed1 / v_stiction) in *.
    set (s2 := speed2 / v_stiction) in *.
    fold mu_s mu_d in Hb1, Hb2, Hlow1, Hlow2, Hd1, Hd2, Hmid1, Hmid2,
      Hhigh1, Hhigh2.
    exists mu1, mu2. split; [exact Heq1 |]. split; [exact Heq2 |]. split.
    + intros Hle.
      pose proof (slip_ratio_le speed2 v_stiction v_stiction Hv Hle) as Hr.
      replace (v_stiction / v_stiction) with 1 in Hr by (field; lra).
      fold s2 in Hr.
      destruct (Rlt_le_dec s2 1) as [Hlt | Hge].
      * rewrite Hlow1, Hlow2 by lra.
        apply Rmult_le_compat_l; [lra |].
        now apply quintic_increasing.
      * assert (Hmu2 : mu2 = mu_s).
        { rewrite Hmid2 by lra.
          replace ((s2 - 1) / 2) with 0 by lra. ring. }
        lra.
    + intros Hle.
      pose proof (slip_ratio_le v_stiction speed1 v_stiction Hv Hle) as Hr.
      replace (v_stiction / v_stiction) with 1 in Hr by (field; lra).
      fold s1 in Hr.
      destruct (Rle_lt_dec 3 s2) as [H3 | H3].
      * rewrite (Hhigh2 H3). apply Hd1. lra.
      * rewrite Hmid1, Hmid2 by lra.
        assert (Hq : 10 * ((s1 - 1) / 2) ^ 3 - 15 * ((s1 - 1) / 2) ^ 4
                     + 6 * ((s1 - 1) / 2) ^ 5
                     <= 10 * ((s2 - 1) / 2) ^ 3 - 15 * ((s2 - 1) / 2) ^ 4
                        + 6 * ((s2 - 1) / 2) ^ 5)
          by (apply quintic_increasing; lra).
        assert (Hdiff : 0 <= mu_s - mu_d) by lra.
        pose proof (Rmult_le_compat_l _ _ _ Hdiff Hq). lra.
Qed.

Lemma ComputeFrictionCoefficient_curve_witness :
  ComputeFrictionCoefficient (set_stiction_tolerance (1 / 1000)) (1 / 1000)
    {| static_friction := 1; dynamic_friction := 1 / 2 |} = Ok 1 /\
  exists mu1 mu2,
    ComputeFrictionCoefficient (set_stiction_tolerance (1 / 1000)) (1 / 4000)
      {| static_friction := 1; dynamic_friction := 1 / 2 |} = Ok mu1 /\
    ComputeFrictionCoefficient (set_stiction_tolerance (1 / 1000)) (1 / 2000)
      {| static_friction := 1; dynamic_friction := 1 / 2 |} = Ok mu2 /\
    mu1 <= mu2.
Proof.
  destruct (ComputeFrictionCoefficient_curve (1 / 1000) (1 / 4000) (1 / 2000)
              {| static_friction := 1; dynamic_friction := 1 / 2 |})
    as (_ & Hpeak & _ & mu1 & mu2 & H1 & H2 & Hup & _);
    [lra | cbn; lra | lra | lra |].
  split; [exact Hpeak |].
  exists mu1, mu2. split; [exact H1 |]. split; [exact H2 |].
  apply Hup. lra.
Defined.

End StribeckShape.

Section FrictionCone.
Context `{Collaborators}.
Import Stribeck.

Lemma tangential_velocity_is_tangent (pair : PenetrationAsPointPair)
    (v : Vector3) :
  Vec3.squaredNorm (nhat_BA_W pair) = 1 ->
  Vec3.dot (vt_AcBc_W pair v) (nhat_BA_W pair) = 0.
Proof.
  unfold vt_AcBc_W, vn, Vec3.squaredNorm, Vec3.dot, Vec3.sub, Vec3.scale.
  destruct (nhat_BA_W pair) as [nx ny nz], v as [vx vy vz]. cbn.
  intros Hn.
  replace ((vx - (vx * nx + vy * ny + vz * nz) * nx) * nx
           + (vy - (vx * nx + vy * ny + vz * nz) * ny) * ny
           + (vz - (vx * nx + vy * ny + vz * nz) * nz) * nz)
    with ((vx * nx + vy * ny + vz * nz) * (1 - (nx * nx + ny * ny + nz * nz)))
    by ring.
  rewrite Hn. ring.
Qed.

Lemma norm_Zero : Vec3.norm Vec3.Zero = 0.
Proof.
  unfold Vec3.norm, Vec3.squaredNorm, Vec3.dot, Vec3.Zero. cbn.
  replace (0 * 0 + 0 * 0 + 0 * 0) with 0 by ring. apply sqrt_0.
Qed.

Lemma norm_scale_unit (c : R) (a : Vector3) :
  0 <= c -> 0 < Vec3.squaredNorm a ->
  Vec3.norm (Vec3.scale c (Vec3.div a (Vec3.norm a))) = c.
Proof.
  intros Hc Ha.
  assert (Hn : 0 < Vec3.norm a) by (unfold Vec3.norm; now apply sqrt_lt_R0).
  assert (Hsq : Vec3.norm a * Vec3.norm a = Vec3.squaredNorm a).
  { unfold Vec3.norm. apply sqrt_sqrt. lra. }
  unfold Vec3.norm at 1. apply sqrt_lem_1; [| exact Hc |].
  - unfold Vec3.squaredNorm, Vec3.dot.
    pose proof (Rle_0_sqr (x_ (Vec3.scale c (Vec3.div a (Vec3.norm a))))).
    pose proof (Rle_0_sqr (y_ (Vec3.scale c (Vec3.div a (Vec3.norm a))))).
    pose proof (Rle_0_sqr (z_ (Vec3.scale c (Vec3.div a (Vec3.norm a))))).
    unfold Rsqr in *. lra.
  - unfold Vec3.squaredNorm, Vec3.dot, Vec3.scale, Vec3.div in *.
    cbn [x_ y_ z_] in *.
    set (n := Vec3.norm a) in *.
    replace (c * (x_ a / n) * (c * (x_ a / n))
             + c * (y_ a / n) * (c * (y_ a / n))
             + c * (z_ a / n) * (c * (z_ a / n)))
      with (c * c * ((x_ a * x_ a + y_ a * y_ a + z_ a * z_ a) / (n * n)))
      by (field; lra).
    rewrite Hsq. field. lra.
Qed.

Lemma kNonZeroSqd_pos : 0 < kNonZeroSqd.
Proof.
  unfold kNonZeroSqd.
  assert (H14 : 0 < 10 ^ 14) by (apply pow_lt; lra).
  assert (Hinv : 0 < 1 / 10 ^ 14).
  { unfold Rdiv. rewrite Rmult_1_l. now apply Rinv_0_lt_compat. }
  now apply Rmult_lt_0_compat.
Qed.

(** X4. The force of the penalty method on [A] at the contact point, for a
    unit normal and coefficients [0 <= mu_d <= mu_s]: it carries no torque;
    its normal component is [fn], which is positive, so the contact pushes
    [A] away from [B] and never pulls; its tangential part is orthogonal to
    the normal, lies inside the friction cone of the static coefficient, and
    points along the tangential velocity of [B]'s point relative to [A]'s. *)
Theorem contact_force_in_friction_cone (p : MultibodyPlant)
    (frictions : list CoulombFriction) (icontact : nat)
    (pair : PenetrationAsPointPair) (v : Vector3)
    (friction : CoulombFriction) (v_stiction : R) (F_AC_W : SpatialForce.t) :
  stribeck_model_ p = Stribeck.set_stiction_tolerance v_stiction ->
  0 < v_stiction ->
  frictions !! icontact = Some friction ->
  0 <= dynamic_friction friction <= static_friction friction ->
  Vec3.squaredNorm (nhat_BA_W pair) = 1 ->
  contact_force_on_A p frictions icontact pair v = Ok (Some F_AC_W) ->
  let n := nhat_BA_W pair in
  let f := SpatialForce.translational F_AC_W in
  let ft := Vec3.sub f (Vec3.scale (Vec3.dot f n) n) in
  SpatialForce.rotational F_AC_W = Vec3.Zero /\
  Vec3.dot f n = fn_AC p pair v /\
  0 < Vec3.dot f n /\
  Vec3.dot ft n = 0 /\
  Vec3.norm ft <= static_friction friction * Vec3.dot f n /\
  exists c, 0 <= c /\ ft = Vec3.scale c (vt_AcBc_W pair v).
Proof.
  intros Hmodel Hv Hfr Hmu Hn Hrun n f ft.
  pose proof (tangential_velocity_is_tangent pair v Hn) as Htan.
  destruct (Rgt_dec (fn_AC p pair v) 0) as [Hfn | Hfn].
  2: { rewrite contact_force_not_positive in Hrun by assumption.
       discriminate. }
  destruct (Rgt_dec (Vec3.squaredNorm (vt_AcBc_W pair v)) kNonZeroSqd)
    as [Hvt | Hvt].
  - (* sliding *)
    destruct (friction_coefficient_profile v_stiction
                (Vec3.norm (vt_AcBc_W pair v)) friction Hv
                (norm_nonneg _) Hmu) as (mu & Hmueq & Hmub & _).
    rewrite (contact_force_sliding p frictions icontact pair v friction mu)
      in Hrun; try assumption; [| now rewrite Hmodel].
    injection Hrun as <-.
    pose proof kNonZeroSqd_pos as Hk.
    assert (Hvt0 : 0 < Vec3.squaredNorm (vt_AcBc_W pair v)) by lra.
    assert (Hnorm : 0 < Vec3.norm (vt_AcBc_W pair v))
      by (unfold Vec3.norm; now apply sqrt_lt_R0).
    assert (Hc : 0 <= mu * fn_AC p pair v) by (apply Rmult_le_pos; lra).
    assert (Hdot : Vec3.dot f n = fn_AC p pair v).
    { unfold f, n. cbn [SpatialForce.translational].
      revert Htan Hn.
      unfold Vec3.squaredNorm, Vec3.dot, Vec3.add, Vec3.scale, Vec3.div.
      cbn [x_ y_ z_].
      set (vt := vt_AcBc_W pair v) in *. set (s := Vec3.norm vt) in *.
      set (fn := fn_AC p pair v) in *.
      intros Htan Hn.
      replace ((fn * x_ (nhat_BA_W pair) + mu * fn * (x_ vt / s))
               * x_ (nhat_BA_W pair)
               + (fn * y_ (nhat_BA_W pair) + mu * fn * (y_ vt / s))
                 * y_ (nhat_BA_W pair)
               + (fn * z_ (nhat_BA_W pair) + mu * fn * (z_ vt / s))
                 * z_ (nhat_BA_W pair))
        with (fn * (x_ (nhat_BA_W pair) * x_ (nhat_BA_W pair)
                    + y_ (nhat_BA_W pair) * y_ (nhat_BA_W pair)
                    + z_ (nhat_BA_W pair) * z_ (nhat_BA_W pair))
              + mu * fn / s
                * (x_ vt * x_ (nhat_BA_W pair) + y_ vt * y_ (nhat_BA_W pair)
                   + z_ vt * z_ (nhat_BA_W pair)))
        by (field; lra).
      rewrite Hn, Htan. ring. }
    assert (Hft : ft = Vec3.scale (mu * fn_AC p pair v)
                         (Vec3.div (vt_AcBc_W pair v)
                                   (Vec3.norm (vt_AcBc_W pair v)))).
    { unfold ft. rewrite Hdot. unfold f, n.
      cbn [SpatialForce.translational].
      unfold Vec3.sub, Vec3.add, Vec3.scale, Vec3.div. cbn [x_ y_ z_].
      f_equal; ring. }
    split; [reflexivity |]. split; [exact Hdot |].
    split; [rewrite Hdot; lra |].
    split.
    { rewrite Hft. revert Htan.
      unfold Vec3.dot, Vec3.scale, Vec3.div. cbn [x_ y_ z_].
      set (vt := vt_AcBc_W pair v) in *. set (s := Vec3.norm vt) in *.
      intros Htan.
      replace (mu * fn_AC p pair v * (x_ vt / s) * x_ n
               + mu * fn_AC p pair v * (y_ vt / s) * y_ n
               + mu * fn_AC p pair v * (z_ vt / s) * z_ n)
        with (mu * fn_AC p pair v / s
              * (x_ vt * x_ n + y_ vt * y_ n + z_ vt * z_ n))
        by (field; lra).
      unfold n. rewrite Htan. ring. }
    split.
    { rewrite Hft, norm_scale_unit by assumption. rewrite Hdot.
      apply Rmult_le_compat_r; lra. }
    exists (mu * fn_AC p pair v / Vec3.norm (vt_AcBc_W pair v)).
    split.
    { unfold Rdiv. apply Rmult_le_pos; [exact Hc |].
      left. now apply Rinv_0_lt_compat. }
    rewrite Hft. unfold Vec3.scale, Vec3.div. cbn [x_ y_ z_].
    f_equal; field; lra.
  - (* sticking *)
    rewrite contact_force_sticking in Hrun by assumption.
    injection Hrun as <-.
    assert (Hdot : Vec3.dot f n = fn_AC p pair v).
    { unfold f, n. cbn [SpatialForce.translational].
      revert Hn.
      unfold Vec3.squaredNorm, Vec3.dot, Vec3.add, Vec3.scale, Vec3.Zero.
      cbn [x_ y_ z_]. intros Hn.
      replace ((fn_AC p pair v * x_ (nhat_BA_W pair) + 0) * x_ (nhat_BA_W pair)
               + (fn_AC p pair v * y_ (nhat_BA_W pair) + 0)
                 * y_ (nhat_BA_W pair)
               + (fn_AC p pair v * z_ (nhat_BA_W pair) + 0)
                 * z_ (nhat_BA_W pair))
        with (fn_AC p pair v
              * (x_ (nhat_BA_W pair) * x_ (nhat_BA_W pair)
                 + y_ (nhat_BA_W pair) * y_ (nhat_BA_W pair)
                 + z_ (nhat_BA_W pair) * z_ (nhat_BA_W pair)))
        by ring.
      rewrite Hn. ring. }
    assert (Hft : ft = Vec3.Zero).
    { unfold ft. rewrite Hdot. unfold f, n.
      cbn [SpatialForce.translational].
      unfold Vec3.sub, Vec3.add, Vec3.scale, Vec3.Zero. cbn [x_ y_ z_].
      f_equal; ring. }
    split; [reflexivity |]. split; [exact Hdot |].
    split; [rewrite Hdot; lra |].
    split; [rewrite Hft; unfold Vec3.dot, Vec3.Zero; cbn; ring |].
    split.
    { rewrite Hft, norm_Zero, Hdot. apply Rmult_le_pos; lra. }
    exists 0. split; [lra |].
    rewrite Hft. unfold Vec3.scale, Vec3.Zero. f_equal; ring.
Qed.

End FrictionCone.

Section FrictionConeExamples.
#[local] Existing Instance Example.collaborators.

Lemma contact_force_in_friction_cone_witness :
  0 < Vec3.dot (V3 (11 / 2) 0 11) (V3 0 0 1) /\
  Vec3.norm (Vec3.sub (V3 (11 / 2) 0 11)
               (Vec3.scale (Vec3.dot (V3 (11 / 2) 0 11) (V3 0 0 1))
                  (V3 0 0 1)))
  <= 1 * Vec3.dot (V3 (11 / 2) 0 11) (V3 0 0 1).
Proof.
  destruct (contact_force_in_friction_cone
              (Example.finalized_plant 0 1000 (1 / 10))
              [ {| static_friction := 1; dynamic_friction := 1 / 2 |} ] 0
              Example.ball_on_ground (V3 1 0 1)
              {| static_friction := 1; dynamic_friction := 1 / 2 |}
              (1 / 1000)
              (SpatialForce.make Vec3.Zero (V3 (11 / 2) 0 11))
              eq_refl ltac:(lra) eq_refl)
    as (_ & _ & Hpush & _ & Hcone & _).
  - cbn. lra.
  - unfold Vec3.squaredNorm, Vec3.dot. cbn. ring.
  - exact sliding_ball_force.
  - split; [exact Hpush | exact Hcone].
Defined.

End FrictionConeExamples.

Section ForceArray.
Context `{Collaborators}.

Lemma for_indexed_preserves_in {A St : Type} (P : St -> Prop)
    (body : nat -> A -> St -> result St) (xs : list A) :
  (forall i x s s', x ∈ xs -> body i x s = Ok s' -> P s -> P s') ->
  forall i s s', for_indexed body i xs s = Ok s' -> P s -> P s'.
Proof.
  induction xs as [| x xs IH]; intros Hbody i s s' Hrun Hs; cbn in Hrun.
  - now injection Hrun as <-.
  - destruct (body i x s) as [s1 |] eqn:Hb; [| discriminate]. cbn in Hrun.
    eapply IH; [| exact Hrun |].
    + intros i' x' t t' Hin. apply Hbody. now right.
    + eapply Hbody; [left | exact Hb | exact Hs].
Qed.

(** What [contact_kinematics] has looked up when it returns. *)
Lemma contact_kinematics_inv (p : MultibodyPlant)
    (pc : PositionKinematicsCache) (vc : VelocityKinematicsCache)
    (pair : PenetrationAsPointPair) (kin : ContactKinematics) :
  contact_kinematics p pc vc pair = Ok kin ->
  exists bodyA bodyB X_WA X_WB V_WA V_WB,
    geometry_id_to_body_index_ (geometry_ p) !! id_A pair
    = Some (bodyA_index kin) /\
    geometry_id_to_body_index_ (geometry_ p) !! id_B pair
    = Some (bodyB_index kin) /\
    tree_bodies (model_ p) !! bodyA_index kin = Some bodyA /\
    tree_bodies (model_ p) !! bodyB_index kin = Some bodyB /\
    bodyA_node_index kin = node_index bodyA /\
    bodyB_node_index kin = node_index bodyB /\
    0 <= depth pair /\
    pc !! node_index bodyA = Some X_WA /\ pc !! node_index bodyB = Some X_WB /\
    vc !! node_index bodyA = Some V_WA /\ vc !! node_index bodyB = Some V_WB.
Proof.
  unfold contact_kinematics, map_at, get_body, vector_index, DRAKE_ASSERT.
  cbn zeta.
  destruct (geometry_id_to_body_index_ (geometry_ p) !! id_A pair) as [iA |];
    cbn [mbind result_bind]; [| discriminate].
  destruct (geometry_id_to_body_index_ (geometry_ p) !! id_B pair) as [iB |];
    cbn [mbind result_bind]; [| discriminate].
  destruct (tree_bodies (model_ p) !! iA) as [bA |] eqn:HbA;
    cbn [mbind result_bind]; [| discriminate].
  destruct (tree_bodies (model_ p) !! iB) as [bB |] eqn:HbB;
    cbn [mbind result_bind]; [| discriminate].
  destruct (decide (depth pair >= 0)) as [Hx | Hx];
    cbn [mbind result_bind]; [| discriminate].
  destruct (pc !! node_index bA) as [XA |] eqn:HXA;
    cbn [mbind result_bind]; [| discriminate].
  destruct (pc !! node_index bB) as [XB |] eqn:HXB;
    cbn [mbind result_bind]; [| discriminate].
  destruct (vc !! node_index bA) as [VA |] eqn:HVA;
    cbn [mbind result_bind]; [| discriminate].
  destruct (vc !! node_index bB) as [VB |] eqn:HVB;
    cbn [mbind result_bind]; [| discriminate].
  intros [= <-]. cbn.
  exists bA, bB, XA, XB, VA, VB. repeat split; try assumption; lra.
Qed.

Lemma add_at_length (F_array F_array' : list SpatialForce.t) (i : nat)
    (F : SpatialForce.t) :
  add_at F_array i F = Ok F_array' -> length F_array' = length F_array.
Proof.
  intros Hadd. apply add_at_inv in Hadd as (F_i & _ & ->).
  apply length_insert.
Qed.

Lemma accumulate_length (kin : ContactKinematics) (F_AC_W : SpatialForce.t)
    (F_array F_array' : list SpatialForce.t) :
  accumulate_contact_force kin F_AC_W (Some F_array) = Ok (Some F_array') ->
  length F_array' = length F_array.
Proof.
  unfold accumulate_contact_force. cbn zeta.
  destruct (if bool_decide (bodyA_index kin <> world_index) then _ else _)
    as [F1 |] eqn:H1; [| discriminate]. cbn [mbind result_bind].
  destruct (if bool_decide (bodyB_index kin <> world_index) then _ else _)
    as [F2 |] eqn:H2; [| discriminate]. cbn [mbind result_bind].
  intros [= <-].
  assert (HF1 : length F1 = length F_array).
  { destruct (bool_decide (bodyA_index kin <> world_index)).
    - now apply add_at_length in H1.
    - now injection H1 as <-. }
  rewrite <- HF1.
  destruct (bool_decide (bodyB_index kin <> world_index)).
  - now apply add_at_length in H2.
  - now injection H2 as <-.
Qed.

(** X5. The penalty method keeps the size of the array of body forces, and
    changes no slot but those of the bodies, other than the world, that own a
    geometry of some point pair. *)
Theorem penalty_forces_only_on_bodies_in_contact (p : MultibodyPlant)
    (pc : PositionKinematicsCache) (vc : VelocityKinematicsCache)
    (point_pairs : list PenetrationAsPointPair)
    (F_BBo_W_array : list SpatialForce.t)
    (r : option (list SpatialForce.t)) :
  CalcAndAddContactForcesByPenaltyMethod p pc vc point_pairs
    (Some F_BBo_W_array) = Ok r ->
  exists F', r = Some F' /\
    length F' = length F_BBo_W_array /\
    forall j : BodyNodeIndex,
      (forall pair geometry_id body_index body,
         pair ∈ point_pairs ->
         geometry_id = id_A pair \/ geometry_id = id_B pair ->
         geometry_id_to_body_index_ (geometry_ p) !! geometry_id
         = Some body_index ->
         body_index <> world_index ->
         tree_bodies (model_ p) !! body_index = Some body ->
         node_index body <> j) ->
      F' !! j = F_BBo_W_array !! j.
Proof.
  unfold CalcAndAddContactForcesByPenaltyMethod.
  destruct (bool_decide (num_collision_geometries p = 0%nat)).
  { intros [= <-]. now exists F_BBo_W_array. }
  destruct (CalcCombinedFrictionCoefficients p point_pairs)
    as [frictions |]; cbn [mbind result_bind]; [| discriminate].
  intros Hrun.
  set (P := fun s : option (list SpatialForce.t) =>
    exists F', s = Some F' /\
      length F' = length F_BBo_W_array /\
      forall j : BodyNodeIndex,
        (forall pair geometry_id body_index body,
           pair ∈ point_pairs ->
           geometry_id = id_A pair \/ geometry_id = id_B pair ->
           geometry_id_to_body_index_ (geometry_ p) !! geometry_id
           = Some body_index ->
           body_index <> world_index ->
           tree_bodies (model_ p) !! body_index = Some body ->
           node_index body <> j) ->
        F' !! j = F_BBo_W_array !! j).
  apply (for_indexed_preserves_in P
           (penalty_contact p pc vc frictions) point_pairs)
    with (i := 0%nat) (s := Some F_BBo_W_array); [| exact Hrun |].
  2: { exists F_BBo_W_array. repeat split. }
  intros i pair s s' Hin Hstep (F & -> & Hlen & Hslots).
  unfold penalty_contact in Hstep.
  destruct (contact_kinematics p pc vc pair) as [kin |] eqn:Hkin;
    [| discriminate]. cbn [mbind result_bind] in Hstep.
  destruct (contact_force_on_A p frictions i pair (v_AcBc_W kin))
    as [[F_AC_W |] |]; cbn [mbind result_bind] in Hstep; [| | discriminate].
  2: { injection Hstep as <-. now exists F. }
  destruct (accumulate_on_array _ _ _ _ Hstep) as (F' & ->).
  exists F'. split; [reflexivity |].
  split; [rewrite (accumulate_length _ _ _ _ Hstep); exact Hlen |].
  intros j Hj. rewrite <- (Hslots j Hj).
  destruct (contact_kinematics_inv _ _ _ _ _ Hkin)
    as (bA & bB & _ & _ & _ & _ & HgA & HgB & HbA & HbB & HnA & HnB & _).
  eapply accumulate_keeps_other_slots; [exact Hstep | |].
  - intros HA Heq.
    apply (Hj pair (id_A pair) (bodyA_index kin) bA Hin (or_introl eq_refl)
             HgA HA HbA).
    now rewrite Heq, HnA.
  - intros HB Heq.
    apply (Hj pair (id_B pair) (bodyB_index kin) bB Hin (or_intror eq_refl)
             HgB HB HbB).
    now rewrite Heq, HnB.
Qed.

End ForceArray.

Section ForceArrayExamples.
#[local] Existing Instance Example.collaborators.

(** The box comes down on the ball: the penalty method runs on the pair. *)
Lemma example_penalty_run :
  exists F',
    CalcAndAddContactForcesByPenaltyMethod
      (Example.finalized_plant 0 1000 (1 / 10))
      [Example.at_height 0; Example.at_height 1; Example.at_height 2]
      [Example.moving_up 0; Example.moving_up 0; Example.moving_up (-1)]
      [Example.box_on_ball] (Some (replicate 3 SpatialForce.Zero))
    = Ok (Some F').
Proof.
  destruct box_on_ball_kinematics as (kin & Hkin & HA & HB & HnA & HnB & Hv).
  unfold CalcAndAddContactForcesByPenaltyMethod.
  change (bool_decide
            (num_collision_geometries
               (Example.finalized_plant 0 1000 (1 / 10)) = 0%nat))
    with false.
  assert (Hc : exists c,
             CalcCombinedFrictionCoefficients
               (Example.finalized_plant 0 1000 (1 / 10))
               [Example.box_on_ball] = Ok [c])
    by (eexists; reflexivity).
  destruct Hc as (c & ->). cbn [mbind result_bind for_indexed].
  unfold penalty_contact. rewrite Hkin. cbn [mbind result_bind].
  rewrite contact_force_sticking.
  - cbn [mbind result_bind]. unfold accumulate_contact_force.
    rewrite HA, HB, HnA, HnB.
    change (bool_decide (2%nat <> world_index)) with true.
    change (bool_decide (1%nat <> world_index)) with true.
    cbn [replicate]. unfold add_at, vector_at.
    cbn [lookup list_lookup mbind result_bind insert list_insert].
    eexists. reflexivity.
  - rewrite Hv. unfold fn_AC, vn, Vec3.dot. cbn. lra.
  - rewrite Hv.
    unfold Vec3.squaredNorm, vt_AcBc_W, vn, Vec3.sub, Vec3.scale, Vec3.dot,
      kNonZeroSqd.
    cbn. assert (0 < 10 ^ 14) by (apply pow_lt; lra).
    assert (0 < 1 / 10 ^ 14) by (apply Rdiv_lt_0_compat; lra). nra.
Qed.

Lemma penalty_forces_only_on_bodies_in_contact_witness :
  exists F',
    CalcAndAddContactForcesByPenaltyMethod
      (Example.finalized_plant 0 1000 (1 / 10))
      [Example.at_height 0; Example.at_height 1; Example.at_height 2]
      [Example.moving_up 0; Example.moving_up 0; Example.moving_up (-1)]
      [Example.box_on_ball] (Some (replicate 3 SpatialForce.Zero))
    = Ok (Some F') /\
    length F' = 3%nat /\ F' !! 0%nat = Some SpatialForce.Zero.
Proof.
  destruct example_penalty_run as (F' & Hrun).
  destruct (penalty_forces_only_on_bodies_in_contact _ _ _ _ _ _ Hrun)
    as (F'' & [= <-] & Hlen & Hslots).
  exists F'. split; [exact Hrun |]. split; [exact Hlen |].
  rewrite (Hslots 0%nat); [reflexivity |].
  intros pair geometry_id body_index body Hin Hgeo Hbody Hworld Hlook.
  apply list_elem_of_singleton in Hin. subst pair.
  destruct Hgeo as [-> | ->]; cbn in Hbody; injection Hbody as <-;
    cbn in Hlook; injection Hlook as <-; cbn; discriminate.
Defined.

End ForceArrayExamples.

Section UnregisteredGeometry.
Context `{Collaborators}.

Lemma not_Ok_is_Raise {A : Type} (m : result A) :
  (forall a, m <> Ok a) -> exists e, m = Raise e.
Proof.
  destruct m as [a | e]; intros Hm; [now destruct (Hm a) | now exists e].
Qed.

Lemma for_indexed_body_ran {A St : Type} (body : nat -> A -> St -> result St)
    (xs : list A) (x : A) :
  x ∈ xs ->
  forall i s s', for_indexed body i xs s = Ok s' ->
  exists k t t', body k x t = Ok t'.
Proof.
  induction xs as [| x0 xs IH]; intros Hin i s s' Hrun.
  - now apply elem_of_nil in Hin.
  - cbn in Hrun.
    destruct (body i x0 s) as [s1 |] eqn:Hb; [| discriminate]. cbn in Hrun.
    apply elem_of_cons in Hin as [-> | Hin].
    + now exists i, s, s1.
    + exact (IH Hin _ _ _ Hrun).
Qed.

Lemma normal_row_unregistered (p : MultibodyPlant) (context : Context)
    (pair : PenetrationAsPointPair) :
  geometry_id_to_body_index_ (geometry_ p) !! id_A pair = None \/
  geometry_id_to_body_index_ (geometry_ p) !! id_B pair = None ->
  exists e, normal_row p context pair = Raise e.
Proof.
  intros Hreg. unfold normal_row, map_at. cbn zeta.
  destruct (geometry_id_to_body_index_ (geometry_ p) !! id_A pair) as [iA |]
    eqn:HA; cbn [mbind result_bind]; [| now eexists].
  destruct (get_body p iA); cbn [mbind result_bind]; [| now eexists].
  destruct (geometry_id_to_body_index_ (geometry_ p) !! id_B pair) as [iB |]
    eqn:HB; cbn [mbind result_bind]; [| now eexists].
  destruct Hreg; discriminate.
Qed.

Lemma tangent_rows_unregistered (p : MultibodyPlant) (context : Context)
    (pair : PenetrationAsPointPair) :
  geometry_id_to_body_index_ (geometry_ p) !! id_A pair = None \/
  geometry_id_to_body_index_ (geometry_ p) !! id_B pair = None ->
  exists e, tangent_rows p context pair = Raise e.
Proof.
  intros Hreg. unfold tangent_rows, map_at. cbn zeta.
  destruct (geometry_id_to_body_index_ (geometry_ p) !! id_A pair) as [iA |]
    eqn:HA; cbn [mbind result_bind]; [| now eexists].
  destruct (get_body p iA); cbn [mbind result_bind]; [| now eexists].
  destruct (geometry_id_to_body_index_ (geometry_ p) !! id_B pair) as [iB |]
    eqn:HB; cbn [mbind result_bind]; [| now eexists].
  destruct Hreg; discriminate.
Qed.

Lemma contact_kinematics_unregistered (p : MultibodyPlant)
    (pc : PositionKinematicsCache) (vc : VelocityKinematicsCache)
    (pair : PenetrationAsPointPair) :
  geometry_id_to_body_index_ (geometry_ p) !! id_A pair = None \/
  geometry_id_to_body_index_ (geometry_ p) !! id_B pair = None ->
  exists e, contact_kinematics p pc vc pair = Raise e.
Proof.
  intros Hreg. unfold contact_kinematics, map_at. cbn zeta.
  destruct (geometry_id_to_body_index_ (geometry_ p) !! id_A pair) as [iA |]
    eqn:HA; cbn [mbind result_bind]; [| now eexists].
  destruct (geometry_id_to_body_index_ (geometry_ p) !! id_B pair) as [iB |]
    eqn:HB; cbn [mbind result_bind]; [| now eexists].
  destruct Hreg; discriminate.
Qed.

Lemma contact_info_unregistered (p : MultibodyPlant) (R_WC_set : list Matrix3)
    (fn ft vt vn : VectorX) (icontact : nat) (pair : PenetrationAsPointPair)
    (contact_results : ContactResults) :
  geometry_id_to_body_index_ (geometry_ p) !! id_A pair = None \/
  geometry_id_to_body_index_ (geometry_ p) !! id_B pair = None ->
  exists e,
    contact_info p R_WC_set fn ft vt vn icontact pair contact_results = Raise e.
Proof.
  intros Hreg. unfold contact_info, map_at. cbn zeta.
  destruct (geometry_id_to_body_index_ (geometry_ p) !! id_A pair) as [iA |]
    eqn:HA; cbn [mbind result_bind]; [| now eexists].
  destruct (geometry_id_to_body_index_ (geometry_ p) !! id_B pair) as [iB |]
    eqn:HB; cbn [mbind result_bind]; [| now eexists].
  destruct Hreg; discriminate.
Qed.

(** X6. A point pair that names a geometry absent from the plant's map from
    geometries to bodies makes the computation of its Jacobian rows throw
    [std::out_of_range] when the geometry is [A]'s, and no list of point
    pairs that holds such a pair gets its normal Jacobian, its tangent
    Jacobian, its penalty forces or its contact results computed. *)
Theorem unregistered_geometry_throws (p : MultibodyPlant) (context : Context)
    (pc : PositionKinematicsCache) (vc : VelocityKinematicsCache)
    (point_pairs : list PenetrationAsPointPair)
    (pair : PenetrationAsPointPair) :
  pair ∈ point_pairs ->
  geometry_id_to_body_index_ (geometry_ p) !! id_A pair = None \/
  geometry_id_to_body_index_ (geometry_ p) !! id_B pair = None ->
  (geometry_id_to_body_index_ (geometry_ p) !! id_A pair = None ->
   normal_row p context pair
   = Raise (out_of_range "geometry_id_to_body_index_") /\
   tangent_rows p context pair
   = Raise (out_of_range "geometry_id_to_body_index_")) /\
  (exists e,
     CalcNormalSeparationVelocitiesJacobian p context point_pairs = Raise e) /\
  (exists e, CalcTangentVelocitiesJacobian p context point_pairs = Raise e) /\
  (num_collision_geometries p <> 0%nat ->
   forall F_BBo_W_array, exists e,
     CalcAndAddContactForcesByPenaltyMethod p pc vc point_pairs F_BBo_W_array
     = Raise e) /\
  (num_collision_geometries p <> 0%nat ->
   forall R_WC_set contact_results, exists e,
     CalcContactResults p point_pairs R_WC_set contact_results = Raise e).
Proof.
  intros Hin Hreg.
  apply list_elem_of_lookup in Hin as Hlook. destruct Hlook as (i & Hi).
  split; [| split; [| split; [| split]]].
  - intros HA. unfold normal_row, tangent_rows, map_at. cbn zeta.
    rewrite HA. split; reflexivity.
  - apply not_Ok_is_Raise. intros Jn HJn.
    destruct (for_each_lookup _ _ _ _ _ HJn Hi) as (row & Hrow & _).
    destruct (normal_row_unregistered p context pair Hreg) as (e & He).
    congruence.
  - apply not_Ok_is_Raise. intros [Jt R_WC_set] HJt.
    unfold CalcTangentVelocitiesJacobian in HJt.
    destruct (for_each (tangent_rows p context) point_pairs)
      as [per_contact |] eqn:Hper; [| discriminate].
    destruct (for_each_lookup _ _ _ _ _ Hper Hi) as (c & Hc & _).
    destruct (tangent_rows_unregistered p context pair Hreg) as (e & He).
    congruence.
  - intros Hgeo F. apply not_Ok_is_Raise. intros r Hrun.
    unfold CalcAndAddContactForcesByPenaltyMethod in Hrun.
    rewrite bool_decide_eq_false_2 in Hrun by assumption.
    destruct (CalcCombinedFrictionCoefficients p point_pairs)
      as [frictions |]; cbn [mbind result_bind] in Hrun; [| discriminate].
    destruct (for_indexed_body_ran _ _ _ Hin _ _ _ Hrun) as (k & t & t' & Hb).
    unfold penalty_contact in Hb.
    destruct (contact_kinematics_unregistered p pc vc pair Hreg) as (e & He).
    rewrite He in Hb. discriminate.
  - intros Hgeo R_WC_set contact_results. apply not_Ok_is_Raise.
    intros r Hrun. unfold CalcContactResults in Hrun.
    rewrite bool_decide_eq_false_2 in Hrun by assumption.
    cbn zeta in Hrun.
    apply bind_result_inv in Hrun as ([] & _ & Hrun).
    apply bind_result_inv in Hrun as (sv & _ & Hrun).
    do 4 (apply bind_result_inv in Hrun as ([] & _ & Hrun)).
    destruct (for_indexed_body_ran _ _ _ Hin _ _ _ Hrun) as (k & t & t' & Hb).
    destruct (contact_info_unregistered p R_WC_set
                (get_normal_forces (solver_solution sv))
                (get_friction_forces (solver_solution sv))
                (get_tangential_velocities (solver_solution sv))
                (get_normal_velocities (solver_solution sv)) k pair t Hreg)
      as (e & He).
    congruence.
Qed.

End UnregisteredGeometry.

Section UnregisteredGeometryExamples.
#[local] Existing Instance Example.collaborators.

Lemma unregistered_geometry_throws_witness :
  normal_row (Example.finalized_plant 0 1 1)
    (Example.context_with [1; 2; 0; 0] false [])
    {| id_A := 99%nat; id_B := 10%nat; p_WCa := Vec3.Zero; p_WCb := Vec3.Zero;
       nhat_BA_W := V3 0 0 1; depth := 0 |}
  = Raise (out_of_range "geometry_id_to_body_index_") /\
  exists e,
    CalcNormalSeparationVelocitiesJacobian (Example.finalized_plant 0 1 1)
      (Example.context_with [1; 2; 0; 0] false [])
      [ Example.ball_on_ground;
        {| id_A := 99%nat; id_B := 10%nat; p_WCa := Vec3.Zero;
           p_WCb := Vec3.Zero; nhat_BA_W := V3 0 0 1; depth := 0 |} ]
    = Raise e.
Proof.
  destruct (unregistered_geometry_throws (Example.finalized_plant 0 1 1)
              (Example.context_with [1; 2; 0; 0] false []) [] []
              [ Example.ball_on_ground;
                {| id_A := 99%nat; id_B := 10%nat; p_WCa := Vec3.Zero;
                   p_WCb := Vec3.Zero; nhat_BA_W := V3 0 0 1; depth := 0 |} ]
              {| id_A := 99%nat; id_B := 10%nat; p_WCa := Vec3.Zero;
                 p_WCb := Vec3.Zero; nhat_BA_W := V3 0 0 1; depth := 0 |})
    as (Hrow & HJn & _).
  - apply elem_of_cons. right. apply elem_of_cons. now left.
  - left. reflexivity.
  - split; [apply Hrow; reflexivity | exact HJn].
Defined.

End UnregisteredGeometryExamples.

Section JacobianDimensions.
Context `{Collaborators}.

Lemma length_left_mul (a : Vector3) (J : Matrix3X) (n : nat) :
  Mat3X.rows_have n J -> length (Mat3X.left_mul a J) = n.
Proof.
  intros (Hx & Hy & Hz). unfold Mat3X.left_mul.
  assert (Hxy : length (VecX.add (VecX.scale (x_ a) (row_x J))
                          (VecX.scale (y_ a) (row_y J))) = n).
  { rewrite length_add; rewrite !length_scale; congruence. }
  rewrite length_add; [exact Hxy |].
  rewrite Hxy, length_scale. congruence.
Qed.

Lemma normal_row_length (p : MultibodyPlant) (context : Context)
    (pair : PenetrationAsPointPair) (row : VectorX) (n : nat) :
  (forall body point,
     Mat3X.rows_have n
       (CalcPointsGeometricJacobianExpressedInWorld (model_ p) context
          body point)) ->
  normal_row p context pair = Ok row -> length row = n.
Proof.
  intros HJ. unfold normal_row. cbn zeta. intros Hrun.
  apply bind_result_inv in Hrun as (iA & _ & Hrun).
  apply bind_result_inv in Hrun as (bA & _ & Hrun).
  apply bind_result_inv in Hrun as (iB & _ & Hrun).
  apply bind_result_inv in Hrun as (bB & _ & Hrun).
  injection Hrun as <-.
  apply length_left_mul, sub_rows_have; apply HJ.
Qed.

Lemma tangent_rows_length (p : MultibodyPlant) (context : Context)
    (pair : PenetrationAsPointPair) (c : Matrix3 * (VectorX * VectorX))
    (n : nat) :
  (forall body point,
     Mat3X.rows_have n
       (CalcPointsGeometricJacobianExpressedInWorld (model_ p) context
          body point)) ->
  tangent_rows p context pair = Ok c ->
  fst c = ComputeBasisFromAxis 2 (nhat_BA_W pair) /\
  length (fst (snd c)) = n /\ length (snd (snd c)) = n.
Proof.
  intros HJ. unfold tangent_rows. cbn zeta. intros Hrun.
  apply bind_result_inv in Hrun as (iA & _ & Hrun).
  apply bind_result_inv in Hrun as (bA & _ & Hrun).
  apply bind_result_inv in Hrun as (iB & _ & Hrun).
  apply bind_result_inv in Hrun as (bB & _ & Hrun).
  apply bind_result_inv in Hrun as ([] & _ & Hrun).
  injection Hrun as <-. cbn [fst snd].
  split; [reflexivity |].
  split; apply length_left_mul, sub_rows_have; apply HJ.
Qed.

Lemma for_each_Forall {A B : Type} (f : A -> result B) (P : B -> Prop)
    (xs : list A) (ys : list B) :
  (forall x y, f x = Ok y -> P y) ->
  for_each f xs = Ok ys -> Forall P ys.
Proof.
  intros Hf. revert ys. induction xs as [| x xs IH]; intros ys Hrun;
    cbn in Hrun.
  - injection Hrun as <-. constructor.
  - apply bind_result_inv in Hrun as (y & Hy & Hrun).
    apply bind_result_inv in Hrun as (ys0 & Hys & Hrun).
    injection Hrun as <-. constructor; [now apply (Hf x) | now apply IH].
Qed.

Lemma length_rows_of_pairs {C : Type} (a b : C -> VectorX) (l : list C) :
  length (concat (map (fun c => [a c; b c]) l)) = (2 * length l)%nat.
Proof. induction l as [| c l IH]; cbn in *; lia. Qed.

Lemma Forall_rows_of_pairs {C : Type} (a b : C -> VectorX) (l : list C)
    (P : VectorX -> Prop) :
  Forall (fun c => P (a c) /\ P (b c)) l ->
  Forall P (concat (map (fun c => [a c; b c]) l)).
Proof.
  induction 1 as [| c l [Ha Hb] _ IH]; cbn; [constructor |].
  constructor; [exact Ha |]. constructor; [exact Hb | exact IH].
Qed.

(** X7. The contact Jacobians have the sizes their allocation gives them:
    [Jn] has one row per point pair and [Jt] two, the set of contact frames
    has one frame per point pair, which is the basis computed from the
    pair's normal, and every row has as many entries as the tree's point
    Jacobians have columns, [num_velocities()]. *)
Theorem contact_jacobian_dimensions (p : MultibodyPlant) (context : Context)
    (point_pairs : list PenetrationAsPointPair)
    (Jn Jt : MatrixX) (R_WC_set : list Matrix3) :
  (forall body point,
     Mat3X.rows_have (num_velocities p)
       (CalcPointsGeometricJacobianExpressedInWorld (model_ p) context
          body point)) ->
  CalcNormalSeparationVelocitiesJacobian p context point_pairs = Ok Jn ->
  CalcTangentVelocitiesJacobian p context point_pairs = Ok (Jt, R_WC_set) ->
  length Jn = length point_pairs /\
  length Jt = (2 * length point_pairs)%nat /\
  R_WC_set
  = map (fun pair => ComputeBasisFromAxis 2 (nhat_BA_W pair)) point_pairs /\
  Forall (fun row => length row = num_velocities p) Jn /\
  Forall (fun row => length row = num_velocities p) Jt.
Proof.
  intros HJ HJn HJt.
  unfold CalcNormalSeparationVelocitiesJacobian in HJn.
  unfold CalcTangentVelocitiesJacobian in HJt.
  apply bind_result_inv in HJt as (per_contact & Hper & HJt).
  injection HJt as <- <-.
  split; [exact (for_each_length _ _ _ HJn) |].
  split; [rewrite length_rows_of_pairs; f_equal;
          exact (for_each_length _ _ _ Hper) |].
  split.
  { clear HJn. revert per_contact Hper.
    induction point_pairs as [| pair rest IH]; intros per_contact Hper;
      cbn in Hper.
    - now injection Hper as <-.
    - apply bind_result_inv in Hper as (c & Hc & Hper).
      apply bind_result_inv in Hper as (cs & Hcs & Hper).
      injection Hper as <-. cbn [map]. f_equal.
      + now destruct (tangent_rows_length p context pair c _ HJ Hc).
      + now apply IH. }
  split.
  - apply (for_each_Forall _ _ _ _ (fun pair row => normal_row_length p context
             pair row _ HJ) HJn).
  - apply Forall_rows_of_pairs.
    apply (for_each_Forall (tangent_rows p context)
             (fun c => length (fst (snd c)) = num_velocities p /\
                       length (snd (snd c)) = num_velocities p)
             point_pairs per_contact); [| exact Hper].
    intros pair c Hc.
    now destruct (tangent_rows_length p context pair c _ HJ Hc) as (_ & ?).
Qed.

End JacobianDimensions.

Section JacobianDimensionsExamples.
#[local] Existing Instance Example.collaborators.

Lemma example_jacobian_columns (context : Context) (body : BodyIndex)
    (point : Vector3) :
  Mat3X.rows_have (num_velocities (Example.finalized_plant (1 / 1000) 1 1))
    (CalcPointsGeometricJacobianExpressedInWorld
       (model_ (Example.finalized_plant (1 / 1000) 1 1)) context body point).
Proof.
  cbn. unfold Example.jacobian.
  destruct body as [| [| [| body]]]; repeat split.
Qed.

Lemma contact_jacobian_dimensions_witness :
  exists Jn Jt R_WC_set,
    CalcNormalSeparationVelocitiesJacobian
      (Example.finalized_plant (1 / 1000) 1 1)
      (Example.context_with [1; 2; -1; 0] true
         [Example.ball_on_ground; Example.box_on_ball])
      [Example.ball_on_ground; Example.box_on_ball] = Ok Jn /\
    CalcTangentVelocitiesJacobian
      (Example.finalized_plant (1 / 1000) 1 1)
      (Example.context_with [1; 2; -1; 0] true
         [Example.ball_on_ground; Example.box_on_ball])
      [Example.ball_on_ground; Example.box_on_ball] = Ok (Jt, R_WC_set) /\
    length Jn = 2%nat /\ length Jt = 4%nat /\ length R_WC_set = 2%nat /\
    Forall (fun row => length row = 2%nat) Jt.
Proof.
  destruct (for_each_total
              (normal_row (Example.finalized_plant (1 / 1000) 1 1)
                 (Example.context_with [1; 2; -1; 0] true
                    [Example.ball_on_ground; Example.box_on_ball]))
              [Example.ball_on_ground; Example.box_on_ball]) as (Jn & HJn).
  { eapply Forall_impl; [apply (example_pairs_registered (1 / 1000) 1 1) |].
    intros pair ((bA & bB & HA & HB & HinA & HinB) & _).
    eexists. now apply (normal_row_registered _ _ pair bA bB). }
  destruct (for_each_total
              (tangent_rows (Example.finalized_plant (1 / 1000) 1 1)
                 (Example.context_with [1; 2; -1; 0] true
                    [Example.ball_on_ground; Example.box_on_ball]))
              [Example.ball_on_ground; Example.box_on_ball])
    as (per_contact & Hper).
  { eapply Forall_impl; [apply (example_pairs_registered (1 / 1000) 1 1) |].
    intros pair ((bA & bB & HA & HB & HinA & HinB) & Hx).
    eexists. now apply (tangent_rows_registered _ _ pair bA bB). }
  assert (HJt :
    CalcTangentVelocitiesJacobian
      (Example.finalized_plant (1 / 1000) 1 1)
      (Example.context_with [1; 2; -1; 0] true
         [Example.ball_on_ground; Example.box_on_ball])
      [Example.ball_on_ground; Example.box_on_ball]
    = Ok (concat (map (fun c => [fst (snd c); snd (snd c)]) per_contact),
          map fst per_contact)).
  { unfold CalcTangentVelocitiesJacobian. rewrite Hper. reflexivity. }
  destruct (contact_jacobian_dimensions _ _ _ _ _ _
              (example_jacobian_columns _) HJn HJt)
    as (Hn & Ht & HR & _ & Hcols).
  eexists. eexists. eexists.
  split; [exact HJn |]. split; [exact HJt |].
  split; [exact Hn |]. split; [exact Ht |].
  split; [rewrite HR; reflexivity | exact Hcols].
Defined.

End JacobianDimensionsExamples.

Section ContactResultsContents.
Context `{Collaborators}.

(** One turn of the loop of [CalcContactResults] appends one entry, which
    does not depend on the entries already there. *)
Lemma contact_info_appends (p : MultibodyPlant) (R_WC_set : list Matrix3)
    (fn ft vt vn : VectorX) (icontact : nat) (pair : PenetrationAsPointPair)
    (acc r : ContactResults) :
  contact_info p R_WC_set fn ft vt vn icontact pair acc = Ok r ->
  exists bodyA bodyB R_WC ft0 ft1 fn_i vt0 vt1 vn_i,
    geometry_id_to_body_index_ (geometry_ p) !! id_A pair = Some bodyA /\
    geometry_id_to_body_index_ (geometry_ p) !! id_B pair = Some bodyB /\
    R_WC_set !! icontact = Some R_WC /\
    ft !! (2 * icontact)%nat = Some ft0 /\
    ft !! (2 * icontact + 1)%nat = Some ft1 /\
    fn !! icontact = Some fn_i /\
    vt !! (2 * icontact)%nat = Some vt0 /\
    vt !! (2 * icontact + 1)%nat = Some vt1 /\
    vn !! icontact = Some vn_i /\
    r = acc ++
        [{| info_bodyA := bodyA; info_bodyB := bodyB;
            info_f_Bc_W := Matrix3_mul R_WC (V3 ft0 ft1 fn_i);
            info_p_WC := Vec3.scale (1 / 2) (Vec3.add (p_WCa pair) (p_WCb pair));
            info_separation_velocity := vn_i;
            info_slip_speed := sqrt (vt0 * vt0 + vt1 * vt1);
            info_point_pair := pair |}].
Proof.
  unfold contact_info, map_at, vector_index. cbn zeta. intros Hrun.
  destruct (geometry_id_to_body_index_ (geometry_ p) !! id_A pair) as [bA |];
    cbn [mbind result_bind] in Hrun; [| discriminate].
  destruct (geometry_id_to_body_index_ (geometry_ p) !! id_B pair) as [bB |];
    cbn [mbind result_bind] in Hrun; [| discriminate].
  destruct (R_WC_set !! icontact) as [R_WC |];
    cbn [mbind result_bind] in Hrun; [| discriminate].
  destruct (ft !! (2 * icontact)%nat) as [ft0 |];
    cbn [mbind result_bind] in Hrun; [| discriminate].
  destruct (ft !! (2 * icontact + 1)%nat) as [ft1 |];
    cbn [mbind result_bind] in Hrun; [| discriminate].
  destruct (fn !! icontact) as [fn_i |];
    cbn [mbind result_bind] in Hrun; [| discriminate].
  destruct (vt !! (2 * icontact)%nat) as [vt0 |];
    cbn [mbind result_bind] in Hrun; [| discriminate].
  destruct (vt !! (2 * icontact + 1)%nat) as [vt1 |];
    cbn [mbind result_bind] in Hrun; [| discriminate].
  destruct (vn !! icontact) as [vn_i |];
    cbn [mbind result_bind] in Hrun; [| discriminate].
  injection Hrun as <-.
  exists bA, bB, R_WC, ft0, ft1, fn_i, vt0, vt1, vn_i. repeat split.
Qed.

Lemma contact_info_loop (p : MultibodyPlant) (R_WC_set : list Matrix3)
    (fn ft vt vn : VectorX) (point_pairs : list PenetrationAsPointPair) :
  forall (k : nat) (acc r : ContactResults),
    for_indexed (contact_info p R_WC_set fn ft vt vn) k point_pairs acc = Ok r ->
    exists infos,
      r = acc ++ infos /\ length infos = length point_pairs /\
      forall i pair, point_pairs !! i = Some pair ->
        exists info,
          infos !! i = Some info /\
          contact_info p R_WC_set fn ft vt vn (k + i) pair [] = Ok [info].
Proof.
  induction point_pairs as [| pair0 rest IH]; intros k acc r Hrun;
    cbn in Hrun.
  - injection Hrun as <-. exists []. rewrite app_nil_r.
    repeat split. intros i pair Hi. discriminate.
  - apply bind_result_inv in Hrun as (acc1 & Hstep & Hrun).
    destruct (IH _ _ _ Hrun) as (infos & -> & Hlen & Hall).
    pose proof (contact_info_appends _ _ _ _ _ _ _ _ _ _ Hstep)
      as (bA & bB & R_WC & ft0 & ft1 & fn_i & vt0 & vt1 & vn_i &
          HA & HB & HR & Hft0 & Hft1 & Hfn & Hvt0 & Hvt1 & Hvn & ->).
    eexists (_ :: infos). split; [now rewrite <- app_assoc |].
    split; [cbn; now rewrite Hlen |].
    intros [| i] pair Hi; cbn in Hi.
    + injection Hi as <-. eexists. split; [reflexivity |].
      rewrite Nat.add_0_r.
      unfold contact_info, map_at, vector_index. cbn zeta.
      rewrite HA, HB. cbn [mbind result_bind].
      rewrite HR. cbn [mbind result_bind].
      rewrite Hft0, Hft1, Hfn. cbn [mbind result_bind].
      rewrite Hvt0, Hvt1, Hvn. reflexivity.
    + destruct (Hall i pair Hi) as (info & Hinfo & Hrow).
      exists info. split; [exact Hinfo |].
      now replace (k + S i)%nat with (S k + i)%nat by lia.
Qed.

(** The number of results [CalcContactResults] leaves. *)
Lemma CalcContactResults_length (p : MultibodyPlant)
    (point_pairs : list PenetrationAsPointPair) (R_WC_set : list Matrix3)
    (previous results : ContactResults) :
  CalcContactResults p point_pairs R_WC_set previous = Ok results ->
  (num_collision_geometries p = 0%nat -> results = previous) /\
  (num_collision_geometries p <> 0%nat ->
   length results = length point_pairs).
Proof.
  unfold CalcContactResults. intros Hrun. split.
  - intros Hgeo. rewrite bool_decide_eq_true_2 in Hrun by assumption.
    now injection Hrun as <-.
  - intros Hgeo. rewrite bool_decide_eq_false_2 in Hrun by assumption.
    cbn zeta in Hrun.
    apply bind_result_inv in Hrun as ([] & _ & Hrun).
    apply bind_result_inv in Hrun as (sv & Hsv & Hrun).
    do 4 (apply bind_result_inv in Hrun as ([] & _ & Hrun)).
    destruct (contact_info_loop _ _ _ _ _ _ _ _ _ _ Hrun)
      as (infos & -> & Hlen & _).
    exact Hlen.
Qed.

(** X8. [CalcContactResults]: without collision geometry the results are
    left as they are; otherwise the previous results are dropped and the
    new ones hold one entry per point pair, in the order of the pairs.
    Entry [i] carries the pair, the bodies of its two geometries, the contact
    point half way between the pair's points, the solver's normal velocity
    [vn(i)], the norm of the solver's tangential velocity
    [(vt(2 i), vt(2 i + 1))], and the force [R_WC (ft(2 i), ft(2 i + 1),
    fn(i))] of the solver's contact forces expressed in the world. *)
Theorem CalcContactResults_one_entry_per_pair (p : MultibodyPlant)
    (point_pairs : list PenetrationAsPointPair) (R_WC_set : list Matrix3)
    (previous results : ContactResults) :
  CalcContactResults p point_pairs R_WC_set previous = Ok results ->
  (num_collision_geometries p = 0%nat -> results = previous) /\
  (num_collision_geometries p <> 0%nat ->
   exists sv,
     implicit_stribeck_solver_ p = Some sv /\
     length results = length point_pairs /\
     forall i pair, point_pairs !! i = Some pair ->
       exists bodyA bodyB R_WC ft0 ft1 fn_i vt0 vt1 vn_i,
         geometry_id_to_body_index_ (geometry_ p) !! id_A pair = Some bodyA /\
         geometry_id_to_body_index_ (geometry_ p) !! id_B pair = Some bodyB /\
         R_WC_set !! i = Some R_WC /\
         get_friction_forces (solver_solution sv) !! (2 * i)%nat = Some ft0 /\
         get_friction_forces (solver_solution sv) !! (2 * i + 1)%nat
         = Some ft1 /\
         get_normal_forces (solver_solution sv) !! i = Some fn_i /\
         get_tangential_velocities (solver_solution sv) !! (2 * i)%nat
         = Some vt0 /\
         get_tangential_velocities (solver_solution sv) !! (2 * i + 1)%nat
         = Some vt1 /\
         get_normal_velocities (solver_solution sv) !! i = Some vn_i /\
         results !! i
         = Some {| info_bodyA := bodyA; info_bodyB := bodyB;
                   info_f_Bc_W := Matrix3_mul R_WC (V3 ft0 ft1 fn_i);
                   info_p_WC :=
                     Vec3.scale (1 / 2) (Vec3.add (p_WCa pair) (p_WCb pair));
                   info_separation_velocity := vn_i;
                   info_slip_speed := sqrt (vt0 * vt0 + vt1 * vt1);
                   info_point_pair := pair |}).
Proof.
  unfold CalcContactResults. intros Hrun. split.
  - intros Hgeo. rewrite bool_decide_eq_true_2 in Hrun by assumption.
    now injection Hrun as <-.
  - intros Hgeo. rewrite bool_decide_eq_false_2 in Hrun by assumption.
    cbn zeta in Hrun.
    apply bind_result_inv in Hrun as ([] & _ & Hrun).
    apply bind_result_inv in Hrun as (sv & Hsv & Hrun).
    do 4 (apply bind_result_inv in Hrun as ([] & _ & Hrun)).
    unfold optional_value in Hsv.
    destruct (implicit_stribeck_solver_ p) as [sv' |]; [| discriminate].
    injection Hsv as ->.
    exists sv. split; [reflexivity |].
    destruct (contact_info_loop _ _ _ _ _ _ _ _ _ _ Hrun)
      as (infos & -> & Hlen & Hall).
    cbn [app]. split; [exact Hlen |].
    intros i pair Hi.
    destruct (Hall i pair Hi) as (info & Hinfo & Hrow).
    cbn [Nat.add] in Hrow.
    destruct (contact_info_appends _ _ _ _ _ _ _ _ _ _ Hrow)
      as (bA & bB & R_WC & ft0 & ft1 & fn_i & vt0 & vt1 & vn_i &
          HA & HB & HR & Hft0 & Hft1 & Hfn & Hvt0 & Hvt1 & Hvn & Heq).
    cbn [app] in Heq. injection Heq as ->.
    exists bA, bB, R_WC, ft0, ft1, fn_i, vt0, vt1, vn_i.
    repeat split; assumption.
Qed.

End ContactResultsContents.

Section ContactResultsContentsExamples.
#[local] Existing Instance Example.collaborators.

Lemma CalcContactResults_one_entry_per_pair_witness :
  exists results info,
    CalcContactResults example_solved_plant [Example.ball_on_ground]
      [M3 (V3 1 0 0) (V3 0 1 0) (V3 0 0 1)] [] = Ok results /\
    length results = 1%nat /\
    results !! 0%nat = Some info /\
    info_bodyA info = 1%nat /\ info_bodyB info = 0%nat /\
    info_separation_velocity info = -1.
Proof.
  assert (Hrun : exists results,
    CalcContactResults example_solved_plant [Example.ball_on_ground]
      [M3 (V3 1 0 0) (V3 0 1 0) (V3 0 0 1)] [] = Ok results)
    by (eexists; reflexivity).
  destruct Hrun as (results & Hrun).
  destruct (CalcContactResults_one_entry_per_pair _ _ _ _ _ Hrun)
    as (_ & Hres).
  destruct Hres as (sv & Hsv & Hlen & Hall); [discriminate |].
  destruct (Hall 0%nat Example.ball_on_ground eq_refl)
    as (bA & bB & R_WC & ft0 & ft1 & fn_i & vt0 & vt1 & vn_i &
        HA & HB & HR & Hft0 & Hft1 & Hfn & Hvt0 & Hvt1 & Hvn & Hinfo).
  injection Hsv as <-.
  cbn in HA, HB, Hvn. injection HA as <-. injection HB as <-.
  injection Hvn as <-.
  exists results. eexists.
  split; [exact Hrun |]. split; [exact Hlen |]. split; [exact Hinfo |].
  repeat split.
Defined.

End ContactResultsContentsExamples.

Section TimeDerivatives.
Context `{Collaborators}.

(** X9. [DoCalcTimeDerivatives]: on a discrete plant the derivatives are
    left untouched; on a continuous plant they are [qdot] followed by
    [vdot], where [qdot] maps the velocities of the state, and
    [vdot = M.ldlt().solve(-tau)] with [tau] what inverse dynamics returns at
    zero acceleration for the forces of the force elements, the actuation and
    the joint damping, to which the penalty method has added the contact
    forces when the plant has collision geometry; without collision geometry
    the geometry query is not even read. *)
Theorem DoCalcTimeDerivatives_structure (p : MultibodyPlant)
    (context : Context) (derivatives xdot : VectorX) :
  DoCalcTimeDerivatives p context derivatives = Ok xdot ->
  (is_discrete p = true -> xdot = derivatives) /\
  (is_discrete p = false ->
   let nv := num_velocities p in
   let pc := EvalPositionKinematics p context in
   let vc := EvalVelocityKinematics p context in
   let M := CalcMassMatrixViaInverseDynamics (model_ p) context in
   exists forces_actuated F_BBo_W_array,
     AddJointActuationForces p context
       (CalcForceElementsContribution (model_ p) context pc vc)
     = Ok forces_actuated /\
     let forces := AddJointDampingForces p context forces_actuated in
     (num_collision_geometries p = 0%nat ->
      F_BBo_W_array = body_forces forces) /\
     (num_collision_geometries p <> 0%nat ->
      exists point_pairs,
        CalcPointPairPenetrations p context = Ok point_pairs /\
        CalcAndAddContactForcesByPenaltyMethod p pc vc point_pairs
          (Some (body_forces forces)) = Ok (Some F_BBo_W_array)) /\
     let tau :=
       snd (CalcInverseDynamics (model_ p) context pc vc (VecX.Zero nv)
              F_BBo_W_array (generalized_forces forces)) in
     xdot
     = MapVelocityToQDot (model_ p) context
         (VecX.bottomRows nv (continuous_state_vector context))
       ++ LDLT_solve M (VecX.neg tau)).
Proof.
  unfold DoCalcTimeDerivatives. intros Hrun. split.
  - intros Hd. rewrite Hd in Hrun. now injection Hrun as <-.
  - intros Hd. rewrite Hd in Hrun. cbn zeta in Hrun. cbn zeta.
    apply bind_result_inv in Hrun as (forces_actuated & Hact & Hrun).
    apply bind_result_inv in Hrun as (F & HF & Hrun).
    destruct (CalcInverseDynamics _ _ _ _ _ _ _) as [F_out tau] eqn:Hid
      in Hrun.
    injection Hrun as <-.
    exists forces_actuated, F. split; [exact Hact |].
    rewrite Hid. cbn [snd].
    split; [| split; [| reflexivity]].
    + intros Hgeo. rewrite Hgeo in HF.
      change (bool_decide (0 < 0)%nat) with false in HF.
      now injection HF as <-.
    + intros Hgeo.
      rewrite bool_decide_eq_true_2 in HF by lia.
      apply bind_result_inv in HF as (point_pairs & Hpairs & HF).
      apply bind_result_inv in HF as (r & Hrun & HF).
      exists point_pairs. split; [exact Hpairs |].
      unfold optional_value in HF. destruct r as [F' |]; [| discriminate].
      now injection HF as ->.
Qed.

End TimeDerivatives.

Section TimeDerivativesExamples.
#[local] Existing Instance Example.collaborators.

Lemma example_continuous :
  is_discrete (Example.finalized_plant 0 1000 (1 / 10)) = false.
Proof. unfold is_discrete. cbn. apply bool_decide_eq_false_2. lra. Qed.

(** The continuous plant of the example, the box coming down on the ball. *)
Lemma example_time_derivatives :
  exists xdot,
    DoCalcTimeDerivatives (Example.finalized_plant 0 1000 (1 / 10))
      (Example.context_with [1; 2; 0; -1] false [Example.box_on_ball]) []
    = Ok xdot.
Proof.
  unfold DoCalcTimeDerivatives. rewrite example_continuous. cbn zeta.
  set (P := Example.finalized_plant 0 1000 (1 / 10)).
  set (ctx := Example.context_with [1; 2; 0; -1] false [Example.box_on_ball]).
  assert (H1 : forall f, AddJointActuationForces P ctx f = Ok f)
    by reflexivity.
  rewrite H1. cbn [mbind result_bind].
  assert (H2 : CalcPointPairPenetrations P ctx = Ok [Example.box_on_ball])
    by reflexivity.
  change (bool_decide (0 < num_collision_geometries P)%nat) with true.
  rewrite H2. cbn [mbind result_bind].
  destruct example_penalty_run as (F' & Hrun).
  change (EvalPositionKinematics P ctx)
    with [Example.at_height 0; Example.at_height 1; Example.at_height 2].
  change (EvalVelocityKinematics P ctx)
    with [Example.moving_up 0; Example.moving_up 0; Example.moving_up (-1)].
  change (body_forces
            (AddJointDampingForces P ctx
               (CalcForceElementsContribution (model_ P) ctx
                  [Example.at_height 0; Example.at_height 1;
                   Example.at_height 2]
                  [Example.moving_up 0; Example.moving_up 0;
                   Example.moving_up (-1)])))
    with (replicate 3 SpatialForce.Zero).
  fold P in Hrun. rewrite Hrun. cbn [mbind result_bind optional_value].
  destruct (CalcInverseDynamics _ _ _ _ _ _ _) as [F_out tau].
  eexists. reflexivity.
Qed.

Lemma DoCalcTimeDerivatives_structure_witness :
  exists xdot F_BBo_W_array,
    DoCalcTimeDerivatives (Example.finalized_plant 0 1000 (1 / 10))
      (Example.context_with [1; 2; 0; -1] false [Example.box_on_ball]) []
    = Ok xdot /\
    CalcAndAddContactForcesByPenaltyMethod
      (Example.finalized_plant 0 1000 (1 / 10))
      [Example.at_height 0; Example.at_height 1; Example.at_height 2]
      [Example.moving_up 0; Example.moving_up 0; Example.moving_up (-1)]
      [Example.box_on_ball] (Some (replicate 3 SpatialForce.Zero))
    = Ok (Some F_BBo_W_array) /\
    xdot
    = [0; -1]
      ++ zip_with Rdiv
           (VecX.neg
              (VecX.sub [2 * (981 / 100); 3 * (981 / 100)] [0; 0])) [2; 3].
Proof.
  destruct example_time_derivatives as (xdot & Hrun).
  destruct (DoCalcTimeDerivatives_structure _ _ _ _ Hrun) as (_ & Hcont).
  destruct (Hcont example_continuous)
    as (forces_actuated & F & Hact & _ & Hgeo & Hxdot).
  injection Hact as <-.
  destruct Hgeo as (point_pairs & Hpairs & Hpenalty); [discriminate |].
  injection Hpairs as <-.
  exists xdot, F. split; [exact Hrun |]. split; [exact Hpenalty |].
  exact Hxdot.
Defined.

End TimeDerivativesExamples.

Section Actuation.
Context `{Collaborators}.

Lemma set_segment_next (c src : VectorX) (N : nat) :
  set_segment (length c) (length src) src (c ++ VecX.Zero (N - length c))
  = (c ++ src) ++ VecX.Zero (N - length (c ++ src)).
Proof.
  unfold set_segment, VecX.Zero.
  rewrite take_app_length, firstn_all, drop_app_add, drop_replicate.
  rewrite length_app, <- app_assoc. do 3 f_equal. lia.
Qed.

(** The loop of [AssembleActuationInput], from any instance on. *)
Lemma AssembleActuationInput_loop (p : MultibodyPlant) (context : Context)
    (N : nat) (xs : list ModelInstance) :
  forall (k : nat) (c u' : VectorX) (off' : nat),
    for_indexed (fun model_instance_index (_ : ModelInstance) acc =>
        let '(actuation_input, u_offset) := acc in
        let instance_num_dofs := num_actuated_dofs_of p model_instance_index in
        if bool_decide (instance_num_dofs = 0%nat) then Ok acc
        else
          port ← vector_index (instance_actuation_ports_ (ports_ p))
                   model_instance_index "instance_actuation_ports_";
          port ← optional_value port "InputPortIndex";
          u_instance ←
            match input_values context !! port with
            | Some (VectorInput u) => Ok u
            | _ => Raise (invalid_access "EvalEigenVectorInput")
            end;
          _ ← DRAKE_ASSERT (length u_instance = instance_num_dofs)
                "u_instance.size() == instance_num_dofs";
          Ok (set_segment u_offset instance_num_dofs u_instance
                actuation_input,
              (u_offset + instance_num_dofs)%nat))
      k xs (c ++ VecX.Zero (N - length c), length c) = Ok (u', off') ->
    exists us : list VectorX,
      u' = (c ++ concat us) ++ VecX.Zero (N - length (c ++ concat us)) /\
      off' = length (c ++ concat us) /\
      Forall2 (fun i u_i =>
                 exists port,
                   instance_actuation_ports_ (ports_ p) !! i
                   = Some (Some port) /\
                   input_values context !! port = Some (VectorInput u_i) /\
                   length u_i = num_actuated_dofs_of p i)
        (filter (fun i => num_actuated_dofs_of p i <> 0%nat)
                (seq k (length xs))) us.
Proof.
  induction xs as [| x xs IH]; intros k c u' off' Hrun.
  - cbn in Hrun. injection Hrun as <- <-. exists [].
    cbn [concat]. rewrite app_nil_r. repeat split. constructor.
  - cbn [for_indexed] in Hrun.
    apply bind_result_inv in Hrun as ([u1 off1] & Hstep & Hrun).
    cbn zeta in Hstep. cbn [length seq].
    destruct (bool_decide (num_actuated_dofs_of p k = 0%nat)) eqn:Hdofs.
    + apply bool_decide_eq_true_1 in Hdofs.
      injection Hstep as <- <-.
      destruct (IH _ _ _ _ Hrun) as (us & Hu & Hoff & Hall).
      exists us. split; [exact Hu |]. split; [exact Hoff |].
      rewrite filter_cons_False by (intros Hne; now apply Hne). exact Hall.
    + apply bool_decide_eq_false_1 in Hdofs.
      apply bind_result_inv in Hstep as (port_index & Hport & Hstep).
      apply bind_result_inv in Hstep as (port & Hvalid & Hstep).
      apply bind_result_inv in Hstep as (u_k & Hinput & Hstep).
      apply bind_result_inv in Hstep as ([] & Hsize & Hstep).
      injection Hstep as <- <-.
      unfold vector_index in Hport.
      destruct (instance_actuation_ports_ (ports_ p) !! k) as [pi |] eqn:Hpi;
        [| discriminate]. injection Hport as ->.
      unfold optional_value in Hvalid.
      destruct port_index as [port' |]; [| discriminate].
      injection Hvalid as ->.
      destruct (input_values context !! port) as [[u_k' | ?] |] eqn:Hin;
        try discriminate. injection Hinput as ->.
      unfold DRAKE_ASSERT in Hsize.
      destruct (decide (length u_k = num_actuated_dofs_of p k)) as [Hlen |];
        [| discriminate].
      rewrite <- Hlen, set_segment_next in Hrun.
      rewrite <- length_app in Hrun.
      destruct (IH _ _ _ _ Hrun) as (us & Hu & Hoff & Hall).
      exists (u_k :: us). cbn [concat].
      rewrite (app_assoc c u_k (concat us)).
      split; [exact Hu |]. split; [exact Hoff |].
      rewrite filter_cons_True by exact Hdofs.
      constructor; [| exact Hall].
      exists port. repeat split; assumption.
Qed.

(** X10. The actuation input is the concatenation, in the order of the
    model instances, of the vectors on the actuation input ports of the
    instances that have actuated degrees of freedom, each of the size of its
    instance; instances without actuation are skipped, and the whole has
    [num_actuated_dofs()] entries. *)
Theorem AssembleActuationInput_concatenates (p : MultibodyPlant)
    (context : Context) (u : VectorX) :
  AssembleActuationInput p context = Ok u ->
  exists us : list VectorX,
    u = concat us /\
    length u = num_actuated_dofs p /\
    Forall2 (fun i u_i =>
               exists port,
                 instance_actuation_ports_ (ports_ p) !! i
                 = Some (Some port) /\
                 input_values context !! port = Some (VectorInput u_i) /\
                 length u_i = num_actuated_dofs_of p i)
      (filter (fun i => num_actuated_dofs_of p i <> 0%nat)
              (seq 0 (num_model_instances p))) us.
Proof.
  unfold AssembleActuationInput. intros Hrun.
  apply bind_result_inv in Hrun as ([u' off'] & Hloop & Hrun).
  apply bind_result_inv in Hrun as ([] & Hassert & Hrun).
  injection Hrun as <-.
  unfold DRAKE_ASSERT in Hassert.
  destruct (decide (off' = num_actuated_dofs p)) as [Hoff |]; [| discriminate].
  pose proof (AssembleActuationInput_loop p context (num_actuated_dofs p)
                (tree_instances (model_ p)) 0 [] u' off') as Hinv.
  cbn [app length] in Hinv. rewrite Nat.sub_0_r in Hinv.
  destruct (Hinv Hloop) as (us & Hu & Hoff' & Hall).
  exists us. rewrite Hu, <- Hoff', Hoff, Nat.sub_diag.
  unfold VecX.Zero. cbn [replicate]. rewrite app_nil_r.
  split; [reflexivity |].
  split; [congruence | exact Hall].
Qed.

(** The loop of [AddJointActuationForces], from any actuator on. *)
Lemma AddJointActuationForces_loop (p : MultibodyPlant) (context : Context)
    (u : VectorX) (xs : list JointActuator) :
  forall (k : nat) (forces forces' : MultibodyForces),
    for_indexed (fun actuator_index actuator forces =>
        joint ← get_joint p (actuator_joint actuator);
        _ ← DRAKE_DEMAND (bool_decide (joint_num_dofs joint = 1%nat))
              "actuator.joint().num_dofs() == 1";
        u_i ← vector_index u actuator_index "u";
        Ok (foldl (fun forces joint_dof =>
                     AddInOneForce (model_ p) actuator_index context
                       joint_dof u_i forces)
                  forces (seq 0 (joint_num_dofs joint))))
      k xs forces = Ok forces' ->
    Forall (fun actuator =>
              exists joint,
                tree_joints (model_ p) !! actuator_joint actuator
                = Some joint /\ joint_num_dofs joint = 1%nat) xs /\
    length (zip (seq k (length xs)) (drop k u)) = length xs /\
    forces'
    = foldl (fun forces iu =>
               AddInOneForce (model_ p) (fst iu) context 0%nat (snd iu) forces)
            forces (zip (seq k (length xs)) (drop k u)).
Proof.
  induction xs as [| x xs IH]; intros k forces forces' Hrun.
  - cbn in Hrun. injection Hrun as <-. cbn.
    split; [constructor |]. split; reflexivity.
  - cbn [for_indexed] in Hrun.
    apply bind_result_inv in Hrun as (forces1 & Hstep & Hrun).
    apply bind_result_inv in Hstep as (joint & Hjoint & Hstep).
    apply bind_result_inv in Hstep as ([] & Hdemand & Hstep).
    apply bind_result_inv in Hstep as (u_k & Hu & Hstep).
    injection Hstep as <-.
    unfold get_joint, vector_index in Hjoint.
    destruct (tree_joints (model_ p) !! actuator_joint x) as [joint' |] eqn:Hj;
      [| discriminate]. injection Hjoint as ->.
    unfold DRAKE_DEMAND in Hdemand.
    destruct (bool_decide (joint_num_dofs joint = 1%nat)) eqn:Hdofs;
      [| discriminate].
    apply bool_decide_eq_true_1 in Hdofs.
    unfold vector_index in Hu.
    destruct (u !! k) as [u_k' |] eqn:Huk; [| discriminate].
    injection Hu as ->.
    rewrite Hdofs in Hrun. cbn [seq foldl] in Hrun.
    destruct (IH _ _ _ Hrun) as (Hall & Hlen & Hforces).
    split; [constructor; [now exists joint | exact Hall] |].
    cbn [length seq]. rewrite (drop_S _ _ _ Huk).
    cbn [zip_with length foldl fst snd].
    split; [now rewrite Hlen | exact Hforces].
Qed.

(** X11. Without actuators the forces are left as they are and no input
    port is read.  Otherwise every actuator sits on a joint of one degree of
    freedom, the assembled actuation input [u] has an entry for every
    actuator, and the forces are those obtained by adding, for the actuators
    in their order, the one force of actuator [i] on the degree of freedom
    [0] of its joint with the input [u[i]]. *)
Theorem AddJointActuationForces_one_input_per_actuator (p : MultibodyPlant)
    (context : Context) (forces forces' : MultibodyForces) :
  AddJointActuationForces p context forces = Ok forces' ->
  (num_actuators p = 0%nat -> forces' = forces) /\
  (num_actuators p <> 0%nat ->
   exists u,
     AssembleActuationInput p context = Ok u /\
     (num_actuators p <= length u)%nat /\
     Forall (fun actuator =>
               exists joint,
                 tree_joints (model_ p) !! actuator_joint actuator
                 = Some joint /\ joint_num_dofs joint = 1%nat)
       (tree_actuators (model_ p)) /\
     forces'
     = foldl (fun forces iu =>
                AddInOneForce (model_ p) (fst iu) context 0%nat (snd iu) forces)
             forces (zip (seq 0 (num_actuators p)) u)).
Proof.
  unfold AddJointActuationForces. intros Hrun. split.
  - intros Hact. rewrite Hact in Hrun.
    change (bool_decide (0 < 0)%nat) with false in Hrun.
    now injection Hrun as <-.
  - intros Hact. rewrite bool_decide_eq_true_2 in Hrun by lia.
    apply bind_result_inv in Hrun as (u & Hu & Hrun).
    destruct (AddJointActuationForces_loop _ _ _ _ _ _ _ Hrun)
      as (Hall & Hlen & Hforces).
    exists u. split; [exact Hu |].
    change (drop 0 u) with u in Hlen, Hforces.
    split; [| split; [exact Hall | exact Hforces]].
    rewrite length_zip_with, length_seq in Hlen.
    unfold num_actuators. lia.
Qed.

End Actuation.

Section ActuationExamples.
#[local] Existing Instance Arm.collaborators.

Lemma arm_actuation_input :
  AssembleActuationInput Arm.finalized_plant
    (Arm.context_with [0; 0; 0; 0; 0; 0] [10; 20] [30])
  = Ok [10; 20; 30].
Proof. reflexivity. Qed.

Lemma AssembleActuationInput_concatenates_witness :
  exists us : list VectorX,
    [10; 20; 30] = concat us /\
    Forall2 (fun i u_i =>
               exists port,
                 instance_actuation_ports_ (ports_ Arm.finalized_plant) !! i
                 = Some (Some port) /\
                 input_values
                   (Arm.context_with [0; 0; 0; 0; 0; 0] [10; 20] [30]) !! port
                 = Some (VectorInput u_i) /\
                 length u_i = num_actuated_dofs_of Arm.finalized_plant i)
      [1%nat; 2%nat] us.
Proof.
  destruct (AssembleActuationInput_concatenates Arm.finalized_plant
              (Arm.context_with [0; 0; 0; 0; 0; 0] [10; 20] [30])
              [10; 20; 30] arm_actuation_input)
    as (us & Hu & _ & Hall).
  exists us. split; [exact Hu | exact Hall].
Defined.

Lemma arm_actuation_forces :
  exists forces',
    AddJointActuationForces Arm.finalized_plant
      (Arm.context_with [0; 0; 0; 0; 0; 0] [10; 20] [30])
      {| body_forces := replicate 4%nat SpatialForce.Zero;
         generalized_forces := [0; 0; 0] |}
    = Ok forces'.
Proof. eexists. reflexivity. Qed.

Lemma AddJointActuationForces_one_input_per_actuator_witness :
  exists forces',
    AddJointActuationForces Arm.finalized_plant
      (Arm.context_with [0; 0; 0; 0; 0; 0] [10; 20] [30])
      {| body_forces := replicate 4%nat SpatialForce.Zero;
         generalized_forces := [0; 0; 0] |}
    = Ok forces' /\
    generalized_forces forces' = [0 + 10; 0 + 20; 0 + 30].
Proof.
  destruct arm_actuation_forces as (forces' & Hrun).
  destruct (AddJointActuationForces_one_input_per_actuator _ _ _ _ Hrun)
    as (_ & Hact).
  destruct Hact as (u & Hu & _ & _ & Hforces); [discriminate |].
  rewrite arm_actuation_input in Hu. injection Hu as <-.
  exists forces'. split; [exact Hrun |]. rewrite Hforces. reflexivity.
Defined.

End ActuationExamples.

Section DiscreteStepFrame.
Context `{Collaborators}.

Lemma length_Constant (n : nat) (c : R) : length (VecX.Constant n c) = n.
Proof. unfold VecX.Constant. apply length_replicate. Qed.

(** X12. A completed discrete step changes nothing of the plant but the
    contents of the solver and the stored contact results: the model, the
    declared ports, the registered geometry and the contact parameters are
    those on entry, and the solver keeps its size and its parameters.  The
    problem handed to the solver is sized by the number of point pairs: one
    entry of [phi0], of the stiffness, of the damping and of [mu] and one row
    of [Jn] per pair, two rows of [Jt] per pair, the stiffness and the
    damping being the plant's penalty parameters at every contact.  With
    collision geometry, the stored contact results hold one entry per
    pair. *)
Theorem discrete_update_frame (p : MultibodyPlant) (context0 : Context)
    (x_next : VectorX) (p' : MultibodyPlant) :
  DoCalcDiscreteVariableUpdates p context0 = Ok (x_next, p') ->
  exists point_pairs0 sv0 sv data,
    CalcPointPairPenetrations p context0 = Ok point_pairs0 /\
    implicit_stribeck_solver_ p = Some sv0 /\
    p' = with_contact_results (contact_results_ p') (with_solver (Some sv) p) /\
    solver_nv sv = solver_nv sv0 /\
    solver_parameters sv = solver_parameters sv0 /\
    solver_data sv = Some data /\
    let num_contacts := length point_pairs0 in
    length (data_Jn data) = num_contacts /\
    length (data_Jt data) = (2 * num_contacts)%nat /\
    data_phi0 data = map depth point_pairs0 /\
    length (data_mu data) = num_contacts /\
    data_stiffness data
    = VecX.Constant num_contacts
        (Penalty.stiffness (penalty_method_contact_parameters_ p)) /\
    data_damping data
    = VecX.Constant num_contacts
        (Penalty.damping (penalty_method_contact_parameters_ p)) /\
    (num_collision_geometries p <> 0%nat ->
     length (contact_results_ p') = num_contacts) /\
    (num_collision_geometries p = 0%nat ->
     contact_results_ p' = contact_results_ p).
Proof.
  unfold DoCalcDiscreteVariableUpdates. intros Hrun.
  apply bind_result_inv in Hrun as ([] & _ & Hrun).
  apply bind_result_inv in Hrun as ([] & _ & Hrun).
  cbn zeta in Hrun.
  apply bind_result_inv in Hrun as (x0 & Hx0 & Hrun).
  apply bind_result_inv in Hrun as (forces_actuated & Hact & Hrun).
  apply bind_result_inv in Hrun as (point_pairs0 & Hpairs & Hrun).
  destruct (CalcInverseDynamics _ _ _ _ _ _ _) as [F_out minus_tau] eqn:Hid
    in Hrun.
  apply bind_result_inv in Hrun as ([[Jn Jt] R_WC_set] & HJ & Hrun).
  apply bind_result_inv in Hrun as (combined & Hcomb & Hrun).
  apply bind_result_inv in Hrun as (sv0 & Hsv0 & Hrun).
  apply bind_result_inv in Hrun as ([info sv] & Hsolve & Hrun).
  apply bind_result_inv in Hrun as ([] & Hinfo & Hrun).
  apply bind_result_inv in Hrun as (contact_results & Hresults & Hrun).
  injection Hrun as <- <-.
  unfold Solver.SolveWithGuess in Hsolve. cbn in Hsolve.
  match type of Hsolve with
  | (let '(_, _) := ?call in _) = _ =>
      destruct call as [info' solution] eqn:Hcall
  end.
  injection Hsolve as <- <-.
  unfold optional_value in Hsv0.
  destruct (implicit_stribeck_solver_ p) as [sv0' |] eqn:Hsolver;
    [| discriminate]. injection Hsv0 as ->.
  exists point_pairs0, sv0. eexists. eexists.
  split; [exact Hpairs |]. split; [reflexivity |].
  split; [reflexivity |]. split; [reflexivity |].
  split; [reflexivity |]. split; [reflexivity |].
  cbn zeta.
  cbn [data_Jn data_Jt data_phi0 data_mu data_stiffness data_damping
       contact_results_ with_contact_results].
  assert (Hdims : length Jn = length point_pairs0 /\
                  length Jt = (2 * length point_pairs0)%nat /\
                  length R_WC_set = length point_pairs0).
  { destruct (bool_decide (0 < length point_pairs0)%nat) eqn:Hn.
    - apply bind_result_inv in HJ as (Jn' & HJn & HJ).
      apply bind_result_inv in HJ as ([Jt' R'] & HJt & HJ).
      injection HJ as <- <- <-.
      unfold CalcNormalSeparationVelocitiesJacobian in HJn.
      unfold CalcTangentVelocitiesJacobian in HJt.
      apply bind_result_inv in HJt as (per_contact & Hper & HJt).
      injection HJt as <- <-.
      rewrite (for_each_length _ _ _ HJn), length_rows_of_pairs, length_map,
        (for_each_length _ _ _ Hper).
      repeat split.
    - apply bool_decide_eq_false_1 in Hn. injection HJ as <- <- <-.
      cbn. lia. }
  destruct Hdims as (HJn & HJt & HR).
  split; [exact HJn |]. split; [exact HJt |]. split; [reflexivity |].
  split; [rewrite length_map; exact (for_each_length _ _ _ Hcomb) |].
  split; [reflexivity |]. split; [reflexivity |].
  split.
  - intros Hgeo.
    exact (proj2 (CalcContactResults_length _ _ _ _ _ Hresults) Hgeo).
  - intros Hgeo.
    exact (proj1 (CalcContactResults_length _ _ _ _ _ Hresults) Hgeo).
Qed.

(** X13. The step demands the solver's success: when the solver reports
    anything else for the plant's step, [DoCalcDiscreteVariableUpdates]
    returns no state; it fails, whatever the context. *)
Theorem discrete_update_demands_solver_success (p : MultibodyPlant)
    (context0 : Context) :
  (forall sv data v0,
     implicit_stribeck_solver_ p = Some sv ->
     fst (solve (solver_nv sv) (solver_parameters sv) data (time_step_ p) v0)
     <> Success) ->
  exists e, DoCalcDiscreteVariableUpdates p context0 = Raise e.
Proof.
  intros Hfail. apply not_Ok_is_Raise. intros [x_next p'] Hrun.
  destruct (DoCalcDiscreteVariableUpdates_inv p context0 x_next p' Hrun)
    as (x0 & forces_actuated & point_pairs0 & combined & sv0 & sv & data &
        _ & _ & _ & _ & Hsv0 & _ & _ & _ & _ & _ & _ & Hsolve & _).
  apply (Hfail sv0 data (VecX.bottomRows (num_velocities p) x0) Hsv0).
  now rewrite Hsolve.
Qed.

End DiscreteStepFrame.

Section DiscreteStepFrameExamples.
#[local] Existing Instance Example.collaborators.

Lemma discrete_update_frame_witness :
  exists x_next p' sv data,
    DoCalcDiscreteVariableUpdates
      (Example.finalized_plant (1 / 1000) 1000 (1 / 10))
      (Example.context_with ([1; 2] ++ [-1; 0]) true [Example.ball_on_ground])
    = Ok (x_next, p') /\
    model_ p' = Example.finalized_tree /\
    ports_ p' = Example.finalized_ports /\
    implicit_stribeck_solver_ p' = Some sv /\
    solver_data sv = Some data /\
    length (data_Jn data) = 1%nat /\ length (data_Jt data) = 2%nat /\
    data_stiffness data = [1000] /\ data_damping data = [1 / 10] /\
    length (contact_results_ p') = 1%nat.
Proof.
  destruct example_discrete_step as (x_next & p' & Hrun).
  destruct (discrete_update_frame _ _ _ _ Hrun)
    as (point_pairs0 & sv0 & sv & data & Hpairs & _ & Hp' & _ & _ & Hdata &
        HJn & HJt & _ & _ & Hk & Hd & Hres & _).
  injection Hpairs as <-.
  exists x_next, p', sv, data. split; [exact Hrun |].
  rewrite Hp'. cbn [model_ ports_ implicit_stribeck_solver_ contact_results_
                    with_contact_results with_solver].
  split; [reflexivity |]. split; [reflexivity |]. split; [reflexivity |].
  split; [exact Hdata |]. split; [exact HJn |]. split; [exact HJt |].
  split; [exact Hk |]. split; [exact Hd |].
  apply Hres. discriminate.
Defined.

Lemma discrete_update_demands_solver_success_witness :
  exists e,
    @DoCalcDiscreteVariableUpdates
      (with_solve Example.collaborators
         (fun nv parameters data dt v0 =>
            (MaxIterationsReached, solver_solution Example.solver)))
      (Example.finalized_plant (1 / 1000) 1000 (1 / 10))
      (Example.context_with ([1; 2] ++ [-1; 0]) true [Example.ball_on_ground])
    = Raise e.
Proof.
  apply (@discrete_update_demands_solver_success
           (with_solve Example.collaborators
              (fun nv parameters data dt v0 =>
                 (MaxIterationsReached, solver_solution Example.solver)))).
  intros sv data v0 _. cbn. discriminate.
Defined.

End DiscreteStepFrameExamples.

Section DeclaredPorts.
Context `{Collaborators}.

Lemma system_extends_refl (s : LeafSystem) : system_extends s s.
Proof.
  repeat split; [exists [] | exists []]; now rewrite app_nil_r.
Qed.

Lemma system_extends_trans (s1 s2 s3 : LeafSystem) :
  system_extends s1 s2 -> system_extends s2 s3 -> system_extends s1 s3.
Proof.
  intros ((i1 & Hi1) & (o1 & Ho1) & Hd1) ((i2 & Hi2) & (o2 & Ho2) & Hd2).
  repeat split.
  - exists (i1 ++ i2). now rewrite Hi2, Hi1, app_assoc.
  - exists (o1 ++ o2). now rewrite Ho2, Ho1, app_assoc.
  - congruence.
Qed.

Lemma get_output_port_extends (s s' : LeafSystem) (index : OutputPortIndex)
    (port : OutputPort) :
  system_extends s s' ->
  System.get_output_port s index = Ok port ->
  System.get_output_port s' index = Ok port.
Proof.
  intros (_ & (outs & Houts) & _).
  unfold System.get_output_port, vector_at. destruct index as [i |]; cbn.
  - rewrite Houts.
    destruct (output_ports s !! i) as [q |] eqn:Hl; [| discriminate].
    intros [= ->]. now rewrite (lookup_app_l_Some _ _ _ _ Hl).
  - discriminate.
Qed.

Lemma get_input_port_extends (s s' : LeafSystem) (index : InputPortIndex)
    (port : InputPortDescriptor) :
  system_extends s s' ->
  System.get_input_port s index = Ok port ->
  System.get_input_port s' index = Ok port.
Proof.
  intros ((ins & Hins) & _).
  unfold System.get_input_port, vector_at. destruct index as [i |]; cbn.
  - rewrite Hins.
    destruct (input_ports s !! i) as [q |] eqn:Hl; [| discriminate].
    intros [= ->]. now rewrite (lookup_app_l_Some _ _ _ _ Hl).
  - discriminate.
Qed.

Lemma length_resize {A : Type} (n : nat) (l : list (option A)) :
  length (resize n l) = n.
Proof.
  unfold resize. rewrite length_app, length_take, length_replicate. lia.
Qed.

(** A loop that, for every index [i] of [0 .. n) not skipped, appends the
    port [port i] to a list of ports and writes the index it got into slot
    [i] of a list of indices. *)
Lemma index_loop {S Port : Type}
    (V : S -> list (option nat) * list Port) (f : S -> nat -> S)
    (skip : nat -> bool) (port : nat -> Port) (n : nat) (s0 : S) :
  (forall s i, skip i = true -> V (f s i) = V s) ->
  (forall s i, skip i = false ->
     V (f s i) = (<[i := Some (length (V s).2)]> (V s).1, (V s).2 ++ [port i])) ->
  length (V s0).1 = n ->
  let s := foldl f s0 (seq 0 n) in
  (exists ports, (V s).2 = (V s0).2 ++ ports) /\
  length (V s).1 = n /\
  forall i, (i < n)%nat ->
    (skip i = false ->
     exists k, (V s).1 !! i = Some (Some k) /\ (V s).2 !! k = Some (port i)) /\
    (skip i = true -> (V s).1 !! i = (V s0).1 !! i).
Proof.
  intros Hskip Hstep Hlen.
  assert (Hinv : forall j, (j <= n)%nat ->
    let s := foldl f s0 (seq 0 j) in
    (exists ports, (V s).2 = (V s0).2 ++ ports) /\
    length (V s).1 = n /\
    (forall i, (i < j)%nat ->
       (skip i = false ->
        exists k, (V s).1 !! i = Some (Some k) /\
                  (V s).2 !! k = Some (port i)) /\
       (skip i = true -> (V s).1 !! i = (V s0).1 !! i)) /\
    (forall i, (j <= i)%nat -> (V s).1 !! i = (V s0).1 !! i)).
  { induction j as [| j IH]; intros Hj; cbn zeta.
    - cbn. split; [exists []; now rewrite app_nil_r |].
      split; [exact Hlen |]. split; [intros i Hi; lia | reflexivity].
    - rewrite seq_S, foldl_app. cbn [foldl Nat.add].
      destruct (IH ltac:(lia)) as ((ports & Hports) & Hl & Hdone & Hrest).
      set (s := foldl f s0 (seq 0 j)) in *.
      destruct (skip j) eqn:Hsj.
      + rewrite (Hskip s j Hsj).
        split; [now exists ports |]. split; [exact Hl |]. split.
        * intros i Hi. destruct (decide (i = j)) as [-> | Hne].
          -- split; [congruence |]. intros _. apply Hrest. lia.
          -- apply Hdone. lia.
        * intros i Hi. apply Hrest. lia.
      + rewrite (Hstep s j Hsj). cbn [fst snd].
        split; [exists (ports ++ [port j]); now rewrite Hports, app_assoc |].
        split; [now rewrite length_insert |]. split.
        * intros i Hi. destruct (decide (i = j)) as [-> | Hne].
          -- split; [| congruence]. intros _.
             exists (length (V s).2). split.
             ++ apply list_lookup_insert_eq. lia.
             ++ rewrite lookup_app_r by lia.
                now rewrite Nat.sub_diag.
          -- destruct (Hdone i ltac:(lia)) as (Hd1 & Hd2).
             rewrite list_lookup_insert_ne by congruence.
             split; [| exact Hd2].
             intros Hsi. destruct (Hd1 Hsi) as (k & Hk & Hp).
             exists k. split; [exact Hk |].
             now apply lookup_app_l_Some.
        * intros i Hi. rewrite list_lookup_insert_ne by lia.
          apply Hrest. lia. }
  destruct (Hinv n ltac:(lia)) as (Hp & Hl & Hdone & _).
  cbn zeta. split; [exact Hp |]. split; [exact Hl | exact Hdone].
Qed.

Lemma foldl_keeps {S A B : Type} (g : S -> B) (f : S -> A -> S)
    (l : list A) (s0 : S) :
  (forall s x, g (f s x) = g s) -> g (foldl f s0 l) = g s0.
Proof.
  intros Hstep. apply (foldl_preserves (fun s => g s = g s0)); [reflexivity |].
  intros s x Hs. now rewrite Hstep.
Qed.

(** The loop of the actuation ports counts the actuated instances and
    remembers the last one. *)
Lemma declare_actuation_port_counts (p q0 : MultibodyPlant) (j : nat) :
  let acc := foldl (declare_actuation_port p) (q0, 0%nat, None) (seq 0 j) in
  snd (fst acc)
  = length (filter (fun i => num_actuated_dofs_of p i <> 0%nat) (seq 0 j)) /\
  snd acc = last (filter (fun i => num_actuated_dofs_of p i <> 0%nat) (seq 0 j)).
Proof.
  induction j as [| j IH]; cbn zeta; [split; reflexivity |].
  rewrite seq_S, foldl_app, filter_app. cbn [foldl Nat.add].
  cbn zeta in IH.
  destruct (foldl (declare_actuation_port p) (q0, 0%nat, None) (seq 0 j))
    as [[q c] l].
  cbn [fst snd] in IH. destruct IH as (-> & ->).
  unfold declare_actuation_port.
  destruct (bool_decide (num_actuated_dofs_of p j = 0%nat)) eqn:Hd.
  - apply bool_decide_eq_true_1 in Hd.
    rewrite filter_cons_False by (intros Hne; now apply Hne).
    rewrite filter_nil, app_nil_r. split; reflexivity.
  - apply bool_decide_eq_false_1 in Hd.
    rewrite filter_cons_True by exact Hd. rewrite filter_nil.
    unfold System.DeclareInputPort. cbn [fst snd].
    rewrite length_app, last_snoc. cbn [length].
    split; [lia | reflexivity].
Qed.

Lemma declare_actuation_ports_spec (p q : MultibodyPlant) :
  let q2 := declare_actuation_ports p q in
  (exists ins, input_ports (system_ q2) = input_ports (system_ q) ++ ins) /\
  output_ports (system_ q2) = output_ports (system_ q) /\
  declared_state (system_ q2) = declared_state (system_ q) /\
  (forall i, (i < num_model_instances p)%nat ->
     num_actuated_dofs_of p i <> 0%nat ->
     exists k,
       instance_actuation_ports_ (ports_ q2) !! i = Some (Some k) /\
       input_ports (system_ q2) !! k
       = Some (VectorInputPort (num_actuated_dofs_of p i))) /\
  (forall i, actuated_instances p = [i] ->
     actuated_instance_ (ports_ q2) = Some i) /\
  (length (actuated_instances p) <> 1%nat ->
   actuated_instance_ (ports_ q2) = actuated_instance_ (ports_ q)).
Proof.
  unfold declare_actuation_ports.
  set (q0 := with_ports _ q).
  pose proof (index_loop
    (fun acc : MultibodyPlant * nat * option ModelInstanceIndex =>
       (instance_actuation_ports_ (ports_ (fst (fst acc))),
        input_ports (system_ (fst (fst acc)))))
    (declare_actuation_port p)
    (fun i => bool_decide (num_actuated_dofs_of p i = 0%nat))
    (fun i => VectorInputPort (num_actuated_dofs_of p i))
    (num_model_instances p) (q0, 0%nat, None)) as Hloop.
  pose proof (foldl_keeps
    (fun acc : MultibodyPlant * nat * option ModelInstanceIndex =>
       (output_ports (system_ (fst (fst acc))),
        declared_state (system_ (fst (fst acc))),
        actuated_instance_ (ports_ (fst (fst acc)))))
    (declare_actuation_port p) (seq 0 (num_model_instances p))
    (q0, 0%nat, None)) as Hkeep.
  pose proof (declare_actuation_port_counts p q0 (num_model_instances p))
    as Hcount.
  cbn zeta in Hloop, Hcount.
  destruct (foldl (declare_actuation_port p) (q0, 0%nat, None)
              (seq 0 (num_model_instances p))) as [[q' c] l].
  cbn [fst snd] in Hloop, Hkeep, Hcount.
  destruct Hloop as ((ins & Hins) & Hlen & Hall).
  { intros [[s c0] l0] i Hs. unfold declare_actuation_port. now rewrite Hs. }
  { intros [[s c0] l0] i Hs. unfold declare_actuation_port. now rewrite Hs. }
  { unfold q0. cbn. apply length_resize. }
  assert (Hk : (output_ports (system_ q'), declared_state (system_ q'),
                actuated_instance_ (ports_ q'))
               = (output_ports (system_ q), declared_state (system_ q),
                  actuated_instance_ (ports_ q))).
  { apply Hkeep. intros [[s c0] l0] i. unfold declare_actuation_port.
    now destruct (bool_decide _). }
  injection Hk as Hout Hstate Hai.
  destruct Hcount as (Hc & Hl). fold (actuated_instances p) in Hc, Hl.
  assert (Hports : forall i, (i < num_model_instances p)%nat ->
            num_actuated_dofs_of p i <> 0%nat ->
            exists k,
              instance_actuation_ports_ (ports_ q') !! i = Some (Some k) /\
              input_ports (system_ q') !! k
              = Some (VectorInputPort (num_actuated_dofs_of p i))).
  { intros i Hi Hd. destruct (Hall i Hi) as (Hdecl & _).
    apply Hdecl. now apply bool_decide_eq_false_2. }
  destruct (bool_decide (c = 1%nat)) eqn:Hc1.
  - apply bool_decide_eq_true_1 in Hc1. cbn.
    split; [now exists ins |]. split; [exact Hout |]. split; [exact Hstate |].
    split; [exact Hports |]. split.
    + intros i Hact. rewrite Hl, Hact. reflexivity.
    + intros Hne. congruence.
  - apply bool_decide_eq_false_1 in Hc1.
    split; [now exists ins |]. split; [exact Hout |]. split; [exact Hstate |].
    split; [exact Hports |]. split.
    + intros i Hact. rewrite Hact in Hc. cbn in Hc. congruence.
    + intros _. exact Hai.
Qed.

Lemma declare_actuation_ports_keeps (p q : MultibodyPlant) :
  let q2 := declare_actuation_ports p q in
  continuous_state_output_port_ (ports_ q2)
  = continuous_state_output_port_ (ports_ q) /\
  geometry_query_port_ (ports_ q2) = geometry_query_port_ (ports_ q) /\
  geometry_pose_port_ (ports_ q2) = geometry_pose_port_ (ports_ q) /\
  implicit_stribeck_solver_ q2 = implicit_stribeck_solver_ q /\
  contact_results_ q2 = contact_results_ q.
Proof.
  unfold declare_actuation_ports.
  set (q0 := with_ports _ q).
  pose proof (foldl_keeps
    (fun acc : MultibodyPlant * nat * option ModelInstanceIndex =>
       (continuous_state_output_port_ (ports_ (fst (fst acc))),
        geometry_query_port_ (ports_ (fst (fst acc))),
        geometry_pose_port_ (ports_ (fst (fst acc))),
        implicit_stribeck_solver_ (fst (fst acc)),
        contact_results_ (fst (fst acc))))
    (declare_actuation_port p) (seq 0 (num_model_instances p))
    (q0, 0%nat, None)) as Hkeep.
  destruct (foldl (declare_actuation_port p) (q0, 0%nat, None)
              (seq 0 (num_model_instances p))) as [[q' c] l].
  cbn [fst snd] in Hkeep.
  assert (Hk : (continuous_state_output_port_ (ports_ q'),
                geometry_query_port_ (ports_ q'),
                geometry_pose_port_ (ports_ q'),
                implicit_stribeck_solver_ q', contact_results_ q')
               = (continuous_state_output_port_ (ports_ q),
                  geometry_query_port_ (ports_ q),
                  geometry_pose_port_ (ports_ q),
                  implicit_stribeck_solver_ q, contact_results_ q)).
  { apply Hkeep. intros [[s c0] l0] i. unfold declare_actuation_port.
    now destruct (bool_decide _). }
  injection Hk as H1 H2 H3 H4 H5.
  destruct (bool_decide (c = 1%nat)); cbn; repeat split; assumption.
Qed.

Lemma declare_instance_state_ports_keeps (p q : MultibodyPlant) :
  let q4 := declare_instance_state_ports p q in
  geometry_query_port_ (ports_ q4) = geometry_query_port_ (ports_ q) /\
  geometry_pose_port_ (ports_ q4) = geometry_pose_port_ (ports_ q) /\
  implicit_stribeck_solver_ q4 = implicit_stribeck_solver_ q /\
  contact_results_ q4 = contact_results_ q.
Proof.
  unfold declare_instance_state_ports.
  set (q0 := with_ports _ q).
  pose proof (foldl_keeps
    (fun s : MultibodyPlant =>
       (geometry_query_port_ (ports_ s), geometry_pose_port_ (ports_ s),
        implicit_stribeck_solver_ s, contact_results_ s))
    (declare_instance_state_port p) (seq 0 (num_model_instances p)) q0)
    as Hkeep.
  set (q4 := foldl _ q0 _) in *.
  assert (Hk : (geometry_query_port_ (ports_ q4),
                geometry_pose_port_ (ports_ q4),
                implicit_stribeck_solver_ q4, contact_results_ q4)
               = (geometry_query_port_ (ports_ q),
                  geometry_pose_port_ (ports_ q),
                  implicit_stribeck_solver_ q, contact_results_ q)).
  { apply Hkeep. intros s i. unfold declare_instance_state_port.
    now destruct (bool_decide _). }
  injection Hk as H1 H2 H3 H4. repeat split; assumption.
Qed.

Lemma declare_instance_contact_forces_ports_keeps (p q : MultibodyPlant) :
  let q5 := declare_instance_contact_forces_ports p q in
  geometry_query_port_ (ports_ q5) = geometry_query_port_ (ports_ q) /\
  geometry_pose_port_ (ports_ q5) = geometry_pose_port_ (ports_ q) /\
  implicit_stribeck_solver_ q5 = implicit_stribeck_solver_ q /\
  contact_results_ q5 = contact_results_ q.
Proof.
  unfold declare_instance_contact_forces_ports.
  set (q0 := with_ports _ q).
  pose proof (foldl_keeps
    (fun s : MultibodyPlant =>
       (geometry_query_port_ (ports_ s), geometry_pose_port_ (ports_ s),
        implicit_stribeck_solver_ s, contact_results_ s))
    (declare_instance_contact_forces_port p)
    (seq 0 (num_model_instances p)) q0) as Hkeep.
  set (q5 := foldl _ q0 _) in *.
  assert (Hk : (geometry_query_port_ (ports_ q5),
                geometry_pose_port_ (ports_ q5),
                implicit_stribeck_solver_ q5, contact_results_ q5)
               = (geometry_query_port_ (ports_ q),
                  geometry_pose_port_ (ports_ q),
                  implicit_stribeck_solver_ q, contact_results_ q)).
  { apply Hkeep. intros s i. unfold declare_instance_contact_forces_port.
    now destruct (bool_decide _). }
  injection Hk as H1 H2 H3 H4. repeat split; assumption.
Qed.

(** The loops declaring the output ports of the model instances. *)
Lemma declare_instance_state_ports_spec (p q : MultibodyPlant) :
  let q4 := declare_instance_state_ports p q in
  (exists outs, output_ports (system_ q4) = output_ports (system_ q) ++ outs) /\
  input_ports (system_ q4) = input_ports (system_ q) /\
  declared_state (system_ q4) = declared_state (system_ q) /\
  instance_actuation_ports_ (ports_ q4) = instance_actuation_ports_ (ports_ q) /\
  actuated_instance_ (ports_ q4) = actuated_instance_ (ports_ q) /\
  continuous_state_output_port_ (ports_ q4)
  = continuous_state_output_port_ (ports_ q) /\
  (forall i, (i < num_model_instances p)%nat ->
     num_states_of p i <> 0%nat ->
     exists k,
       instance_continuous_state_output_ports_ (ports_ q4) !! i
       = Some (Some k) /\
       output_ports (system_ q4) !! k
       = Some (VectorOutputPort (num_states_of p i)
                 (CopyInstanceStateOut_calc i))).
Proof.
  unfold declare_instance_state_ports.
  set (q0 := with_ports _ q).
  pose proof (index_loop
    (fun s : MultibodyPlant =>
       (instance_continuous_state_output_ports_ (ports_ s),
        output_ports (system_ s)))
    (declare_instance_state_port p)
    (fun i => bool_decide (num_states_of p i = 0%nat))
    (fun i => VectorOutputPort (num_states_of p i)
                (CopyInstanceStateOut_calc i))
    (num_model_instances p) q0) as Hloop.
  pose proof (foldl_keeps
    (fun s : MultibodyPlant =>
       (input_ports (system_ s), declared_state (system_ s),
        instance_actuation_ports_ (ports_ s), actuated_instance_ (ports_ s),
        continuous_state_output_port_ (ports_ s)))
    (declare_instance_state_port p) (seq 0 (num_model_instances p)) q0)
    as Hkeep.
  cbn zeta in Hloop.
  set (q4 := foldl _ q0 _) in *.
  destruct Hloop as ((outs & Houts) & Hlen & Hall).
  { intros s i Hs. unfold declare_instance_state_port. now rewrite Hs. }
  { intros s i Hs. unfold declare_instance_state_port. now rewrite Hs. }
  { unfold q0. cbn. apply length_resize. }
  assert (Hk : (input_ports (system_ q4), declared_state (system_ q4),
                instance_actuation_ports_ (ports_ q4),
                actuated_instance_ (ports_ q4),
                continuous_state_output_port_ (ports_ q4))
               = (input_ports (system_ q), declared_state (system_ q),
                  instance_actuation_ports_ (ports_ q),
                  actuated_instance_ (ports_ q),
                  continuous_state_output_port_ (ports_ q))).
  { apply Hkeep. intros s i. unfold declare_instance_state_port.
    now destruct (bool_decide _). }
  injection Hk as H1 H2 H3 H4 H5.
  cbn [fst snd] in Houts, Hall.
  split; [now exists outs |]. repeat (split; [assumption |]).
  intros i Hi Hd. destruct (Hall i Hi) as (Hdecl & _).
  apply Hdecl. now apply bool_decide_eq_false_2.
Qed.

Lemma declare_instance_contact_forces_ports_spec (p q : MultibodyPlant) :
  let q5 := declare_instance_contact_forces_ports p q in
  (exists outs, output_ports (system_ q5) = output_ports (system_ q) ++ outs) /\
  input_ports (system_ q5) = input_ports (system_ q) /\
  declared_state (system_ q5) = declared_state (system_ q) /\
  instance_actuation_ports_ (ports_ q5) = instance_actuation_ports_ (ports_ q) /\
  actuated_instance_ (ports_ q5) = actuated_instance_ (ports_ q) /\
  continuous_state_output_port_ (ports_ q5)
  = continuous_state_output_port_ (ports_ q) /\
  instance_continuous_state_output_ports_ (ports_ q5)
  = instance_continuous_state_output_ports_ (ports_ q) /\
  (forall i, (i < num_model_instances p)%nat ->
     num_velocities_of p i <> 0%nat ->
     exists k,
       instance_generalized_contact_forces_output_ports_ (ports_ q5) !! i
       = Some (Some k) /\
       output_ports (system_ q5) !! k
       = Some (VectorOutputPort (num_velocities_of p i)
                 (CopyGeneralizedContactForcesOut_calc i))).
Proof.
  unfold declare_instance_contact_forces_ports.
  set (q0 := with_ports _ q).
  pose proof (index_loop
    (fun s : MultibodyPlant =>
       (instance_generalized_contact_forces_output_ports_ (ports_ s),
        output_ports (system_ s)))
    (declare_instance_contact_forces_port p)
    (fun i => bool_decide (num_velocities_of p i = 0%nat))
    (fun i => VectorOutputPort (num_velocities_of p i)
                (CopyGeneralizedContactForcesOut_calc i))
    (num_model_instances p) q0) as Hloop.
  pose proof (foldl_keeps
    (fun s : MultibodyPlant =>
       (input_ports (system_ s), declared_state (system_ s),
        instance_actuation_ports_ (ports_ s), actuated_instance_ (ports_ s),
        continuous_state_output_port_ (ports_ s),
        instance_continuous_state_output_ports_ (ports_ s)))
    (declare_instance_contact_forces_port p)
    (seq 0 (num_model_instances p)) q0) as Hkeep.
  cbn zeta in Hloop.
  set (q5 := foldl _ q0 _) in *.
  destruct Hloop as ((outs & Houts) & Hlen & Hall).
  { intros s i Hs. unfold declare_instance_contact_forces_port.
    now rewrite Hs. }
  { intros s i Hs. unfold declare_instance_contact_forces_port.
    now rewrite Hs. }
  { unfold q0. cbn. apply length_resize. }
  assert (Hk : (input_ports (system_ q5), declared_state (system_ q5),
                instance_actuation_ports_ (ports_ q5),
                actuated_instance_ (ports_ q5),
                continuous_state_output_port_ (ports_ q5),
                instance_continuous_state_output_ports_ (ports_ q5))
               = (input_ports (system_ q), declared_state (system_ q),
                  instance_actuation_ports_ (ports_ q),
                  actuated_instance_ (ports_ q),
                  continuous_state_output_port_ (ports_ q),
                  instance_continuous_state_output_ports_ (ports_ q))).
  { apply Hkeep. intros s i. unfold declare_instance_contact_forces_port.
    now destruct (bool_decide _). }
  injection Hk as H1 H2 H3 H4 H5 H6.
  cbn [fst snd] in Houts, Hall.
  split; [now exists outs |]. repeat (split; [assumption |]).
  intros i Hi Hd. destruct (Hall i Hi) as (Hdecl & _).
  apply Hdecl. now apply bool_decide_eq_false_2.
Qed.

Lemma lookup_get_output_port (sys : LeafSystem) (k : nat) (port : OutputPort) :
  output_ports sys !! k = Some port ->
  System.get_output_port sys (Some k) = Ok port.
Proof.
  intros Hk. unfold System.get_output_port, vector_at. cbn. now rewrite Hk.
Qed.

Lemma lookup_get_input_port (sys : LeafSystem) (k : nat)
    (port : InputPortDescriptor) :
  input_ports sys !! k = Some port ->
  System.get_input_port sys (Some k) = Ok port.
Proof.
  intros Hk. unfold System.get_input_port, vector_at. cbn. now rewrite Hk.
Qed.

Lemma declare_state_output_port_extends (p q : MultibodyPlant) :
  system_extends (system_ q) (system_ (declare_state_output_port p q)).
Proof.
  unfold system_extends, declare_state_output_port. cbn.
  split; [exists []; now rewrite app_nil_r |].
  split; [now eexists | reflexivity].
Qed.

Lemma declare_contact_results_port_extends (q : MultibodyPlant) :
  system_extends (system_ q) (system_ (declare_contact_results_port q)).
Proof.
  unfold system_extends, declare_contact_results_port. cbn.
  split; [exists []; now rewrite app_nil_r |].
  split; [now eexists | reflexivity].
Qed.

(** Counts are read off the tree. *)
Lemma ports_declared_same_tree (q q' : MultibodyPlant) :
  model_ q' = model_ q ->
  system_ q' = system_ q -> 
  continuous_state_output_port_ (ports_ q')
  = continuous_state_output_port_ (ports_ q) ->
  instance_continuous_state_output_ports_ (ports_ q')
  = instance_continuous_state_output_ports_ (ports_ q) ->
  instance_generalized_contact_forces_output_ports_ (ports_ q')
  = instance_generalized_contact_forces_output_ports_ (ports_ q) ->
  instance_actuation_ports_ (ports_ q') = instance_actuation_ports_ (ports_ q) ->
  ports_declared q -> ports_declared q'.
Proof.
  intros Hm Hs H1 H2 H3 H4.
  unfold ports_declared, num_multibody_states, num_positions, num_velocities,
    num_model_instances, num_states_of, num_positions_of, num_velocities_of,
    num_actuated_dofs_of, instance_count.
  now rewrite Hm, Hs, H1, H2, H3, H4.
Qed.

Lemma ports_declared_extends (q q' : MultibodyPlant) :
  model_ q' = model_ q ->
  system_extends (system_ q) (system_ q') ->
  continuous_state_output_port_ (ports_ q')
  = continuous_state_output_port_ (ports_ q) ->
  instance_continuous_state_output_ports_ (ports_ q')
  = instance_continuous_state_output_ports_ (ports_ q) ->
  instance_generalized_contact_forces_output_ports_ (ports_ q')
  = instance_generalized_contact_forces_output_ports_ (ports_ q) ->
  instance_actuation_ports_ (ports_ q') = instance_actuation_ports_ (ports_ q) ->
  ports_declared q -> ports_declared q'.
Proof.
  intros Hm Hext H1 H2 H3 H4.
  unfold ports_declared, num_multibody_states, num_positions, num_velocities,
    num_model_instances, num_states_of, num_positions_of, num_velocities_of,
    num_actuated_dofs_of, instance_count.
  rewrite Hm, H1, H2, H3, H4.
  intros (Hstate & Hall). split.
  - now apply (get_output_port_extends _ _ _ _ Hext).
  - intros i Hi. destruct (Hall i Hi) as (Hs & Hv & Ha).
    split; [| split].
    + intros Hd. destruct (Hs Hd) as (index & Hl & Hp).
      exists index. split; [exact Hl |].
      now apply (get_output_port_extends _ _ _ _ Hext).
    + intros Hd. destruct (Hv Hd) as (index & Hl & Hp).
      exists index. split; [exact Hl |].
      now apply (get_output_port_extends _ _ _ _ Hext).
    + intros Hd. destruct (Ha Hd) as (index & Hl & Hp).
      exists index. split; [exact Hl |].
      now apply (get_input_port_extends _ _ _ _ Hext).
Qed.

(** [DeclareStateAndPorts] on a finalized plant: the state is declared
    according to the kind of plant, every port is declared under the index
    the plant remembers, and the single actuated instance, if any, is
    remembered. *)
Lemma DeclareStateAndPorts_wires (p : MultibodyPlant) :
  is_finalized p = true ->
  exists p1,
    DeclareStateAndPorts p = (Ok tt, p1) /\
    same_model p p1 /\
    ports_declared p1 /\
    contact_results_port_declared p1 /\
    declared_state (system_ p1)
    = (if is_discrete p
       then DiscreteState (time_step_ p) (num_multibody_states p)
       else ContinuousState (num_multibody_states p) (num_positions p)
              (num_velocities p) 0) /\
    (forall i, actuated_instances p = [i] ->
       actuated_instance_ (ports_ p1) = Some i) /\
    (length (actuated_instances p) <> 1%nat ->
     actuated_instance_ (ports_ p1) = actuated_instance_ (ports_ p)) /\
    geometry_query_port_ (ports_ p1) = geometry_query_port_ (ports_ p) /\
    geometry_pose_port_ (ports_ p1) = geometry_pose_port_ (ports_ p) /\
    implicit_stribeck_solver_ p1 = implicit_stribeck_solver_ p /\
    contact_results_ p1 = contact_results_ p.
Proof.
  intros Hf.
  unfold DeclareStateAndPorts, St.bind, St.this, St.lift, St.modify.
  rewrite Hf. cbn [DRAKE_DEMAND].
  set (q1 := declare_state p p).
  set (q2 := declare_actuation_ports p q1).
  set (q3 := declare_state_output_port p q2).
  set (q4 := declare_instance_state_ports p q3).
  set (q5 := declare_instance_contact_forces_ports p q4).
  set (q6 := declare_contact_results_port q5).
  exists q6. split; [reflexivity |].
  assert (Hsame : same_model p q6).
  { apply declare_contact_results_port_same,
      declare_instance_contact_forces_ports_same,
      declare_instance_state_ports_same, declare_state_output_port_same,
      declare_actuation_ports_same, declare_state_same, same_model_refl. }
  split; [exact Hsame |].
  destruct (declare_actuation_ports_spec p q1)
    as (Hins2 & Hout2 & Hst2 & Hact2 & Hone2 & Hnone2).
  destruct (declare_actuation_ports_keeps p q1)
    as (Hcso2 & Hgq2 & Hgp2 & Hsv2 & Hcr2).
  fold q2 in Hins2, Hout2, Hst2, Hact2, Hone2, Hnone2, Hcso2, Hgq2, Hgp2,
    Hsv2, Hcr2.
  destruct (declare_instance_state_ports_keeps p q3)
    as (Hgq4 & Hgp4 & Hsv4 & Hcr4).
  fold q4 in Hgq4, Hgp4, Hsv4, Hcr4.
  destruct (declare_instance_contact_forces_ports_keeps p q4)
    as (Hgq5 & Hgp5 & Hsv5 & Hcr5).
  fold q5 in Hgq5, Hgp5, Hsv5, Hcr5.
  pose proof (declare_state_output_port_extends p q2) as E3. fold q3 in E3.
  destruct (declare_instance_state_ports_spec p q3)
    as (Hout4 & Hin4 & Hst4 & Hiap4 & Hai4 & Hcso4 & Hinst4).
  fold q4 in Hout4, Hin4, Hst4, Hiap4, Hai4, Hcso4, Hinst4.
  destruct (declare_instance_contact_forces_ports_spec p q4)
    as (Hout5 & Hin5 & Hst5 & Hiap5 & Hai5 & Hcso5 & Hist5 & Hforce5).
  fold q5 in Hout5, Hin5, Hst5, Hiap5, Hai5, Hcso5, Hist5, Hforce5.
  pose proof (declare_contact_results_port_extends q5) as E6. fold q6 in E6.
  assert (E4 : system_extends (system_ q3) (system_ q4)).
  { split; [exists []; now rewrite app_nil_r, Hin4 |]. now split. }
  assert (E5 : system_extends (system_ q4) (system_ q5)).
  { split; [exists []; now rewrite app_nil_r, Hin5 |]. now split. }
  assert (E46 : system_extends (system_ q4) (system_ q6))
    by (eapply system_extends_trans; eassumption).
  assert (E36 : system_extends (system_ q3) (system_ q6))
    by (eapply system_extends_trans; eassumption).
  assert (E26 : system_extends (system_ q2) (system_ q6))
    by (eapply system_extends_trans; eassumption).
  split; [| split; [apply declare_contact_results_port_declared |]].
  - (* the ports, with the counts of [p] *)
    assert (Hdecl :
      System.get_output_port (system_ q6)
        (continuous_state_output_port_ (ports_ q6))
      = Ok (VectorOutputPort (num_multibody_states p)
              CopyContinuousStateOut_calc) /\
      forall i : ModelInstanceIndex, (i < num_model_instances p)%nat ->
        (num_states_of p i <> 0%nat ->
         exists index,
           instance_continuous_state_output_ports_ (ports_ q6) !! i
           = Some index /\
           System.get_output_port (system_ q6) index
           = Ok (VectorOutputPort (num_states_of p i)
                   (CopyInstanceStateOut_calc i))) /\
        (num_velocities_of p i <> 0%nat ->
         exists index,
           instance_generalized_contact_forces_output_ports_ (ports_ q6) !! i
           = Some index /\
           System.get_output_port (system_ q6) index
           = Ok (VectorOutputPort (num_velocities_of p i)
                   (CopyGeneralizedContactForcesOut_calc i))) /\
        (num_actuated_dofs_of p i <> 0%nat ->
         exists index,
           instance_actuation_ports_ (ports_ q6) !! i = Some index /\
           System.get_input_port (system_ q6) index
           = Ok (VectorInputPort (num_actuated_dofs_of p i)))).
    { split.
      - change (continuous_state_output_port_ (ports_ q6))
          with (continuous_state_output_port_ (ports_ q5)).
        rewrite Hcso5, Hcso4.
        apply (get_output_port_extends _ _ _ _ E36).
        unfold q3, declare_state_output_port. cbn. unfold vector_at.
        rewrite lookup_app_r by lia. now rewrite Nat.sub_diag.
      - intros i Hi. split; [| split].
        + intros Hd. destruct (Hinst4 i Hi Hd) as (k & Hk & Hp).
          exists (Some k).
          change (instance_continuous_state_output_ports_ (ports_ q6))
            with (instance_continuous_state_output_ports_ (ports_ q5)).
          rewrite Hist5. split; [exact Hk |].
          apply (get_output_port_extends _ _ _ _ E46).
          now apply lookup_get_output_port.
        + intros Hd. destruct (Hforce5 i Hi Hd) as (k & Hk & Hp).
          exists (Some k). split; [exact Hk |].
          apply (get_output_port_extends _ _ _ _ E6).
          now apply lookup_get_output_port.
        + intros Hd. destruct (Hact2 i Hi Hd) as (k & Hk & Hp).
          exists (Some k).
          change (instance_actuation_ports_ (ports_ q6))
            with (instance_actuation_ports_ (ports_ q5)).
          rewrite Hiap5, Hiap4. split; [exact Hk |].
          apply (get_input_port_extends _ _ _ _ E26).
          now apply lookup_get_input_port. }
    destruct Hsame as (Hm & _).
    revert Hdecl.
    unfold ports_declared, num_multibody_states, num_positions,
      num_velocities, num_model_instances, num_states_of, num_positions_of,
      num_velocities_of, num_actuated_dofs_of, instance_count.
    now rewrite Hm.
  - split.
    { destruct E26 as (_ & _ & Hd26). rewrite Hd26, Hst2. reflexivity. }
    change (actuated_instance_ (ports_ q6))
      with (actuated_instance_ (ports_ q5)).
    rewrite Hai5, Hai4.
    change (actuated_instance_ (ports_ q3))
      with (actuated_instance_ (ports_ q2)).
    split; [exact Hone2 |]. split; [exact Hnone2 |].
    split; [| split; [| split]].
    + change (geometry_query_port_ (ports_ q6))
        with (geometry_query_port_ (ports_ q5)).
      now rewrite Hgq5, Hgq4.
    + change (geometry_pose_port_ (ports_ q6))
        with (geometry_pose_port_ (ports_ q5)).
      now rewrite Hgp5, Hgp4.
    + change (implicit_stribeck_solver_ q6)
        with (implicit_stribeck_solver_ q5).
      now rewrite Hsv5, Hsv4.
    + change (contact_results_ q6) with (contact_results_ q5).
      now rewrite Hcr5, Hcr4.
Qed.

(** The three steps of [FinalizePlantOnly] that set the contact parameters
    and make the solver. *)
Lemma penetration_allowance_step (q : MultibodyPlant) :
  is_finalized q = true ->
  exists q',
    (if bool_decide (0 < num_collision_geometries q)%nat &&
        bool_decide
          (Penalty.time_scale (penalty_method_contact_parameters_ q) < 0)
     then set_penetration_allowance default_penetration_allowance
     else St.ret tt) q = (Ok tt, q') /\
    system_ q' = system_ q /\ ports_ q' = ports_ q /\ model_ q' = model_ q /\
    time_step_ q' = time_step_ q /\ gravity_field_ q' = gravity_field_ q /\
    contact_results_ q' = contact_results_ q /\ geometry_ q' = geometry_ q /\
    stribeck_model_ q' = stribeck_model_ q /\
    implicit_stribeck_solver_ q' = implicit_stribeck_solver_ q /\
    (num_collision_geometries q = 0%nat \/
     0 <= Penalty.time_scale (penalty_method_contact_parameters_ q) ->
     penalty_method_contact_parameters_ q'
     = penalty_method_contact_parameters_ q) /\
    ((0 < num_collision_geometries q)%nat ->
     Penalty.time_scale (penalty_method_contact_parameters_ q) < 0 ->
     set_penetration_allowance default_penetration_allowance q = (Ok tt, q')).
Proof.
  intros Hf.
  destruct (bool_decide (0 < num_collision_geometries q)%nat) eqn:Hgeo;
    cbn [andb].
  - apply bool_decide_eq_true_1 in Hgeo.
    destruct (bool_decide _) eqn:Hneg.
    + destruct (set_penetration_allowance_finalized q
                  default_penetration_allowance Hf) as (params & Hset).
      rewrite Hset. eexists. split; [reflexivity |].
      apply bool_decide_eq_true_1 in Hneg.
      cbn. repeat split. intros [H0 | H0]; [lia | lra].
    + apply bool_decide_eq_false_1 in Hneg.
      exists q. repeat split. intros _ Hlt. contradiction.
  - apply bool_decide_eq_false_1 in Hgeo.
    exists q. repeat split. intros Hpos. contradiction.
Qed.

Lemma stiction_tolerance_step (q : MultibodyPlant) :
  exists q',
    (if bool_decide (0 < num_collision_geometries q)%nat &&
        bool_decide (Stribeck.stiction_tolerance (stribeck_model_ q) < 0)
     then set_stiction_tolerance default_stiction_tolerance
     else St.ret tt) q = (Ok tt, q') /\
    system_ q' = system_ q /\ ports_ q' = ports_ q /\ model_ q' = model_ q /\
    time_step_ q' = time_step_ q /\ gravity_field_ q' = gravity_field_ q /\
    contact_results_ q' = contact_results_ q /\ geometry_ q' = geometry_ q /\
    penalty_method_contact_parameters_ q'
    = penalty_method_contact_parameters_ q /\
    (num_collision_geometries q = 0%nat \/
     0 <= Stribeck.stiction_tolerance (stribeck_model_ q) ->
     stribeck_model_ q' = stribeck_model_ q) /\
    ((0 < num_collision_geometries q)%nat ->
     Stribeck.stiction_tolerance (stribeck_model_ q) < 0 ->
     stribeck_model_ q'
     = Stribeck.set_stiction_tolerance default_stiction_tolerance) /\
    (is_discrete q = false ->
     implicit_stribeck_solver_ q' = implicit_stribeck_solver_ q).
Proof.
  destruct (bool_decide (0 < num_collision_geometries q)%nat) eqn:Hgeo;
    cbn [andb].
  - apply bool_decide_eq_true_1 in Hgeo.
    destruct (bool_decide _) eqn:Hneg.
    + apply bool_decide_eq_true_1 in Hneg.
      unfold set_stiction_tolerance, St.modify.
      eexists. split; [reflexivity |]. cbn.
      destruct (implicit_stribeck_solver_ q) as [sv |] eqn:Hsv; cbn.
      * destruct (is_discrete _) eqn:Hd; cbn; repeat split;
          try (intros [H0 | H0]; [lia | lra]); try congruence.
      * repeat split; try (intros [H0 | H0]; [lia | lra]); try congruence.
    + apply bool_decide_eq_false_1 in Hneg.
      exists q. repeat split. intros _ Hlt. contradiction.
  - apply bool_decide_eq_false_1 in Hgeo.
    exists q. repeat split. intros Hpos. contradiction.
Qed.

(** The parameters [set_penetration_allowance] stores depend on the tree
    and on gravity only: a plant that holds them already is left as it
    is. *)
Lemma set_penetration_allowance_fixed (q q0 q' : MultibodyPlant) (delta : R) :
  set_penetration_allowance delta q = (Ok tt, q0) ->
  model_ q' = model_ q -> gravity_field_ q' = gravity_field_ q ->
  penalty_method_contact_parameters_ q'
  = penalty_method_contact_parameters_ q0 ->
  set_penetration_allowance delta q' = (Ok tt, q').
Proof.
  unfold set_penetration_allowance, St.bind, St.this, St.lift, St.modify,
    ThrowIfNotFinalized, is_finalized.
  intros Hrun Hm Hg Hpen. rewrite Hm, Hg.
  destruct (topology_is_valid (model_ q)); cbn in *; [| discriminate].
  injection Hrun as <-. cbn in Hpen. rewrite <- Hpen.
  now destruct q'.
Qed.

(** What [FinalizePlantOnly] leaves behind on a plant whose tree is
    finalized. *)
Lemma FinalizePlantOnly_wires (p : MultibodyPlant) :
  is_finalized p = true ->
  exists p',
    FinalizePlantOnly p = (Ok tt, p') /\
    model_ p' = model_ p /\ time_step_ p' = time_step_ p /\
    gravity_field_ p' = gravity_field_ p /\
    contact_results_ p' = contact_results_ p /\
    geometry_ p'
    = Registry.set_source (source_id_ (geometry_ p)) None (geometry_ p) /\
    ports_declared p' /\
    contact_results_port_declared p' /\
    declared_state (system_ p')
    = (if is_discrete p
       then DiscreteState (time_step_ p) (num_multibody_states p)
       else ContinuousState (num_multibody_states p) (num_positions p)
              (num_velocities p) 0) /\
    (forall i, actuated_instances p = [i] ->
       actuated_instance_ (ports_ p') = Some i) /\
    (length (actuated_instances p) <> 1%nat ->
     actuated_instance_ (ports_ p') = actuated_instance_ (ports_ p)) /\
    (source_id_ (geometry_ p) = None ->
     geometry_query_port_ (ports_ p') = geometry_query_port_ (ports_ p) /\
     geometry_pose_port_ (ports_ p') = geometry_pose_port_ (ports_ p)) /\
    (source_id_ (geometry_ p) <> None ->
     System.get_input_port (system_ p') (geometry_query_port_ (ports_ p'))
     = Ok AbstractInputPort /\
     System.get_output_port (system_ p') (geometry_pose_port_ (ports_ p'))
     = Ok (AbstractOutputPort CalcFramePoseOutput_calc)) /\
    (is_discrete p = true ->
     implicit_stribeck_solver_ p'
     = Some {| solver_nv := num_velocities p;
               solver_parameters :=
                 {| stiction_tolerance :=
                      Stribeck.stiction_tolerance (stribeck_model_ p') |};
               solver_data := None;
               solver_solution :=
                 {| get_generalized_velocities := [];
                    get_normal_forces := [];
                    get_friction_forces := [];
                    get_tangential_velocities := [];
                    get_normal_velocities := [];
                    get_generalized_contact_forces := [] |} |}) /\
    (is_discrete p = false ->
     implicit_stribeck_solver_ p' = implicit_stribeck_solver_ p) /\
    (num_collision_geometries p = 0%nat \/
     0 <= Penalty.time_scale (penalty_method_contact_parameters_ p) ->
     penalty_method_contact_parameters_ p'
     = penalty_method_contact_parameters_ p) /\
    (num_collision_geometries p = 0%nat \/
     0 <= Stribeck.stiction_tolerance (stribeck_model_ p) ->
     stribeck_model_ p' = stribeck_model_ p) /\
    ((0 < num_collision_geometries p)%nat ->
     Penalty.time_scale (penalty_method_contact_parameters_ p) < 0 ->
     set_penetration_allowance default_penetration_allowance p'
     = (Ok tt, p')) /\
    ((0 < num_collision_geometries p)%nat ->
     Stribeck.stiction_tolerance (stribeck_model_ p) < 0 ->
     stribeck_model_ p'
     = Stribeck.set_stiction_tolerance default_stiction_tolerance).
Proof.
  intros Hf.
  destruct (DeclareStateAndPorts_wires p Hf)
    as (p1 & H1 & Hsame1 & Hports1 & Hres1 & Hstate1 & Hone1 & Hnone1 &
        Hgq1 & Hgp1 & Hsv1 & Hcr1).
  destruct Hsame1 as (Hm1 & Ht1 & Hg1 & Hgrav1 & Hpen1 & Hstr1).
  unfold FinalizePlantOnly. unfold St.bind at 1. rewrite H1.
  unfold St.bind at 1, St.this.
  (* the scene graph ports *)
  assert (Hsg : exists p2,
    (match source_id_ (geometry_ p1) with
     | Some _ => DeclareSceneGraphPorts
     | None => St.ret tt
     end) p1 = (Ok tt, p2) /\
    model_ p2 = model_ p1 /\ time_step_ p2 = time_step_ p1 /\
    geometry_ p2 = geometry_ p1 /\ gravity_field_ p2 = gravity_field_ p1 /\
    penalty_method_contact_parameters_ p2
    = penalty_method_contact_parameters_ p1 /\
    stribeck_model_ p2 = stribeck_model_ p1 /\
    implicit_stribeck_solver_ p2 = implicit_stribeck_solver_ p1 /\
    contact_results_ p2 = contact_results_ p1 /\
    ports_declared p2 /\ contact_results_port_declared p2 /\
    declared_state (system_ p2) = declared_state (system_ p1) /\
    actuated_instance_ (ports_ p2) = actuated_instance_ (ports_ p1) /\
    (source_id_ (geometry_ p1) = None ->
     geometry_query_port_ (ports_ p2) = geometry_query_port_ (ports_ p1) /\
     geometry_pose_port_ (ports_ p2) = geometry_pose_port_ (ports_ p1)) /\
    (source_id_ (geometry_ p1) <> None ->
     System.get_input_port (system_ p2) (geometry_query_port_ (ports_ p2))
     = Ok AbstractInputPort /\
     System.get_output_port (system_ p2) (geometry_pose_port_ (ports_ p2))
     = Ok (AbstractOutputPort CalcFramePoseOutput_calc))).
  { destruct (source_id_ (geometry_ p1)) as [src |].
    - eexists. split; [reflexivity |]. cbn.
      assert (Hext : system_extends (system_ p1)
                {| input_ports := input_ports (system_ p1) ++ [AbstractInputPort];
                   output_ports :=
                     output_ports (system_ p1)
                     ++ [AbstractOutputPort CalcFramePoseOutput_calc];
                   declared_state := declared_state (system_ p1) |}).
      { repeat split; cbn; now eexists. }
      repeat (split; [reflexivity |]).
      split; [now apply (ports_declared_extends p1) |].
      split.
      { unfold contact_results_port_declared in *. cbn.
        now apply (get_output_port_extends _ _ _ _ Hext). }
      repeat (split; [reflexivity |]).
      split; [discriminate |]. intros _.
      unfold System.get_input_port, System.get_output_port, vector_at. cbn.
      rewrite !lookup_app_r by lia. now rewrite !Nat.sub_diag.
    - exists p1. split; [reflexivity |].
      repeat (split; [reflexivity || assumption |]).
      split; [now split | intros Hne; now destruct Hne]. }
  destruct Hsg as (p2 & H2 & Hm2 & Ht2 & Hg2 & Hgrav2 & Hpen2 & Hstr2 & Hsv2 &
                   Hcr2 & Hports2 & Hres2 & Hstate2 & Hai2 & Hnosrc2 & Hsrc2).
  unfold St.bind at 1. rewrite H2.
  unfold St.bind at 1, St.modify at 1.
  set (p3 := with_geometry _ p2).
  unfold St.bind at 1, St.this.
  assert (Hf3 : is_finalized p3 = true).
  { unfold is_finalized in *. cbn. congruence. }
  destruct (penetration_allowance_step p3 Hf3)
    as (p4 & H4 & Hs4 & Hp4 & Hm4 & Ht4 & Hgrav4 & Hcr4 & Hg4 & Hstr4 & Hsv4 &
        Hpen4 & Hset4).
  unfold St.bind at 1. rewrite H4.
  unfold St.bind at 1, St.this.
  destruct (stiction_tolerance_step p4)
    as (p5 & H5 & Hs5 & Hp5 & Hm5 & Ht5 & Hgrav5 & Hcr5 & Hg5 & Hpen5 & Hstr5 &
        Hdef5 & Hsv5).
  unfold St.bind at 1. rewrite H5.
  unfold St.bind, St.this.
  assert (Hd5 : is_discrete p5 = is_discrete p).
  { unfold is_discrete. rewrite Ht5, Ht4. cbn. now rewrite Ht2, Ht1. }
  assert (Hgeo5 : num_collision_geometries p3 = num_collision_geometries p).
  { unfold num_collision_geometries. cbn. now rewrite Hg2, Hg1. }
  assert (Hgeo4 : num_collision_geometries p4 = num_collision_geometries p).
  { unfold num_collision_geometries in *. now rewrite Hg4. }
  assert (Hpen3 : penalty_method_contact_parameters_ p3
                  = penalty_method_contact_parameters_ p).
  { cbn. congruence. }
  assert (Hstr3 : stribeck_model_ p4 = stribeck_model_ p).
  { rewrite Hstr4. cbn. congruence. }
  assert (Hrest : forall p' : MultibodyPlant,
    system_ p' = system_ p5 -> ports_ p' = ports_ p5 ->
    model_ p' = model_ p5 -> time_step_ p' = time_step_ p5 ->
    gravity_field_ p' = gravity_field_ p5 ->
    contact_results_ p' = contact_results_ p5 ->
    geometry_ p' = geometry_ p5 ->
    penalty_method_contact_parameters_ p'
    = penalty_method_contact_parameters_ p5 ->
    stribeck_model_ p' = stribeck_model_ p5 ->
    model_ p' = model_ p /\ time_step_ p' = time_step_ p /\
    gravity_field_ p' = gravity_field_ p /\
    contact_results_ p' = contact_results_ p /\
    geometry_ p'
    = Registry.set_source (source_id_ (geometry_ p)) None (geometry_ p) /\
    ports_declared p' /\
    contact_results_port_declared p' /\
    declared_state (system_ p')
    = (if is_discrete p
       then DiscreteState (time_step_ p) (num_multibody_states p)
       else ContinuousState (num_multibody_states p) (num_positions p)
              (num_velocities p) 0) /\
    (forall i, actuated_instances p = [i] ->
       actuated_instance_ (ports_ p') = Some i) /\
    (length (actuated_instances p) <> 1%nat ->
     actuated_instance_ (ports_ p') = actuated_instance_ (ports_ p)) /\
    (source_id_ (geometry_ p) = None ->
     geometry_query_port_ (ports_ p') = geometry_query_port_ (ports_ p) /\
     geometry_pose_port_ (ports_ p') = geometry_pose_port_ (ports_ p)) /\
    (source_id_ (geometry_ p) <> None ->
     System.get_input_port (system_ p') (geometry_query_port_ (ports_ p'))
     = Ok AbstractInputPort /\
     System.get_output_port (system_ p') (geometry_pose_port_ (ports_ p'))
     = Ok (AbstractOutputPort CalcFramePoseOutput_calc)) /\
    (num_collision_geometries p = 0%nat \/
     0 <= Penalty.time_scale (penalty_method_contact_parameters_ p) ->
     penalty_method_contact_parameters_ p'
     = penalty_method_contact_parameters_ p) /\
    (num_collision_geometries p = 0%nat \/
     0 <= Stribeck.stiction_tolerance (stribeck_model_ p) ->
     stribeck_model_ p' = stribeck_model_ p) /\
    ((0 < num_collision_geometries p)%nat ->
     Penalty.time_scale (penalty_method_contact_parameters_ p) < 0 ->
     set_penetration_allowance default_penetration_allowance p'
     = (Ok tt, p')) /\
    ((0 < num_collision_geometries p)%nat ->
     Stribeck.stiction_tolerance (stribeck_model_ p) < 0 ->
     stribeck_model_ p'
     = Stribeck.set_stiction_tolerance default_stiction_tolerance)).
  { intros p' Hs' Hp' Hm' Ht' Hgrav' Hcr' Hg' Hpen' Hstr'.
    assert (Hsys : system_ p' = system_ p2).
    { rewrite Hs', Hs5, Hs4. reflexivity. }
    assert (Hprt : ports_ p' = ports_ p2).
    { rewrite Hp', Hp5, Hp4. reflexivity. }
    assert (Hmod : model_ p' = model_ p2).
    { rewrite Hm', Hm5, Hm4. reflexivity. }
    split; [congruence |].
    split; [rewrite Ht', Ht5, Ht4; cbn; congruence |].
    split; [rewrite Hgrav', Hgrav5, Hgrav4; cbn; congruence |].
    split; [rewrite Hcr', Hcr5, Hcr4; cbn; congruence |].
    split; [rewrite Hg', Hg5, Hg4; cbn; now rewrite Hg2, Hg1 |].
    split.
    { apply (ports_declared_same_tree p2); try assumption;
        now rewrite Hprt. }
    split.
    { unfold contact_results_port_declared in *. now rewrite Hsys, Hprt. }
    split; [rewrite Hsys, Hstate2; exact Hstate1 |].
    rewrite Hprt, Hai2. split; [exact Hone1 |]. split; [exact Hnone1 |].
    rewrite <- Hg1.
    split.
    { intros Hsrc. destruct (Hnosrc2 Hsrc) as (Ha & Hb).
      rewrite Ha, Hb. now split. }
    split.
    { intros Hsrc. rewrite Hsys. now apply Hsrc2. }
    split.
    { intros Hc. rewrite Hpen', Hpen5, Hpen4; [exact Hpen3 |].
      now rewrite Hgeo5, Hpen3. }
    split.
    { intros Hc. rewrite Hstr', Hstr5; [exact Hstr3 |].
      now rewrite Hgeo4, Hstr3. }
    split.
    { intros Hgeo Hneg.
      apply (set_penetration_allowance_fixed p3 p4).
      - apply Hset4; [now rewrite Hgeo5 | now rewrite Hpen3].
      - now rewrite Hm', Hm5, Hm4.
      - now rewrite Hgrav', Hgrav5, Hgrav4.
      - now rewrite Hpen', Hpen5. }
    intros Hgeo Hneg. rewrite Hstr'. apply Hdef5.
    - now rewrite Hgeo4.
    - now rewrite Hstr3. }
  destruct (is_discrete p5) eqn:Hd.
  - eexists. split; [reflexivity |].
    match goal with
    | |- context [with_solver ?sv p5] =>
        destruct (Hrest (with_solver sv p5))
          as (R1 & R2 & R3 & R4 & R5 & R6 & R7 & R8 & R9 & R10 & R11 & R12 &
              R13); try reflexivity
    end.
    repeat (split; [assumption |]).
    split.
    { intros _. cbn. f_equal. f_equal.
      unfold num_velocities. now rewrite Hm5, Hm4, <- Hm1, <- Hm2. }
    split; [intros Hd'; congruence | exact R13].
  - exists p5. split; [reflexivity |].
    destruct (Hrest p5)
      as (R1 & R2 & R3 & R4 & R5 & R6 & R7 & R8 & R9 & R10 & R11 & R12 & R13);
      try reflexivity.
    repeat (split; [assumption |]).
    split; [intros Hd'; congruence |].
    split; [| exact R13].
    intros _. rewrite Hsv5 by (rewrite <- Hd; unfold is_discrete;
                               now rewrite Ht5).
    rewrite Hsv4. cbn. congruence.
Qed.

End DeclaredPorts.

Section FinalizeOutcome.
Context `{Collaborators}.

Lemma MultibodyTree_Finalize_inv (t t' : MultibodyTree) :
  MultibodyTree_Finalize t = Ok t' ->
  topology_is_valid t = false /\ topology_is_valid t' = true /\
  tree_bodies t' = tree_bodies t /\ tree_joints t' = tree_joints t /\
  tree_actuators t' = tree_actuators t /\
  tree_instances t' = tree_instances t /\
  tree_num_positions t' = tree_num_positions t /\
  tree_num_velocities t' = tree_num_velocities t.
Proof.
  unfold MultibodyTree_Finalize.
  destruct (topology_is_valid t); [discriminate |].
  intros [= <-]. cbn. repeat split.
Qed.

(** A successful [Finalize] has finalized the tree and then run
    [FinalizePlantOnly] on the plant with that tree. *)
Lemma Finalize_inv (scene_graph : SceneGraphPtr) (w w' : World) :
  Finalize scene_graph w = (Ok tt, w') ->
  exists tree,
    MultibodyTree_Finalize (model_ (plant w)) = Ok tree /\
    FinalizePlantOnly (with_model (fun _ => tree) (plant w))
    = (Ok tt, plant w').
Proof.
  unfold Finalize. intros Hrun.
  apply bind_Ok_inv in Hrun as (p0 & w0 & Hget & Hrun).
  unfold St.gets in Hget. injection Hget as <- <-.
  apply bind_Ok_inv in Hrun as (tree & w1 & Htree & Hrun).
  unfold St.lift in Htree. injection Htree as Htree <-.
  apply bind_Ok_inv in Hrun as ([] & w2 & Hmod & Hrun).
  unfold St.on_plant, St.modify in Hmod. injection Hmod as <-.
  apply bind_Ok_inv in Hrun as ([] & w3 & Hfilter & Hrun).
  apply FilterAdjacentBodies_plant in Hfilter.
  apply bind_Ok_inv in Hrun as ([] & w4 & Hexcl & Hrun).
  apply ExcludeCollisionsWithVisualGeometry_plant in Hexcl.
  unfold St.on_plant in Hrun.
  destruct (FinalizePlantOnly (plant w4)) as [r p5] eqn:Hfin.
  injection Hrun as -> <-. cbn [plant].
  exists tree. split; [exact Htree |].
  rewrite Hexcl, Hfilter in Hfin. exact Hfin.
Qed.

(** What a successful [Finalize] leaves behind, in terms of the plant it
    was called on. *)
Lemma Finalize_wires (scene_graph : SceneGraphPtr) (w w' : World) :
  Finalize scene_graph w = (Ok tt, w') ->
  let p := plant w in
  let p' := plant w' in
  is_finalized p = false /\ is_finalized p' = true /\
  time_step_ p' = time_step_ p /\
  num_multibody_states p' = num_multibody_states p /\
  num_positions p' = num_positions p /\
  num_velocities p' = num_velocities p /\
  num_collision_geometries p' = num_collision_geometries p /\
  geometry_ p'
  = Registry.set_source (source_id_ (geometry_ p)) None (geometry_ p) /\
  contact_results_ p' = contact_results_ p /\
  ports_declared p' /\
  contact_results_port_declared p' /\
  declared_state (system_ p')
  = (if is_discrete p'
     then DiscreteState (time_step_ p') (num_multibody_states p')
     else ContinuousState (num_multibody_states p') (num_positions p')
            (num_velocities p') 0) /\
  (forall i, actuated_instances p' = [i] ->
     actuated_instance_ (ports_ p') = Some i) /\
  (length (actuated_instances p') <> 1%nat ->
   actuated_instance_ (ports_ p') = actuated_instance_ (ports_ p)) /\
  (source_id_ (geometry_ p) = None ->
   geometry_query_port_ (ports_ p') = geometry_query_port_ (ports_ p) /\
   geometry_pose_port_ (ports_ p') = geometry_pose_port_ (ports_ p)) /\
  (source_id_ (geometry_ p) <> None ->
   System.get_input_port (system_ p') (geometry_query_port_ (ports_ p'))
   = Ok AbstractInputPort /\
   System.get_output_port (system_ p') (geometry_pose_port_ (ports_ p'))
   = Ok (AbstractOutputPort CalcFramePoseOutput_calc)) /\
  (is_discrete p' = true ->
   implicit_stribeck_solver_ p'
   = Some {| solver_nv := num_velocities p';
             solver_parameters :=
               {| stiction_tolerance :=
                    Stribeck.stiction_tolerance (stribeck_model_ p') |};
             solver_data := None;
             solver_solution :=
               {| get_generalized_velocities := [];
                  get_normal_forces := [];
                  get_friction_forces := [];
                  get_tangential_velocities := [];
                  get_normal_velocities := [];
                  get_generalized_contact_forces := [] |} |}) /\
  (is_discrete p' = false ->
   implicit_stribeck_solver_ p' = implicit_stribeck_solver_ p) /\
  (num_collision_geometries p = 0%nat \/
   0 <= Penalty.time_scale (penalty_method_contact_parameters_ p) ->
   penalty_method_contact_parameters_ p'
   = penalty_method_contact_parameters_ p) /\
  (num_collision_geometries p = 0%nat \/
   0 <= Stribeck.stiction_tolerance (stribeck_model_ p) ->
   stribeck_model_ p' = stribeck_model_ p) /\
  ((0 < num_collision_geometries p)%nat ->
   Penalty.time_scale (penalty_method_contact_parameters_ p) < 0 ->
   set_penetration_allowance default_penetration_allowance p'
   = (Ok tt, p')) /\
  ((0 < num_collision_geometries p)%nat ->
   Stribeck.stiction_tolerance (stribeck_model_ p) < 0 ->
   stribeck_model_ p'
   = Stribeck.set_stiction_tolerance default_stiction_tolerance).
Proof.
  intros Hrun p p'.
  destruct (Finalize_inv _ _ _ Hrun) as (tree & Htree & Hfin).
  apply MultibodyTree_Finalize_inv in Htree
    as (Hnf & Hf & Hb & Hj & Ha & Hi & Hq & Hv).
  set (q := with_model (fun _ => tree) (plant w)) in *.
  assert (Hfq : is_finalized q = true) by exact Hf.
  destruct (FinalizePlantOnly_wires q Hfq)
    as (p1 & Hfin1 & Hm & Ht & Hgrav & Hcr & Hgeo & Hports & Hres & Hstate &
        Hone & Hnone & Hnosrc & Hsrc & Hsvd & Hsvc & Hpar).
  rewrite Hfin in Hfin1. injection Hfin1 as <-. fold p' in Hm, Ht, Hgrav, Hcr,
    Hgeo, Hports, Hres, Hstate, Hone, Hnone, Hnosrc, Hsrc, Hsvd, Hsvc, Hpar.
  assert (Hd : is_discrete p' = is_discrete q).
  { unfold is_discrete. now rewrite Ht. }
  assert (Hnq : num_positions p' = num_positions q).
  { unfold num_positions. now rewrite Hm. }
  assert (Hnv : num_velocities p' = num_velocities q).
  { unfold num_velocities. now rewrite Hm. }
  assert (Hnx : num_multibody_states p' = num_multibody_states q).
  { unfold num_multibody_states. now rewrite Hnq, Hnv. }
  assert (Hact : actuated_instances p' = actuated_instances q).
  { unfold actuated_instances, num_actuated_dofs_of, instance_count,
      num_model_instances. now rewrite Hm. }
  split; [exact Hnf |].
  split; [unfold is_finalized; now rewrite Hm |].
  split; [exact Ht |].
  split.
  { rewrite Hnx. unfold num_multibody_states, num_positions, num_velocities.
    cbn. now rewrite Hq, Hv. }
  split; [rewrite Hnq; exact Hq |].
  split; [rewrite Hnv; exact Hv |].
  split; [unfold num_collision_geometries; now rewrite Hgeo |].
  split; [exact Hgeo |].
  split; [exact Hcr |].
  split; [exact Hports |].
  split; [exact Hres |].
  split; [rewrite Hstate, Hd, Ht, Hnx, Hnq, Hnv; reflexivity |].
  rewrite Hact, Hd, Hnv.
  repeat (split; [assumption |]).
  exact Hpar.
Qed.

End FinalizeOutcome.

Section AfterFinalize.
Context `{Collaborators}.

(** X14. After a successful [Finalize], the plant has declared its state, a
    discrete state of [num_multibody_states] values updated every
    [time_step] when the plant is discrete and a continuous state of
    [num_positions] positions, [num_velocities] velocities and no other
    variable when it is not, and [get_continuous_state_output_port] returns
    the vector port of size [num_multibody_states] computed by
    [CopyContinuousStateOut], for both kinds of plant.  The time step and
    the sizes are those of the plant before the call. *)
Theorem Finalize_declares_state (scene_graph : SceneGraphPtr) (w w' : World) :
  Finalize scene_graph w = (Ok tt, w') ->
  declared_state (system_ (plant w'))
  = (if is_discrete (plant w')
     then DiscreteState (time_step_ (plant w'))
            (num_multibody_states (plant w'))
     else ContinuousState (num_multibody_states (plant w'))
            (num_positions (plant w')) (num_velocities (plant w')) 0) /\
  get_continuous_state_output_port (plant w')
  = Ok (VectorOutputPort (num_multibody_states (plant w'))
          CopyContinuousStateOut_calc) /\
  time_step_ (plant w') = time_step_ (plant w) /\
  num_positions (plant w') = num_positions (plant w) /\
  num_velocities (plant w') = num_velocities (plant w).
Proof.
  intros Hrun.
  destruct (Finalize_wires _ _ _ Hrun)
    as (_ & Hf & Ht & _ & Hnq & Hnv & _ & _ & _ & Hports & _ & Hstate & _).
  split; [exact Hstate |].
  split; [| now repeat split].
  unfold get_continuous_state_output_port.
  rewrite ThrowIfNotFinalized_finalized by assumption.
  exact (proj1 Hports).
Qed.

(** X15. After a successful [Finalize], a discrete plant holds a solver
    made for [num_velocities] velocities, without problem data, whose
    stiction tolerance is that of the plant's Stribeck model; on a
    continuous plant [Finalize] makes no solver: the member is what it was
    before the call. *)
Theorem Finalize_makes_solver (scene_graph : SceneGraphPtr) (w w' : World) :
  Finalize scene_graph w = (Ok tt, w') ->
  (is_discrete (plant w') = true ->
   exists sv,
     implicit_stribeck_solver_ (plant w') = Some sv /\
     solver_nv sv = num_velocities (plant w') /\
     stiction_tolerance (solver_parameters sv)
     = Stribeck.stiction_tolerance (stribeck_model_ (plant w')) /\
     solver_data sv = None) /\
  (is_discrete (plant w') = false ->
   implicit_stribeck_solver_ (plant w')
   = implicit_stribeck_solver_ (plant w)).
Proof.
  intros Hrun.
  destruct (Finalize_wires _ _ _ Hrun)
    as (_ & _ & _ & _ & _ & _ & _ & _ & _ & _ & _ & _ & _ & _ & _ & _ &
        Hsvd & Hsvc & _).
  split; [| assumption].
  intros Hd. eexists. split; [exact (Hsvd Hd) |]. cbn. repeat split.
Qed.

(** X16. The contact parameters after a successful [Finalize].  Without
    collision geometry, or when they were set before the call (a time scale,
    respectively a stiction tolerance, that is not negative), the penalty
    parameters, respectively the Stribeck model, are left as they were.
    With collision geometry, unset penalty parameters are replaced by those
    of [set_penetration_allowance] at its default allowance, so that calling
    it again leaves the plant as it is, and an unset Stribeck model by the
    one of the default stiction tolerance. *)
Theorem Finalize_default_contact_parameters (scene_graph : SceneGraphPtr)
    (w w' : World) :
  Finalize scene_graph w = (Ok tt, w') ->
  let p := plant w in
  let p' := plant w' in
  (num_collision_geometries p = 0%nat \/
   0 <= Penalty.time_scale (penalty_method_contact_parameters_ p) ->
   penalty_method_contact_parameters_ p'
   = penalty_method_contact_parameters_ p) /\
  (num_collision_geometries p = 0%nat \/
   0 <= Stribeck.stiction_tolerance (stribeck_model_ p) ->
   stribeck_model_ p' = stribeck_model_ p) /\
  ((0 < num_collision_geometries p)%nat ->
   Penalty.time_scale (penalty_method_contact_parameters_ p) < 0 ->
   set_penetration_allowance default_penetration_allowance p'
   = (Ok tt, p')) /\
  ((0 < num_collision_geometries p)%nat ->
   Stribeck.stiction_tolerance (stribeck_model_ p) < 0 ->
   stribeck_model_ p'
   = Stribeck.set_stiction_tolerance default_stiction_tolerance).
Proof.
  intros Hrun p p'.
  destruct (Finalize_wires _ _ _ Hrun)
    as (_ & _ & _ & _ & _ & _ & _ & _ & _ & _ & _ & _ & _ & _ & _ & _ &
        _ & _ & Hpar).
  exact Hpar.
Qed.

(** X17. After a successful [Finalize], the getters of the ports of a model
    instance of the plant return the ports declared for that instance: the
    state output port has the size of the instance's state and the actuation
    input port the size of its actuated degrees of freedom, and each getter
    raises the failure of its guard when that size is zero; on a discrete
    plant the port of generalized contact forces of an instance with
    velocities has the size of these velocities. *)
Theorem instance_ports_after_Finalize (scene_graph : SceneGraphPtr)
    (w w' : World) (i : ModelInstanceIndex) :
  Finalize scene_graph w = (Ok tt, w') ->
  (i < num_model_instances (plant w'))%nat ->
  (get_continuous_state_output_port_of (plant w') (Some i)
   = if bool_decide (0 < num_states_of (plant w') i)%nat
     then Ok (VectorOutputPort (num_states_of (plant w') i)
                (CopyInstanceStateOut_calc i))
     else Raise (throw_unless "get_continuous_state_output_port"
                   "model_->num_states(model_instance) > 0")) /\
  (get_actuation_input_port_of (plant w') (Some i)
   = if bool_decide (0 < num_actuated_dofs_of (plant w') i)%nat
     then Ok (VectorInputPort (num_actuated_dofs_of (plant w') i))
     else Raise (throw_unless "get_actuation_input_port"
                   "num_actuated_dofs(model_instance) > 0")) /\
  (is_discrete (plant w') = true ->
   (0 < num_velocities_of (plant w') i)%nat ->
   get_generalized_contact_forces_output_port (plant w') (Some i)
   = Ok (VectorOutputPort (num_velocities_of (plant w') i)
           (CopyGeneralizedContactForcesOut_calc i))).
Proof.
  intros Hrun Hi.
  destruct (Finalize_wires _ _ _ Hrun)
    as (_ & Hf & _ & _ & _ & _ & _ & _ & _ & Hports & _).
  destruct Hports as (_ & Hports).
  destruct (Hports i Hi) as (Hstate & Hforces & Hact).
  split; [| split].
  - unfold get_continuous_state_output_port_of.
    rewrite ThrowIfNotFinalized_finalized by assumption.
    cbn. rewrite (bool_decide_eq_true_2 (i < _)%nat) by assumption. cbn.
    destruct (bool_decide (0 < num_states_of (plant w') i)%nat) eqn:Hn;
      cbn; [| reflexivity].
    apply bool_decide_eq_true_1 in Hn.
    destruct Hstate as (index & Hlook & Hport); [lia |].
    unfold vector_at. rewrite Hlook. exact Hport.
  - unfold get_actuation_input_port_of.
    rewrite ThrowIfNotFinalized_finalized by assumption.
    cbn. rewrite (bool_decide_eq_true_2 (i < _)%nat) by assumption. cbn.
    destruct (bool_decide (0 < num_actuated_dofs_of (plant w') i)%nat) eqn:Hn;
      cbn; [| reflexivity].
    apply bool_decide_eq_true_1 in Hn.
    destruct Hact as (index & Hlook & Hport); [lia |].
    unfold vector_at. rewrite Hlook. exact Hport.
  - intros Hd Hn.
    unfold get_generalized_contact_forces_output_port.
    rewrite ThrowIfNotFinalized_finalized by assumption.
    rewrite Hd.
    cbn. rewrite (bool_decide_eq_true_2 (i < _)%nat) by assumption. cbn.
    rewrite bool_decide_eq_true_2 by (unfold num_states_of; lia). cbn.
    destruct Hforces as (index & Hlook & Hport); [lia |].
    unfold vector_at. rewrite Hlook. exact Hport.
Qed.

(** X18. [get_actuation_input_port()] after [Finalize], on a plant with
    actuators built with no actuated instance recorded: when exactly one
    model instance has actuated degrees of freedom, it returns the actuation
    port of that instance; when several or none have, it raises the failure
    of its guard [actuated_instance_.is_valid()]. *)
Theorem get_actuation_input_port_single_instance
    (scene_graph : SceneGraphPtr) (w w' : World) :
  Finalize scene_graph w = (Ok tt, w') ->
  actuated_instance_ (ports_ (plant w)) = None ->
  (0 < num_actuators (plant w'))%nat ->
  (forall i, actuated_instances (plant w') = [i] ->
     get_actuation_input_port (plant w')
     = Ok (VectorInputPort (num_actuated_dofs_of (plant w') i))) /\
  (length (actuated_instances (plant w')) <> 1%nat ->
   get_actuation_input_port (plant w')
   = Raise (throw_unless "get_actuation_input_port"
              "actuated_instance_.is_valid()")).
Proof.
  intros Hrun Hnone Hact.
  destruct (Finalize_wires _ _ _ Hrun)
    as (_ & Hf & _ & _ & _ & _ & _ & _ & _ & Hports & _ & _ & Hone & Hmany & _).
  destruct Hports as (_ & Hports).
  unfold get_actuation_input_port.
  rewrite ThrowIfNotFinalized_finalized by assumption.
  cbn. rewrite (bool_decide_eq_true_2 (0 < _)%nat) by assumption. cbn.
  split.
  - intros i Hi. rewrite (Hone i Hi). cbn.
    assert (Hin : i ∈ actuated_instances (plant w')).
    { rewrite Hi. apply list_elem_of_singleton. reflexivity. }
    unfold actuated_instances in Hin.
    apply list_elem_of_filter in Hin as (Hdofs & Hrange).
    apply elem_of_seq in Hrange.
    destruct (Hports i ltac:(lia)) as (_ & _ & Hport).
    destruct (Hport Hdofs) as (index & Hlook & Hget).
    unfold get_actuation_input_port_of.
    rewrite ThrowIfNotFinalized_finalized by assumption.
    cbn. rewrite (bool_decide_eq_true_2 (i < _)%nat) by lia. cbn.
    rewrite bool_decide_eq_true_2 by lia. cbn.
    unfold vector_at. rewrite Hlook. exact Hget.
  - intros Hlen. rewrite (Hmany Hlen), Hnone. reflexivity.
Qed.

(** X19. A successful [Finalize] forgets the engine, [scene_graph_] is
    null afterwards, and keeps the source identifier.  On a plant registered
    as a geometry source the geometry query input port and the geometry pose
    output port, computed by [CalcFramePoseOutput], are declared and their
    getters return them; on a plant that is not a source both getters fail
    their demand [geometry_source_is_registered()]. *)
Theorem geometry_ports_after_Finalize (scene_graph : SceneGraphPtr)
    (w w' : World) :
  Finalize scene_graph w = (Ok tt, w') ->
  scene_graph_ (geometry_ (plant w')) = None /\
  source_id_ (geometry_ (plant w')) = source_id_ (geometry_ (plant w)) /\
  (geometry_source_is_registered (plant w) = true ->
   get_geometry_query_input_port (plant w') = Ok AbstractInputPort /\
   get_geometry_poses_output_port (plant w')
   = Ok (AbstractOutputPort CalcFramePoseOutput_calc)) /\
  (geometry_source_is_registered (plant w) = false ->
   get_geometry_query_input_port (plant w')
   = Raise (assertion_failed "geometry_source_is_registered()") /\
   get_geometry_poses_output_port (plant w')
   = Raise (assertion_failed "geometry_source_is_registered()")).
Proof.
  intros Hrun.
  destruct (Finalize_wires _ _ _ Hrun)
    as (_ & Hf & _ & _ & _ & _ & _ & Hgeo & _ & _ & _ & _ & _ & _ & _ & Hsrc &
        _).
  rewrite Hgeo. cbn.
  split; [reflexivity |]. split; [reflexivity |].
  unfold get_geometry_query_input_port, get_geometry_poses_output_port,
    geometry_source_is_registered.
  rewrite !ThrowIfNotFinalized_finalized by assumption.
  rewrite Hgeo. cbn.
  destruct (source_id_ (geometry_ (plant w))) as [src |] eqn:Hid.
  - split; [| discriminate]. intros _. cbn. apply Hsrc. discriminate.
  - split; [discriminate |]. intros _. split; reflexivity.
Qed.

End AfterFinalize.

Section FinalizeErrors.
Context `{Collaborators}.

Lemma Finalize_tree (scene_graph : SceneGraphPtr) (w w' : World) :
  Finalize scene_graph w = (Ok tt, w') ->
  MultibodyTree_Finalize (model_ (plant w)) = Ok (model_ (plant w')).
Proof.
  intros Hrun.
  destruct (Finalize_inv _ _ _ Hrun) as (tree & Htree & Hfin).
  pose proof (FinalizePlantOnly_needs_finalized_tree _ _ Hfin) as Hf.
  destruct (FinalizePlantOnly_spec _ Hf) as (p' & Hfin' & _ & Hm & _).
  rewrite Hfin in Hfin'. injection Hfin' as <-.
  now rewrite Hm.
Qed.

(** A loop of calls on the engine at [a] runs to its end when that engine
    exists. *)
Lemma for_each_on_engine {A : Type} (a : nat)
    (body : A -> stateful World unit) (xs : list A) :
  (forall x w, is_Some (engines w !! a) ->
     exists w', body x w = (Ok tt, w') /\ plant w' = plant w /\
                is_Some (engines w' !! a)) ->
  forall w, is_Some (engines w !! a) ->
    exists w', St.for_each body xs w = (Ok tt, w') /\ plant w' = plant w /\
               is_Some (engines w' !! a).
Proof.
  intros Hbody. induction xs as [| x xs IH]; intros w Hw; cbn.
  - exists w. now repeat split.
  - destruct (Hbody x w Hw) as (w1 & H1 & Hp1 & He1).
    unfold St.bind. rewrite H1.
    destruct (IH w1 He1) as (w2 & H2 & Hp2 & He2).
    exists w2. repeat split; [exact H2 | congruence | exact He2].
Qed.

Lemma on_engine_ok {A : Type} (a : nat) (f : SceneGraph -> A * SceneGraph)
    (w : World) :
  is_Some (engines w !! a) ->
  exists x w', St.on_engine (Some a) f w = (Ok x, w') /\
               plant w' = plant w /\ is_Some (engines w' !! a).
Proof.
  intros [g Hg]. unfold St.on_engine. rewrite Hg.
  destruct (f g) as [x g']. eexists _, _. split; [reflexivity |].
  split; [reflexivity |]. cbn. rewrite lookup_insert_eq. now eexists.
Qed.

(** [Finalize] runs to its end on a plant that is not finalized when, in
    case the plant is a geometry source, it is handed the engine it was
    registered with. *)
Lemma Finalize_runs (scene_graph : SceneGraphPtr) (w : World) :
  is_finalized (plant w) = false ->
  (geometry_source_is_registered (plant w) = true ->
   scene_graph = scene_graph_ (geometry_ (plant w)) /\
   exists a, scene_graph = Some a /\ is_Some (engines w !! a)) ->
  exists w', Finalize scene_graph w = (Ok tt, w').
Proof.
  intros Hf Hsrc.
  destruct (geometry_source_is_registered (plant w)) eqn:Hreg.
  2: { destruct scene_graph as [a |].
       - (* the pointer is not used *)
         unfold Finalize, St.bind at 1, St.gets.
         unfold St.bind at 1, St.lift, MultibodyTree_Finalize.
         unfold is_finalized in Hf. rewrite Hf.
         unfold St.bind at 1, St.on_plant at 1, St.modify.
         set (w1 := {| plant := _; engines := engines w |}).
         assert (Hreg1 : geometry_source_is_registered (plant w1) = false)
           by exact Hreg.
         unfold St.bind at 1, FilterAdjacentBodies, St.bind at 1, St.gets.
         rewrite Hreg1. cbn [St.ret].
         unfold St.bind at 1, ExcludeCollisionsWithVisualGeometry,
           St.bind at 1, St.gets.
         rewrite Hreg1. cbn [St.ret].
         unfold St.on_plant.
         destruct (FinalizePlantOnly_spec (plant w1) eq_refl)
           as (p' & Hfin & _).
         rewrite Hfin. eexists. reflexivity.
       - now apply Finalize_without_geometry. }
  destruct (Hsrc eq_refl) as (Hsame & a & -> & Hlive).
  unfold Finalize, St.bind at 1, St.gets.
  unfold St.bind at 1, St.lift, MultibodyTree_Finalize.
  unfold is_finalized in Hf. rewrite Hf.
  unfold St.bind at 1, St.on_plant at 1, St.modify.
  set (w1 := {| plant := _; engines := engines w |}).
  assert (Hreg1 : geometry_source_is_registered (plant w1) = true)
    by exact Hreg.
  assert (Hsame1 : scene_graph_ (geometry_ (plant w1)) = Some a)
    by (symmetry; exact Hsame).
  assert (Hlive1 : is_Some (engines w1 !! a)) by exact Hlive.
  assert (Hfin1 : is_finalized (plant w1) = true) by reflexivity.
  clearbody w1.
  (* FilterAdjacentBodies *)
  assert (Hfilter : exists w2,
    FilterAdjacentBodies (Some a) w1 = (Ok tt, w2) /\
    plant w2 = plant w1 /\ is_Some (engines w2 !! a)).
  { unfold FilterAdjacentBodies, St.bind at 1, St.gets. rewrite Hreg1.
    unfold St.bind at 1. rewrite bool_decide_eq_false_2 by (intros [=]).
    cbn [St.ret].
    unfold St.bind at 1. rewrite Hsame1.
    rewrite bool_decide_eq_false_2 by (intros Hne; now apply Hne).
    cbn [St.ret].
    apply for_each_on_engine; [| exact Hlive1].
    intros joint w0 Hw0.
    destruct (bool_decide (parent_body joint = world_index)).
    { exists w0. now repeat split. }
    destruct (GetBodyFrameIdIfExists (plant w1) (child_body joint));
      [destruct (GetBodyFrameIdIfExists (plant w1) (parent_body joint)) |].
    - match goal with
      | |- context [St.on_engine (Some a) ?f w0] =>
          destruct (on_engine_ok a f w0 Hw0) as ([] & w' & Hok & Hp & He)
      end.
      exists w'. now repeat split.
    - exists w0. now repeat split.
    - exists w0. now repeat split. }
  destruct Hfilter as (w2 & H2 & Hp2 & He2).
  unfold St.bind at 1. rewrite H2.
  (* ExcludeCollisionsWithVisualGeometry *)
  assert (Hexcl : exists w3,
    ExcludeCollisionsWithVisualGeometry (Some a) w2 = (Ok tt, w3) /\
    plant w3 = plant w2).
  { unfold ExcludeCollisionsWithVisualGeometry, St.bind at 1, St.gets.
    rewrite Hp2, Hreg1.
    unfold St.bind at 1. rewrite bool_decide_eq_false_2 by (intros [=]).
    cbn [St.ret]. cbn zeta.
    unfold St.bind.
    match goal with
    | |- context [St.on_engine (Some a) ?f w2] =>
        destruct (on_engine_ok a f w2 He2) as ([] & w' & Hok & Hp & He)
    end.
    rewrite Hok.
    match goal with
    | |- context [St.on_engine (Some a) ?f w'] =>
        destruct (on_engine_ok a f w' He) as ([] & w'' & Hok' & Hp' & He')
    end.
    exists w''. split; [exact Hok' | congruence]. }
  destruct Hexcl as (w3 & H3 & Hp3).
  unfold St.bind at 1. rewrite H3.
  unfold St.on_plant.
  destruct (FinalizePlantOnly_spec (plant w3)) as (p' & Hfin & _).
  { rewrite Hp3, Hp2. exact Hfin1. }
  rewrite Hfin. eexists. reflexivity.
Qed.

(** X20. [Finalize] succeeds on a plant that is not finalized, provided
    that, when the plant is registered as a geometry source, the pointer it
    is given is the engine the plant was registered with.  The plant is
    finalized afterwards, is discrete exactly when it was, and no longer
    points to the engine. *)
Theorem Finalize_succeeds (scene_graph : SceneGraphPtr) (w : World) :
  is_finalized (plant w) = false ->
  (geometry_source_is_registered (plant w) = true ->
   scene_graph = scene_graph_ (geometry_ (plant w)) /\
   exists a, scene_graph = Some a /\ is_Some (engines w !! a)) ->
  exists w', Finalize scene_graph w = (Ok tt, w') /\
             is_finalized (plant w') = true /\
             is_discrete (plant w') = is_discrete (plant w) /\
             scene_graph_ (geometry_ (plant w')) = None.
Proof.
  intros Hf Hsrc.
  destruct (Finalize_runs scene_graph w Hf Hsrc) as (w' & Hrun).
  exists w'. split; [exact Hrun |].
  destruct (Finalize_wires _ _ _ Hrun)
    as (_ & Hf' & Ht & _ & _ & _ & _ & Hgeo & _).
  split; [exact Hf' |].
  split; [unfold is_discrete; now rewrite Ht |].
  now rewrite Hgeo.
Qed.

(** X21. The failures of [Finalize].  On a finalized plant it throws the
    tree's error and changes nothing.  On a plant registered as a geometry
    source, a null pointer or a pointer to another engine makes it throw a
    logic error after the tree has been finalized: the plant is then
    finalized although no state and no port has been declared, the engines
    are untouched, and every further call of [Finalize] throws the tree's
    error. *)
Theorem Finalize_failures (scene_graph : SceneGraphPtr) (w : World) :
  (is_finalized (plant w) = true ->
   Finalize scene_graph w
   = (Raise (logic_error
        "Attempting to call MultibodyTree::Finalize() on a tree with an already finalized topology."),
      w)) /\
  (is_finalized (plant w) = false ->
   geometry_source_is_registered (plant w) = true ->
   scene_graph = None \/ scene_graph <> scene_graph_ (geometry_ (plant w)) ->
   exists w',
     Finalize scene_graph w
     = (Raise (logic_error
          (if bool_decide (scene_graph = None)
           then finalize_needs_scene_graph_message
           else finalize_same_scene_graph_message)), w') /\
     is_finalized (plant w') = true /\
     system_ (plant w') = system_ (plant w) /\
     ports_ (plant w') = ports_ (plant w) /\
     engines w' = engines w /\
     forall scene_graph',
       Finalize scene_graph' w'
       = (Raise (logic_error
            "Attempting to call MultibodyTree::Finalize() on a tree with an already finalized topology."),
          w')).
Proof.
  assert (Hagain : forall sg w0, is_finalized (plant w0) = true ->
    Finalize sg w0
    = (Raise (logic_error
         "Attempting to call MultibodyTree::Finalize() on a tree with an already finalized topology."),
       w0)).
  { intros sg w0 Hf.
    unfold Finalize, St.bind at 1, St.gets.
    unfold St.bind at 1, St.lift, MultibodyTree_Finalize.
    unfold is_finalized in Hf. rewrite Hf. reflexivity. }
  split; [apply Hagain |].
  intros Hf Hreg Hbad.
  unfold Finalize, St.bind at 1, St.gets.
  unfold St.bind at 1, St.lift, MultibodyTree_Finalize.
  unfold is_finalized in Hf. rewrite Hf.
  unfold St.bind at 1, St.on_plant at 1, St.modify.
  set (w1 := {| plant := _; engines := engines w |}).
  assert (Hreg1 : geometry_source_is_registered (plant w1) = true)
    by exact Hreg.
  unfold St.bind at 1, FilterAdjacentBodies, St.bind at 1, St.gets.
  rewrite Hreg1.
  unfold St.bind at 1.
  destruct (bool_decide (scene_graph = None)) eqn:Hnull; cbn [St.lift St.ret].
  - exists w1. split; [reflexivity |]. repeat split.
  - apply bool_decide_eq_false_1 in Hnull.
    destruct Hbad as [Hbad | Hbad]; [contradiction |].
    unfold St.bind at 1.
    rewrite bool_decide_eq_true_2 by exact Hbad. cbn [St.lift].
    exists w1. split; [reflexivity |]. repeat split.
Qed.

End FinalizeErrors.

Section AfterFinalizeArm.
#[local] Existing Instance Arm.collaborators.

Lemma arm_finalize (t : MultibodyTree) (time_step : R) :
  topology_is_valid t = false ->
  exists w',
    Finalize None (arm_world t time_step) = (Ok tt, w') /\
    model_ (plant w')
    = {| topology_is_valid := true;
         tree_bodies := tree_bodies t; tree_joints := tree_joints t;
         tree_actuators := tree_actuators t;
         tree_instances := tree_instances t;
         tree_num_positions := tree_num_positions t;
         tree_num_velocities := tree_num_velocities t |}.
Proof.
  intros Ht.
  destruct (Finalize_without_geometry (arm_world t time_step) Ht eq_refl)
    as (w' & Hrun).
  exists w'. split; [exact Hrun |].
  pose proof (Finalize_tree _ _ _ Hrun) as Htree.
  unfold MultibodyTree_Finalize in Htree. cbn in Htree. rewrite Ht in Htree.
  now injection Htree as <-.
Qed.

Lemma Finalize_declares_state_witness :
  exists w',
    Finalize None (arm_world Arm.tree 0) = (Ok tt, w') /\
    declared_state (system_ (plant w')) = ContinuousState 6 3 3 0 /\
    get_continuous_state_output_port (plant w')
    = Ok (VectorOutputPort 6 CopyContinuousStateOut_calc).
Proof.
  destruct (arm_finalize Arm.tree 0 eq_refl) as (w' & Hrun & Hm).
  exists w'. split; [exact Hrun |].
  destruct (Finalize_declares_state None _ w' Hrun)
    as (Hstate & Hport & Ht & Hnq & Hnv).
  assert (Hd : is_discrete (plant w') = false).
  { unfold is_discrete. rewrite Ht. cbn.
    apply bool_decide_eq_false_2. lra. }
  rewrite Hd in Hstate.
  unfold num_multibody_states in Hstate, Hport.
  rewrite Hnq, Hnv in Hstate, Hport.
  split; [exact Hstate | exact Hport].
Defined.

Lemma instance_ports_after_Finalize_witness :
  exists w',
    Finalize None (arm_world Arm.tree 0) = (Ok tt, w') /\
    get_continuous_state_output_port_of (plant w') (Some 2%nat)
    = Ok (VectorOutputPort 2 (CopyInstanceStateOut_calc 2%nat)) /\
    get_actuation_input_port_of (plant w') (Some 2%nat)
    = Ok (VectorInputPort 1).
Proof.
  destruct (arm_finalize Arm.tree 0 eq_refl) as (w' & Hrun & Hm).
  exists w'. split; [exact Hrun |].
  assert (Hi : (2 < num_model_instances (plant w'))%nat).
  { unfold num_model_instances. rewrite Hm. cbn. lia. }
  destruct (instance_ports_after_Finalize None _ w' 2%nat Hrun Hi)
    as (Hstate & Hact & _).
  unfold num_states_of, num_positions_of, num_velocities_of,
    num_actuated_dofs_of, instance_count in Hstate, Hact.
  rewrite Hm in Hstate, Hact.
  split; [exact Hstate | exact Hact].
Defined.

Lemma get_actuation_input_port_single_instance_witness :
  exists w',
    Finalize None (arm_world Arm.tree_without_gripper_actuator 0)
    = (Ok tt, w') /\
    get_actuation_input_port (plant w') = Ok (VectorInputPort 2).
Proof.
  destruct (arm_finalize Arm.tree_without_gripper_actuator 0 eq_refl)
    as (w' & Hrun & Hm).
  exists w'. split; [exact Hrun |].
  assert (Hact : (0 < num_actuators (plant w'))%nat).
  { unfold num_actuators. rewrite Hm. cbn. lia. }
  destruct (get_actuation_input_port_single_instance None _ w' Hrun eq_refl
              Hact) as (Hone & _).
  assert (Hlist : actuated_instances (plant w') = [1%nat]).
  { unfold actuated_instances, num_actuated_dofs_of, instance_count,
      num_model_instances. rewrite Hm. reflexivity. }
  rewrite (Hone 1%nat Hlist).
  unfold num_actuated_dofs_of, instance_count. rewrite Hm. reflexivity.
Defined.

End AfterFinalizeArm.

Section AfterFinalizeExample.
#[local] Existing Instance Example.collaborators.

Lemma example_finalize (time_step : R) :
  exists w', Finalize (Some 0%nat) (example_world time_step) = (Ok tt, w').
Proof.
  apply Finalize_runs; [reflexivity |].
  intros _. split; [reflexivity |].
  exists 0%nat. split; [reflexivity |].
  unfold example_world. cbn. rewrite lookup_insert_eq. now eexists.
Qed.

Lemma example_has_collision_geometry (time_step : R) :
  num_collision_geometries (plant (example_world time_step)) = 3%nat.
Proof. reflexivity. Qed.

Lemma Finalize_makes_solver_witness :
  exists w' sv,
    Finalize (Some 0%nat) (example_world (1 / 1000)) = (Ok tt, w') /\
    implicit_stribeck_solver_ (plant w') = Some sv /\
    solver_nv sv = 2%nat /\ solver_data sv = None.
Proof.
  destruct (example_finalize (1 / 1000)) as (w' & Hrun).
  destruct (Finalize_makes_solver _ _ w' Hrun) as (Hsolver & _).
  destruct (Finalize_wires _ _ _ Hrun)
    as (_ & _ & Ht & _ & _ & Hnv & _).
  destruct Hsolver as (sv & Hsv & Hn & _ & Hdata).
  { unfold is_discrete. rewrite Ht. cbn.
    apply bool_decide_eq_true_2. lra. }
  exists w', sv. split; [exact Hrun |]. split; [exact Hsv |].
  split; [| exact Hdata]. rewrite Hn, Hnv. reflexivity.
Defined.

Lemma Finalize_default_contact_parameters_witness :
  exists w',
    Finalize (Some 0%nat) (example_world (1 / 1000)) = (Ok tt, w') /\
    Stribeck.stiction_tolerance (stribeck_model_ (plant w')) = 1 / 1000 /\
    set_penetration_allowance (1 / 1000) (plant w') = (Ok tt, plant w').
Proof.
  destruct (example_finalize (1 / 1000)) as (w' & Hrun).
  exists w'. split; [exact Hrun |].
  destruct (Finalize_default_contact_parameters _ _ w' Hrun)
    as (_ & _ & Hpen & Hstr).
  assert (Hgeo : (0 < num_collision_geometries
                       (plant (example_world (1 / 1000))))%nat).
  { rewrite example_has_collision_geometry. lia. }
  split.
  - rewrite (Hstr Hgeo); [reflexivity |]. cbn. lra.
  - apply (Hpen Hgeo). cbn. lra.
Defined.

Lemma geometry_ports_after_Finalize_witness :
  exists w',
    Finalize (Some 0%nat) (example_world (1 / 1000)) = (Ok tt, w') /\
    scene_graph_ (geometry_ (plant w')) = None /\
    get_geometry_query_input_port (plant w') = Ok AbstractInputPort /\
    get_geometry_poses_output_port (plant w')
    = Ok (AbstractOutputPort CalcFramePoseOutput_calc).
Proof.
  destruct (example_finalize (1 / 1000)) as (w' & Hrun).
  exists w'. split; [exact Hrun |].
  destruct (geometry_ports_after_Finalize _ _ w' Hrun)
    as (Hnull & _ & Hreg & _).
  split; [exact Hnull |]. exact (Hreg eq_refl).
Defined.

Lemma Finalize_succeeds_witness :
  exists w',
    Finalize (Some 0%nat) (example_world (1 / 1000)) = (Ok tt, w') /\
    is_finalized (plant w') = true.
Proof.
  destruct (Finalize_succeeds (Some 0%nat) (example_world (1 / 1000)))
    as (w' & Hrun & Hf & _).
  - reflexivity.
  - intros _. split; [reflexivity |].
    exists 0%nat. split; [reflexivity |].
    unfold example_world. cbn. rewrite lookup_insert_eq. now eexists.
  - exists w'. split; [exact Hrun | exact Hf].
Defined.

Lemma Finalize_failures_witness :
  exists w',
    Finalize None (example_world (1 / 1000))
    = (Raise (logic_error finalize_needs_scene_graph_message), w') /\
    is_finalized (plant w') = true /\
    system_ (plant w') = LeafSystem_new.
Proof.
  destruct (Finalize_failures None (example_world (1 / 1000))) as (_ & Hfail).
  destruct (Hfail eq_refl eq_refl (or_introl eq_refl))
    as (w' & Hrun & Hf & Hsys & _).
  exists w'. split; [exact Hrun |]. split; [exact Hf | exact Hsys].
Defined.

End AfterFinalizeExample.

Section SourceRegistration.
Context `{Collaborators}.

Lemma RegisterAsSourceForSceneGraph_refused (scene_graph : SceneGraphPtr)
    (w : World) :
  scene_graph = None \/ geometry_source_is_registered (plant w) = true ->
  RegisterAsSourceForSceneGraph scene_graph w
  = (Raise (throw_unless "RegisterAsSourceForSceneGraph"
              (if bool_decide (scene_graph = None)
               then "scene_graph != nullptr"
               else "!geometry_source_is_registered()")), w).
Proof.
  intros Hbad. unfold RegisterAsSourceForSceneGraph.
  unfold St.bind at 1, St.lift.
  destruct scene_graph as [a |].
  - destruct Hbad as [Hbad | Hbad]; [discriminate |].
    rewrite bool_decide_eq_true_2 by discriminate.
    rewrite bool_decide_eq_false_2 by discriminate.
    cbn. unfold St.bind at 1, St.gets. unfold St.bind at 1.
    rewrite Hbad. reflexivity.
  - reflexivity.
Qed.

(** X22. [RegisterAsSourceForSceneGraph] on a plant that is not yet a
    geometry source registers it with the engine it is given: it returns
    the source identifier the engine hands out and stores it together with
    the pointer, and changes nothing else of the plant.  It registers once:
    every further call throws, for a null pointer because of the pointer and
    otherwise because the plant is registered, and leaves the world as it
    is. *)
Theorem RegisterAsSourceForSceneGraph_registers_once (a : nat)
    (g : SceneGraph) (w : World) :
  engines w !! a = Some g ->
  geometry_source_is_registered (plant w) = false ->
  exists w',
    RegisterAsSourceForSceneGraph (Some a) w
    = (Ok (fst (Engine.RegisterSource g)), w') /\
    plant w'
    = with_geometry
        (Registry.set_source (Some (fst (Engine.RegisterSource g))) (Some a))
        (plant w) /\
    engines w' = <[a := snd (Engine.RegisterSource g)]> (engines w) /\
    forall scene_graph,
      RegisterAsSourceForSceneGraph scene_graph w'
      = (Raise (throw_unless "RegisterAsSourceForSceneGraph"
                  (if bool_decide (scene_graph = None)
                   then "scene_graph != nullptr"
                   else "!geometry_source_is_registered()")), w').
Proof.
  intros Hg Hreg.
  assert (Hrun :
    RegisterAsSourceForSceneGraph (Some a) w
    = (Ok (fst (Engine.RegisterSource g)),
       {| plant :=
            with_geometry
              (Registry.set_source (Some (fst (Engine.RegisterSource g)))
                 (Some a)) (plant w);
          engines := <[a := snd (Engine.RegisterSource g)]> (engines w) |})).
  { unfold RegisterAsSourceForSceneGraph.
    unfold St.bind, St.lift, St.gets, St.on_engine, St.on_plant, St.modify,
      St.ret.
    cbn. rewrite Hreg. cbn. rewrite Hg. reflexivity. }
  eexists. split; [exact Hrun |]. cbn [plant engines].
  split; [reflexivity |]. split; [reflexivity |].
  intros scene_graph. apply RegisterAsSourceForSceneGraph_refused.
  right. reflexivity.
Qed.

End SourceRegistration.

Section GeometryRegistration.
Context `{Collaborators}.

Lemma lift_Ok_inv {S A : Type} (r : result A) (s s' : S) (a : A) :
  St.lift r s = (Ok a, s') -> r = Ok a /\ s' = s.
Proof. unfold St.lift. intros [= -> <-]. now split. Qed.

Lemma on_engine_Ok_inv {A : Type} (ptr : SceneGraphPtr)
    (f : SceneGraph -> A * SceneGraph) (w w' : World) (x : A) :
  St.on_engine ptr f w = (Ok x, w') ->
  exists a g,
    ptr = Some a /\ engines w !! a = Some g /\ x = fst (f g) /\
    w' = {| plant := plant w; engines := <[a := snd (f g)]> (engines w) |}.
Proof.
  unfold St.on_engine. destruct ptr as [a |]; [| discriminate].
  destruct (engines w !! a) as [g |] eqn:Hg; [| discriminate].
  destruct (f g) as [y g'] eqn:Hf. intros [= <- <-].
  exists a, g. rewrite Hf. now repeat split.
Qed.

Lemma DRAKE_ASSERT_Ok_inv (cond : Prop) `{Decision cond} (text : string)
    (u : unit) :
  DRAKE_ASSERT cond text = Ok u -> cond.
Proof. unfold DRAKE_ASSERT. now destruct (decide cond). Qed.

Lemma DRAKE_THROW_UNLESS_Ok_inv (cond : bool) (func text : string)
    (u : unit) :
  DRAKE_THROW_UNLESS cond func text = Ok u -> cond = true.
Proof. unfold DRAKE_THROW_UNLESS. now destruct cond. Qed.

Lemma DRAKE_DEMAND_Ok_inv (cond : bool) (text : string) (u : unit) :
  DRAKE_DEMAND cond text = Ok u -> cond = true.
Proof. unfold DRAKE_DEMAND. now destruct cond. Qed.

(** What the private [RegisterAnchoredGeometry] does on success. *)
Lemma RegisterAnchoredGeometry_inv (X_WG : Isometry3) (shape : Shape)
    (material : option VisualMaterial) (scene_graph : SceneGraphPtr)
    (w w' : World) (id : GeometryId) :
  RegisterAnchoredGeometry X_WG shape material scene_graph w = (Ok id, w') ->
  let r := geometry_ (plant w) in
  exists a g src,
    scene_graph = Some a /\ scene_graph_ r = Some a /\
    engines w !! a = Some g /\ source_id_ r = Some src /\
    is_finalized (plant w) = false /\
    let call :=
      Engine.RegisterAnchoredGeometry src
        {| X_PG := X_WG; instance_shape := shape;
           instance_material := material |} g in
    id = fst call /\
    engines w' = <[a := snd call]> (engines w) /\
    plant w'
    = with_geometry (fun _ =>
        Registry.set_body_index
          (<[id := world_index]> (geometry_id_to_body_index_ r)) r) (plant w).
Proof.
  intros Hrun r. unfold RegisterAnchoredGeometry in Hrun.
  apply bind_Ok_inv in Hrun as (p & w0 & Hget & Hrun).
  unfold St.gets in Hget. injection Hget as <- <-.
  apply bind_Ok_inv in Hrun as ([] & w0 & Hf & Hrun).
  apply lift_Ok_inv in Hf as (Hf & ->). apply DRAKE_ASSERT_Ok_inv in Hf.
  apply bind_Ok_inv in Hrun as ([] & w0 & Hreg & Hrun).
  apply lift_Ok_inv in Hreg as (Hreg & ->).
  apply DRAKE_ASSERT_Ok_inv in Hreg.
  apply bind_Ok_inv in Hrun as ([] & w0 & Hsame & Hrun).
  apply lift_Ok_inv in Hsame as (Hsame & ->).
  apply DRAKE_ASSERT_Ok_inv in Hsame.
  cbn zeta in Hrun.
  apply bind_Ok_inv in Hrun as (src & w0 & Hsrc & Hrun).
  apply lift_Ok_inv in Hsrc as (Hsrc & ->).
  unfold optional_value in Hsrc.
  destruct (source_id_ (geometry_ (plant w))) as [src' |] eqn:Hid;
    [| discriminate]. injection Hsrc as ->.
  apply bind_Ok_inv in Hrun as (gid & w1 & Heng & Hrun).
  apply on_engine_Ok_inv in Heng as (a & g & Ha & Hg & Hgid & ->).
  apply bind_Ok_inv in Hrun as ([] & w2 & Hmod & Hrun).
  unfold St.on_plant, St.modify in Hmod. cbn [plant engines] in Hmod.
  injection Hmod as <-.
  unfold St.ret in Hrun. injection Hrun as <- <-.
  exists a, g, src. subst gid. subst r.
  repeat split; try assumption; try congruence.
Qed.

(** What the private [RegisterGeometry] does on success: the body gets a
    frame, named after it, unless it has one. *)
Lemma RegisterGeometry_inv (body : BodyIndex) (X_BG : Isometry3)
    (shape : Shape) (material : option VisualMaterial)
    (scene_graph : SceneGraphPtr) (w w' : World) (id : GeometryId) :
  RegisterGeometry body X_BG shape material scene_graph w = (Ok id, w') ->
  let r := geometry_ (plant w) in
  exists a g src frame g1,
    body <> world_index /\
    scene_graph = Some a /\ scene_graph_ r = Some a /\
    engines w !! a = Some g /\ source_id_ r = Some src /\
    is_finalized (plant w) = false /\
    match body_index_to_frame_id_ r !! body with
    | Some f => frame = f /\ g1 = g
    | None =>
        exists b,
          get_body (plant w) body = Ok b /\
          (frame, g1)
          = Engine.RegisterFrame src
              {| frame_name := body_name b;
                 frame_pose := Isometry3_Identity |} g
    end /\
    let call :=
      Engine.RegisterGeometry src frame
        {| X_PG := X_BG; instance_shape := shape;
           instance_material := material |} g1 in
    id = fst call /\
    engines w' = <[a := snd call]> (engines w) /\
    plant w'
    = with_geometry (fun _ =>
        Registry.set_body_index
          (<[id := body]> (geometry_id_to_body_index_ r))
          (Registry.set_frame_id
             (<[body := frame]> (body_index_to_frame_id_ r)) r)) (plant w).
Proof.
  intros Hrun r. subst r. unfold RegisterGeometry in Hrun.
  apply bind_Ok_inv in Hrun as ([] & w0 & Hworld & Hrun).
  apply lift_Ok_inv in Hworld as (Hworld & ->).
  apply DRAKE_DEMAND_Ok_inv in Hworld. apply bool_decide_eq_true_1 in Hworld.
  apply bind_Ok_inv in Hrun as (p & w0 & Hget & Hrun).
  unfold St.gets in Hget. injection Hget as <- <-.
  apply bind_Ok_inv in Hrun as ([] & w0 & Hf & Hrun).
  apply lift_Ok_inv in Hf as (Hf & ->). apply DRAKE_ASSERT_Ok_inv in Hf.
  apply bind_Ok_inv in Hrun as ([] & w0 & Hreg & Hrun).
  apply lift_Ok_inv in Hreg as (Hreg & ->).
  apply DRAKE_ASSERT_Ok_inv in Hreg.
  apply bind_Ok_inv in Hrun as ([] & w0 & Hsame & Hrun).
  apply lift_Ok_inv in Hsame as (Hsame & ->).
  apply DRAKE_ASSERT_Ok_inv in Hsame.
  apply bind_Ok_inv in Hrun as (src & w0 & Hsrc & Hrun).
  apply lift_Ok_inv in Hsrc as (Hsrc & ->).
  unfold optional_value in Hsrc.
  destruct (source_id_ (geometry_ (plant w))) as [src' |] eqn:Hid;
    [| discriminate]. injection Hsrc as ->.
  apply bind_Ok_inv in Hrun as ([] & w1 & Hframe & Hrun).
  cbn zeta in Hrun.
  apply bind_Ok_inv in Hrun as (p1 & w0 & Hget & Hrun).
  unfold St.gets in Hget. injection Hget as <- <-.
  apply bind_Ok_inv in Hrun as (frame & w0 & Hfr & Hrun).
  apply lift_Ok_inv in Hfr as (Hfr & ->).
  apply bind_Ok_inv in Hrun as (gid & w2 & Heng & Hrun).
  apply on_engine_Ok_inv in Heng as (a & g1 & Ha & Hg1 & Hgid & ->).
  apply bind_Ok_inv in Hrun as ([] & w3 & Hmod & Hrun).
  unfold St.on_plant, St.modify in Hmod. cbn [plant engines] in Hmod.
  injection Hmod as <-.
  unfold St.ret in Hrun. injection Hrun as <- <-.
  unfold body_has_registered_frame in Hframe.
  destruct (body_index_to_frame_id_ (geometry_ (plant w)) !! body)
    as [f |] eqn:Hold;
    cbn [negb] in Hframe.
  - unfold St.ret in Hframe. injection Hframe as <-.
    rewrite Hold in Hfr. injection Hfr as <-.
    exists a, g1, src, f, g1. subst gid.
    repeat split; try assumption; try congruence.
    cbn. unfold with_geometry. f_equal. cbn.
    unfold Registry.set_body_index, Registry.set_frame_id. cbn. f_equal.
    rewrite insert_id by assumption. reflexivity.
  - apply bind_Ok_inv in Hframe as (b & w0 & Hb & Hframe).
    apply lift_Ok_inv in Hb as (Hb & ->).
    apply bind_Ok_inv in Hframe as (fr & w4 & Heng & Hframe).
    apply on_engine_Ok_inv in Heng as (a' & g & Ha' & Hg & Hfrid & ->).
    unfold St.on_plant, St.modify in Hframe. cbn [plant engines] in Hframe.
    injection Hframe as <-.
    cbn [plant engines] in Hfr, Hg1.
    assert (a' = a) as -> by congruence.
    rewrite lookup_insert_eq in Hg1. injection Hg1 as <-.
    unfold with_geometry at 1 in Hfr. cbn [geometry_] in Hfr.
    unfold Registry.set_frame_id in Hfr. cbn [body_index_to_frame_id_] in Hfr.
    rewrite lookup_insert_eq in Hfr. injection Hfr as <-.
    exists a, g, src, fr,
      (snd (Engine.RegisterFrame src
              {| frame_name := body_name b;
                 frame_pose := Isometry3_Identity |} g)).
    split; [assumption |]. split; [assumption |]. split; [congruence |].
    split; [assumption |]. split; [reflexivity |]. split; [assumption |].
    split.
    { exists b. split; [exact Hb |]. rewrite Hfrid.
      now destruct (Engine.RegisterFrame _ _ g). }
    cbn zeta. split; [exact Hgid |].
    split.
    { cbn [plant engines]. now rewrite insert_insert_eq. }
    reflexivity.
Qed.

(** The step shared by [RegisterVisualGeometry] and
    [RegisterCollisionGeometry]: the geometry is anchored when the body is
    the world, and registered on the body's frame otherwise. *)
Lemma register_on_body_inv (body : BodyIndex) (X_BG : Isometry3)
    (shape : Shape) (material : option VisualMaterial)
    (scene_graph : SceneGraphPtr) (w w' : World) (id : GeometryId) :
  (if bool_decide (body = world_index)
   then RegisterAnchoredGeometry X_BG shape material scene_graph
   else RegisterGeometry body X_BG shape material scene_graph) w
  = (Ok id, w') ->
  let r := geometry_ (plant w) in
  let instance :=
    {| X_PG := X_BG; instance_shape := shape;
       instance_material := material |} in
  exists a g src g' frames,
    scene_graph = Some a /\ scene_graph_ r = Some a /\
    engines w !! a = Some g /\ source_id_ r = Some src /\
    is_finalized (plant w) = false /\
    engines w' = <[a := g']> (engines w) /\
    plant w'
    = with_geometry (fun _ =>
        Registry.set_body_index
          (<[id := body]> (geometry_id_to_body_index_ r))
          (Registry.set_frame_id frames r)) (plant w) /\
    (body = world_index ->
     frames = body_index_to_frame_id_ r /\
     (id, g') = Engine.RegisterAnchoredGeometry src instance g) /\
    (body <> world_index ->
     exists frame g1,
       frames = <[body := frame]> (body_index_to_frame_id_ r) /\
       match body_index_to_frame_id_ r !! body with
       | Some f => frame = f /\ g1 = g
       | None =>
           exists b,
             get_body (plant w) body = Ok b /\
             (frame, g1)
             = Engine.RegisterFrame src
                 {| frame_name := body_name b;
                    frame_pose := Isometry3_Identity |} g
       end /\
       (id, g') = Engine.RegisterGeometry src frame instance g1).
Proof.
  intros Hrun r instance.
  destruct (bool_decide (body = world_index)) eqn:Hw.
  - apply bool_decide_eq_true_1 in Hw.
    apply RegisterAnchoredGeometry_inv in Hrun
      as (a & g & src & Hsg & Hsame & Hg & Hsrc & Hf & Hid & Heng & Hplant).
    exists a, g, src,
      (snd (Engine.RegisterAnchoredGeometry src instance g)),
      (body_index_to_frame_id_ r).
    repeat (split; [assumption |]).
    split; [subst body; exact Hplant |].
    split; [| intros Hne; contradiction].
    intros _. split; [reflexivity |]. rewrite Hid.
    symmetry. apply surjective_pairing.
  - apply bool_decide_eq_false_1 in Hw.
    apply RegisterGeometry_inv in Hrun
      as (a & g & src & frame & g1 & _ & Hsg & Hsame & Hg & Hsrc & Hf & Hfr &
          Hid & Heng & Hplant).
    exists a, g, src, (snd (Engine.RegisterGeometry src frame instance g1)),
      (<[body := frame]> (body_index_to_frame_id_ r)).
    repeat (split; [assumption |]).
    split; [intros Heq; contradiction |].
    intros _. exists frame, g1. split; [reflexivity |].
    split; [exact Hfr |]. rewrite Hid.
    symmetry. apply surjective_pairing.
Qed.

Lemma push_back_at_inv (lists lists' : list (list GeometryId)) (i : nat)
    (id : GeometryId) (name : string) :
  push_back_at lists i id name = Ok lists' ->
  exists l, lists !! i = Some l /\ lists' = <[i := l ++ [id]]> lists.
Proof.
  unfold push_back_at, vector_index.
  destruct (lists !! i) as [l |]; [| discriminate].
  cbn. intros [= <-]. now exists l.
Qed.

(** What [RegisterCollisionGeometry] does on success. *)
Lemma RegisterCollisionGeometry_inv (body : BodyIndex) (X_BG : Isometry3)
    (shape : Shape) (coulomb_friction : CoulombFriction)
    (scene_graph : SceneGraphPtr) (w w' : World) (id : GeometryId) :
  RegisterCollisionGeometry body X_BG shape coulomb_friction scene_graph w
  = (Ok id, w') ->
  let r := geometry_ (plant w) in
  let k := size (geometry_id_to_collision_index_ r) in
  exists w1 frames l,
    (if bool_decide (body = world_index)
     then RegisterAnchoredGeometry X_BG shape None scene_graph
     else RegisterGeometry body X_BG shape None scene_graph) w
    = (Ok id, w1) /\
    plant w1
    = with_geometry (fun _ =>
        Registry.set_body_index
          (<[id := body]> (geometry_id_to_body_index_ r))
          (Registry.set_frame_id frames r)) (plant w) /\
    engines w' = engines w1 /\
    length (default_coulomb_friction_ r) = k /\
    num_bodies (plant w) = length (collision_geometries_ r) /\
    collision_geometries_ r !! body = Some l /\
    plant w'
    = with_geometry (fun _ =>
        {| source_id_ := source_id_ r;
           scene_graph_ := scene_graph_ r;
           visual_geometries_ := visual_geometries_ r;
           collision_geometries_ :=
             <[body := l ++ [id]]> (collision_geometries_ r);
           geometry_id_to_body_index_ :=
             <[id := body]> (geometry_id_to_body_index_ r);
           geometry_id_to_visual_index_ := geometry_id_to_visual_index_ r;
           geometry_id_to_collision_index_ :=
             <[id := k]> (geometry_id_to_collision_index_ r);
           default_coulomb_friction_ :=
             default_coulomb_friction_ r ++ [coulomb_friction];
           body_index_to_frame_id_ := frames |}) (plant w).
Proof.
  intros Hrun r k. unfold RegisterCollisionGeometry in Hrun.
  apply bind_Ok_inv in Hrun as (p & w0 & Hget & Hrun).
  unfold St.gets in Hget. injection Hget as <- <-.
  apply bind_Ok_inv in Hrun as ([] & w0 & Hf & Hrun).
  apply lift_Ok_inv in Hf as (Hf & ->).
  apply bind_Ok_inv in Hrun as ([] & w0 & Hnull & Hrun).
  apply lift_Ok_inv in Hnull as (Hnull & ->).
  apply bind_Ok_inv in Hrun as ([] & w0 & Hreg & Hrun).
  apply lift_Ok_inv in Hreg as (Hreg & ->).
  apply bind_Ok_inv in Hrun as ([] & w0 & Hsame & Hrun).
  assert (w0 = w) as ->.
  { destruct (bool_decide _) in Hsame; [discriminate |].
    unfold St.ret in Hsame. now injection Hsame as <-. }
  clear Hsame.
  apply bind_Ok_inv in Hrun as (gid & w1 & Hinner & Hrun).
  pose proof (register_on_body_inv _ _ _ _ _ _ _ _ Hinner)
    as (a & g & src & g' & frames & _ & _ & _ & _ & _ & _ & Hp1 & _).
  apply bind_Ok_inv in Hrun as (p1 & w0 & Hget & Hrun).
  unfold St.gets in Hget. injection Hget as <- <-.
  cbn zeta in Hrun.
  apply bind_Ok_inv in Hrun as ([] & w0 & Hlen & Hrun).
  apply lift_Ok_inv in Hlen as (Hlen & ->).
  apply DRAKE_ASSERT_Ok_inv in Hlen.
  apply bind_Ok_inv in Hrun as ([] & w2 & Hmod & Hrun).
  unfold St.on_plant, St.modify in Hmod. cbn [plant engines] in Hmod.
  injection Hmod as <-.
  apply bind_Ok_inv in Hrun as (p2 & w0 & Hget & Hrun).
  unfold St.gets in Hget. injection Hget as <- <-.
  apply bind_Ok_inv in Hrun as ([] & w0 & Hnb & Hrun).
  apply lift_Ok_inv in Hnb as (Hnb & ->).
  apply DRAKE_ASSERT_Ok_inv in Hnb.
  apply bind_Ok_inv in Hrun as (lists & w0 & Hpush & Hrun).
  apply lift_Ok_inv in Hpush as (Hpush & ->).
  apply push_back_at_inv in Hpush as (l & Hl & ->).
  apply bind_Ok_inv in Hrun as ([] & w3 & Hmod & Hrun).
  unfold St.on_plant, St.modify in Hmod. cbn [plant engines] in Hmod.
  injection Hmod as <-.
  unfold St.ret in Hrun. injection Hrun as <- <-.
  cbn [plant engines] in *.
  rewrite Hp1 in Hlen, Hnb, Hl. cbn in Hlen, Hnb, Hl.
  exists w1, frames, l.
  split; [exact Hinner |]. split; [exact Hp1 |]. split; [reflexivity |].
  split; [exact Hlen |]. split; [exact Hnb |]. split; [exact Hl |].
  rewrite Hp1. reflexivity.
Qed.

End GeometryRegistration.

Section CollisionGeometry.
Context `{Collaborators}.

(** X23. A successful [RegisterCollisionGeometry] can be read back: the
    new geometry maps to its body, its collision index is the number of
    collision geometries registered before, the friction stored at that
    index is the one given, and the geometry is the last of the body's
    collision geometries.  The entries of all other geometries and bodies,
    the earlier frictions and the visual geometries are untouched, and when
    the identifier is new the number of collision geometries and of
    frictions both grow by one. *)
Theorem RegisterCollisionGeometry_round_trip (body : BodyIndex)
    (X_BG : Isometry3) (shape : Shape) (coulomb_friction : CoulombFriction)
    (scene_graph : SceneGraphPtr) (w w' : World) (id : GeometryId) :
  RegisterCollisionGeometry body X_BG shape coulomb_friction scene_graph w
  = (Ok id, w') ->
  let r := geometry_ (plant w) in
  let r' := geometry_ (plant w') in
  let k := num_collision_geometries (plant w) in
  geometry_id_to_body_index_ r' !! id = Some body /\
  geometry_id_to_collision_index_ r' !! id = Some k /\
  default_coulomb_friction_ r' !! k = Some coulomb_friction /\
  (exists l,
     GetCollisionGeometriesForBody (plant w) body = Ok l /\
     GetCollisionGeometriesForBody (plant w') body = Ok (l ++ [id])) /\
  (forall other, other <> id ->
     geometry_id_to_body_index_ r' !! other
     = geometry_id_to_body_index_ r !! other /\
     geometry_id_to_collision_index_ r' !! other
     = geometry_id_to_collision_index_ r !! other) /\
  (forall i, (i < k)%nat ->
     default_coulomb_friction_ r' !! i = default_coulomb_friction_ r !! i) /\
  (forall b, b <> body ->
     collision_geometries_ r' !! b = collision_geometries_ r !! b) /\
  visual_geometries_ r' = visual_geometries_ r /\
  geometry_id_to_visual_index_ r' = geometry_id_to_visual_index_ r /\
  (geometry_id_to_collision_index_ r !! id = None ->
   num_collision_geometries (plant w') = S k /\
   length (default_coulomb_friction_ r') = S k) /\
  plant w' = with_geometry (fun _ => r') (plant w).
Proof.
  intros Hrun r r' k.
  destruct (RegisterCollisionGeometry_inv _ _ _ _ _ _ _ _ Hrun)
    as (w1 & frames & l & _ & _ & _ & Hlen & Hnb & Hl & Hplant).
  fold r in Hlen, Hnb, Hl, Hplant.
  assert (Hr' : r' = geometry_ (plant w')) by reflexivity.
  rewrite Hplant in Hr'. cbn [geometry_ with_geometry] in Hr'.
  assert (Hbody : (body < length (collision_geometries_ r))%nat).
  { eapply lookup_lt_Some. exact Hl. }
  split; [rewrite Hr'; cbn; apply lookup_insert_eq |].
  split.
  { rewrite Hr'. cbn. unfold k, num_collision_geometries. fold r.
    apply lookup_insert_eq. }
  split.
  { rewrite Hr'. cbn. unfold k, num_collision_geometries. fold r.
    rewrite <- Hlen. rewrite lookup_app_r by lia.
    now rewrite Nat.sub_diag. }
  split.
  { exists l. unfold GetCollisionGeometriesForBody.
    assert (Hnb' : num_bodies (plant w') = num_bodies (plant w)).
    { rewrite Hplant. reflexivity. }
    rewrite Hnb'. fold r. fold r'.
    unfold DRAKE_ASSERT.
    destruct (decide (body < num_bodies (plant w))%nat) as [_ | Hno];
      [| exfalso; apply Hno; rewrite Hnb; exact Hbody].
    cbn. unfold vector_index. rewrite Hl. split; [reflexivity |].
    rewrite Hr'. cbn. rewrite list_lookup_insert_eq by exact Hbody.
    reflexivity. }
  split.
  { intros other Hother. rewrite Hr'. cbn.
    now rewrite !lookup_insert_ne by congruence. }
  split.
  { intros i Hi. rewrite Hr'. cbn.
    apply lookup_app_l. unfold k, num_collision_geometries in Hi.
    fold r in Hi. lia. }
  split.
  { intros b Hb. rewrite Hr'. cbn.
    now rewrite list_lookup_insert_ne by congruence. }
  split; [rewrite Hr'; reflexivity |].
  split; [rewrite Hr'; reflexivity |].
  split.
  { intros Hfresh. unfold num_collision_geometries. fold r'.
    rewrite Hr'. cbn. rewrite map_size_insert_None by exact Hfresh.
    rewrite length_app. cbn. unfold k, num_collision_geometries. fold r.
    split; [reflexivity | lia]. }
  rewrite Hr'. exact Hplant.
Qed.

End CollisionGeometry.

Section VisualGeometry.
Context `{Collaborators}.

(** What [RegisterVisualGeometry] does on success. *)
Lemma RegisterVisualGeometry_inv (body : BodyIndex) (X_BG : Isometry3)
    (shape : Shape) (material : VisualMaterial)
    (scene_graph : SceneGraphPtr) (w w' : World) (id : GeometryId) :
  RegisterVisualGeometry body X_BG shape material scene_graph w
  = (Ok id, w') ->
  let r := geometry_ (plant w) in
  exists w1 frames l,
    (if bool_decide (body = world_index)
     then RegisterAnchoredGeometry X_BG shape (Some material) scene_graph
     else RegisterGeometry body X_BG shape (Some material) scene_graph) w
    = (Ok id, w1) /\
    plant w1
    = with_geometry (fun _ =>
        Registry.set_body_index
          (<[id := body]> (geometry_id_to_body_index_ r))
          (Registry.set_frame_id frames r)) (plant w) /\
    engines w' = engines w1 /\
    num_bodies (plant w) = length (visual_geometries_ r) /\
    visual_geometries_ r !! body = Some l /\
    plant w'
    = with_geometry (fun _ =>
        {| source_id_ := source_id_ r;
           scene_graph_ := scene_graph_ r;
           visual_geometries_ :=
             <[body := l ++ [id]]> (visual_geometries_ r);
           collision_geometries_ := collision_geometries_ r;
           geometry_id_to_body_index_ :=
             <[id := body]> (geometry_id_to_body_index_ r);
           geometry_id_to_visual_index_ :=
             <[id := size (geometry_id_to_visual_index_ r)]>
               (geometry_id_to_visual_index_ r);
           geometry_id_to_collision_index_ :=
             geometry_id_to_collision_index_ r;
           default_coulomb_friction_ := default_coulomb_friction_ r;
           body_index_to_frame_id_ := frames |}) (plant w).
Proof.
  intros Hrun r. unfold RegisterVisualGeometry in Hrun.
  apply bind_Ok_inv in Hrun as (p & w0 & Hget & Hrun).
  unfold St.gets in Hget. injection Hget as <- <-.
  apply bind_Ok_inv in Hrun as ([] & w0 & Hf & Hrun).
  apply lift_Ok_inv in Hf as (Hf & ->).
  apply bind_Ok_inv in Hrun as ([] & w0 & Hnull & Hrun).
  apply lift_Ok_inv in Hnull as (Hnull & ->).
  apply bind_Ok_inv in Hrun as ([] & w0 & Hreg & Hrun).
  apply lift_Ok_inv in Hreg as (Hreg & ->).
  apply bind_Ok_inv in Hrun as ([] & w0 & Hsame & Hrun).
  assert (w0 = w) as ->.
  { destruct (bool_decide _) in Hsame; [discriminate |].
    unfold St.ret in Hsame. now injection Hsame as <-. }
  clear Hsame.
  apply bind_Ok_inv in Hrun as (gid & w1 & Hinner & Hrun).
  pose proof (register_on_body_inv _ _ _ _ _ _ _ _ Hinner)
    as (a & g & src & g' & frames & _ & _ & _ & _ & _ & _ & Hp1 & _).
  apply bind_Ok_inv in Hrun as (p1 & w0 & Hget & Hrun).
  unfold St.gets in Hget. injection Hget as <- <-.
  cbn zeta in Hrun.
  apply bind_Ok_inv in Hrun as ([] & w2 & Hmod & Hrun).
  unfold St.on_plant, St.modify in Hmod. cbn [plant engines] in Hmod.
  injection Hmod as <-.
  apply bind_Ok_inv in Hrun as (p2 & w0 & Hget & Hrun).
  unfold St.gets in Hget. injection Hget as <- <-.
  apply bind_Ok_inv in Hrun as ([] & w0 & Hnb & Hrun).
  apply lift_Ok_inv in Hnb as (Hnb & ->).
  apply DRAKE_ASSERT_Ok_inv in Hnb.
  apply bind_Ok_inv in Hrun as (lists & w0 & Hpush & Hrun).
  apply lift_Ok_inv in Hpush as (Hpush & ->).
  apply push_back_at_inv in Hpush as (l & Hl & ->).
  apply bind_Ok_inv in Hrun as ([] & w3 & Hmod & Hrun).
  unfold St.on_plant, St.modify in Hmod. cbn [plant engines] in Hmod.
  injection Hmod as <-.
  unfold St.ret in Hrun. injection Hrun as <- <-.
  cbn [plant engines] in *.
  rewrite Hp1 in Hnb, Hl. cbn in Hnb, Hl.
  exists w1, frames, l.
  split; [exact Hinner |]. split; [exact Hp1 |]. split; [reflexivity |].
  split; [exact Hnb |]. split; [exact Hl |].
  rewrite Hp1. reflexivity.
Qed.

(** X24. A successful [RegisterVisualGeometry] can be read back: the new
    geometry maps to its body, its visual index is the number of visual
    geometries registered before, and it is the last of the body's visual
    geometries.  The entries of other geometries and bodies are untouched,
    and so is everything that contact uses: the collision geometries, their
    indices and the frictions; the number of collision geometries does not
    change. *)
Theorem RegisterVisualGeometry_round_trip (body : BodyIndex)
    (X_BG : Isometry3) (shape : Shape) (material : VisualMaterial)
    (scene_graph : SceneGraphPtr) (w w' : World) (id : GeometryId) :
  RegisterVisualGeometry body X_BG shape material scene_graph w
  = (Ok id, w') ->
  let r := geometry_ (plant w) in
  let r' := geometry_ (plant w') in
  geometry_id_to_body_index_ r' !! id = Some body /\
  geometry_id_to_visual_index_ r' !! id
  = Some (size (geometry_id_to_visual_index_ r)) /\
  (exists l,
     GetVisualGeometriesForBody (plant w) body = Ok l /\
     GetVisualGeometriesForBody (plant w') body = Ok (l ++ [id])) /\
  (forall other, other <> id ->
     geometry_id_to_body_index_ r' !! other
     = geometry_id_to_body_index_ r !! other /\
     geometry_id_to_visual_index_ r' !! other
     = geometry_id_to_visual_index_ r !! other) /\
  (forall b, b <> body ->
     visual_geometries_ r' !! b = visual_geometries_ r !! b) /\
  collision_geometries_ r' = collision_geometries_ r /\
  geometry_id_to_collision_index_ r' = geometry_id_to_collision_index_ r /\
  default_coulomb_friction_ r' = default_coulomb_friction_ r /\
  num_collision_geometries (plant w') = num_collision_geometries (plant w) /\
  plant w' = with_geometry (fun _ => r') (plant w).
Proof.
  intros Hrun r r'.
  destruct (RegisterVisualGeometry_inv _ _ _ _ _ _ _ _ Hrun)
    as (w1 & frames & l & _ & _ & _ & Hnb & Hl & Hplant).
  fold r in Hnb, Hl, Hplant.
  assert (Hr' : r' = geometry_ (plant w')) by reflexivity.
  rewrite Hplant in Hr'. cbn [geometry_ with_geometry] in Hr'.
  assert (Hbody : (body < length (visual_geometries_ r))%nat).
  { eapply lookup_lt_Some. exact Hl. }
  split; [rewrite Hr'; cbn; apply lookup_insert_eq |].
  split; [rewrite Hr'; cbn; apply lookup_insert_eq |].
  split.
  { exists l. unfold GetVisualGeometriesForBody, vector_index.
    fold r. fold r'. rewrite Hl. split; [reflexivity |].
    rewrite Hr'. cbn. rewrite list_lookup_insert_eq by exact Hbody.
    reflexivity. }
  split.
  { intros other Hother. rewrite Hr'. cbn.
    now rewrite !lookup_insert_ne by congruence. }
  split.
  { intros b Hb. rewrite Hr'. cbn.
    now rewrite list_lookup_insert_ne by congruence. }
  split; [rewrite Hr'; reflexivity |].
  split; [rewrite Hr'; reflexivity |].
  split; [rewrite Hr'; reflexivity |].
  split.
  { unfold num_collision_geometries. fold r r'. now rewrite Hr'. }
  rewrite Hr'. exact Hplant.
Qed.

End VisualGeometry.

Section EngineCalls.
Context `{Collaborators}.

(** X25. What a successful [RegisterCollisionGeometry] or
    [RegisterVisualGeometry] asks of the engine, under the plant's source
    identifier: for the world body, one anchored geometry, and no frame; for
    another body, one geometry on the body's frame, preceded by the
    registration of that frame, named after the body and posed at the
    identity, only when the body has no frame yet.  The geometry is posed at
    [X_BG] and carries the material for a visual geometry and none for a
    collision geometry. *)
Theorem registration_calls_on_the_engine (body : BodyIndex)
    (X_BG : Isometry3) (shape : Shape) (material : option VisualMaterial)
    (scene_graph : SceneGraphPtr) (run : stateful World GeometryId)
    (w w' : World) (id : GeometryId) :
  (exists coulomb_friction,
     material = None /\
     run = RegisterCollisionGeometry body X_BG shape coulomb_friction
             scene_graph) \/
  (exists visual_material,
     material = Some visual_material /\
     run = RegisterVisualGeometry body X_BG shape visual_material
             scene_graph) ->
  run w = (Ok id, w') ->
  let r := geometry_ (plant w) in
  let r' := geometry_ (plant w') in
  let instance :=
    {| X_PG := X_BG; instance_shape := shape;
       instance_material := material |} in
  exists a g src g',
    scene_graph = Some a /\ scene_graph_ r = Some a /\
    engines w !! a = Some g /\ source_id_ r = Some src /\
    engines w' = <[a := g']> (engines w) /\
    (body = world_index ->
     body_index_to_frame_id_ r' = body_index_to_frame_id_ r /\
     (id, g') = Engine.RegisterAnchoredGeometry src instance g) /\
    (body <> world_index ->
     exists frame g1,
       body_index_to_frame_id_ r'
       = <[body := frame]> (body_index_to_frame_id_ r) /\
       match body_index_to_frame_id_ r !! body with
       | Some f => frame = f /\ g1 = g
       | None =>
           exists b,
             get_body (plant w) body = Ok b /\
             (frame, g1)
             = Engine.RegisterFrame src
                 {| frame_name := body_name b;
                    frame_pose := Isometry3_Identity |} g
       end /\
       (id, g') = Engine.RegisterGeometry src frame instance g1).
Proof.
  intros Hwhich Hrun r r' instance.
  assert (Hinner : exists w1 frames,
    (if bool_decide (body = world_index)
     then RegisterAnchoredGeometry X_BG shape material scene_graph
     else RegisterGeometry body X_BG shape material scene_graph) w
    = (Ok id, w1) /\
    engines w' = engines w1 /\
    body_index_to_frame_id_ (geometry_ (plant w1)) = frames /\
    body_index_to_frame_id_ r' = frames).
  { destruct Hwhich as [(mu & -> & ->) | (m & -> & ->)].
    - destruct (RegisterCollisionGeometry_inv _ _ _ _ _ _ _ _ Hrun)
        as (w1 & frames & l & Hinner & Hp1 & Heng & _ & _ & _ & Hplant).
      exists w1, frames. split; [exact Hinner |]. split; [exact Heng |].
      split; [now rewrite Hp1 |]. unfold r'. now rewrite Hplant.
    - destruct (RegisterVisualGeometry_inv _ _ _ _ _ _ _ _ Hrun)
        as (w1 & frames & l & Hinner & Hp1 & Heng & _ & _ & Hplant).
      exists w1, frames. split; [exact Hinner |]. split; [exact Heng |].
      split; [now rewrite Hp1 |]. unfold r'. now rewrite Hplant. }
  destruct Hinner as (w1 & frames & Hinner & Heng & Hfr1 & Hfr').
  destruct (register_on_body_inv _ _ _ _ _ _ _ _ Hinner)
    as (a & g & src & g' & frames' & Hsg & Hsame & Hg & Hsrc & _ & Heng1 &
        Hp1 & Hworld & Hbody).
  assert (frames' = frames) as ->.
  { rewrite <- Hfr1, Hp1. reflexivity. }
  exists a, g, src, g'.
  repeat (split; [assumption |]).
  split; [congruence |].
  split.
  - intros Hw. destruct (Hworld Hw) as (-> & Hcall). now split.
  - intros Hb. destruct (Hbody Hb) as (frame & g1 & -> & Hframe & Hcall).
    exists frame, g1. now repeat split.
Qed.

(** X26. Before [Finalize], [RegisterCollisionGeometry] and
    [RegisterVisualGeometry] check their arguments in this order and leave
    the world as it is when they throw: a null engine pointer fails
    [scene_graph != nullptr], a plant that is not a geometry source fails
    [geometry_source_is_registered()], and a pointer to another engine than
    the one of the registration is a logic error. *)
Theorem geometry_registration_argument_errors (body : BodyIndex)
    (X_BG : Isometry3) (shape : Shape) (material : VisualMaterial)
    (coulomb_friction : CoulombFriction) (scene_graph : SceneGraphPtr)
    (w : World) :
  is_finalized (plant w) = false ->
  scene_graph = None \/ geometry_source_is_registered (plant w) = false \/
  scene_graph <> scene_graph_ (geometry_ (plant w)) ->
  RegisterCollisionGeometry body X_BG shape coulomb_friction scene_graph w
  = (Raise
       (if bool_decide (scene_graph = None)
        then throw_unless "RegisterCollisionGeometry" "scene_graph != nullptr"
        else if geometry_source_is_registered (plant w)
             then logic_error same_scene_graph_message
             else throw_unless "RegisterCollisionGeometry"
                    "geometry_source_is_registered()"), w) /\
  RegisterVisualGeometry body X_BG shape material scene_graph w
  = (Raise
       (if bool_decide (scene_graph = None)
        then throw_unless "RegisterVisualGeometry" "scene_graph != nullptr"
        else if geometry_source_is_registered (plant w)
             then logic_error same_scene_graph_message
             else throw_unless "RegisterVisualGeometry"
                    "geometry_source_is_registered()"), w).
Proof.
  intros Hf Hbad. split.
  - unfold RegisterCollisionGeometry.
    unfold St.bind at 1, St.gets. unfold St.bind at 1, St.lift.
    unfold ThrowIfFinalized. rewrite Hf.
    destruct scene_graph as [a |]; [| reflexivity].
    rewrite (bool_decide_eq_false_2 (Some a = None)) by discriminate.
    unfold St.bind at 1.
    rewrite (bool_decide_eq_true_2 (Some a <> None)) by discriminate.
    cbn [DRAKE_THROW_UNLESS].
    unfold St.bind at 1.
    destruct (geometry_source_is_registered (plant w)) eqn:Hreg;
      cbn [DRAKE_THROW_UNLESS]; [| reflexivity].
    destruct Hbad as [Hbad | [Hbad | Hbad]]; try discriminate.
    unfold St.bind at 1.
    rewrite bool_decide_eq_true_2 by exact Hbad.
    reflexivity.
  - unfold RegisterVisualGeometry.
    unfold St.bind at 1, St.gets. unfold St.bind at 1, St.lift.
    unfold ThrowIfFinalized. rewrite Hf.
    destruct scene_graph as [a |]; [| reflexivity].
    rewrite (bool_decide_eq_false_2 (Some a = None)) by discriminate.
    unfold St.bind at 1.
    rewrite (bool_decide_eq_true_2 (Some a <> None)) by discriminate.
    cbn [DRAKE_THROW_UNLESS].
    unfold St.bind at 1.
    destruct (geometry_source_is_registered (plant w)) eqn:Hreg;
      cbn [DRAKE_THROW_UNLESS]; [| reflexivity].
    destruct Hbad as [Hbad | [Hbad | Hbad]]; try discriminate.
    unfold St.bind at 1.
    rewrite bool_decide_eq_true_2 by exact Hbad.
    reflexivity.
Qed.

End EngineCalls.

Section RegistrationExamples.
#[local] Existing Instance Example.collaborators.

Lemma RegisterAsSourceForSceneGraph_registers_once_witness :
  RegisterAsSourceForSceneGraph (Some 0%nat) registration_world
  = (Ok 0%nat, registered_world) /\
  RegisterAsSourceForSceneGraph (Some 0%nat) registered_world
  = (Raise (throw_unless "RegisterAsSourceForSceneGraph"
              "!geometry_source_is_registered()"), registered_world).
Proof.
  destruct (RegisterAsSourceForSceneGraph_registers_once 0%nat SceneGraph_new
              registration_world)
    as (w' & Hrun & Hplant & Heng & Hagain).
  - reflexivity.
  - reflexivity.
  - assert (w' = registered_world) as ->.
    { destruct w' as [p e]. cbn [plant engines] in Hplant, Heng.
      now subst. }
    split; [exact Hrun | exact (Hagain (Some 0%nat))].
Defined.

Lemma example_collision_registration :
  exists w',
    RegisterCollisionGeometry 1%nat Isometry3_Identity (Sphere (1 / 2))
      {| static_friction := 1; dynamic_friction := 1 / 2 |} (Some 0%nat)
      registered_world = (Ok 2%nat, w').
Proof. eexists. vm_compute. reflexivity. Qed.

Lemma example_visual_registration :
  exists w',
    RegisterVisualGeometry 0%nat Isometry3_Identity HalfSpace
      VisualMaterial_default (Some 0%nat) registered_world
    = (Ok 1%nat, w').
Proof. eexists. vm_compute. reflexivity. Qed.

Lemma RegisterCollisionGeometry_round_trip_witness :
  exists w',
    RegisterCollisionGeometry 1%nat Isometry3_Identity (Sphere (1 / 2))
      {| static_friction := 1; dynamic_friction := 1 / 2 |} (Some 0%nat)
      registered_world = (Ok 2%nat, w') /\
    geometry_id_to_body_index_ (geometry_ (plant w')) !! 2%nat = Some 1%nat /\
    geometry_id_to_collision_index_ (geometry_ (plant w')) !! 2%nat
    = Some 0%nat /\
    default_coulomb_friction_ (geometry_ (plant w')) !! 0%nat
    = Some {| static_friction := 1; dynamic_friction := 1 / 2 |} /\
    GetCollisionGeometriesForBody (plant w') 1%nat = Ok [2%nat].
Proof.
  destruct example_collision_registration as (w' & Hrun).
  exists w'. split; [exact Hrun |].
  destruct (RegisterCollisionGeometry_round_trip _ _ _ _ _ _ _ _ Hrun)
    as (Hbody & Hindex & Hfriction & (l & Hl & Hl') & _).
  split; [exact Hbody |]. split; [exact Hindex |].
  split; [exact Hfriction |].
  vm_compute in Hl. injection Hl as <-. exact Hl'.
Defined.

Lemma RegisterVisualGeometry_round_trip_witness :
  exists w',
    RegisterVisualGeometry 0%nat Isometry3_Identity HalfSpace
      VisualMaterial_default (Some 0%nat) registered_world
    = (Ok 1%nat, w') /\
    geometry_id_to_body_index_ (geometry_ (plant w')) !! 1%nat = Some 0%nat /\
    GetVisualGeometriesForBody (plant w') 0%nat = Ok [1%nat] /\
    num_collision_geometries (plant w') = 0%nat.
Proof.
  destruct example_visual_registration as (w' & Hrun).
  exists w'. split; [exact Hrun |].
  destruct (RegisterVisualGeometry_round_trip _ _ _ _ _ _ _ _ Hrun)
    as (Hbody & _ & (l & Hl & Hl') & _ & _ & _ & _ & _ & Hgeo & _).
  split; [exact Hbody |].
  split; [vm_compute in Hl; injection Hl as <-; exact Hl' |].
  rewrite Hgeo. reflexivity.
Defined.

Lemma registration_calls_on_the_engine_witness :
  exists w',
    RegisterCollisionGeometry 1%nat Isometry3_Identity (Sphere (1 / 2))
      {| static_friction := 1; dynamic_friction := 1 / 2 |} (Some 0%nat)
      registered_world = (Ok 2%nat, w') /\
    body_index_to_frame_id_ (geometry_ (plant w')) !! 1%nat = Some 1%nat /\
    exists g',
      engines w' !! 0%nat = Some g' /\
      sg_frames g'
      = [(0%nat, 1%nat,
          {| frame_name := "ball"; frame_pose := Isometry3_Identity |})] /\
      sg_geometries g'
      = [(0%nat, Some 1%nat, 2%nat,
          {| X_PG := Isometry3_Identity; instance_shape := Sphere (1 / 2);
             instance_material := None |})].
Proof.
  destruct example_collision_registration as (w' & Hrun).
  exists w'. split; [exact Hrun |].
  destruct (registration_calls_on_the_engine 1%nat Isometry3_Identity
              (Sphere (1 / 2)) None (Some 0%nat) _ registered_world w' 2%nat
              (or_introl (ex_intro _ _ (conj eq_refl eq_refl))) Hrun)
    as (a & g & src & g' & Ha & _ & Hg & Hsrc & Heng & _ & Hbody).
  injection Ha as <-.
  assert (Hg0 : g = snd (Engine.RegisterSource SceneGraph_new)).
  { unfold registered_world in Hg. cbn [engines] in Hg.
    rewrite lookup_insert_eq in Hg. now injection Hg as <-. }
  assert (Hsrc0 : src = 0%nat) by (cbn in Hsrc; congruence).
  destruct (Hbody ltac:(discriminate))
    as (frame & g1 & Hframes & Hframe & Hcall).
  assert (Hold : body_index_to_frame_id_ (geometry_ (plant registered_world))
                 !! 1%nat = None) by reflexivity.
  rewrite Hold in Hframe. destruct Hframe as (b & Hb & Hfr).
  assert (Hb0 : b = {| body_name := "ball"; get_default_mass := 2;
                       node_index := 1%nat |}).
  { cbn in Hb. congruence. }
  subst g src b. cbn in Hfr. injection Hfr as -> ->.
  cbn in Hcall. injection Hcall as Hg'.
  split; [rewrite Hframes; apply lookup_insert_eq |].
  exists g'. split; [rewrite Heng; apply lookup_insert_eq |].
  subst g'. split; reflexivity.
Defined.

Lemma geometry_registration_argument_errors_witness :
  RegisterCollisionGeometry 1%nat Isometry3_Identity (Sphere (1 / 2))
    {| static_friction := 1; dynamic_friction := 1 / 2 |} (Some 0%nat)
    registration_world
  = (Raise (throw_unless "RegisterCollisionGeometry"
              "geometry_source_is_registered()"), registration_world) /\
  RegisterVisualGeometry 1%nat Isometry3_Identity (Sphere (1 / 2))
    VisualMaterial_default (Some 1%nat) registered_world
  = (Raise (logic_error same_scene_graph_message), registered_world).
Proof.
  split.
  - apply (geometry_registration_argument_errors 1%nat Isometry3_Identity
             (Sphere (1 / 2)) VisualMaterial_default
             {| static_friction := 1; dynamic_friction := 1 / 2 |}
             (Some 0%nat) registration_world eq_refl
             (or_intror (or_introl eq_refl))).
  - apply (geometry_registration_argument_errors 1%nat Isometry3_Identity
             (Sphere (1 / 2)) VisualMaterial_default
             {| static_friction := 1; dynamic_friction := 1 / 2 |}
             (Some 1%nat) registered_world eq_refl).
    right. right. discriminate.
Defined.

End RegistrationExamples.

Section CollisionFilters.
Context `{Collaborators}.

(** The engine after the loop of [FilterAdjacentBodies]: one exclusion per
    joint that does not hang on the world and whose two bodies have
    frames. *)
Lemma filter_adjacent_loop (p : MultibodyPlant) (a : nat)
    (joints : list Joint) (w : World) (g : SceneGraph) :
  engines w !! a = Some g ->
  exists w',
    St.for_each (fun joint =>
        let child := child_body joint in
        let parent := parent_body joint in
        if bool_decide (parent = world_index) then St.ret tt
        else
          match GetBodyFrameIdIfExists p child,
                GetBodyFrameIdIfExists p parent with
          | Some child_id, Some parent_id =>
              St.on_engine (Some a) (fun g =>
                (tt, Engine.ExcludeCollisionsBetween
                       (GeometrySet_of_frame child_id)
                       (GeometrySet_of_frame parent_id) g))
          | _, _ => St.ret tt
          end) joints w = (Ok tt, w') /\
    plant w' = plant w /\
    engines w'
    = <[a := {| sg_next_id := sg_next_id g;
                sg_sources := sg_sources g;
                sg_frames := sg_frames g;
                sg_geometries := sg_geometries g;
                sg_excluded_within := sg_excluded_within g;
                sg_excluded_between :=
                  sg_excluded_between g
                  ++ omap (fun joint =>
                       if bool_decide (parent_body joint = world_index)
                       then None
                       else
                         match GetBodyFrameIdIfExists p (child_body joint),
                               GetBodyFrameIdIfExists p (parent_body joint)
                         with
                         | Some child_id, Some parent_id =>
                             Some (GeometrySet_of_frame child_id,
                                   GeometrySet_of_frame parent_id)
                         | _, _ => None
                         end) joints |}]> (engines w).
Proof.
  revert w g. induction joints as [| joint joints IH]; intros w g Hg.
  - exists w. split; [reflexivity |]. split; [reflexivity |].
    cbn [omap list_omap]. rewrite app_nil_r.
    rewrite insert_id; [reflexivity |]. rewrite Hg. now destruct g.
  - cbn [St.for_each]. unfold St.bind at 1. cbn zeta.
    cbn [omap list_omap].
    destruct (bool_decide (parent_body joint = world_index)).
    { cbn [St.ret]. exact (IH w g Hg). }
    destruct (GetBodyFrameIdIfExists p (child_body joint)) as [c |];
      [destruct (GetBodyFrameIdIfExists p (parent_body joint)) as [q |] |];
      try (cbn [St.ret]; exact (IH w g Hg)).
    unfold St.on_engine at 1. rewrite Hg.
    set (g1 := Engine.ExcludeCollisionsBetween _ _ g).
    set (w1 := {| plant := plant w; engines := <[a := g1]> (engines w) |}).
    destruct (IH w1 g1) as (w' & Hrun & Hplant & Heng).
    { unfold w1. cbn. apply lookup_insert_eq. }
    exists w'. split; [exact Hrun |]. split; [exact Hplant |].
    rewrite Heng. unfold w1. cbn [engines]. rewrite insert_insert_eq.
    unfold g1, Engine.ExcludeCollisionsBetween.
    cbn [sg_next_id sg_sources sg_frames sg_geometries sg_excluded_within
         sg_excluded_between].
    now rewrite <- app_assoc.
Qed.

Lemma for_each_invariant {A : Type} (P : World -> Prop)
    (body : A -> stateful World unit) (xs : list A) :
  (forall x w w' r, P w -> body x w = (r, w') -> P w') ->
  forall w w' r, P w -> St.for_each body xs w = (r, w') -> P w'.
Proof.
  intros Hbody. induction xs as [| x xs IH]; intros w w' r Hw; cbn.
  - now intros [= _ <-].
  - unfold St.bind. destruct (body x w) as [[[] | e] w1] eqn:Hb.
    + apply IH. exact (Hbody _ _ _ _ Hw Hb).
    + intros [= _ <-]. exact (Hbody _ _ _ _ Hw Hb).
Qed.

Lemma on_engine_missing {A : Type} (a : nat)
    (f : SceneGraph -> A * SceneGraph) (w w' : World) (r : result A) :
  engines w !! a = None -> St.on_engine (Some a) f w = (r, w') ->
  engines w' !! a = None.
Proof.
  intros Hnone. unfold St.on_engine. rewrite Hnone.
  now intros [= _ <-].
Qed.

(** X27. The collision filters of a successful [Finalize].  On a plant
    that is not a geometry source the engines are untouched.  On a source,
    the plant's engine gets, in this order, one exclusion between the frames
    of the child and of the parent for every joint whose parent is not the
    world and whose two bodies have frames, then the exclusion within all
    visual geometries and the exclusion between all visual and all collision
    geometries; nothing else of the engine changes. *)
Theorem Finalize_collision_filters (scene_graph : SceneGraphPtr)
    (w w' : World) :
  Finalize scene_graph w = (Ok tt, w') ->
  let p := plant w in
  let r := geometry_ p in
  let visual :=
    foldl (fun set body_geometries => GeometrySet_Add body_geometries set)
          GeometrySet_empty (visual_geometries_ r) in
  let collision :=
    foldl (fun set body_geometries => GeometrySet_Add body_geometries set)
          GeometrySet_empty (collision_geometries_ r) in
  let adjacent :=
    omap (fun joint =>
            if bool_decide (parent_body joint = world_index) then None
            else
              match body_index_to_frame_id_ r !! child_body joint,
                    body_index_to_frame_id_ r !! parent_body joint with
              | Some child_id, Some parent_id =>
                  Some (GeometrySet_of_frame child_id,
                        GeometrySet_of_frame parent_id)
              | _, _ => None
              end)
         (tree_joints (model_ p)) in
  (geometry_source_is_registered p = false -> engines w' = engines w) /\
  (geometry_source_is_registered p = true ->
   exists a g g',
     scene_graph = Some a /\ scene_graph_ r = Some a /\
     engines w !! a = Some g /\
     engines w' = <[a := g']> (engines w) /\
     sg_excluded_between g'
     = sg_excluded_between g ++ adjacent ++ [(visual, collision)] /\
     sg_excluded_within g' = sg_excluded_within g ++ [visual] /\
     sg_next_id g' = sg_next_id g /\ sg_sources g' = sg_sources g /\
     sg_frames g' = sg_frames g /\ sg_geometries g' = sg_geometries g).
Proof.
  intros Hrun p r visual collision adjacent.
  unfold Finalize in Hrun.
  apply bind_Ok_inv in Hrun as (p0 & w0 & Hget & Hrun).
  unfold St.gets in Hget. injection Hget as <- <-.
  apply bind_Ok_inv in Hrun as (tree & w1 & Htree & Hrun).
  unfold St.lift in Htree. injection Htree as Htree <-.
  apply MultibodyTree_Finalize_inv in Htree
    as (_ & _ & _ & Hjoints & _).
  apply bind_Ok_inv in Hrun as ([] & w2 & Hmod & Hrun).
  unfold St.on_plant, St.modify in Hmod. cbn [plant engines] in Hmod.
  injection Hmod as <-.
  set (w1 := {| plant := with_model (fun _ => tree) (plant w);
                engines := engines w |}) in *.
  assert (Hgeo1 : geometry_ (plant w1) = r) by reflexivity.
  assert (Hreg1 : geometry_source_is_registered (plant w1)
                  = geometry_source_is_registered p) by reflexivity.
  assert (Hj1 : tree_joints (model_ (plant w1)) = tree_joints (model_ p))
    by exact Hjoints.
  assert (Heng1 : engines w1 = engines w) by reflexivity.
  clearbody w1.
  apply bind_Ok_inv in Hrun as ([] & w3 & Hfilter & Hrun).
  apply bind_Ok_inv in Hrun as ([] & w4 & Hexcl & Hrun).
  assert (Heng' : engines w' = engines w4).
  { unfold St.on_plant in Hrun.
    destruct (FinalizePlantOnly (plant w4)) as [res p5].
    now injection Hrun as _ <-. }
  pose proof (FilterAdjacentBodies_plant _ _ _ _ Hfilter) as Hp3.
  unfold FilterAdjacentBodies, St.bind at 1, St.gets in Hfilter.
  unfold ExcludeCollisionsWithVisualGeometry, St.bind at 1, St.gets in Hexcl.
  rewrite Hp3 in Hexcl. rewrite Hreg1 in Hfilter, Hexcl.
  destruct (geometry_source_is_registered p) eqn:Hreg.
  2: { split; [| discriminate]. intros _.
       unfold St.ret in Hfilter, Hexcl.
       injection Hfilter as <-. injection Hexcl as <-. congruence. }
  split; [discriminate |]. intros _.
  apply bind_Ok_inv in Hfilter as ([] & w0 & Hnull & Hfilter).
  destruct (bool_decide (scene_graph = None)) eqn:Hsg; [discriminate |].
  apply bool_decide_eq_false_1 in Hsg.
  unfold St.ret in Hnull. injection Hnull as <-.
  apply bind_Ok_inv in Hfilter as ([] & w0 & Hsame & Hfilter).
  destruct (bool_decide (scene_graph <> scene_graph_ (geometry_ (plant w1))))
    eqn:Hsame'; [discriminate |].
  apply bool_decide_eq_false_1 in Hsame'.
  unfold St.ret in Hsame. injection Hsame as <-.
  assert (Hptr : scene_graph = scene_graph_ r).
  { rewrite <- Hgeo1. destruct (decide (scene_graph
      = scene_graph_ (geometry_ (plant w1)))); [assumption | contradiction]. }
  destruct scene_graph as [a |]; [| contradiction].
  apply bind_Ok_inv in Hexcl as ([] & w0 & Hnull & Hexcl).
  unfold St.ret in Hnull. injection Hnull as <-.
  cbn zeta in Hexcl.
  apply bind_Ok_inv in Hexcl as ([] & w5 & Hwithin & Hbetween).
  apply on_engine_Ok_inv in Hwithin as (a1 & g3 & Ha1 & Hg3 & _ & ->).
  apply on_engine_Ok_inv in Hbetween as (a2 & g4 & Ha2 & Hg4 & _ & ->).
  injection Ha1 as <-. injection Ha2 as <-.
  cbn [plant engines fst snd] in *.
  rewrite lookup_insert_eq in Hg4. injection Hg4 as <-.
  destruct (engines w1 !! a) as [g |] eqn:Hg.
  2: { exfalso.
       assert (Hnone : engines w3 !! a = None).
       { eapply (for_each_invariant (fun u => engines u !! a = None));
           [| exact Hg | exact Hfilter].
         intros joint u u' res Hu. unfold St.ret.
         destruct (bool_decide (parent_body joint = world_index)).
         { now intros [= _ <-]. }
         destruct (GetBodyFrameIdIfExists (plant w1) (child_body joint));
           [destruct (GetBodyFrameIdIfExists (plant w1) (parent_body joint))
           |]; try (now intros [= _ <-]).
         now apply on_engine_missing. }
       congruence. }
  destruct (filter_adjacent_loop (plant w1) a
              (tree_joints (model_ (plant w1))) w1 g Hg)
    as (w3' & Hloop & _ & Heng3).
  assert (Heq : (@Ok unit tt, w3') = (Ok tt, w3)).
  { etransitivity; [symmetry; exact Hloop | exact Hfilter]. }
  injection Heq as ->. clear Hloop.
  rewrite Heng3 in Hg3. rewrite lookup_insert_eq in Hg3.
  injection Hg3 as <-.
  exists a, g. eexists.
  split; [reflexivity |]. split; [now symmetry |].
  split; [now rewrite <- Heng1 |].
  split.
  { rewrite Heng'. rewrite Heng3, !insert_insert_eq, Heng1. reflexivity. }
  cbn. unfold GetBodyFrameIdIfExists. rewrite Hgeo1, Hj1.
  rewrite <- app_assoc. repeat split.
Qed.

End CollisionFilters.

Section CollectGeometries.
Context `{Collaborators}.

Lemma collect_fold (p : MultibodyPlant) (bodies : list BodyIndex)
    (acc : result GeometrySet) (geometry_set : GeometrySet) :
  foldl (fun acc body =>
           geometry_set ← acc;
           match GetBodyFrameIdIfExists p body with
           | Some frame_id => Ok (GeometrySet_Add_frame frame_id geometry_set)
           | None =>
               if bool_decide (body = world_index) then
                 ids ← vector_index (collision_geometries_ (geometry_ p)) body
                         "collision_geometries_";
                 Ok (GeometrySet_Add ids geometry_set)
               else Ok geometry_set
           end) acc bodies = Ok geometry_set ->
  exists start,
    acc = Ok start /\
    (forall f, f ∈ set_frames geometry_set <->
       f ∈ set_frames start \/
       exists b, b ∈ bodies /\
                 body_index_to_frame_id_ (geometry_ p) !! b = Some f) /\
    (forall id, id ∈ set_geometries geometry_set <->
       id ∈ set_geometries start \/
       (world_index ∈ bodies /\
        body_index_to_frame_id_ (geometry_ p) !! world_index = None /\
        exists ids,
          collision_geometries_ (geometry_ p) !! world_index = Some ids /\
          id ∈ ids)).
Proof.
  revert acc. induction bodies as [| body bodies IH]; intros acc; cbn [foldl].
  - intros ->. exists geometry_set. split; [reflexivity |].
    split; intros x; split; try tauto.
    + intros [Hx | (b & Hb & _)]; [exact Hx |]. now apply elem_of_nil in Hb.
    + intros [Hx | (Hb & _)]; [exact Hx |]. now apply elem_of_nil in Hb.
  - intros Hrun. apply IH in Hrun as (mid & Hmid & Hframes & Hgeos).
    destruct acc as [start | e]; [| discriminate].
    exists start. split; [reflexivity |]. cbn in Hmid.
    unfold GetBodyFrameIdIfExists in Hmid.
    destruct (body_index_to_frame_id_ (geometry_ p) !! body) as [frame |]
      eqn:Hframe.
    + injection Hmid as <-. cbn in Hframes, Hgeos. split.
      * intros f. rewrite Hframes, elem_of_union, elem_of_singleton.
        split.
        -- intros [[-> | Hf] | (b & Hb & Hbf)].
           ++ right. exists body. split; [left |]. exact Hframe.
           ++ now left.
           ++ right. exists b. split; [now right | exact Hbf].
        -- intros [Hf | (b & Hb & Hbf)]; [now left; right |].
           apply elem_of_cons in Hb as [-> | Hb].
           ++ left. left. congruence.
           ++ right. now exists b.
      * intros id. rewrite Hgeos. split.
        -- intros [Hid | (Hw & Hnone & Hids)]; [now left |].
           right. split; [now right |]. now split.
        -- intros [Hid | (Hw & Hnone & Hids)]; [now left |].
           apply elem_of_cons in Hw as [<- | Hw]; [congruence |].
           right. now repeat split.
    + destruct (bool_decide (body = world_index)) eqn:Hworld.
      * apply bool_decide_eq_true_1 in Hworld. subst body.
        unfold vector_index in Hmid.
        destruct (collision_geometries_ (geometry_ p) !! world_index)
          as [ids |] eqn:Hids; [| discriminate].
        cbn in Hmid. injection Hmid as <-. cbn in Hframes, Hgeos. split.
        -- intros f. rewrite Hframes. split.
           ++ intros [Hf | (b & Hb & Hbf)]; [now left |].
              right. exists b. split; [now right | exact Hbf].
           ++ intros [Hf | (b & Hb & Hbf)]; [now left |].
              apply elem_of_cons in Hb as [-> | Hb]; [congruence |].
              right. now exists b.
        -- intros id. rewrite Hgeos, elem_of_union, elem_of_list_to_set.
           split.
           ++ intros [[Hid | Hid] | (Hw & Hnone & Hrest)].
              ** right. split; [left |]. split; [exact Hframe |].
                 now exists ids.
              ** now left.
              ** right. split; [now right |]. now split.
           ++ intros [Hid | (Hw & Hnone & ids' & Hids' & Hid)];
                [now left; right |].
              left. left. congruence.
      * apply bool_decide_eq_false_1 in Hworld.
        injection Hmid as <-. split.
        -- intros f. rewrite Hframes. split.
           ++ intros [Hf | (b & Hb & Hbf)]; [now left |].
              right. exists b. split; [now right | exact Hbf].
           ++ intros [Hf | (b & Hb & Hbf)]; [now left |].
              apply elem_of_cons in Hb as [-> | Hb]; [congruence |].
              right. now exists b.
        -- intros id. rewrite Hgeos. split.
           ++ intros [Hid | (Hw & Hrest)]; [now left |].
              right. split; [now right | exact Hrest].
           ++ intros [Hid | (Hw & Hrest)]; [now left |].
              apply elem_of_cons in Hw as [Hw | Hw]; [congruence |].
              right. now split.
Qed.

(** X28. [CollectRegisteredGeometries] returns the frames of the listed
    bodies that have a registered frame, and no other frame.  It returns
    geometry identifiers only for the world body: its collision geometries,
    when the world is listed and has no frame; the geometries of a body
    without frame other than the world, and the visual geometries of the
    world, are not collected. *)
Theorem CollectRegisteredGeometries_contents (p : MultibodyPlant)
    (bodies : list BodyIndex) (geometry_set : GeometrySet) :
  CollectRegisteredGeometries p bodies = Ok geometry_set ->
  is_finalized p = true /\ geometry_source_is_registered p = true /\
  (forall f, f ∈ set_frames geometry_set <->
     exists b, b ∈ bodies /\
               body_index_to_frame_id_ (geometry_ p) !! b = Some f) /\
  (forall id, id ∈ set_geometries geometry_set <->
     world_index ∈ bodies /\
     body_index_to_frame_id_ (geometry_ p) !! world_index = None /\
     exists ids,
       collision_geometries_ (geometry_ p) !! world_index = Some ids /\
       id ∈ ids).
Proof.
  unfold CollectRegisteredGeometries. intros Hrun.
  apply bind_result_inv in Hrun as ([] & Hf & Hrun).
  apply bind_result_inv in Hrun as ([] & Hreg & Hrun).
  split.
  { unfold ThrowIfNotFinalized in Hf.
    now destruct (is_finalized p). }
  split.
  { unfold DRAKE_THROW_UNLESS in Hreg.
    now destruct (geometry_source_is_registered p). }
  apply collect_fold in Hrun as (start & Hstart & Hframes & Hgeos).
  injection Hstart as <-. cbn in Hframes, Hgeos. split.
  - intros f. rewrite Hframes. split; [| now right].
    intros [Hf' | Hex]; [| exact Hex]. now apply elem_of_empty in Hf'.
  - intros id. rewrite Hgeos. split; [| now right].
    intros [Hid | Hex]; [| exact Hex]. now apply elem_of_empty in Hid.
Qed.

End CollectGeometries.

Section OutputsAfterUpdate.
Context `{Collaborators}.

(** A discrete update returns the plant it was given, but for the solver
    and the contact results. *)
Lemma DoCalcDiscreteVariableUpdates_plant (p : MultibodyPlant)
    (context0 : Context) (x_next : VectorX) (p' : MultibodyPlant) :
  DoCalcDiscreteVariableUpdates p context0 = Ok (x_next, p') ->
  p' = with_contact_results (contact_results_ p')
         (with_solver (implicit_stribeck_solver_ p') p).
Proof.
  unfold DoCalcDiscreteVariableUpdates. intros Hrun.
  apply bind_result_inv in Hrun as ([] & _ & Hrun).
  apply bind_result_inv in Hrun as ([] & _ & Hrun).
  cbn zeta in Hrun.
  apply bind_result_inv in Hrun as (x0 & Hx0 & Hrun).
  apply bind_result_inv in Hrun as (forces_actuated & Hact & Hrun).
  apply bind_result_inv in Hrun as (point_pairs0 & Hpairs & Hrun).
  destruct (CalcInverseDynamics _ _ _ _ _ _ _) as [F_out minus_tau] eqn:Hid
    in Hrun.
  apply bind_result_inv in Hrun as ([[Jn Jt] R_WC_set] & HJ & Hrun).
  apply bind_result_inv in Hrun as (combined & Hcomb & Hrun).
  apply bind_result_inv in Hrun as (sv0 & Hsv0 & Hrun).
  apply bind_result_inv in Hrun as ([info sv] & Hsolve & Hrun).
  apply bind_result_inv in Hrun as ([] & Hinfo & Hrun).
  apply bind_result_inv in Hrun as (contact_results & _ & Hrun).
  injection Hrun as <- <-. reflexivity.
Qed.

(** X29. After a discrete update of a finalized discrete plant,
    [CopyGeneralizedContactForcesOut] returns, whatever context it is
    given, the model instance's part of the generalized contact forces of
    the solution the solver found in that update, the one whose velocities
    end the next state; [CalcContactResultsOutput] returns the stored
    contact results. *)
Theorem outputs_after_discrete_update (p : MultibodyPlant)
    (context0 : Context) (x_next : VectorX) (p' : MultibodyPlant) :
  is_finalized p = true -> is_discrete p = true ->
  DoCalcDiscreteVariableUpdates p context0 = Ok (x_next, p') ->
  exists sv q_next,
    implicit_stribeck_solver_ p' = Some sv /\
    x_next = q_next ++ get_generalized_velocities (solver_solution sv) /\
    (forall model_instance context,
       CopyGeneralizedContactForcesOut p' model_instance context
       = Ok (get_velocities_from_array (model_ p) model_instance
               (get_generalized_contact_forces (solver_solution sv)))) /\
    (forall context,
       CalcContactResultsOutput p' context = contact_results_ p').
Proof.
  intros Hf Hd Hrun.
  pose proof (DoCalcDiscreteVariableUpdates_plant _ _ _ _ Hrun) as Hp'.
  destruct (DoCalcDiscreteVariableUpdates_inv p context0 x_next p' Hrun)
    as (x0 & forces_actuated & point_pairs0 & combined & sv0 & sv & data &
        _ & _ & _ & _ & _ & Hsv & _ & _ & _ & _ & _ & _ & Hnext).
  exists sv. eexists. split; [exact Hsv |]. split; [exact Hnext |].
  split; [| reflexivity].
  intros model_instance context. unfold CopyGeneralizedContactForcesOut.
  assert (Hm : model_ p' = model_ p) by (rewrite Hp'; reflexivity).
  assert (Ht : time_step_ p' = time_step_ p) by (rewrite Hp'; reflexivity).
  rewrite ThrowIfNotFinalized_finalized
    by (unfold is_finalized in *; now rewrite Hm).
  assert (Hd' : is_discrete p' = true).
  { unfold is_discrete in *. now rewrite Ht. }
  rewrite Hd', Hsv, Hm. reflexivity.
Qed.

End OutputsAfterUpdate.

Section FurtherExamples.
#[local] Existing Instance Example.collaborators.

Lemma example_collected :
  exists geometry_set,
    CollectRegisteredGeometries (Example.finalized_plant 0 1 1)
      [0%nat; 1%nat]
    = Ok geometry_set.
Proof. eexists. reflexivity. Qed.

Lemma CollectRegisteredGeometries_contents_witness :
  exists geometry_set,
    CollectRegisteredGeometries (Example.finalized_plant 0 1 1)
      [0%nat; 1%nat]
    = Ok geometry_set /\
    1%nat ∈ set_frames geometry_set /\
    ~ (2%nat ∈ set_frames geometry_set) /\
    10%nat ∈ set_geometries geometry_set /\
    ~ (11%nat ∈ set_geometries geometry_set).
Proof.
  destruct example_collected as (geometry_set & Hrun).
  exists geometry_set. split; [exact Hrun |].
  destruct (CollectRegisteredGeometries_contents _ _ _ Hrun)
    as (_ & _ & Hframes & Hgeos).
  split; [| split; [| split]].
  - apply Hframes. exists 1%nat. split; [| reflexivity].
    apply elem_of_cons. right. apply elem_of_cons. now left.
  - intros Hin. apply Hframes in Hin as (b & Hb & Hbf).
    apply elem_of_cons in Hb as [-> | Hb]; [discriminate |].
    apply elem_of_cons in Hb as [-> | Hb]; [discriminate |].
    now apply elem_of_nil in Hb.
  - apply Hgeos. split; [apply elem_of_cons; now left |].
    split; [reflexivity |]. exists [10%nat]. split; [reflexivity |].
    apply elem_of_cons. now left.
  - intros Hin. apply Hgeos in Hin as (_ & _ & ids & Hids & Hid).
    cbn in Hids. injection Hids as <-.
    apply elem_of_cons in Hid as [Hid | Hid]; [discriminate |].
    now apply elem_of_nil in Hid.
Defined.

Lemma Finalize_collision_filters_witness :
  exists w' g',
    Finalize (Some 0%nat) (example_world (1 / 1000)) = (Ok tt, w') /\
    engines w' !! 0%nat = Some g' /\
    sg_excluded_within g'
    = [foldl (fun set ids => GeometrySet_Add ids set) GeometrySet_empty
         [[]; []; []]] /\
    sg_excluded_between g'
    = [(foldl (fun set ids => GeometrySet_Add ids set) GeometrySet_empty
          [[]; []; []],
        foldl (fun set ids => GeometrySet_Add ids set) GeometrySet_empty
          [[10%nat]; [11%nat]; [12%nat]])] /\
    sg_geometries g' = sg_geometries example_engine.
Proof.
  destruct (example_finalize (1 / 1000)) as (w' & Hrun).
  destruct (Finalize_collision_filters _ _ w' Hrun) as (_ & Hreg).
  destruct (Hreg eq_refl)
    as (a & g & g' & Ha & _ & Hg & Heng & Hbetween & Hwithin & _ & _ & _ &
        Hgeos).
  injection Ha as <-.
  unfold example_world in Hg. cbn [engines] in Hg.
  rewrite lookup_insert_eq in Hg. injection Hg as <-.
  exists w', g'. split; [exact Hrun |].
  split; [rewrite Heng; apply lookup_insert_eq |].
  split; [exact Hwithin |]. split; [exact Hbetween | exact Hgeos].
Defined.

Lemma outputs_after_discrete_update_witness :
  exists x_next p' sv,
    DoCalcDiscreteVariableUpdates
      (Example.finalized_plant (1 / 1000) 1000 (1 / 10))
      (Example.context_with ([1; 2] ++ [-1; 0]) true [Example.ball_on_ground])
    = Ok (x_next, p') /\
    implicit_stribeck_solver_ p' = Some sv /\
    forall context,
      CopyGeneralizedContactForcesOut p' 1%nat context
      = Ok (get_generalized_contact_forces (solver_solution sv)).
Proof.
  destruct example_discrete_step as (x_next & p' & Hrun).
  assert (Hd : is_discrete (Example.finalized_plant (1 / 1000) 1000 (1 / 10))
               = true).
  { apply bool_decide_eq_true_2. cbn. lra. }
  destruct (outputs_after_discrete_update
              (Example.finalized_plant (1 / 1000) 1000 (1 / 10)) _ _ _
              eq_refl Hd Hrun)
    as (sv & q_next & Hsv & _ & Hout & _).
  exists x_next, p', sv. split; [exact Hrun |]. split; [exact Hsv |].
  intros context. exact (Hout 1%nat context).
Defined.

End FurtherExamples.

Section Construction.
Context `{Collaborators}.

(** X30. The constructor throws on a negative time step.  Otherwise, when
    a new tree is not finalized, it returns a plant that is not finalized,
    is not a geometry source and has one empty list of visual and of
    collision geometries, those of the world; [Finalize] succeeds on it with
    any pointer, and the finalized plant keeps the time step, is discrete
    exactly when the time step is positive, has no solver when it is
    continuous, and keeps its contact parameters unset. *)
Theorem MultibodyPlant_new_then_Finalize (time_step : R)
    (scene_graph : SceneGraphPtr) (E : gmap nat SceneGraph) :
  topology_is_valid make_MultibodyTree = false ->
  (time_step < 0 ->
   MultibodyPlant_new time_step
   = Raise (throw_unless "MultibodyPlant" "time_step >= 0")) /\
  (0 <= time_step ->
   exists p w',
     MultibodyPlant_new time_step = Ok p /\
     is_finalized p = false /\
     geometry_source_is_registered p = false /\
     num_collision_geometries p = 0%nat /\
     visual_geometries_ (geometry_ p) = [[]] /\
     collision_geometries_ (geometry_ p) = [[]] /\
     Finalize scene_graph {| plant := p; engines := E |} = (Ok tt, w') /\
     is_finalized (plant w') = true /\
     time_step_ (plant w') = time_step /\
     (is_discrete (plant w') = true <-> 0 < time_step) /\
     (is_discrete (plant w') = false -> implicit_stribeck_solver_ (plant w')
                                        = None) /\
     penalty_method_contact_parameters_ (plant w') = Penalty.unset /\
     stribeck_model_ (plant w') = Stribeck.unset).
Proof.
  intros Hnew. split.
  - intros Hneg. unfold MultibodyPlant_new.
    rewrite bool_decide_eq_false_2 by lra. reflexivity.
  - intros Hpos. unfold MultibodyPlant_new.
    rewrite bool_decide_eq_true_2 by lra. cbn [DRAKE_THROW_UNLESS].
    eexists.
    match goal with
    | |- exists w', (_ ← Ok tt; Ok ?q) = _ /\ _ =>
        set (p := q);
        destruct (Finalize_runs scene_graph {| plant := p; engines := E |})
          as (w' & Hrun)
    end.
    + exact Hnew.
    + intros Hreg. discriminate.
    + exists w'. split; [reflexivity |].
      destruct (Finalize_wires _ _ _ Hrun)
        as (_ & Hf & Ht & _ & _ & _ & _ & _ & _ & _ & _ & _ & _ & _ & _ & _ &
            _ & Hsv & Hpen & Hstr & _).
      cbn [plant] in Ht, Hsv, Hpen, Hstr.
      split; [exact Hnew |]. split; [reflexivity |].
      split; [reflexivity |]. split; [reflexivity |].
      split; [reflexivity |]. split; [exact Hrun |].
      split; [exact Hf |]. split; [exact Ht |].
      split.
      { unfold is_discrete. rewrite Ht. cbn [time_step_ p].
        split; intros Hd.
        - apply bool_decide_eq_true_1 in Hd. lra.
        - apply bool_decide_eq_true_2. lra. }
      split; [intros Hd; now rewrite (Hsv Hd) |].
      split; [apply Hpen; now left | apply Hstr; now left].
Qed.

End Construction.

Section ConstructionExamples.
#[local] Existing Instance Example.collaborators.

Lemma MultibodyPlant_new_then_Finalize_witness :
  exists p w',
    MultibodyPlant_new 0 = Ok p /\
    Finalize None {| plant := p; engines := ∅ |} = (Ok tt, w') /\
    is_discrete (plant w') = false /\
    implicit_stribeck_solver_ (plant w') = None.
Proof.
  destruct (@MultibodyPlant_new_then_Finalize Example.collaborators 0 None ∅
              eq_refl) as (_ & Hok).
  destruct (Hok ltac:(lra))
    as (p & w' & Hnew & _ & _ & _ & _ & _ & Hrun & _ & _ & Hd & Hsv & _).
  exists p, w'. split; [exact Hnew |]. split; [exact Hrun |].
  assert (Hc : is_discrete (plant w') = false).
  { destruct (is_discrete (plant w')); [| reflexivity].
    destruct Hd as (Hd & _). specialize (Hd eq_refl). lra. }
  split; [exact Hc | exact (Hsv Hc)].
Defined.

End ConstructionExamples.
